(** * DoFTools and MatrixFree: a shallow embedding

    This development embeds the sparsity-pattern builders, the hanging-node
    and intergrid constraint derivers of [DoFTools] (dof_tools.cc) and the
    scratch-pad pool and loop worker of [MatrixFree] (matrix_free.h), and
    proves properties of them.

    Conventions.
    - [unsigned int] DoF indices are [Z]; loop counters and positions in
      [std::vector]s are [nat].
    - [double] values are kept abstract: the code only ever copies them,
      compares them with the literals 0 and 1 and (in one checked-build
      assertion) adds them, so the embedding is parametric in a type [W]
      with exactly these observations.
    - [Assert] is compiled away in release builds; the embedding carries the
      build mode as the boolean [DEBUG].  [AssertThrow] is always active.
    - Code that mutates objects is written in a state-and-exception monad
      [Comp S]; a raised exception leaves the state as it was at the throw. *)

From Stdlib Require Import ZArith List Bool Lia QArith.
From stdpp Require Import base gmap sets list strings.

Local Open Scope Z_scope.
Local Open Scope nat_scope.

(** ** Exceptions and the computation monad *)

Inductive Exc : Type :=
| ExcInternalError
| ExcDimensionMismatch (a b : Z)
| ExcInvalidBoundaryIndicator
| ExcInvalidComponent (a b : nat)
| ExcFiniteElementsDontMatch
| ExcGridNotCoarser
| ExcNotImplemented
| ExcNotInitialized
| ExcIndexRange (i lo hi : nat)
| ExcMessage (msg : string)
| ExcWrongSize (a b : Z).

Inductive Outcome (A : Type) : Type :=
| Done (a : A)
| Raised (e : Exc).
Arguments Done {A} a.
Arguments Raised {A} e.

Definition Comp (S A : Type) : Type := S -> Outcome A * S.

Definition ret {S A} (a : A) : Comp S A := fun s => (Done a, s).

Definition bind {S A B} (m : Comp S A) (k : A -> Comp S B) : Comp S B :=
  fun s => match m s with
           | (Done a, s') => k a s'
           | (Raised e, s') => (Raised e, s')
           end.

Definition throw {S A} (e : Exc) : Comp S A := fun s => (Raised e, s).
Definition get {S} : Comp S S := fun s => (Done s, s).
Definition modify {S} (f : S -> S) : Comp S unit := fun s => (Done tt, f s).

Notation "'do' x <- m ; k" := (bind m (fun x => k))
  (at level 10, x name, m at level 100, k at level 200).
Notation "m ;; k" := (bind m (fun _ => k))
  (at level 100, k at level 200, right associativity).

(** [for (x : l) body] *)
Fixpoint for_each {S X} (l : list X) (body : X -> Comp S unit) : Comp S unit :=
  match l with
  | [] => ret tt
  | x :: l' => body x ;; for_each l' body
  end.

(** [Assert (cond, exc)]: checked only when [DEBUG]. *)
Definition Assert {S} (DEBUG : bool) (cond : bool) (e : Exc) : Comp S unit :=
  if DEBUG && negb cond then throw e else ret tt.

(** [AssertThrow (cond, exc)]: checked in every build. *)
Definition AssertThrow {S} (cond : bool) (e : Exc) : Comp S unit :=
  if cond then ret tt else throw e.

(** Run a computation on a local object [l0] (a local variable of the
    caller) and hand back the final value of that object. *)
Definition run_local {S L A} (m : Comp L A) (l0 : L) : Comp S L :=
  fun s => match m l0 with
           | (Done _, l) => (Done l, s)
           | (Raised e, _) => (Raised e, s)
           end.

Definition state_of {S A} (r : Outcome A * S) : S := snd r.
Definition outcome_of {S A} (r : Outcome A * S) : Outcome A := fst r.

(** ** Collaborators consumed through narrow interfaces *)

(** [v[i]] on a [std::vector<unsigned int>] or [std::vector<int>]: every read
    in the embedded code is at a position below the size of the vector. *)
Definition at_ (v : list Z) (i : nat) : Z := nth i v 0%Z.

(** The observations the code makes on [double] values. *)
Class Weight (W : Type) : Type := {
  w_zero : W;                 (* the literal 0 *)
  w_one : W;                  (* the literal 1 *)
  w_eqb : W -> W -> bool;     (* operator== *)
  w_add : W -> W -> W         (* operator+ *)
}.

(** Modelled from the spec: the class [SparsityPattern] (lac/sparsity_pattern.h)
    is not part of the sources at hand.  It is "a boolean relation over
    DoF-index x DoF-index" with a row and a column count, and [add (i, j)]
    "idempotently records that DoF i may couple with DoF j". *)
Record SparsityPattern : Type := {
  n_rows : Z;
  n_cols : Z;
  entries : gset (Z * Z)
}.

Definition add (i j : Z) (sp : SparsityPattern) : SparsityPattern :=
  {| n_rows := n_rows sp; n_cols := n_cols sp;
     entries := {[ (i, j) ]} ∪ entries sp |}.

(** Modelled from the spec: [FullMatrix<double>] (lac/full_matrix.h) is not
    part of the sources at hand: [m()] rows, [n()] columns, element access
    [(i, j)].  Entries outside the [m() x n()] block carry no meaning. *)
Record FullMatrix (W : Type) : Type := {
  fm_m : nat;
  fm_n : nat;
  el : nat -> nat -> W
}.
Arguments fm_m {W} _.
Arguments fm_n {W} _.
Arguments el {W} _ _ _.

(** [A(r, c) = v] *)
Definition fm_set {W} (r c : nat) (v : W) (A : FullMatrix W) : FullMatrix W :=
  {| fm_m := fm_m A; fm_n := fm_n A;
     el := fun i j => if decide (i = r ∧ j = c) then v else el A i j |}.

(** Modelled from the spec: [ConstraintMatrix] (dofs/dof_constraints.h) is not
    part of the sources at hand; it is filled through an "add-line/add-entry
    API" and is "append-only during build".  The embedding keeps the calls
    made on it, in order. *)
Inductive ConstraintCall (W : Type) : Type :=
| add_line (line : Z)
| add_entry (line column : Z) (value : W).
Arguments add_line {W} line.
Arguments add_entry {W} line column value.

Definition ConstraintMatrix (W : Type) : Type := list (ConstraintCall W).

(** Missing from the sources at hand: [GeometryInfo<dim>] (its constants and
    the table [child_cell_on_face]); taken as a parameter. *)
Record GeometryInfo : Type := {
  faces_per_cell : nat;
  subfaces_per_face : nat;
  child_cell_on_face : nat -> nat -> nat
}.

Module DoFTools.

Section WithWeights.
Context {W : Type} `{Weight W}.

(** The part of [FiniteElement<dim>] read by [DoFTools]. *)
Record FiniteElement : Type := {
  dofs_per_vertex : nat;
  dofs_per_line : nat;
  dofs_per_face : nat;
  dofs_per_cell : nat;
  n_components : nat;
  (** [system_to_component_index(i).first] *)
  system_to_component_index_first : nat -> nat;
  component_to_system_index : nat -> nat -> nat;
  (** [base_element(component_to_base(c))], named by an identifier, and its
      [dofs_per_cell] *)
  base_element : nat -> nat;
  base_element_dofs_per_cell : nat -> nat;
  constraints : FullMatrix W
}.

(** A cell of the triangulation together with its DoF accessor.  Cells, and
    faces below, are referred to by their index in the handler's store. *)
Record CellAccessor : Type := {
  level : nat;
  has_children : bool;
  (** the vector filled by [get_dof_indices] *)
  dof_indices : list Z;
  (** [face(f)]: index of the face object *)
  face : nat -> nat;
  at_boundary : nat -> bool;
  (** [neighbor(f)], [child(c)]: indices of cells *)
  neighbor : nat -> nat;
  neighbor_of_neighbor : nat -> nat;
  child : nat -> nat;
  (** [set_dof_values_by_interpolation (local_values, values)]: the global
      vector [values] after the call *)
  set_dof_values_by_interpolation : list W -> list W -> list W
}.

(** A face (a line in 2d) with its DoF accessor. *)
Record FaceAccessor : Type := {
  face_at_boundary : bool;
  boundary_indicator : Z;
  face_dof_indices : list Z;
  face_has_children : bool;
  face_child : nat -> nat;
  vertex_dof_index : nat -> nat -> Z;
  dof_index : nat -> Z
}.

Record DoFHandler : Type := {
  get_fe : FiniteElement;
  n_dofs : Z;
  n_boundary_dofs : Z;
  (** [n_boundary_dofs(boundary_indicators)] *)
  n_boundary_dofs_on : list Z -> Z;
  invalid_dof_index : Z;
  (** the cell store, and the cells visited from [begin_active()] to [end()] *)
  cell : nat -> CellAccessor;
  active_cells : list nat;
  (** the face store; the faces visited from [begin_active_face()] to
      [end_face()], and all lines from [begin_line()] to [end_line()] *)
  face_obj : nat -> FaceAccessor;
  active_faces : list nat;
  all_lines : list nat
}.

Variable DEBUG : bool.

(** *** [make_sparsity_pattern (dof, sparsity)] *)
Definition make_sparsity_pattern (dof : DoFHandler) : Comp SparsityPattern unit :=
  let n_dofs := n_dofs dof in
  do sparsity <- get;
  Assert DEBUG (n_rows sparsity =? n_dofs)%Z
         (ExcDimensionMismatch (n_rows sparsity) n_dofs) ;;
  Assert DEBUG (n_cols sparsity =? n_dofs)%Z
         (ExcDimensionMismatch (n_cols sparsity) n_dofs) ;;
  let dofs_per_cell := dofs_per_cell (get_fe dof) in
  for_each (active_cells dof) (fun c =>
    let dofs_on_this_cell := dof_indices (cell dof c) in
    for_each (seq 0 dofs_per_cell) (fun i =>
      for_each (seq 0 dofs_per_cell) (fun j =>
        modify (add (at_ dofs_on_this_cell i) (at_ dofs_on_this_cell j))))).

(** [mask[a][b]] on a [vector<vector<bool> >] *)
Definition mask_at (mask : list (list bool)) (a b : nat) : bool :=
  nth b (nth a mask []) false.

(** *** [make_sparsity_pattern (dof, mask, sparsity)] *)
Definition make_sparsity_pattern_masked (dof : DoFHandler) (mask : list (list bool))
  : Comp SparsityPattern unit :=
  let n_dofs := n_dofs dof in
  let dofs_per_cell := dofs_per_cell (get_fe dof) in
  let n_comp := n_components (get_fe dof) in
  do sparsity <- get;
  Assert DEBUG (n_rows sparsity =? n_dofs)%Z
         (ExcDimensionMismatch (n_rows sparsity) n_dofs) ;;
  Assert DEBUG (n_cols sparsity =? n_dofs)%Z
         (ExcDimensionMismatch (n_cols sparsity) n_dofs) ;;
  Assert DEBUG (length mask =? n_comp)
         (ExcDimensionMismatch (Z.of_nat (length mask)) (Z.of_nat n_comp)) ;;
  for_each (seq 0 (length mask)) (fun i =>
    Assert DEBUG (length (nth i mask []) =? n_comp)
           (ExcDimensionMismatch (Z.of_nat (length (nth i mask [])))
                                 (Z.of_nat n_comp))) ;;
  (* the mask per local dof, built once *)
  let dof_mask (i j : nat) : bool :=
    mask_at mask (system_to_component_index_first (get_fe dof) i)
                 (system_to_component_index_first (get_fe dof) j) in
  for_each (active_cells dof) (fun c =>
    let dofs_on_this_cell := dof_indices (cell dof c) in
    for_each (seq 0 dofs_per_cell) (fun i =>
      for_each (seq 0 dofs_per_cell) (fun j =>
        if dof_mask i j
        then modify (add (at_ dofs_on_this_cell i) (at_ dofs_on_this_cell j))
        else ret tt))).

(** *** [make_boundary_sparsity_pattern], dimension 1 *)
Definition make_boundary_sparsity_pattern_1d
    (dof : DoFHandler) (dof_to_boundary_mapping : list Z)
  : Comp SparsityPattern unit :=
  Assert DEBUG false ExcInternalError.

Definition make_boundary_sparsity_pattern_1d_indicators
    (dof : DoFHandler) (boundary_indicators : list Z)
    (dof_to_boundary_mapping : list Z)
  : Comp SparsityPattern unit :=
  Assert DEBUG false ExcInternalError.

(** [*max_element (v.begin(), v.end())] and [*min_element (...)]; on an empty
    vector the source dereferences [end()], which has no defined value: the
    embedding yields 0 there. *)
Definition max_element (v : list Z) : Z :=
  match v with [] => 0%Z | x :: r => fold_left Z.max r x end.
Definition min_element (v : list Z) : Z :=
  match v with [] => 0%Z | x :: r => fold_left Z.min r x end.

(** [a - b] on [unsigned int] *)
Definition uint_sub (a b : Z) : Z := ((a - b) mod 2 ^ 32)%Z.

(** *** [make_boundary_sparsity_pattern (dof, dof_to_boundary_mapping, sparsity)] *)
Definition make_boundary_sparsity_pattern
    (dof : DoFHandler) (dof_to_boundary_mapping : list Z)
  : Comp SparsityPattern unit :=
  let n_dofs := n_dofs dof in
  do sparsity <- get;
  Assert DEBUG (Z.of_nat (length dof_to_boundary_mapping) =? n_dofs)%Z
         ExcInternalError ;;
  Assert DEBUG (n_rows sparsity =? n_boundary_dofs dof)%Z
         (ExcDimensionMismatch (n_rows sparsity) (n_boundary_dofs dof)) ;;
  Assert DEBUG (n_cols sparsity =? n_boundary_dofs dof)%Z
         (ExcDimensionMismatch (n_cols sparsity) (n_boundary_dofs dof)) ;;
  Assert DEBUG (max_element dof_to_boundary_mapping
                =? uint_sub (n_rows sparsity) 1)%Z
         ExcInternalError ;;
  let dofs_per_face := dofs_per_face (get_fe dof) in
  for_each (active_faces dof) (fun f =>
    if face_at_boundary (face_obj dof f) then
      let dofs_on_this_face := face_dof_indices (face_obj dof f) in
      (* make sure all dof indices have a boundary index *)
      Assert DEBUG (negb (min_element dofs_on_this_face =? invalid_dof_index dof)%Z)
             ExcInternalError ;;
      for_each (seq 0 dofs_per_face) (fun i =>
        for_each (seq 0 dofs_per_face) (fun j =>
          modify (add (at_ dof_to_boundary_mapping (Z.to_nat (at_ dofs_on_this_face i)))
                      (at_ dof_to_boundary_mapping (Z.to_nat (at_ dofs_on_this_face j))))))
    else ret tt).

(** *** [make_boundary_sparsity_pattern (dof, boundary_indicators,
        dof_to_boundary_mapping, sparsity)]

    [boundary_indicators] is a [FunctionMap]; only its keys are read. *)
Definition make_boundary_sparsity_pattern_indicators
    (dof : DoFHandler) (boundary_indicators : list Z)
    (dof_to_boundary_mapping : list Z)
  : Comp SparsityPattern unit :=
  let n_dofs := n_dofs dof in
  do sparsity <- get;
  Assert DEBUG (Z.of_nat (length dof_to_boundary_mapping) =? n_dofs)%Z
         ExcInternalError ;;
  Assert DEBUG (negb (bool_decide (255%Z ∈ boundary_indicators)))
         ExcInvalidBoundaryIndicator ;;
  Assert DEBUG (n_rows sparsity =? n_boundary_dofs_on dof boundary_indicators)%Z
         (ExcDimensionMismatch (n_rows sparsity)
                               (n_boundary_dofs_on dof boundary_indicators)) ;;
  Assert DEBUG (n_cols sparsity =? n_boundary_dofs_on dof boundary_indicators)%Z
         (ExcDimensionMismatch (n_cols sparsity)
                               (n_boundary_dofs_on dof boundary_indicators)) ;;
  (if DEBUG then
     let max_element :=
       fold_left (fun max_element i =>
                    if negb (i =? invalid_dof_index dof)%Z && (max_element <? i)%Z
                    then i else max_element)
                 dof_to_boundary_mapping 0%Z in
     Assert DEBUG (max_element =? uint_sub (n_rows sparsity) 1)%Z ExcInternalError
   else ret tt) ;;
  let dofs_per_face := dofs_per_face (get_fe dof) in
  for_each (active_faces dof) (fun f =>
    if bool_decide (boundary_indicator (face_obj dof f) ∈ boundary_indicators) then
      let dofs_on_this_face := face_dof_indices (face_obj dof f) in
      Assert DEBUG (negb (min_element dofs_on_this_face =? invalid_dof_index dof)%Z)
             ExcInternalError ;;
      for_each (seq 0 dofs_per_face) (fun i =>
        for_each (seq 0 dofs_per_face) (fun j =>
          modify (add (at_ dof_to_boundary_mapping (Z.to_nat (at_ dofs_on_this_face i)))
                      (at_ dof_to_boundary_mapping (Z.to_nat (at_ dofs_on_this_face j))))))
    else ret tt).

(** *** [make_flux_sparsity_pattern (dof, sparsity)]

    The routine writes to the sparsity pattern and to the user flags of the
    triangulation's faces.  [coupled] is a ghost record kept for the proofs:
    one item (this cell, other cell, flagged face) per pair of neighbouring
    cells whose couplings were inserted; the code does not read it. *)
Record FluxState : Type := {
  sparsity : SparsityPattern;
  user_flags : gset nat;
  coupled : list (nat * nat * nat)
}.

Definition sparsity_add (i j : Z) (st : FluxState) : FluxState :=
  {| sparsity := add i j (sparsity st);
     user_flags := user_flags st; coupled := coupled st |}.

Definition clear_user_flags (st : FluxState) : FluxState :=
  {| sparsity := sparsity st; user_flags := ∅; coupled := coupled st |}.

(** [other->face(f)->set_user_flag ()], at the end of the block that couples
    [this] with [other] *)
Definition set_user_flag (this other fc : nat) (st : FluxState) : FluxState :=
  {| sparsity := sparsity st;
     user_flags := {[ fc ]} ∪ user_flags st;
     coupled := coupled st ++ [(this, other, fc)] |}.

Definition user_flag_set (fc : nat) (st : FluxState) : bool :=
  bool_decide (fc ∈ user_flags st).

(** the two nested loops that couple this cell with the other one *)
Definition couple_cells (total_dofs : nat)
    (dofs_on_this_cell dofs_on_other_cell : list Z) : Comp FluxState unit :=
  for_each (seq 0 total_dofs) (fun i =>
    for_each (seq 0 total_dofs) (fun j =>
      modify (sparsity_add (at_ dofs_on_this_cell i) (at_ dofs_on_other_cell j)) ;;
      modify (sparsity_add (at_ dofs_on_other_cell i) (at_ dofs_on_this_cell j)))).

Definition flux_face (geo : GeometryInfo) (dof : DoFHandler)
    (total_dofs : nat) (c : nat) (f : nat) : Comp FluxState unit :=
  let this := cell dof c in
  let dofs_on_this_cell := dof_indices this in
  let cell_face := face this f in
  do st <- get;
  if user_flag_set cell_face st then ret tt            (* continue *)
  else if negb (at_boundary this f) then
    let nb := neighbor this f in
    (* refinement edges are taken care of by coarser cells *)
    if level (cell dof nb) <? level this then ret tt   (* continue *)
    else
      let neighbor_face := neighbor_of_neighbor this f in
      if has_children (cell dof nb) then
        for_each (seq 0 (subfaces_per_face geo)) (fun sub_nr =>
          let sub_neighbor :=
            child (cell dof nb) (child_cell_on_face geo neighbor_face sub_nr) in
          let dofs_on_other_cell := dof_indices (cell dof sub_neighbor) in
          couple_cells total_dofs dofs_on_this_cell dofs_on_other_cell ;;
          modify (set_user_flag c sub_neighbor
                    (face (cell dof sub_neighbor) neighbor_face)))
      else
        let dofs_on_other_cell := dof_indices (cell dof nb) in
        couple_cells total_dofs dofs_on_this_cell dofs_on_other_cell ;;
        modify (set_user_flag c nb (face (cell dof nb) neighbor_face))
  else ret tt.

Definition flux_cell (geo : GeometryInfo) (dof : DoFHandler)
    (total_dofs : nat) (c : nat) : Comp FluxState unit :=
  let dofs_on_this_cell := dof_indices (cell dof c) in
  (* make sparsity pattern for this cell *)
  for_each (seq 0 total_dofs) (fun i =>
    for_each (seq 0 total_dofs) (fun j =>
      modify (sparsity_add (at_ dofs_on_this_cell i) (at_ dofs_on_this_cell j)))) ;;
  (* loop over all interior neighbors *)
  for_each (seq 0 (faces_per_cell geo)) (flux_face geo dof total_dofs c).

Definition make_flux_sparsity_pattern (geo : GeometryInfo) (dof : DoFHandler)
  : Comp FluxState unit :=
  let n_dofs := n_dofs dof in
  do st <- get;
  Assert DEBUG (n_rows (sparsity st) =? n_dofs)%Z
         (ExcDimensionMismatch (n_rows (sparsity st)) n_dofs) ;;
  Assert DEBUG (n_cols (sparsity st) =? n_dofs)%Z
         (ExcDimensionMismatch (n_cols (sparsity st)) n_dofs) ;;
  let total_dofs := dofs_per_cell (get_fe dof) in
  modify clear_user_flags ;;
  for_each (active_cells dof) (flux_cell geo dof total_dofs).


(** *** [make_hanging_node_constraints], dimensions 1 and 2

    The routine writes to the constraint matrix and to the user flags of
    the lines. *)
Record HangingNodeState : Type := {
  constraint_matrix : ConstraintMatrix W;
  line_flags : gset nat
}.

Definition constraints_call (c : ConstraintCall W) (st : HangingNodeState)
  : HangingNodeState :=
  {| constraint_matrix := constraint_matrix st ++ [c];
     line_flags := line_flags st |}.

Definition line_clear_user_flag (l : nat) (st : HangingNodeState) : HangingNodeState :=
  {| constraint_matrix := constraint_matrix st;
     line_flags := line_flags st ∖ {[ l ]} |}.

Definition line_set_user_flag (l : nat) (st : HangingNodeState) : HangingNodeState :=
  {| constraint_matrix := constraint_matrix st;
     line_flags := {[ l ]} ∪ line_flags st |}.

Definition make_hanging_node_constraints_1d (dof_handler : DoFHandler)
  : Comp HangingNodeState unit :=
  (* nothing to be done here *)
  ret tt.

(** the vector [dofs_on_mother] after the two filling loops *)
Definition dofs_on_mother (fe : FiniteElement) (line : FaceAccessor) : list Z :=
  flat_map (fun vertex =>
              map (fun dof => vertex_dof_index line vertex dof)
                  (seq 0 (dofs_per_vertex fe)))
           (seq 0 2)
  ++ map (fun dof => dof_index line dof) (seq 0 (dofs_per_line fe)).

(** the vector [dofs_on_children] after the two filling loops *)
Definition dofs_on_children (dof_handler : DoFHandler) (line : FaceAccessor)
  : list Z :=
  let fe := get_fe dof_handler in
  map (fun dof =>
         vertex_dof_index (face_obj dof_handler (face_child line 0)) 1 dof)
      (seq 0 (dofs_per_vertex fe))
  ++ flat_map (fun child =>
                 map (fun dof =>
                        dof_index (face_obj dof_handler (face_child line child)) dof)
                     (seq 0 (dofs_per_line fe)))
              (seq 0 2).

(** the body of the loop over all lines *)
Definition constrain_line (dof_handler : DoFHandler) (l : nat)
  : Comp HangingNodeState unit :=
  let fe := get_fe dof_handler in
  do st <- get;
  (* if dofs on this line are subject to constraints *)
  if bool_decide (l ∈ line_flags st) then
    let line := face_obj dof_handler l in
    Assert DEBUG (2 * dofs_per_vertex fe + dofs_per_line fe
                  =? fm_n (constraints fe))
           (ExcDimensionMismatch
              (Z.of_nat (2 * dofs_per_vertex fe + dofs_per_line fe))
              (Z.of_nat (fm_n (constraints fe)))) ;;
    Assert DEBUG (dofs_per_vertex fe + 2 * dofs_per_line fe
                  =? fm_m (constraints fe))
           (ExcDimensionMismatch
              (Z.of_nat (3 * dofs_per_vertex fe + 2 * dofs_per_line fe))
              (Z.of_nat (fm_m (constraints fe)))) ;;
    let dofs_on_mother := dofs_on_mother fe line in
    let dofs_on_children := dofs_on_children dof_handler line in
    (* for each row in the constraint matrix for this line *)
    for_each (seq 0 (length dofs_on_children)) (fun row =>
      modify (constraints_call (add_line (at_ dofs_on_children row))) ;;
      for_each (seq 0 (length dofs_on_mother)) (fun i =>
        modify (constraints_call
                  (add_entry (at_ dofs_on_children row)
                             (at_ dofs_on_mother i)
                             (el (constraints fe) row i)))))
  else ret tt.

Definition make_hanging_node_constraints_2d
    (geo : GeometryInfo) (dof_handler : DoFHandler)
  : Comp HangingNodeState unit :=
  for_each (all_lines dof_handler) (fun line =>
    modify (line_clear_user_flag line)) ;;
  (* mark all faces which are subject to constraints *)
  for_each (active_cells dof_handler) (fun c =>
    for_each (seq 0 (faces_per_cell geo)) (fun f =>
      let cf := face (cell dof_handler c) f in
      if face_has_children (face_obj dof_handler cf)
      then modify (line_set_user_flag cf)
      else ret tt)) ;;
  (* loop over all lines; only on lines there can be constraints *)
  for_each (all_lines dof_handler) (constrain_line dof_handler).

(** *** [compute_intergrid_constraints] *)

(** a loop [for (; i < n; ++i) if (p (i)) break;] started at [i = start]
    with [count = n - start] positions to go: the value of [i] after it *)
Fixpoint scan_until (p : nat -> bool) (start count : nat) : nat :=
  match count with
  | 0 => start
  | S k => if p start then start else scan_until p (S start) k
  end.

(** [v(i)] on a [Vector<double>] *)
Definition vat (v : list W) (i : nat) : W := nth i v w_zero.

(** the number of fine-grid DoFs of the selected component *)
Definition count_parameters_on_fine_grid
    (fine_grid : DoFHandler) (fine_component : nat) : nat :=
  let fine_fe := get_fe fine_grid in
  let dof_is_interesting :=
    fold_left (fun flags c =>
      let local_dof_indices := dof_indices (cell fine_grid c) in
      fold_left (fun flags i =>
        if system_to_component_index_first fine_fe i =? fine_component
        then <[Z.to_nat (at_ local_dof_indices i) := true]> flags
        else flags)
        (seq 0 (dofs_per_cell fine_fe)) flags)
      (active_cells fine_grid)
      (replicate (Z.to_nat (n_dofs fine_grid)) false) in
  length (filter (fun b => b = true) dof_is_interesting).

(** the locals [weight_mapping] and [next_free_index] of the block that
    numbers the parameter DoFs of the fine grid *)
Definition number_parameter_dofs
    (fine_grid : DoFHandler) (fine_component : nat)
  : Comp (list Z * nat) unit :=
  let fine_fe := get_fe fine_grid in
  for_each (active_cells fine_grid) (fun c =>
    let local_dof_indices := dof_indices (cell fine_grid c) in
    for_each (seq 0 (dofs_per_cell fine_fe)) (fun i =>
      do st <- get;
      let weight_mapping := fst st in
      let next_free_index := snd st in
      if (system_to_component_index_first fine_fe i =? fine_component)
         && (at_ weight_mapping (Z.to_nat (at_ local_dof_indices i)) =? -1)%Z
      then modify (fun _ =>
             (<[Z.to_nat (at_ local_dof_indices i) := Z.of_nat next_free_index]>
                weight_mapping,
              S next_free_index))
      else ret tt)).

(** the loop over the coarse cells that fills [weights] *)
Definition compute_weights
    (coarse_grid : DoFHandler) (coarse_component : nat)
    (fine_grid : DoFHandler) (coarse_to_fine_grid_map : nat -> nat)
    (parameter_dofs : list (list W)) (weight_mapping : list Z)
  : Comp (FullMatrix W) unit :=
  let coarse_fe := get_fe coarse_grid in
  let n_fine_dofs := Z.to_nat (n_dofs fine_grid) in
  for_each (active_cells coarse_grid) (fun c =>
    let parameter_dof_indices := dof_indices (cell coarse_grid c) in
    for_each (seq 0 (dofs_per_cell coarse_fe)) (fun local_parameter_dof =>
      if system_to_component_index_first coarse_fe local_parameter_dof
         =? coarse_component
      then
        (* [clear ()], then distribute the representation of the local dof *)
        let global_parameter_representation :=
          set_dof_values_by_interpolation
            (cell fine_grid (coarse_to_fine_grid_map c))
            (nth local_parameter_dof parameter_dofs [])
            (replicate n_fine_dofs w_zero) in
        for_each (seq 0 (length global_parameter_representation)) (fun i =>
          if negb (at_ weight_mapping i =? -1)%Z then
            (* only overwrite old value if not by zero *)
            if negb (w_eqb (vat global_parameter_representation i) w_zero) then
              let wi := Z.to_nat (at_ parameter_dof_indices local_parameter_dof) in
              let wj := Z.to_nat (at_ weight_mapping i) in
              modify (fm_set wi wj (vat global_parameter_representation i))
            else ret tt
          else
            Assert DEBUG (w_eqb (vat global_parameter_representation i) w_zero)
                   ExcInternalError)
      else ret tt)).

(** the checked-build test that every column of [weights] sums to one *)
Definition check_column_sums {S} (coarse_fe : FiniteElement)
    (weights : FullMatrix W) : Comp S unit :=
  if DEBUG then
    for_each (seq 0 (fm_n weights)) (fun col =>
      let sum := fold_left (fun sum row => w_add sum (el weights row col))
                           (seq 0 (fm_m weights)) w_zero in
      Assert DEBUG (w_eqb sum w_one
                    || ((1 <? n_components coarse_fe) && w_eqb sum w_zero))
             ExcInternalError)
  else ret tt.

(** the loop that fills the local [representants] *)
Definition find_representants
    (weights : FullMatrix W) (weight_mapping : list Z) : Comp (list Z) unit :=
  for_each (seq 0 (fm_m weights)) (fun parameter_dof =>
    let column :=
      scan_until (fun column => w_eqb (el weights parameter_dof column) w_one)
                 0 (fm_n weights) in
    Assert DEBUG (column <? fm_n weights) ExcInternalError ;;
    let global_dof :=
      scan_until (fun global_dof =>
                    (at_ weight_mapping global_dof =? Z.of_nat column)%Z)
                 0 (length weight_mapping) in
    Assert DEBUG (global_dof <? length weight_mapping) ExcInternalError ;;
    modify (fun representants =>
              <[parameter_dof := Z.of_nat global_dof]> representants)).

(** the body of the final loop, for one [global_dof] *)
Definition enter_constraints_for
    (weights : FullMatrix W) (weight_mapping representants : list Z)
    (global_dof : nat) : Comp (ConstraintMatrix W) unit :=
  if negb (at_ weight_mapping global_dof =? -1)%Z then
    let col := Z.to_nat (at_ weight_mapping global_dof) in
    let first_used_row :=
      scan_until (fun row => negb (w_eqb (el weights row col) w_zero))
                 0 (fm_m weights) in
    if w_eqb (el weights first_used_row col) w_one
       && (at_ representants first_used_row =? Z.of_nat global_dof)%Z
    then ret tt                                        (* dof unconstrained *)
    else
      (* otherwise enter all constraints *)
      modify (fun cm => cm ++ [add_line (Z.of_nat global_dof)]) ;;
      for_each (seq first_used_row (fm_m weights - first_used_row)) (fun row =>
        if negb (w_eqb (el weights row col) w_zero)
        then modify (fun cm =>
               cm ++ [add_entry (Z.of_nat global_dof) (at_ representants row)
                                (el weights row col)])
        else ret tt)
  else ret tt.

Definition enter_constraints
    (n_fine_dofs : nat) (weights : FullMatrix W)
    (weight_mapping representants : list Z) : Comp (ConstraintMatrix W) unit :=
  for_each (seq 0 n_fine_dofs)
           (enter_constraints_for weights weight_mapping representants).

Definition compute_intergrid_constraints
    (coarse_grid : DoFHandler) (coarse_component : nat)
    (fine_grid : DoFHandler) (fine_component : nat)
    (coarse_to_fine_grid_map : nat -> nat)
  : Comp (ConstraintMatrix W) unit :=
  let coarse_fe := get_fe coarse_grid in
  let fine_fe := get_fe fine_grid in
  let n_coarse_dofs := Z.to_nat (n_dofs coarse_grid) in
  let n_fine_dofs := Z.to_nat (n_dofs fine_grid) in
  let fine_dofs_per_cell := dofs_per_cell fine_fe in
  let coarse_dofs_per_cell_component :=
    base_element_dofs_per_cell coarse_fe coarse_component in
  Assert DEBUG (coarse_component <? n_components coarse_fe)
         (ExcInvalidComponent coarse_component (n_components coarse_fe)) ;;
  Assert DEBUG (fine_component <? n_components fine_fe)
         (ExcInvalidComponent fine_component (n_components fine_fe)) ;;
  Assert DEBUG (base_element coarse_fe coarse_component
                =? base_element fine_fe fine_component)
         ExcFiniteElementsDontMatch ;;
  (if DEBUG then
     for_each (active_cells coarse_grid) (fun c =>
       Assert DEBUG (level (cell coarse_grid c)
                     <=? level (cell fine_grid (coarse_to_fine_grid_map c)))
              ExcGridNotCoarser)
   else ret tt) ;;
  (* one unit vector per coarse dof of the component *)
  let parameter_dofs :=
    map (fun local_coarse_dof =>
           <[component_to_system_index fine_fe fine_component local_coarse_dof
             := w_one]> (replicate fine_dofs_per_cell w_zero))
        (seq 0 coarse_dofs_per_cell_component) in
  let n_parameters_on_fine_grid :=
    count_parameters_on_fine_grid fine_grid fine_component in
  let weights0 :=
    {| fm_m := n_coarse_dofs; fm_n := n_parameters_on_fine_grid;
       el := fun _ _ => w_zero |} in
  do numbering <- run_local (number_parameter_dofs fine_grid fine_component)
                            (replicate n_fine_dofs (-1)%Z, 0);
  let weight_mapping := fst numbering in
  Assert DEBUG (snd numbering =? n_parameters_on_fine_grid) ExcInternalError ;;
  do weights <- run_local
                  (compute_weights coarse_grid coarse_component fine_grid
                     coarse_to_fine_grid_map parameter_dofs weight_mapping)
                  weights0;
  check_column_sums coarse_fe weights ;;
  do representants <- run_local (find_representants weights weight_mapping)
                                (replicate (fm_m weights) (-1)%Z);
  enter_constraints n_fine_dofs weights weight_mapping representants.


(** *** [extract_dofs], [extract_level_dofs] and [extract_boundary_dofs]

    The routines fill a [vector<bool>].  A write [v[k] = true] or a read
    [v[k]] beyond the end of a vector has no defined behaviour in the
    source; the embedding writes nothing there and reads [false]. *)

(** [fill_n (v.begin(), n, x)], for a vector of at least [n] elements;
    on a shorter one the source writes beyond the end, which has no
    defined behaviour, and the embedding stops at the end *)
Definition fill_n {A} (n : nat) (x : A) (v : list A) : list A :=
  replicate (Nat.min n (length v)) x ++ drop n v.

(** [v[k] = true] *)
Definition set_true (k : Z) (v : list bool) : list bool :=
  <[Z.to_nat k := true]> v.

Definition extract_dofs (dof : DoFHandler) (local_select : list bool)
  : Comp (list bool) unit :=
  let fe := get_fe dof in
  do selected_dofs <- get;
  Assert DEBUG (length local_select =? n_components fe)
         (ExcDimensionMismatch (Z.of_nat (length local_select))
                               (Z.of_nat (n_components fe))) ;;
  Assert DEBUG (Z.of_nat (length selected_dofs) =? n_dofs dof)%Z
         (ExcDimensionMismatch (Z.of_nat (length selected_dofs)) (n_dofs dof)) ;;
  (* preset all values by false *)
  modify (fill_n (Z.to_nat (n_dofs dof)) false) ;;
  for_each (active_cells dof) (fun c =>
    let indices := dof_indices (cell dof c) in
    for_each (seq 0 (dofs_per_cell fe)) (fun i =>
      let component := system_to_component_index_first fe i in
      if nth component local_select false
      then modify (set_true (at_ indices i))
      else ret tt)).

(** The part of [MGDoFHandler<dim>] read by [extract_level_dofs]. *)
Record MGDoFHandler : Type := {
  mg_get_fe : FiniteElement;
  (** [n_dofs (level)] *)
  mg_n_dofs : nat -> Z;
  (** the cells visited from [begin (level)] to [end (level)] *)
  mg_cells : nat -> list nat;
  (** the vector filled by [get_mg_dof_indices] on a cell *)
  mg_dof_indices : nat -> list Z
}.

Definition extract_level_dofs (level : nat) (dof : MGDoFHandler)
    (local_select : list bool) : Comp (list bool) unit :=
  let fe := mg_get_fe dof in
  do selected_dofs <- get;
  Assert DEBUG (length local_select =? n_components fe)
         (ExcDimensionMismatch (Z.of_nat (length local_select))
                               (Z.of_nat (n_components fe))) ;;
  Assert DEBUG (Z.of_nat (length selected_dofs) =? mg_n_dofs dof level)%Z
         (ExcDimensionMismatch (Z.of_nat (length selected_dofs))
                               (mg_n_dofs dof level)) ;;
  (* preset all values by false *)
  modify (fill_n (Z.to_nat (mg_n_dofs dof level)) false) ;;
  for_each (mg_cells dof level) (fun c =>
    let indices := mg_dof_indices dof c in
    for_each (seq 0 (dofs_per_cell fe)) (fun i =>
      let component := system_to_component_index_first fe i in
      if nth component local_select false
      then modify (set_true (at_ indices i))
      else ret tt)).

(** [extract_boundary_dofs] in two and three dimensions.  The member
    [face_system_to_component_index (i).first] of the finite element is
    passed beside the handler. *)
Definition extract_boundary_dofs (geo : GeometryInfo)
    (face_system_to_component_index_first : nat -> nat)
    (dof_handler : DoFHandler) (component_select : list bool)
  : Comp (list bool) unit :=
  let fe := get_fe dof_handler in
  Assert DEBUG (length component_select =? n_components fe)
         (ExcWrongSize (Z.of_nat (length component_select))
                       (Z.of_nat (n_components fe))) ;;
  (* clear and reset array by default values *)
  modify (fun _ => replicate (Z.to_nat (n_dofs dof_handler)) false) ;;
  for_each (active_cells dof_handler) (fun c =>
    for_each (seq 0 (faces_per_cell geo)) (fun f =>
      if at_boundary (cell dof_handler c) f then
        let face_dof_indices :=
          face_dof_indices (face_obj dof_handler (face (cell dof_handler c) f)) in
        for_each (seq 0 (dofs_per_face fe)) (fun i =>
          if nth (face_system_to_component_index_first i) component_select false
          then modify (set_true (at_ face_dof_indices i))
          else ret tt)
      else ret tt)).

(** What [extract_boundary_dofs] in one dimension reads of the handler
    beside the finite element and the number of DoFs: the cells of the
    coarse grid, from [begin (0)] to [end (0)], whether
    [cell->neighbor (side) == dof_handler.end ()], and
    [cell->vertex_dof_index (vertex, i)]. *)
Record CoarseLines : Type := {
  coarse_cells : list nat;
  neighbor_is_end : nat -> nat -> bool;
  cell_vertex_dof_index : nat -> nat -> nat -> Z
}.

(** the loop over the DoFs of one end of a coarse cell *)
Definition select_vertex (face_system_to_component_index_first : nat -> nat)
    (fe : FiniteElement) (lines : CoarseLines) (component_select : list bool)
    (c vertex : nat) : Comp (list bool) unit :=
  for_each (seq 0 (dofs_per_face fe)) (fun i =>
    if nth (face_system_to_component_index_first i) component_select false
    then modify (set_true (cell_vertex_dof_index lines c vertex i))
    else ret tt).

Definition extract_boundary_dofs_1d
    (face_system_to_component_index_first : nat -> nat)
    (dof_handler : DoFHandler) (lines : CoarseLines)
    (component_select : list bool) : Comp (list bool) unit :=
  let fe := get_fe dof_handler in
  Assert DEBUG (length component_select =? n_components fe)
         (ExcWrongSize (Z.of_nat (length component_select))
                       (Z.of_nat (n_components fe))) ;;
  (* clear and reset array by default values *)
  modify (fun _ => replicate (Z.to_nat (n_dofs dof_handler)) false) ;;
  Assert DEBUG (dofs_per_face fe =? dofs_per_vertex fe) ExcInternalError ;;
  (* loop over coarse grid cells *)
  for_each (coarse_cells lines) (fun c =>
    (* check left-most vertex *)
    (if neighbor_is_end lines c 0
     then select_vertex face_system_to_component_index_first fe lines
            component_select c 0
     else ret tt) ;;
    (* check right-most vertex *)
    (if neighbor_is_end lines c 1
     then select_vertex face_system_to_component_index_first fe lines
            component_select c 1
     else ret tt)).

(** *** [make_hanging_node_constraints] for three dimensions *)

(** What the routine reads of a handler in three dimensions beyond the
    members of [DoFHandler]: the faces, which are quadrilaterals, are the
    objects of the face store; a face has four lines, named by their index
    in the store of the lines, and a line is accessed as a face of a
    handler in two dimensions is. *)
Record DoFHandler3 : Type := {
  handler : DoFHandler;
  (** [fe.dofs_per_quad] *)
  dofs_per_quad : nat;
  (** the faces visited from [begin_face()] to [end_face()] *)
  all_faces : list nat;
  (** [face->line(l)] *)
  face_line : nat -> nat -> nat;
  line_obj : nat -> FaceAccessor
}.

(** the vector [dofs_on_mother] after the three filling loops *)
Definition dofs_on_mother_3d (d : DoFHandler3) (f : nat) : list Z :=
  let fe := get_fe (handler d) in
  let face := face_obj (handler d) f in
  flat_map (fun vertex =>
              map (fun dof => vertex_dof_index face vertex dof)
                  (seq 0 (dofs_per_vertex fe)))
           (seq 0 4)
  ++ flat_map (fun line =>
                 map (fun dof => dof_index (line_obj d (face_line d f line)) dof)
                     (seq 0 (dofs_per_line fe)))
              (seq 0 4)
  ++ map (fun dof => dof_index face dof) (seq 0 (dofs_per_quad d)).

(** the vector [dofs_on_children] after its filling loops *)
Definition dofs_on_children_3d (d : DoFHandler3) (f : nat) : list Z :=
  let fe := get_fe (handler d) in
  let face := face_obj (handler d) f in
  let child c := face_child face c in
  let line l := line_obj d (face_line d f l) in
  (* the vertex at the center of the face *)
  map (fun dof => vertex_dof_index (face_obj (handler d) (child 0)) 2 dof)
      (seq 0 (dofs_per_vertex fe))
  (* the centers of the lines bounding this face *)
  ++ flat_map (fun l =>
                 map (fun dof =>
                        vertex_dof_index (line_obj d (face_child (line l) 0)) 1 dof)
                     (seq 0 (dofs_per_vertex fe)))
              (seq 0 4)
  (* the lines interior to the face *)
  ++ map (fun dof => dof_index (line_obj d (face_line d (child 0) 1)) dof)
         (seq 0 (dofs_per_line fe))
  ++ map (fun dof => dof_index (line_obj d (face_line d (child 1) 2)) dof)
         (seq 0 (dofs_per_line fe))
  ++ map (fun dof => dof_index (line_obj d (face_line d (child 2) 3)) dof)
         (seq 0 (dofs_per_line fe))
  ++ map (fun dof => dof_index (line_obj d (face_line d (child 3) 0)) dof)
         (seq 0 (dofs_per_line fe))
  (* the bordering lines *)
  ++ flat_map (fun l =>
                 flat_map (fun c =>
                             map (fun dof =>
                                    dof_index (line_obj d (face_child (line l) c)) dof)
                                 (seq 0 (dofs_per_line fe)))
                          (seq 0 2))
              (seq 0 4)
  (* the interior of the four child faces *)
  ++ flat_map (fun c =>
                 map (fun dof => dof_index (face_obj (handler d) (child c)) dof)
                     (seq 0 (dofs_per_quad d)))
              (seq 0 4).

(** the check that the four children agree on the vertex at the center *)
Definition center_vertex_agrees (d : DoFHandler3) (f : nat) : bool :=
  let face := face_obj (handler d) f in
  let child c := face_obj (handler d) (face_child face c) in
  Z.eqb (vertex_dof_index (child 0) 2 0) (vertex_dof_index (child 1) 3 0)
  && Z.eqb (vertex_dof_index (child 0) 2 0) (vertex_dof_index (child 2) 0 0)
  && Z.eqb (vertex_dof_index (child 0) 2 0) (vertex_dof_index (child 3) 1 0).

(** the body of the loop over all faces; the user flags are those of the
    faces *)
Definition constrain_face (d : DoFHandler3) (f : nat)
  : Comp HangingNodeState unit :=
  let fe := get_fe (handler d) in
  do st <- get;
  if bool_decide (f ∈ line_flags st) then
    Assert DEBUG (4 * dofs_per_vertex fe + 4 * dofs_per_line fe + dofs_per_quad d
                  =? fm_n (constraints fe))
           (ExcDimensionMismatch
              (Z.of_nat (4 * dofs_per_vertex fe + 4 * dofs_per_line fe
                         + dofs_per_quad d))
              (Z.of_nat (fm_n (constraints fe)))) ;;
    Assert DEBUG (5 * dofs_per_vertex fe + 12 * dofs_per_line fe
                  + 4 * dofs_per_quad d
                  =? fm_m (constraints fe))
           (ExcDimensionMismatch
              (Z.of_nat (5 * dofs_per_vertex fe + 12 * dofs_per_line fe
                         + 4 * dofs_per_quad d))
              (Z.of_nat (fm_m (constraints fe)))) ;;
    let dofs_on_mother := dofs_on_mother_3d d f in
    Assert DEBUG (center_vertex_agrees d f) ExcInternalError ;;
    let dofs_on_children := dofs_on_children_3d d f in
    Assert DEBUG (length dofs_on_children =? fm_m (constraints fe))
           (ExcDimensionMismatch (Z.of_nat (length dofs_on_children))
                                 (Z.of_nat (fm_m (constraints fe)))) ;;
    Assert DEBUG (length dofs_on_mother =? fm_n (constraints fe))
           (ExcDimensionMismatch (Z.of_nat (length dofs_on_mother))
                                 (Z.of_nat (fm_n (constraints fe)))) ;;
    (* for each row in the constraint matrix for this face *)
    for_each (seq 0 (length dofs_on_children)) (fun row =>
      modify (constraints_call (add_line (at_ dofs_on_children row))) ;;
      for_each (seq 0 (length dofs_on_mother)) (fun i =>
        modify (constraints_call
                  (add_entry (at_ dofs_on_children row)
                             (at_ dofs_on_mother i)
                             (el (constraints fe) row i)))))
  else ret tt.

Definition make_hanging_node_constraints_3d
    (geo : GeometryInfo) (d : DoFHandler3)
  : Comp HangingNodeState unit :=
  for_each (all_faces d) (fun face =>
    modify (line_clear_user_flag face)) ;;
  (* mark all faces which are subject to constraints *)
  for_each (active_cells (handler d)) (fun c =>
    for_each (seq 0 (faces_per_cell geo)) (fun f =>
      let cf := face (cell (handler d) c) f in
      if face_has_children (face_obj (handler d) cf)
      then modify (line_set_user_flag cf)
      else ret tt)) ;;
  (* loop over all faces; only on faces there can be constraints *)
  for_each (all_faces d) (constrain_face d).

(** *** [distribute_cell_to_dof_vector (dof_handler, cell_data, dof_data, component)] *)

(** The vector [dof_data] and the local vector [touch_count], whose entries
    are of type [unsigned char].  An access outside a vector has no defined
    value in the source; the embedding writes nothing there and reads zero. *)
Record DistributeState : Type := {
  dof_data : list W;
  touch_count : list Z
}.

(** [dof_data(k) += x; ++touch_count[k]] *)
Definition add_contribution (k : Z) (x : W) (st : DistributeState)
  : DistributeState :=
  let k := Z.to_nat k in
  {| dof_data := <[k := w_add (nth k (dof_data st) w_zero) x]> (dof_data st);
     touch_count := <[k := ((at_ (touch_count st) k + 1) mod 256)%Z]>
                      (touch_count st) |}.

(** [dof_data(i) /= touch_count[i]] *)
Definition divide_by_count (divide : W -> Z -> W) (i : nat) (st : DistributeState)
  : DistributeState :=
  {| dof_data := <[i := divide (nth i (dof_data st) w_zero)
                               (at_ (touch_count st) i)]> (dof_data st);
     touch_count := touch_count st |}.

(** The division of a [double] by a count is not among the observations of
    [Weight] and is passed in; [tria.n_active_cells ()] is the number of
    cells between [begin_active ()] and [end ()]. *)
Definition distribute_cell_to_dof_vector (divide : W -> Z -> W)
    (dof_handler : DoFHandler) (cell_data : list W) (component : nat)
  : Comp DistributeState unit :=
  let fe := get_fe dof_handler in
  do st <- get;
  Assert DEBUG (length cell_data =? length (active_cells dof_handler))
         (ExcWrongSize (Z.of_nat (length cell_data))
                       (Z.of_nat (length (active_cells dof_handler)))) ;;
  Assert DEBUG (Z.of_nat (length (dof_data st)) =? n_dofs dof_handler)%Z
         (ExcWrongSize (Z.of_nat (length (dof_data st))) (n_dofs dof_handler)) ;;
  Assert DEBUG (component <? n_components fe)
         (ExcInvalidComponent component (n_components fe)) ;;
  let consider_components := negb (n_components fe =? 1) in
  (* count how often we have added a value in the sum for each dof *)
  modify (fun st =>
    {| dof_data := dof_data st;
       touch_count := replicate (Z.to_nat (n_dofs dof_handler)) 0%Z |}) ;;
  for_each (combine (seq 0 (length (active_cells dof_handler)))
                    (active_cells dof_handler))
    (fun pc =>
       let present_cell := fst pc in
       let dof_indices := dof_indices (cell dof_handler (snd pc)) in
       for_each (seq 0 (dofs_per_cell fe)) (fun i =>
         if negb consider_components
            || (system_to_component_index_first fe i =? component)
         then modify (add_contribution (at_ dof_indices i)
                                       (nth present_cell cell_data w_zero))
         else ret tt)) ;;
  (* compute the mean value on all the dofs *)
  for_each (seq 0 (Z.to_nat (n_dofs dof_handler))) (fun i =>
    do st <- get;
    Assert DEBUG (consider_components || negb (at_ (touch_count st) i =? 0)%Z)
           ExcInternalError ;;
    if negb (at_ (touch_count st) i =? 0)%Z
    then modify (divide_by_count divide i)
    else ret tt).

End WithWeights.
End DoFTools.

Module MatrixFree.

(** ** Scratch pads

    [std::list<std::pair<bool, AlignedVector<...> > >]: an item is its
    in-use flag [first] and the buffer [second]; a pointer [&it->second] is
    the address of the buffer.  The contents of the buffers play no role in
    acquiring and releasing and are left out. *)
Record ScratchItem : Type := {
  first : bool;
  second : nat
}.

Section ScratchPad.
Variable DEBUG : bool.
(** the address the allocator gives to the node created by [push_front],
    from the addresses of the nodes alive *)
Variable new_address : list nat -> nat.

(** the loop of [acquire_scratch_data]; [None]: no item was free *)
Fixpoint acquire_scan (data : list ScratchItem)
  : option (nat * list ScratchItem) :=
  match data with
  | [] => None
  | it :: rest =>
      if negb (first it)
      then Some (second it, {| first := true; second := second it |} :: rest)
      else match acquire_scan rest with
           | Some (p, rest') => Some (p, it :: rest')
           | None => None
           end
  end.

Definition acquire_scratch_data : Comp (list ScratchItem) nat :=
  fun data =>
    match acquire_scan data with
    | Some (p, data') => (Done p, data')
    | None =>
        let p := new_address (map second data) in
        (Done p, {| first := true; second := p |} :: data)
    end.

(** the loop of [release_scratch_data]; [None]: the end of the list was
    reached *)
Fixpoint release_scan (scratch : nat) (data : list ScratchItem)
  : option (Outcome unit * list ScratchItem) :=
  match data with
  | [] => None
  | it :: rest =>
      if second it =? scratch
      then if DEBUG && negb (first it)
           then Some (Raised ExcInternalError, it :: rest)
           else Some (Done tt, {| first := false; second := second it |} :: rest)
      else match release_scan scratch rest with
           | Some (o, rest') => Some (o, it :: rest')
           | None => None
           end
  end.

Definition release_scratch_data (scratch : nat) : Comp (list ScratchItem) unit :=
  fun data =>
    match release_scan scratch data with
    | Some r => r
    | None => AssertThrow false (ExcMessage "Tried to release invalid scratch pad") data
    end.

(** [acquire_scratch_data_non_threadsafe] and
    [release_scratch_data_non_threadsafe] repeat the two bodies on the
    member [scratch_pad_non_threadsafe]. *)
Definition acquire_scratch_data_non_threadsafe := acquire_scratch_data.
Definition release_scratch_data_non_threadsafe := release_scratch_data.

(** the in-use flag of the buffer at address [p], if the pad has it *)
Definition in_use (p : nat) (data : list ScratchItem) : option bool :=
  first <$> find (fun it => second it =? p) data.

End ScratchPad.

(** ** The loop worker and the exchange of vector data *)

Inductive DataAccessOnFaces : Type := none | values | gradients | unspecified.

Definition is_unspecified (a : DataAccessOnFaces) : bool :=
  match a with unspecified => true | _ => false end.

(** Missing from the sources at hand: [Utilities::MPI::Partitioner]; the
    members read here.  A partitioner is referred to by its address. *)
Record Partitioner : Type := {
  local_size : nat;
  n_ghost_indices : nat;
  n_import_indices : nat;
  ghost_indices_within_larger_ghost_set : list (nat * nat)
}.

(** Missing from the sources at hand: [internal::MatrixFreeFunctions::DoFInfo];
    the members read here. *)
Record DoFInfo : Type := {
  vector_partitioner : nat;
  vector_partitioner_face_variants : list nat;
  vector_zero_range_list_index : list nat;
  vector_zero_range_list : list nat
}.

(** The members of [MatrixFree] read by the worker, with what it asks of
    the partitioners. *)
Record MatrixFreeData : Type := {
  n_dof_handlers : nat;
  dof_info : list DoFInfo;
  (** [get_task_info().face_partition_data.empty()] *)
  face_partition_data_empty : bool;
  partitioner : nat -> Partitioner;
  is_compatible : nat -> nat -> bool;
  is_globally_compatible : nat -> nat -> bool;
  chunk_size_zero_vector : nat
}.

(** Missing from the sources at hand: [LinearAlgebra::distributed::Vector];
    what the worker reads of a vector. *)
Record DistributedVector : Type := {
  size : nat;
  get_partitioner : nat;
  has_ghost_elements : bool
}.

(** the calls the worker makes on a vector *)
Inductive VectorCall : Type :=
| update_ghost_values_start (channel : nat)
| update_ghost_values_finish
| compress_start (channel : nat)
| compress_finish
| zero_out_ghosts
| export_to_ghosted_array_start (part channel tmp : nat)
| export_to_ghosted_array_finish (part : nat)
| import_from_ghosted_array_start (part channel tmp : nat)
| import_from_ghosted_array_finish (part tmp : nat)
| set_local_element_zero (j : nat)       (* [local_element (j) = 0.] *)
| assign_zero                            (* [vec = 0] *)
| memset_zero (start_pos end_pos : nat).

(** the calls that leave the worker: on a vector (named by its address), or
    to one of the user's functions *)
Inductive Call : Type :=
| on_vector (v : nat) (c : VectorCall)
| cell_operation (dst src : nat) (range : nat * nat)
| face_operation (dst src : nat) (range : nat * nat)
| boundary_operation (dst src : nat) (range : nat * nat).

(** The members of [VectorDataExchange] that change.  The vector [requests]
    is left out: it has the size of [tmp_data] from the constructor on, so
    the assertions that compare the two sizes hold, and what it stores is the
    business of the MPI library. *)
Record VectorDataExchange : Type := {
  vector_face_access : DataAccessOnFaces;
  ghosts_were_set : bool;
  (** [nullptr] is [None] *)
  tmp_data : list (option nat)
}.

(** What a loop can touch: the vectors, the trace of the calls made so far,
    the scratch pad of the [MatrixFree] object and the two exchangers of the
    worker. *)
Record LoopState : Type := {
  vectors : nat -> DistributedVector;
  calls : list Call;
  scratch_pad_non_threadsafe : list ScratchItem;
  src_data_exchanger : VectorDataExchange;
  dst_data_exchanger : VectorDataExchange
}.

(** which of the two exchangers a member function runs on *)
Inductive Exchanger : Type := of_src | of_dst.

Definition exchanger (x : Exchanger) (st : LoopState) : VectorDataExchange :=
  match x with
  | of_src => src_data_exchanger st
  | of_dst => dst_data_exchanger st
  end.

Definition set_exchanger (x : Exchanger) (e : VectorDataExchange)
    (st : LoopState) : LoopState :=
  {| vectors := vectors st; calls := calls st;
     scratch_pad_non_threadsafe := scratch_pad_non_threadsafe st;
     src_data_exchanger := match x with of_src => e | of_dst => src_data_exchanger st end;
     dst_data_exchanger := match x with of_dst => e | of_src => dst_data_exchanger st end |}.

(** An argument [src] or [dst] of a loop: the object passed, by its
    address, and the vectors it is made of, in the order in which the
    overloads for block vectors and for [std::vector]s of vectors run
    through them (component [i] is exchanged on channel [i]); a component
    is a [LinearAlgebra::distributed::Vector] or a vector of another kind. *)
Record Component : Type := {
  vec : nat;
  distributed : bool
}.

Record VectorArg : Type := {
  object : nat;
  components : list Component
}.

(** a pointer to one of the functions a worker calls *)
Inductive FunctionPointer : Type :=
| nullptr
(** a member of [MFClassWrapper] around a [std::function] that is empty or not *)
| integrator (nonempty : bool)
(** a member function of the user's class *)
| member_function.

Record MFWorker : Type := {
  matrix_free : MatrixFreeData;
  cell_function : FunctionPointer;
  face_function : FunctionPointer;
  boundary_function : FunctionPointer;
  src : VectorArg;
  dst : VectorArg;
  src_and_dst_are_same : bool;
  zero_dst_vector_setting : bool
}.

(** the virtual functions of [MFWorkerInterface] *)
Inductive WorkerCall : Type :=
| call_cell (range : nat * nat)
| call_face (range : nat * nat)
| call_boundary (range : nat * nat)
| call_vector_update_ghosts_start
| call_vector_update_ghosts_finish
| call_vector_compress_start
| call_vector_compress_finish
| call_zero_dst_vector_range (range_index : Z).

Section Loops.
Variable DEBUG : bool.
(** the configuration macro [DEAL_II_WITH_MPI] *)
Variable WITH_MPI : bool.
(** [numbers::invalid_unsigned_int], not defined in the sources at hand *)
Variable invalid_unsigned_int : Z.
Variable new_address : list nat -> nat.
(** What a call does to the vectors is the business of the vector class and
    of the user's functions, which are not in the sources at hand. *)
Variable effect : Call -> (nat -> DistributedVector) -> (nat -> DistributedVector).

Definition AssertDimension {S} (a b : nat) : Comp S unit :=
  Assert DEBUG (a =? b) (ExcDimensionMismatch (Z.of_nat a) (Z.of_nat b)).

Definition AssertIndexRange {S} (i : Z) (n : nat) : Comp S unit :=
  Assert DEBUG ((0 <=? i)%Z && (i <? Z.of_nat n)%Z)
         (ExcIndexRange (Z.to_nat i) 0 n).

Definition emit (c : Call) : Comp LoopState unit :=
  modify (fun st =>
    {| vectors := effect c (vectors st); calls := calls st ++ [c];
       scratch_pad_non_threadsafe := scratch_pad_non_threadsafe st;
       src_data_exchanger := src_data_exchanger st;
       dst_data_exchanger := dst_data_exchanger st |}).

(** a member function of [MatrixFree] run on its scratch pad *)
Definition on_scratch_pad {A} (m : Comp (list ScratchItem) A) : Comp LoopState A :=
  fun st =>
    match m (scratch_pad_non_threadsafe st) with
    | (o, pad) =>
        (o, {| vectors := vectors st; calls := calls st;
               scratch_pad_non_threadsafe := pad;
               src_data_exchanger := src_data_exchanger st;
               dst_data_exchanger := dst_data_exchanger st |})
    end.

Definition n_components {S} (mf : MatrixFreeData) : Comp S nat :=
  AssertDimension (n_dof_handlers mf) (length (dof_info mf)) ;;
  ret (n_dof_handlers mf).

Definition no_dof_info : DoFInfo :=
  {| vector_partitioner := 0; vector_partitioner_face_variants := [];
     vector_zero_range_list_index := []; vector_zero_range_list := [] |}.

(** [dof_info[dof_index]]; outside the vector the source has no defined
    value and the embedding reads [no_dof_info] *)
Definition get_dof_info {S} (mf : MatrixFreeData) (dof_index : Z) : Comp S DoFInfo :=
  do n <- n_components mf;
  AssertIndexRange dof_index n ;;
  ret (nth (Z.to_nat dof_index) (dof_info mf) no_dof_info).

(** *** [VectorDataExchange] *)

Definition channel_shift : nat := 103.

(** the constructor; the exchanger is built in place *)
Definition VectorDataExchange_new (x : Exchanger) (mf : MatrixFreeData)
    (vector_face_access : DataAccessOnFaces) (n_components_of_vector : nat)
  : Comp LoopState unit :=
  let access := if face_partition_data_empty mf then unspecified
                else vector_face_access in
  modify (set_exchanger x
            {| vector_face_access := access; ghosts_were_set := false;
               tmp_data := if WITH_MPI then replicate n_components_of_vector None
                           else [] |}) ;;
  if negb (is_unspecified access) then
    do n <- n_components mf;
    for_each (seq 0 n) (fun c =>
      do info <- get_dof_info mf (Z.of_nat c);
      AssertDimension (length (vector_partitioner_face_variants info)) 3)
  else ret tt.

(** the destructor *)
Definition VectorDataExchange_delete (x : Exchanger) : Comp LoopState unit :=
  if WITH_MPI then
    do st <- get;
    for_each (tmp_data (exchanger x st)) (fun t =>
      match t with
      | Some p => on_scratch_pad (release_scratch_data_non_threadsafe DEBUG p)
      | None => ret tt
      end)
  else ret tt.

(** the loop of [find_vector_in_mf] over the components left *)
Fixpoint find_vector_in_mf_from {S} (mf : MatrixFreeData) (v : DistributedVector)
    (check_global_compatibility : bool) (cs : list nat) : Comp S Z :=
  match cs with
  | [] => ret invalid_unsigned_int
  | c :: rest =>
      do info <- get_dof_info mf (Z.of_nat c);
      if (if DEBUG && check_global_compatibility
          then is_globally_compatible mf (get_partitioner v) (vector_partitioner info)
          else is_compatible mf (get_partitioner v) (vector_partitioner info))
      then ret (Z.of_nat c)
      else find_vector_in_mf_from mf v check_global_compatibility rest
  end.

Definition find_vector_in_mf {S} (mf : MatrixFreeData) (v : DistributedVector)
    (check_global_compatibility : bool) : Comp S Z :=
  do n <- n_components mf;
  find_vector_in_mf_from mf v check_global_compatibility (seq 0 n).

(** [get_partitioner (mf_component)]: the address of the partitioner *)
Definition exchanger_get_partitioner {S} (mf : MatrixFreeData)
    (access : DataAccessOnFaces) (mf_component : Z) : Comp S nat :=
  do info <- get_dof_info mf mf_component;
  AssertDimension (length (vector_partitioner_face_variants info)) 3 ;;
  ret (match access with
       | none => nth 0 (vector_partitioner_face_variants info) 0
       | values => nth 1 (vector_partitioner_face_variants info) 0
       | _ => nth 2 (vector_partitioner_face_variants info) 0
       end).

Definition set_ghosts_were_set (x : Exchanger) (st : LoopState) : LoopState :=
  set_exchanger x
    {| vector_face_access := vector_face_access (exchanger x st);
       ghosts_were_set := true;
       tmp_data := tmp_data (exchanger x st) |} st.

Definition set_tmp_data (x : Exchanger) (i : nat) (p : option nat)
    (st : LoopState) : LoopState :=
  set_exchanger x
    {| vector_face_access := vector_face_access (exchanger x st);
       ghosts_were_set := ghosts_were_set (exchanger x st);
       tmp_data := <[i := p]> (tmp_data (exchanger x st)) |} st.

Definition exchanger_update_ghost_values_start (x : Exchanger) (mf : MatrixFreeData)
    (component_in_block_vector : nat) (v : nat) : Comp LoopState unit :=
  do st <- get;
  let ghosts_set := has_ghost_elements (vectors st v) in
  (if ghosts_set then modify (set_ghosts_were_set x) else ret tt) ;;
  let access := vector_face_access (exchanger x st) in
  if is_unspecified access || (size (vectors st v) =? 0) then
    emit (on_vector v (update_ghost_values_start
                         (component_in_block_vector + channel_shift)))
  else if WITH_MPI then
    do mf_component <- find_vector_in_mf mf (vectors st v) true;
    do part <- exchanger_get_partitioner mf access mf_component;
    do info <- get_dof_info mf mf_component;
    if part =? vector_partitioner info then
      emit (on_vector v (update_ghost_values_start
                           (component_in_block_vector + channel_shift)))
    else if (n_ghost_indices (partitioner mf part) =? 0)
            && (n_import_indices (partitioner mf part) =? 0) then ret tt
    else
      do tmp <- on_scratch_pad (acquire_scratch_data_non_threadsafe new_address);
      modify (set_tmp_data x component_in_block_vector (Some tmp)) ;;
      emit (on_vector v (export_to_ghosted_array_start part
                           (component_in_block_vector + channel_shift) tmp))
  else ret tt.

Definition tmp_data_at (x : Exchanger) (i : nat) (st : LoopState) : option nat :=
  nth i (tmp_data (exchanger x st)) None.

(** the release of [tmp_data[i]] at the end of an exchange; a null pointer
    is the address of no buffer of the pad *)
Definition release_tmp_data (x : Exchanger) (i : nat) : Comp LoopState unit :=
  do st <- get;
  (match tmp_data_at x i st with
   | Some p => on_scratch_pad (release_scratch_data_non_threadsafe DEBUG p)
   | None => AssertThrow false (ExcMessage "Tried to release invalid scratch pad")
   end) ;;
  modify (set_tmp_data x i None).

Definition exchanger_update_ghost_values_finish (x : Exchanger) (mf : MatrixFreeData)
    (component_in_block_vector : nat) (v : nat) : Comp LoopState unit :=
  do st <- get;
  let access := vector_face_access (exchanger x st) in
  if is_unspecified access || (size (vectors st v) =? 0) then
    emit (on_vector v update_ghost_values_finish)
  else if WITH_MPI then
    AssertIndexRange (Z.of_nat component_in_block_vector)
                     (length (tmp_data (exchanger x st))) ;;
    do mf_component <- find_vector_in_mf mf (vectors st v) true;
    do part <- exchanger_get_partitioner mf access mf_component;
    do info <- get_dof_info mf mf_component;
    if part =? vector_partitioner info then
      emit (on_vector v update_ghost_values_finish)
    else if (n_ghost_indices (partitioner mf part) =? 0)
            && (n_import_indices (partitioner mf part) =? 0) then ret tt
    else
      emit (on_vector v (export_to_ghosted_array_finish part)) ;;
      release_tmp_data x component_in_block_vector
  else ret tt.

Definition exchanger_compress_start (x : Exchanger) (mf : MatrixFreeData)
    (component_in_block_vector : nat) (v : nat) : Comp LoopState unit :=
  do st <- get;
  Assert DEBUG (negb (has_ghost_elements (vectors st v))) ExcNotImplemented ;;
  let access := vector_face_access (exchanger x st) in
  if is_unspecified access || (size (vectors st v) =? 0) then
    emit (on_vector v (compress_start (component_in_block_vector + channel_shift)))
  else if WITH_MPI then
    do mf_component <- find_vector_in_mf mf (vectors st v) true;
    do part <- exchanger_get_partitioner mf access mf_component;
    do info <- get_dof_info mf mf_component;
    if part =? vector_partitioner info then
      emit (on_vector v (compress_start (component_in_block_vector + channel_shift)))
    else if (n_ghost_indices (partitioner mf part) =? 0)
            && (n_import_indices (partitioner mf part) =? 0) then ret tt
    else
      do tmp <- on_scratch_pad (acquire_scratch_data_non_threadsafe new_address);
      modify (set_tmp_data x component_in_block_vector (Some tmp)) ;;
      emit (on_vector v (import_from_ghosted_array_start part
                           (component_in_block_vector + channel_shift) tmp))
  else ret tt.

Definition exchanger_compress_finish (x : Exchanger) (mf : MatrixFreeData)
    (component_in_block_vector : nat) (v : nat) : Comp LoopState unit :=
  do st <- get;
  let access := vector_face_access (exchanger x st) in
  if is_unspecified access || (size (vectors st v) =? 0) then
    emit (on_vector v compress_finish)
  else if WITH_MPI then
    AssertIndexRange (Z.of_nat component_in_block_vector)
                     (length (tmp_data (exchanger x st))) ;;
    do mf_component <- find_vector_in_mf mf (vectors st v) true;
    do part <- exchanger_get_partitioner mf access mf_component;
    do info <- get_dof_info mf mf_component;
    if part =? vector_partitioner info then
      emit (on_vector v compress_finish)
    else if (n_ghost_indices (partitioner mf part) =? 0)
            && (n_import_indices (partitioner mf part) =? 0) then ret tt
    else
      emit (on_vector v (import_from_ghosted_array_finish part
              (default 0 (tmp_data_at x component_in_block_vector st)))) ;;
      release_tmp_data x component_in_block_vector
  else ret tt.

Definition exchanger_reset_ghost_values (x : Exchanger) (mf : MatrixFreeData)
    (v : nat) : Comp LoopState unit :=
  do st <- get;
  if ghosts_were_set (exchanger x st) then ret tt
  else
    let access := vector_face_access (exchanger x st) in
    if is_unspecified access || (size (vectors st v) =? 0) then
      emit (on_vector v zero_out_ghosts)
    else if WITH_MPI then
      do mf_component <- find_vector_in_mf mf (vectors st v) true;
      do part <- exchanger_get_partitioner mf access mf_component;
      do info <- get_dof_info mf mf_component;
      if part =? vector_partitioner info then
        emit (on_vector v zero_out_ghosts)
      else if 0 <? n_ghost_indices (partitioner mf part) then
        for_each (ghost_indices_within_larger_ghost_set (partitioner mf part))
          (fun my_ghosts =>
             for_each (seq (fst my_ghosts) (snd my_ghosts - fst my_ghosts))
               (fun j =>
                  emit (on_vector v (set_local_element_zero
                                       (j + local_size (partitioner mf part))))))
      else ret tt
    else ret tt.

Definition exchanger_zero_vector_region (mf : MatrixFreeData)
    (range_index : Z) (v : nat) : Comp LoopState unit :=
  if (range_index =? invalid_unsigned_int)%Z then
    emit (on_vector v assign_zero)
  else
    do st <- get;
    do mf_component <- find_vector_in_mf mf (vectors st v) false;
    do dof_info <- get_dof_info mf mf_component;
    Assert DEBUG (negb (length (vector_zero_range_list_index dof_info) =? 0))
           ExcNotInitialized ;;
    Assert DEBUG (is_compatible mf (get_partitioner (vectors st v))
                                (vector_partitioner dof_info))
           ExcInternalError ;;
    AssertIndexRange range_index
                     (length (vector_zero_range_list_index dof_info) - 1) ;;
    let first_id := nth (Z.to_nat range_index)
                        (vector_zero_range_list_index dof_info) 0 in
    let last_id := nth (Z.to_nat range_index + 1)
                       (vector_zero_range_list_index dof_info) 0 in
    for_each (seq first_id (last_id - first_id)) (fun id =>
      let part := partitioner mf (vector_partitioner dof_info) in
      let start_pos := nth id (vector_zero_range_list dof_info) 0
                       * chunk_size_zero_vector mf in
      let end_pos := Nat.min ((nth id (vector_zero_range_list dof_info) 0 + 1)
                              * chunk_size_zero_vector mf)
                             (local_size part + n_ghost_indices part) in
      emit (on_vector v (memset_zero start_pos end_pos))).

(** *** The overloads that run through the components of a vector argument *)

(** the components with their channels *)
Definition with_channels (a : VectorArg) : list (nat * Component) :=
  combine (seq 0 (length (components a))) (components a).

Definition update_ghost_values_start_all (x : Exchanger) (mf : MatrixFreeData)
    (a : VectorArg) : Comp LoopState unit :=
  for_each (with_channels a) (fun ic =>
    if distributed (snd ic)
    then exchanger_update_ghost_values_start x mf (fst ic) (vec (snd ic))
    else ret tt).

Definition update_ghost_values_finish_all (x : Exchanger) (mf : MatrixFreeData)
    (a : VectorArg) : Comp LoopState unit :=
  for_each (with_channels a) (fun ic =>
    if distributed (snd ic)
    then exchanger_update_ghost_values_finish x mf (fst ic) (vec (snd ic))
    else ret tt).

Definition compress_start_all (x : Exchanger) (mf : MatrixFreeData)
    (a : VectorArg) : Comp LoopState unit :=
  for_each (with_channels a) (fun ic =>
    if distributed (snd ic)
    then exchanger_compress_start x mf (fst ic) (vec (snd ic))
    else ret tt).

Definition compress_finish_all (x : Exchanger) (mf : MatrixFreeData)
    (a : VectorArg) : Comp LoopState unit :=
  for_each (with_channels a) (fun ic =>
    if distributed (snd ic)
    then exchanger_compress_finish x mf (fst ic) (vec (snd ic))
    else ret tt).

Definition reset_ghost_values_all (x : Exchanger) (mf : MatrixFreeData)
    (a : VectorArg) : Comp LoopState unit :=
  for_each (components a) (fun c =>
    if distributed c
    then exchanger_reset_ghost_values x mf (vec c)
    else ret tt).

Definition zero_vector_region_all (mf : MatrixFreeData) (range_index : Z)
    (a : VectorArg) : Comp LoopState unit :=
  for_each (components a) (fun c =>
    if distributed c
    then exchanger_zero_vector_region mf range_index (vec c)
    else if (range_index =? 0)%Z || (range_index =? invalid_unsigned_int)%Z
         then emit (on_vector (vec c) assign_zero)
         else ret tt).

(** *** [MFWorker] *)

(** the constructor *)
Definition MFWorker_new (mf : MatrixFreeData) (src dst : VectorArg)
    (zero_dst_vector_setting : bool)
    (cell_function face_function boundary_function : FunctionPointer)
    (src_vector_face_access dst_vector_face_access : DataAccessOnFaces)
  : Comp LoopState MFWorker :=
  VectorDataExchange_new of_src mf src_vector_face_access
                         (length (components src)) ;;
  VectorDataExchange_new of_dst mf dst_vector_face_access
                         (length (components dst)) ;;
  let same := object src =? object dst in
  ret {| matrix_free := mf;
         cell_function := cell_function;
         face_function := face_function;
         boundary_function := boundary_function;
         src := src; dst := dst;
         src_and_dst_are_same := same;
         zero_dst_vector_setting := zero_dst_vector_setting && negb same |}.

(** the call through a function pointer that is not null *)
Definition call_through (f : FunctionPointer) (c : Call) : Comp LoopState unit :=
  match f with
  | nullptr => ret tt
  | integrator nonempty => if nonempty then emit c else ret tt
  | member_function => emit c
  end.

Definition is_nullptr (f : FunctionPointer) : bool :=
  match f with nullptr => true | _ => false end.

Definition worker_cell (w : MFWorker) (cell_range : nat * nat) : Comp LoopState unit :=
  if negb (is_nullptr (cell_function w)) && (fst cell_range <? snd cell_range)
  then call_through (cell_function w)
         (cell_operation (object (dst w)) (object (src w)) cell_range)
  else ret tt.

Definition worker_face (w : MFWorker) (face_range : nat * nat) : Comp LoopState unit :=
  if negb (is_nullptr (face_function w)) && (fst face_range <? snd face_range)
  then call_through (face_function w)
         (face_operation (object (dst w)) (object (src w)) face_range)
  else ret tt.

Definition worker_boundary (w : MFWorker) (face_range : nat * nat)
  : Comp LoopState unit :=
  if negb (is_nullptr (boundary_function w)) && (fst face_range <? snd face_range)
  then call_through (boundary_function w)
         (boundary_operation (object (dst w)) (object (src w)) face_range)
  else ret tt.

Definition vector_update_ghosts_start (w : MFWorker) : Comp LoopState unit :=
  if negb (src_and_dst_are_same w)
  then update_ghost_values_start_all of_src (matrix_free w) (src w)
  else ret tt.

Definition vector_update_ghosts_finish (w : MFWorker) : Comp LoopState unit :=
  if negb (src_and_dst_are_same w)
  then update_ghost_values_finish_all of_src (matrix_free w) (src w)
  else ret tt.

Definition vector_compress_start (w : MFWorker) : Comp LoopState unit :=
  compress_start_all of_dst (matrix_free w) (dst w).

Definition vector_compress_finish (w : MFWorker) : Comp LoopState unit :=
  compress_finish_all of_dst (matrix_free w) (dst w) ;;
  if negb (src_and_dst_are_same w)
  then reset_ghost_values_all of_src (matrix_free w) (src w)
  else ret tt.

Definition zero_dst_vector_range (w : MFWorker) (range_index : Z)
  : Comp LoopState unit :=
  if zero_dst_vector_setting w
  then zero_vector_region_all (matrix_free w) range_index (dst w)
  else ret tt.

Definition worker_call (w : MFWorker) (c : WorkerCall) : Comp LoopState unit :=
  match c with
  | call_cell range => worker_cell w range
  | call_face range => worker_face w range
  | call_boundary range => worker_boundary w range
  | call_vector_update_ghosts_start => vector_update_ghosts_start w
  | call_vector_update_ghosts_finish => vector_update_ghosts_finish w
  | call_vector_compress_start => vector_compress_start w
  | call_vector_compress_finish => vector_compress_finish w
  | call_zero_dst_vector_range range_index => zero_dst_vector_range w range_index
  end.

(** Missing from the sources at hand: [TaskInfo::loop], which drives the
    worker through its virtual functions.  The sequence of the calls it
    makes is a parameter of the embedding. *)
Definition task_info_loop (schedule : list WorkerCall) (w : MFWorker)
  : Comp LoopState unit :=
  for_each schedule (worker_call w).

(** *** The loops of [MatrixFree]

    Each overload builds a worker, hands it to [task_info.loop] and
    destroys it (the exchangers in the reverse order of their construction)
    when the loop has returned. *)
Definition run_worker (schedule : list WorkerCall) (mf : MatrixFreeData)
    (src dst : VectorArg) (zero_dst_vector : bool)
    (cell face boundary : FunctionPointer)
    (src_vector_face_access dst_vector_face_access : DataAccessOnFaces)
  : Comp LoopState unit :=
  do worker <- MFWorker_new mf src dst zero_dst_vector cell face boundary
                 src_vector_face_access dst_vector_face_access;
  task_info_loop schedule worker ;;
  VectorDataExchange_delete of_dst ;;
  VectorDataExchange_delete of_src.

(** [cell_loop (cell_operation, dst, src, zero_dst_vector)] with a
    [std::function] *)
Definition cell_loop (schedule : list WorkerCall) (mf : MatrixFreeData)
    (cell_operation_nonempty : bool) (dst src : VectorArg)
    (zero_dst_vector : bool) : Comp LoopState unit :=
  run_worker schedule mf src dst zero_dst_vector
    (integrator cell_operation_nonempty) (integrator false) (integrator false)
    none none.

(** [loop (cell_operation, face_operation, boundary_operation, dst, src,
    zero_dst_vector, dst_vector_face_access, src_vector_face_access)] with
    [std::function]s *)
Definition loop (schedule : list WorkerCall) (mf : MatrixFreeData)
    (cell_nonempty face_nonempty boundary_nonempty : bool)
    (dst src : VectorArg) (zero_dst_vector : bool)
    (dst_vector_face_access src_vector_face_access : DataAccessOnFaces)
  : Comp LoopState unit :=
  run_worker schedule mf src dst zero_dst_vector
    (integrator cell_nonempty) (integrator face_nonempty)
    (integrator boundary_nonempty)
    src_vector_face_access dst_vector_face_access.

(** [cell_loop (function_pointer, owning_class, dst, src, zero_dst_vector)] *)
Definition cell_loop_member (schedule : list WorkerCall) (mf : MatrixFreeData)
    (dst src : VectorArg) (zero_dst_vector : bool) : Comp LoopState unit :=
  run_worker schedule mf src dst zero_dst_vector
    member_function nullptr nullptr none none.

(** [loop (cell_operation, face_operation, boundary_operation, owning_class,
    dst, src, zero_dst_vector, dst_vector_face_access,
    src_vector_face_access)] with pointers to member functions *)
Definition loop_member (schedule : list WorkerCall) (mf : MatrixFreeData)
    (cell face boundary : FunctionPointer)
    (dst src : VectorArg) (zero_dst_vector : bool)
    (dst_vector_face_access src_vector_face_access : DataAccessOnFaces)
  : Comp LoopState unit :=
  run_worker schedule mf src dst zero_dst_vector cell face boundary
    src_vector_face_access dst_vector_face_access.

End Loops.

(** ** The batches of cells and faces

    [internal::MatrixFreeFunctions::FaceToCellTopology]: the members read
    here.  Cells are named by their number, [numbers::invalid_unsigned_int]
    marks a lane without a cell. *)
Record FaceToCellTopology : Type := {
  cells_interior : list Z;
  cells_exterior : list Z;
  exterior_face_no : Z
}.

Definition no_face_batch : FaceToCellTopology :=
  {| cells_interior := []; cells_exterior := []; exterior_face_no := 0 |}.

(** The members of [MatrixFree] behind the questions about batches. *)
Record BatchLayout : Type := {
  (** [task_info.cell_partition_data], [face_partition_data] and
      [boundary_partition_data] *)
  cell_partition_data : list Z;
  face_partition_data : list Z;
  boundary_partition_data : list Z;
  (** [face_info.faces] *)
  faces : list FaceToCellTopology;
  (** [face_info.cell_and_face_boundary_id] and its first extent *)
  cell_and_face_boundary_id : nat -> nat -> nat -> Z;
  cell_and_face_boundary_id_size_0 : nat;
  cell_level_index : list (Z * Z);
  (** [dof_info.size ()] and [dof_info[0].cell_active_fe_index] *)
  n_dof_info : nat;
  cell_active_fe_index : list Z
}.

Section Batches.
Variable DEBUG : bool.
(** [VectorizedArray<Number>::n_array_elements] *)
Variable n_array_elements : nat.
Variable invalid_unsigned_int : Z.
(** [numbers::invalid_boundary_id] *)
Variable invalid_boundary_id : Z.
(** [GeometryInfo<dim>::faces_per_cell] *)
Variable faces_per_cell : nat.

(** [v.back ()], [*(v.end () - 2)] and [v[i]]: on a vector too short the
    source has no defined value, the embedding reads 0 *)
Definition back (v : list Z) : Z := nth (length v - 1) v 0%Z.
Definition before_back (v : list Z) : Z := nth (length v - 2) v 0%Z.

Definition n_macro_cells (l : BatchLayout) : Z :=
  before_back (cell_partition_data l).

Definition n_cell_batches (l : BatchLayout) : Z :=
  before_back (cell_partition_data l).

Definition n_ghost_cell_batches (l : BatchLayout) : Z :=
  DoFTools.uint_sub (back (cell_partition_data l))
                    (before_back (cell_partition_data l)).

Definition n_inner_face_batches (l : BatchLayout) : Z :=
  if length (face_partition_data l) =? 0 then 0%Z
  else back (face_partition_data l).

Definition n_boundary_face_batches (l : BatchLayout) : Z :=
  if length (face_partition_data l) =? 0 then 0%Z
  else DoFTools.uint_sub (back (boundary_partition_data l))
                         (back (face_partition_data l)).

(** the difference is taken on [std::size_t] and returned as an
    [unsigned int] *)
Definition n_ghost_inner_face_batches (l : BatchLayout) : Z :=
  if length (face_partition_data l) =? 0 then 0%Z
  else DoFTools.uint_sub (Z.of_nat (length (faces l)))
                         (back (boundary_partition_data l)).

(** the loop [while (n_components > 1 && same (n_components)) --n_components] *)
Fixpoint count_down (same : nat -> bool) (n_components : nat) : nat :=
  match n_components with
  | S (S _ as fewer) => if same n_components then count_down same fewer
                        else n_components
  | _ => n_components
  end.

Definition same_cell (a b : Z * Z) : bool :=
  (fst a =? fst b)%Z && (snd a =? snd b)%Z.

Definition cell_at (l : BatchLayout) (i : nat) : Z * Z :=
  nth i (cell_level_index l) (0%Z, 0%Z).

Definition n_active_entries_per_cell_batch {S} (l : BatchLayout)
    (cell_batch_number : nat) : Comp S nat :=
  AssertIndexRange DEBUG (Z.of_nat cell_batch_number)
                   (Z.to_nat (back (cell_partition_data l))) ;;
  let n_components :=
    count_down (fun n_components =>
                  same_cell
                    (cell_at l (cell_batch_number * n_array_elements
                                + n_components - 1))
                    (cell_at l (cell_batch_number * n_array_elements
                                + n_components - 2)))
               n_array_elements in
  AssertIndexRange DEBUG (DoFTools.uint_sub (Z.of_nat n_components) 1)
                   n_array_elements ;;
  ret n_components.

Definition n_components_filled {S} (l : BatchLayout) (cell_batch_number : nat)
  : Comp S nat :=
  n_active_entries_per_cell_batch l cell_batch_number.

Definition at_irregular_cell {S} (l : BatchLayout) (macro_cell : nat)
  : Comp S bool :=
  AssertIndexRange DEBUG (Z.of_nat macro_cell)
                   (Z.to_nat (back (cell_partition_data l))) ;;
  ret ((1 <? n_array_elements)
       && same_cell (cell_at l ((macro_cell + 1) * n_array_elements - 1))
                    (cell_at l ((macro_cell + 1) * n_array_elements - 2))).

Definition face_at (l : BatchLayout) (i : nat) : FaceToCellTopology :=
  nth i (faces l) no_face_batch.

Definition n_active_entries_per_face_batch {S} (l : BatchLayout)
    (face_batch_number : nat) : Comp S nat :=
  AssertIndexRange DEBUG (Z.of_nat face_batch_number) (length (faces l)) ;;
  let n_components :=
    count_down (fun n_components =>
                  (at_ (cells_interior (face_at l face_batch_number))
                       (n_components - 1)
                   =? invalid_unsigned_int)%Z)
               n_array_elements in
  AssertIndexRange DEBUG (DoFTools.uint_sub (Z.of_nat n_components) 1)
                   n_array_elements ;;
  ret n_components.

(** the loop condition calls [n_active_entries_per_cell_batch] in every
    round, with the same result; the embedding calls it once *)
Definition get_faces_by_cells_boundary_id {S} (l : BatchLayout)
    (macro_cell face_number : nat) : Comp S (list Z) :=
  AssertIndexRange DEBUG (Z.of_nat macro_cell) (Z.to_nat (n_macro_cells l)) ;;
  AssertIndexRange DEBUG (Z.of_nat face_number) faces_per_cell ;;
  Assert DEBUG (Z.to_nat (n_macro_cells l) <=? cell_and_face_boundary_id_size_0 l)
         ExcNotInitialized ;;
  let result := replicate n_array_elements invalid_boundary_id in
  do n <- n_active_entries_per_cell_batch l macro_cell;
  ret (fold_left (fun result v =>
                    <[v := cell_and_face_boundary_id l macro_cell face_number v]>
                      result)
                 (seq 0 n) result).

Definition get_cell_category {S} (l : BatchLayout) (macro_cell : nat)
  : Comp S Z :=
  AssertIndexRange DEBUG 0%Z (n_dof_info l) ;;
  AssertIndexRange DEBUG (Z.of_nat macro_cell)
                   (length (cell_active_fe_index l)) ;;
  if length (cell_active_fe_index l) =? 0 then ret 0%Z
  else ret (at_ (cell_active_fe_index l) macro_cell).

(** the cells a loop [for (v = 0; v < n_array_elements && cells[v] !=
    invalid_unsigned_int; ++v)] runs through *)
Fixpoint leading_cells (lanes : nat) (cells : list Z) : list Z :=
  match lanes, cells with
  | S lanes', c :: cells' =>
      if (c =? invalid_unsigned_int)%Z then []
      else c :: leading_cells lanes' cells'
  | _, _ => []
  end.

Definition get_face_category {S} (l : BatchLayout) (macro_face : nat)
  : Comp S (Z * Z) :=
  AssertIndexRange DEBUG (Z.of_nat macro_face) (length (faces l)) ;;
  if length (cell_active_fe_index l) =? 0 then ret (0%Z, 0%Z)
  else
    let face := face_at l macro_face in
    let fe_index (c : Z) := at_ (cell_active_fe_index l) (Z.to_nat c) in
    let first :=
      fold_left (fun first c => Z.max first (fe_index c))
                (leading_cells n_array_elements (cells_interior face)) 0%Z in
    let second :=
      if negb (at_ (cells_exterior face) 0 =? invalid_unsigned_int)%Z
      then fold_left (fun second c => Z.max first (fe_index c))
                     (leading_cells n_array_elements (cells_exterior face)) 0%Z
      else invalid_unsigned_int in
    ret (first, second).

End Batches.

End MatrixFree.
(** * Vocabulary of the statements *)

(** [inserts_in ent rest m P]: the computation [m] returns normally, adds to
    the entries [ent] of the state exactly those described by [P], and
    leaves the part [rest] of the state as it was. *)
Definition inserts_in {S : Type} {R : Type} (ent : S -> gset (Z * Z)) (rest : S -> R)
    (m : Comp S unit) (P : Z * Z -> Prop) : Prop :=
  forall s, exists s', m s = (Done tt, s')
    /\ rest s' = rest s
    /\ forall p, p ∈ ent s' <-> p ∈ ent s \/ P p.

(** on a sparsity pattern *)
Definition inserts : Comp SparsityPattern unit -> (Z * Z -> Prop) -> Prop :=
  inserts_in entries (fun sp => (n_rows sp, n_cols sp)).

Section SparsityVocabulary.
Context {W : Type} `{Weight W}.

(** the entries coupled on the cells: [(d_i, d_j)] for the DoFs of a cell *)
Definition cell_coupling (dof : @DoFTools.DoFHandler W) (p : Z * Z) : Prop :=
  exists c, c ∈ DoFTools.active_cells dof /\
  exists i, i < DoFTools.dofs_per_cell (DoFTools.get_fe dof) /\
  exists j, j < DoFTools.dofs_per_cell (DoFTools.get_fe dof) /\
    p = (at_ (DoFTools.dof_indices (DoFTools.cell dof c)) i,
         at_ (DoFTools.dof_indices (DoFTools.cell dof c)) j).

End SparsityVocabulary.

Section FluxVocabulary.
Context {W : Type} `{Weight W}.

(** the faces of the mesh that do not lie on the boundary *)
Definition interior_faces (geo : GeometryInfo) (dof : @DoFTools.DoFHandler W)
  : gset nat :=
  list_to_set
    (flat_map (fun c =>
       flat_map (fun f =>
                   if DoFTools.at_boundary (DoFTools.cell dof c) f then []
                   else [DoFTools.face (DoFTools.cell dof c) f])
                (seq 0 (faces_per_cell geo)))
       (DoFTools.active_cells dof)).

(** A uniform mesh without hanging nodes: across every interior face of an
    active cell lies a cell that is not coarser and not refined, and that
    sees the same face object from its side. *)
Definition uniform_mesh (geo : GeometryInfo) (dof : @DoFTools.DoFHandler W)
  : Prop :=
  forall c f, c ∈ DoFTools.active_cells dof -> f < faces_per_cell geo ->
    DoFTools.at_boundary (DoFTools.cell dof c) f = false ->
    let this := DoFTools.cell dof c in
    let other := DoFTools.cell dof (DoFTools.neighbor this f) in
    DoFTools.level this <= DoFTools.level other
    /\ DoFTools.has_children other = false
    /\ DoFTools.face other (DoFTools.neighbor_of_neighbor this f)
       = DoFTools.face this f.

(** the couplings between two cells, in both directions, over the full
    cross product of their local DoFs *)
Definition coupled_both_ways (dof : @DoFTools.DoFHandler W) (this other : nat)
    (ents : gset (Z * Z)) : Prop :=
  forall i j, i < DoFTools.dofs_per_cell (DoFTools.get_fe dof) ->
              j < DoFTools.dofs_per_cell (DoFTools.get_fe dof) ->
    (at_ (DoFTools.dof_indices (DoFTools.cell dof this)) i,
     at_ (DoFTools.dof_indices (DoFTools.cell dof other)) j) ∈ ents
    /\ (at_ (DoFTools.dof_indices (DoFTools.cell dof other)) i,
        at_ (DoFTools.dof_indices (DoFTools.cell dof this)) j) ∈ ents.

(** [other] is the neighbour of the active cell [this] across its interior
    face [fc] *)
Definition neighbours_across (geo : GeometryInfo) (dof : @DoFTools.DoFHandler W)
    (this other fc : nat) : Prop :=
  this ∈ DoFTools.active_cells dof /\
  exists f, f < faces_per_cell geo
    /\ DoFTools.at_boundary (DoFTools.cell dof this) f = false
    /\ other = DoFTools.neighbor (DoFTools.cell dof this) f
    /\ fc = DoFTools.face (DoFTools.cell dof this) f.

(** the face recorded with a coupled pair of cells *)
Definition flagged_face (item : nat * nat * nat) : nat := snd item.

Definition flux_entries (st : DoFTools.FluxState) : gset (Z * Z) :=
  entries (DoFTools.sparsity st).

Definition flux_rest (st : DoFTools.FluxState) :=
  (DoFTools.user_flags st, DoFTools.coupled st,
   n_rows (DoFTools.sparsity st), n_cols (DoFTools.sparsity st)).

(** the invariant of the traversal *)
Definition flux_inv (geo : GeometryInfo) (dof : @DoFTools.DoFHandler W)
    (st : DoFTools.FluxState) : Prop :=
  (forall x, x ∈ DoFTools.user_flags st
             <-> x ∈ map flagged_face (DoFTools.coupled st))
  /\ NoDup (map flagged_face (DoFTools.coupled st))
  /\ (forall x, x ∈ map flagged_face (DoFTools.coupled st) ->
                x ∈ interior_faces geo dof)
  /\ (forall this other fc, (this, other, fc) ∈ DoFTools.coupled st ->
        coupled_both_ways dof this other (flux_entries st))
  /\ (forall this other fc, (this, other, fc) ∈ DoFTools.coupled st ->
        neighbours_across geo dof this other fc).

(** ** Meshes with hanging nodes *)

(** The pairs of cells coupled when the face [f] of the cell [c] is
    processed, each with the face that is flagged for it: none on the
    boundary and none towards a coarser neighbour; the neighbour with its
    side of the face if it is not refined; and if it is, each of its
    children behind the face with the child's side of it. *)
Definition couplings_across (geo : GeometryInfo) (dof : @DoFTools.DoFHandler W)
    (c f : nat) : list (nat * nat * nat) :=
  let this := DoFTools.cell dof c in
  let nb := DoFTools.neighbor this f in
  let neighbor_face := DoFTools.neighbor_of_neighbor this f in
  if DoFTools.at_boundary this f then []
  else if DoFTools.level (DoFTools.cell dof nb) <? DoFTools.level this then []
  else if DoFTools.has_children (DoFTools.cell dof nb) then
    map (fun sub_nr =>
           let sub_neighbor :=
             DoFTools.child (DoFTools.cell dof nb)
                            (child_cell_on_face geo neighbor_face sub_nr) in
           (c, sub_neighbor,
            DoFTools.face (DoFTools.cell dof sub_neighbor) neighbor_face))
        (seq 0 (subfaces_per_face geo))
  else [(c, nb, DoFTools.face (DoFTools.cell dof nb) neighbor_face)].

Definition faces_coupled (geo : GeometryInfo) (dof : @DoFTools.DoFHandler W)
    (c f : nat) : list nat :=
  map flagged_face (couplings_across geo dof c f).

(** the faces between two active cells: the faces of active cells that do
    not lie on the boundary and behind which the neighbour is not refined *)
Definition fine_interior_faces (geo : GeometryInfo) (dof : @DoFTools.DoFHandler W)
  : gset nat :=
  list_to_set
    (flat_map (fun c =>
       flat_map (fun f =>
                   let this := DoFTools.cell dof c in
                   if DoFTools.at_boundary this f
                      || DoFTools.has_children
                           (DoFTools.cell dof (DoFTools.neighbor this f))
                   then []
                   else [DoFTools.face this f])
                (seq 0 (faces_per_cell geo)))
       (DoFTools.active_cells dof)).

(** the traversal comes to the face [f] of the cell [c] *)
Definition visit (geo : GeometryInfo) (dof : @DoFTools.DoFHandler W)
    (c f : nat) : Prop :=
  c ∈ DoFTools.active_cells dof /\ f < faces_per_cell geo.

(** behind the interior face [f] of [c] lies a cell that is not coarser and
    not refined *)
Definition plain_across (dof : @DoFTools.DoFHandler W) (c f : nat) : Prop :=
  let this := DoFTools.cell dof c in
  let other := DoFTools.cell dof (DoFTools.neighbor this f) in
  DoFTools.at_boundary this f = false
  /\ DoFTools.level this <= DoFTools.level other
  /\ DoFTools.has_children other = false.

(** behind the interior face [f] of [c] lies a refined cell that is not
    coarser: the face has hanging nodes and [c] is on its coarser side *)
Definition refined_across (dof : @DoFTools.DoFHandler W) (c f : nat) : Prop :=
  let this := DoFTools.cell dof c in
  let other := DoFTools.cell dof (DoFTools.neighbor this f) in
  DoFTools.at_boundary this f = false
  /\ DoFTools.level this <= DoFTools.level other
  /\ DoFTools.has_children other = true.

(** behind the interior face [f] of [c] lies a coarser cell, which is not
    refined: [c] is on the finer side of a face with hanging nodes *)
Definition coarser_across (dof : @DoFTools.DoFHandler W) (c f : nat) : Prop :=
  let this := DoFTools.cell dof c in
  let other := DoFTools.cell dof (DoFTools.neighbor this f) in
  DoFTools.at_boundary this f = false
  /\ DoFTools.level other < DoFTools.level this
  /\ DoFTools.has_children other = false.

(** A mesh that may have hanging nodes.  Every active cell is visited once.
    An unrefined neighbour on the same level sees the same face object from
    its side.  Where a face has hanging nodes, the face of the coarser cell
    is no face between two active cells, while the faces of the children
    behind it are such faces and are pairwise different, and the face of a
    child towards its coarser neighbour is one of them.  Two different
    visits come to the same face between active cells only from its two
    sides. *)
Definition hanging_node_mesh (geo : GeometryInfo) (dof : @DoFTools.DoFHandler W)
  : Prop :=
  NoDup (DoFTools.active_cells dof)
  /\ (forall c f, visit geo dof c f -> plain_across dof c f ->
        let this := DoFTools.cell dof c in
        DoFTools.face (DoFTools.cell dof (DoFTools.neighbor this f))
                      (DoFTools.neighbor_of_neighbor this f)
        = DoFTools.face this f)
  /\ (forall c f, visit geo dof c f -> refined_across dof c f ->
        DoFTools.face (DoFTools.cell dof c) f ∉ fine_interior_faces geo dof)
  /\ (forall c f, visit geo dof c f -> refined_across dof c f ->
        forall x, x ∈ faces_coupled geo dof c f -> x ∈ fine_interior_faces geo dof)
  /\ (forall c f, visit geo dof c f -> refined_across dof c f ->
        NoDup (faces_coupled geo dof c f))
  /\ (forall c f, visit geo dof c f -> coarser_across dof c f ->
        exists c' f', visit geo dof c' f'
          /\ DoFTools.face (DoFTools.cell dof c) f ∈ faces_coupled geo dof c' f')
  /\ (forall c f c' f' x,
        visit geo dof c f -> visit geo dof c' f' -> (c, f) <> (c', f') ->
        x ∈ faces_coupled geo dof c f -> x ∈ faces_coupled geo dof c' f' ->
        DoFTools.face (DoFTools.cell dof c') f' ∈ faces_coupled geo dof c f).

(** The invariant of the traversal of such a mesh, after the visits
    [done]: the flagged faces are those recorded with the coupled pairs,
    pairwise different, and faces between active cells; each recorded pair
    is coupled in both directions and stems from a visit done; and the
    faces of the pairs that a visit done couples are flagged. *)
Definition flux_progress (geo : GeometryInfo) (dof : @DoFTools.DoFHandler W)
    (done : nat -> nat -> Prop) (st : DoFTools.FluxState) : Prop :=
  (forall x, x ∈ DoFTools.user_flags st
             <-> x ∈ map flagged_face (DoFTools.coupled st))
  /\ NoDup (map flagged_face (DoFTools.coupled st))
  /\ (forall x, x ∈ map flagged_face (DoFTools.coupled st) ->
                x ∈ fine_interior_faces geo dof)
  /\ (forall this other fc, (this, other, fc) ∈ DoFTools.coupled st ->
        coupled_both_ways dof this other (flux_entries st))
  /\ (forall item, item ∈ DoFTools.coupled st ->
        exists c f, done c f /\ visit geo dof c f
                    /\ item ∈ couplings_across geo dof c f)
  /\ (forall c f, done c f -> visit geo dof c f ->
        forall x, x ∈ faces_coupled geo dof c f -> x ∈ DoFTools.user_flags st).

End FluxVocabulary.

Section HangingNodeVocabulary.
Context {W : Type} `{Weight W}.
Variable geo : GeometryInfo.
Variable dof_handler : @DoFTools.DoFHandler W.

(** a line is marked when it has children and is a face of an active cell *)
Definition marked_line (l : nat) : bool :=
  DoFTools.face_has_children (DoFTools.face_obj dof_handler l)
  && existsb (fun c =>
       existsb (fun f => DoFTools.face (DoFTools.cell dof_handler c) f =? l)
               (seq 0 (faces_per_cell geo)))
       (DoFTools.active_cells dof_handler).

(** the DoFs of a vertex of a line, and of the interior of a line *)
Definition vertex_block (fe : @DoFTools.FiniteElement W)
    (line : DoFTools.FaceAccessor) (vertex : nat) : list Z :=
  map (DoFTools.vertex_dof_index line vertex) (seq 0 (DoFTools.dofs_per_vertex fe)).

Definition line_block (fe : @DoFTools.FiniteElement W)
    (line : DoFTools.FaceAccessor) : list Z :=
  map (DoFTools.dof_index line) (seq 0 (DoFTools.dofs_per_line fe)).

(** mother DoFs, as the claim words them: the two end-vertex blocks, then
    the block of the interior of the line *)
Definition mother_dofs_claimed (l : nat) : list Z :=
  let fe := DoFTools.get_fe dof_handler in
  let line := DoFTools.face_obj dof_handler l in
  vertex_block fe line 0 ++ vertex_block fe line 1 ++ line_block fe line.

(** child DoFs, as the claim words them: the block of the centre vertex
    (vertex 1 of child 0), then the interior blocks of child 0 and child 1 *)
Definition child_dofs_claimed (l : nat) : list Z :=
  let fe := DoFTools.get_fe dof_handler in
  let line := DoFTools.face_obj dof_handler l in
  let child n := DoFTools.face_obj dof_handler (DoFTools.face_child line n) in
  vertex_block fe (child 0) 1 ++ line_block fe (child 0) ++ line_block fe (child 1).

(** one constraint line: the child DoF of row [row], with one entry per
    mother DoF, weighted by the table at (row, i) *)
Definition constraint_line_claimed (l : nat) (row : nat)
  : list (ConstraintCall W) :=
  let table := DoFTools.constraints (DoFTools.get_fe dof_handler) in
  add_line (at_ (child_dofs_claimed l) row)
  :: map (fun i => add_entry (at_ (child_dofs_claimed l) row)
                             (at_ (mother_dofs_claimed l) i)
                             (el table row i))
         (seq 0 (length (mother_dofs_claimed l))).

Definition constraints_of_line_claimed (l : nat) : list (ConstraintCall W) :=
  flat_map (constraint_line_claimed l) (seq 0 (length (child_dofs_claimed l))).

(** the table of the element has one row per child DoF and one column per
    mother DoF *)
Definition table_matches : Prop :=
  let fe := DoFTools.get_fe dof_handler in
  2 * DoFTools.dofs_per_vertex fe + DoFTools.dofs_per_line fe
    = fm_n (DoFTools.constraints fe)
  /\ DoFTools.dofs_per_vertex fe + 2 * DoFTools.dofs_per_line fe
    = fm_m (DoFTools.constraints fe).

(** the calls made on the constraint matrix for all marked lines *)
Definition constraints_of_lines_claimed (lines : list nat)
  : list (ConstraintCall W) :=
  flat_map (fun l => if marked_line l then constraints_of_line_claimed l else [])
           lines.

Definition append_calls (calls : list (ConstraintCall W))
    (st : DoFTools.HangingNodeState) : DoFTools.HangingNodeState :=
  {| DoFTools.constraint_matrix := DoFTools.constraint_matrix st ++ calls;
     DoFTools.line_flags := DoFTools.line_flags st |}.

End HangingNodeVocabulary.

(** [appends emit m calls]: the computation [m] returns normally and its
    only effect is to append [calls], as [emit] does *)
Definition appends {S C : Type} (emit : list C -> S -> S)
    (m : Comp S unit) (calls : list C) : Prop :=
  forall s, m s = (Done tt, emit calls s).

Section IntergridVocabulary.
Context {W : Type} `{Weight W}.

(** [v != 0] *)
Definition nonzero (v : W) : bool := negb (w_eqb v w_zero).

(** the global parameter representation computed for the local DoF
    [local_parameter_dof] of the coarse cell [c] *)
Definition representation (fine_grid : @DoFTools.DoFHandler W)
    (coarse_to_fine_grid_map : nat -> nat) (parameter_dofs : list (list W))
    (c local_parameter_dof : nat) : list W :=
  DoFTools.set_dof_values_by_interpolation
    (DoFTools.cell fine_grid (coarse_to_fine_grid_map c))
    (nth local_parameter_dof parameter_dofs [])
    (replicate (Z.to_nat (DoFTools.n_dofs fine_grid)) w_zero).

(** The values computed for the positions of the weight matrix, in the
    order of the traversal: for every coarse cell, every local DoF of the
    selected component and every fine DoF [i] that is a parameter DoF, the
    position (row, column) and the entry [i] of the representation. *)
Definition computed_values
    (coarse_grid : @DoFTools.DoFHandler W) (coarse_component : nat)
    (fine_grid : @DoFTools.DoFHandler W) (coarse_to_fine_grid_map : nat -> nat)
    (parameter_dofs : list (list W)) (weight_mapping : list Z)
  : list (nat * nat * W) :=
  flat_map (fun c =>
    flat_map (fun local_parameter_dof =>
      if DoFTools.system_to_component_index_first (DoFTools.get_fe coarse_grid)
           local_parameter_dof =? coarse_component
      then
        let v := representation fine_grid coarse_to_fine_grid_map
                                parameter_dofs c local_parameter_dof in
        flat_map (fun i =>
          if negb (at_ weight_mapping i =? -1)%Z
          then [(Z.to_nat (at_ (DoFTools.dof_indices (DoFTools.cell coarse_grid c))
                               local_parameter_dof),
                 Z.to_nat (at_ weight_mapping i),
                 DoFTools.vat v i)]
          else [])
          (seq 0 (length v))
      else [])
      (seq 0 (DoFTools.dofs_per_cell (DoFTools.get_fe coarse_grid))))
    (DoFTools.active_cells coarse_grid).

(** the values computed for the position (r, c), in order *)
Definition values_computed_for (r c : nat) (computed : list (nat * nat * W))
  : list W :=
  map snd (filter (fun e => fst e = (r, c)) computed).

(** the last nonzero value of a list, if it has one *)
Definition last_nonzero (vs : list W) : option W :=
  last (filter (fun v => nonzero v = true) vs).

(** the representation vanishes on the fine DoFs that are not parameter
    DoFs (what the checked build asserts) *)
Definition representation_confined
    (coarse_grid : @DoFTools.DoFHandler W) (coarse_component : nat)
    (fine_grid : @DoFTools.DoFHandler W) (coarse_to_fine_grid_map : nat -> nat)
    (parameter_dofs : list (list W)) (weight_mapping : list Z) : Prop :=
  forall c local_parameter_dof i,
    c ∈ DoFTools.active_cells coarse_grid ->
    DoFTools.system_to_component_index_first (DoFTools.get_fe coarse_grid)
      local_parameter_dof = coarse_component ->
    at_ weight_mapping i = (-1)%Z ->
    w_eqb (DoFTools.vat (representation fine_grid coarse_to_fine_grid_map
                           parameter_dofs c local_parameter_dof) i)
          w_zero = true.

(** one assignment of the loop: [weights(r, c) = v] unless [v] is zero *)
Definition store_nonzero (e : nat * nat * W) (A : FullMatrix W) : FullMatrix W :=
  if nonzero (snd e) then fm_set (fst (fst e)) (snd (fst e)) (snd e) A else A.

Definition store_all (es : list (nat * nat * W)) (A : FullMatrix W)
  : FullMatrix W :=
  fold_left (fun A e => store_nonzero e A) es A.









End IntergridVocabulary.

(** the largest entry of the mapping that is not the invalid index, as the
    checked build of the variant with boundary indicators computes it *)
Definition max_valid_element (invalid : Z) (mapping : list Z) : Z :=
  fold_left (fun m i => if negb (i =? invalid)%Z && (m <? i)%Z then i else m)
            mapping 0%Z.

Section ScratchPadVocabulary.
Variable DEBUG : bool.
Variable new_address : list nat -> nat.

(** the buffers of a pad have pairwise different addresses *)
Definition pad_wf (data : list MatrixFree.ScratchItem) : Prop :=
  NoDup (map MatrixFree.second data).

(** a call on the pad *)
Inductive PadCall : Type :=
| Acquire
| Release (p : nat).

(** the pad after a call, whether it raised or not *)
Definition pad_after (data : list MatrixFree.ScratchItem) (c : PadCall)
  : list MatrixFree.ScratchItem :=
  match c with
  | Acquire => state_of (MatrixFree.acquire_scratch_data new_address data)
  | Release p => state_of (MatrixFree.release_scratch_data DEBUG p data)
  end.

Definition pad_after_all (calls : list PadCall)
    (data : list MatrixFree.ScratchItem) : list MatrixFree.ScratchItem :=
  fold_left pad_after calls data.

End ScratchPadVocabulary.

Section LoopVocabulary.
Import MatrixFree.

(** the calls that set a vector, or a part of it, to zero *)
Definition is_zeroing (c : Call) : bool :=
  match c with
  | on_vector _ assign_zero | on_vector _ (memset_zero _ _) => true
  | _ => false
  end.

(** the calls that start or finish an update of ghost values *)
Definition is_ghost_update (c : Call) : bool :=
  match c with
  | on_vector _ (update_ghost_values_start _)
  | on_vector _ update_ghost_values_finish
  | on_vector _ (export_to_ghosted_array_start _ _ _)
  | on_vector _ (export_to_ghosted_array_finish _) => true
  | _ => false
  end.

(** the calls that start an update of ghost values *)
Definition is_ghost_start (c : Call) : bool :=
  match c with
  | on_vector _ (update_ghost_values_start _)
  | on_vector _ (export_to_ghosted_array_start _ _ _) => true
  | _ => false
  end.

(** the calls that reset ghost values: they zero ghost entries *)
Definition is_ghost_reset (c : Call) : bool :=
  match c with
  | on_vector _ zero_out_ghosts
  | on_vector _ (set_local_element_zero _) => true
  | _ => false
  end.

(** the calls that start or finish a compression *)
Definition is_compress (c : Call) : bool :=
  match c with
  | on_vector _ (compress_start _)
  | on_vector _ compress_finish
  | on_vector _ (import_from_ghosted_array_start _ _ _)
  | on_vector _ (import_from_ghosted_array_finish _ _) => true
  | _ => false
  end.

(** the calls of the user's functions *)
Definition is_user (c : Call) : bool :=
  match c with
  | on_vector _ _ => false
  | _ => true
  end.

(** some distributed vector of the argument has ghost elements *)
Definition had_ghosts (st : LoopState) (a : VectorArg) : bool :=
  existsb (fun c => distributed c && has_ghost_elements (vectors st (vec c)))
          (components a).

(** the reset of the ghost values of every distributed vector of the
    argument *)
Definition ghost_resets (a : VectorArg) : list Call :=
  map (fun c => on_vector (vec c) zero_out_ghosts)
      (filter (fun c => distributed c = true) (components a)).

(** the vectors after a sequence of calls *)
Definition after_calls (effect : Call -> (nat -> DistributedVector) -> nat -> DistributedVector)
    (cs : list Call) (vs : nat -> DistributedVector) : nat -> DistributedVector :=
  fold_left (fun vs c => effect c vs) cs vs.

(** [trace_step effect P s s']: from [s] to [s'] calls allowed by [P] were
    made, and the vectors changed through these calls only *)
Definition trace_step (effect : Call -> (nat -> DistributedVector) -> nat -> DistributedVector)
    (P : Call -> bool) (s s' : LoopState) : Prop :=
  exists new, calls s' = calls s ++ new /\ forallb P new = true
              /\ vectors s' = after_calls effect new (vectors s).

(** the flag [ghosts_were_set] and the access mode of the exchanger of the
    source stay what they were *)
Definition src_flag_kept (s s' : LoopState) : Prop :=
  ghosts_were_set (src_data_exchanger s') = ghosts_were_set (src_data_exchanger s)
  /\ vector_face_access (src_data_exchanger s')
     = vector_face_access (src_data_exchanger s).

(** the relations that the steps of a worker maintain *)
Inductive Kept : Type := trace (P : Call -> bool) | src_flag.

Definition kept (effect : Call -> (nat -> DistributedVector) -> nat -> DistributedVector)
    (k : Kept) : LoopState -> LoopState -> Prop :=
  match k with
  | trace P => trace_step effect P
  | src_flag => src_flag_kept
  end.

(** a call allowed by the relation *)
Definition allows (k : Kept) (c : Call) : Prop :=
  match k with
  | trace P => P c = true
  | src_flag => True
  end.

(** [maintains R m]: [R] relates every state to the one [m] leaves,
    whether [m] returns or raises *)
Definition maintains {A} (R : LoopState -> LoopState -> Prop)
    (m : Comp LoopState A) : Prop :=
  forall s, R s (state_of (m s)).

(** starting an exchange does not change which vectors are ghosted *)
Definition start_keeps_ghost_state
    (effect : Call -> (nat -> DistributedVector) -> nat -> DistributedVector) : Prop :=
  forall c vs u,
    is_ghost_start c = true ->
    has_ghost_elements (effect c vs u) = has_ghost_elements (vs u).

(** the worker that the constructor builds *)
Definition built_worker (mf : MatrixFreeData) (src dst : VectorArg)
    (zero_dst_vector : bool) (cell face boundary : FunctionPointer) : MFWorker :=
  {| matrix_free := mf; cell_function := cell; face_function := face;
     boundary_function := boundary; src := src; dst := dst;
     src_and_dst_are_same := object src =? object dst;
     zero_dst_vector_setting := zero_dst_vector && negb (object src =? object dst) |}.

(** the schedule of a loop that starts the update of the ghost values once,
    at its beginning, and finishes the compression once, at its end *)
Definition well_bracketed (schedule : list WorkerCall) : Prop :=
  exists mid,
    schedule = call_vector_update_ghosts_start :: mid ++ [call_vector_compress_finish]
    /\ (call_vector_update_ghosts_start ∉ mid)
    /\ (call_vector_compress_finish ∉ mid).

End LoopVocabulary.

(** * Example data *)

(** Weights as rationals, compared and added exactly. *)
#[export] Instance Q_Weight : Weight Q :=
  {| w_zero := 0%Q; w_one := 1%Q; w_eqb := Qeq_bool; w_add := Qplus |}.

(** an allocator: one past the largest address alive *)
Definition bump_allocator (alive : list nat) : nat := S (list_max alive).

Module Examples.
Import DoFTools.

(** the constraint table of a bilinear element on a refined line: the new
    mid-line vertex is the mean of the two end vertices *)
Definition q1_constraints : FullMatrix Q :=
  {| fm_m := 1; fm_n := 2; el := fun _ _ => (1 # 2)%Q |}.

Definition q1 : FiniteElement :=
  {| dofs_per_vertex := 1; dofs_per_line := 0; dofs_per_face := 2;
     dofs_per_cell := 4; n_components := 1;
     system_to_component_index_first := fun _ => 0;
     component_to_system_index := fun _ i => i;
     base_element := fun _ => 0;
     base_element_dofs_per_cell := fun _ => 4;
     constraints := q1_constraints |}.

(** the constraint table of a biquadratic element on a refined line, three
    rows (the centre vertex and the interiors of the two children) by three
    columns (the two end vertices and the interior of the line) *)
Definition q2_constraints : FullMatrix Q :=
  {| fm_m := 3; fm_n := 3;
     el := fun r c =>
       nth c (nth r [[0; 0; 1]; [3 # 8; - (1 # 8); 3 # 4];
                     [- (1 # 8); 3 # 8; 3 # 4]]%Q []) 0%Q |}.

(** An element with the DoFs of the bilinear one, one per vertex, that
    carries the table of the biquadratic one: one child DoF and two mother
    DoFs on a refined line, against three rows and three columns. *)
Definition q1_with_q2_table : FiniteElement :=
  {| dofs_per_vertex := 1; dofs_per_line := 0; dofs_per_face := 2;
     dofs_per_cell := 4; n_components := 1;
     system_to_component_index_first := fun _ => 0;
     component_to_system_index := fun _ i => i;
     base_element := fun _ => 0;
     base_element_dofs_per_cell := fun _ => 4;
     constraints := q2_constraints |}.

Definition quad : GeometryInfo :=
  {| faces_per_cell := 4; subfaces_per_face := 2;
     child_cell_on_face := fun f s =>
       nth s (nth f [[0; 1]; [1; 2]; [3; 2]; [0; 3]] []) 0 |}.

Definition no_interpolation : list Q -> list Q -> list Q := fun _ v => v.

(** Two squares side by side (faces: 0 bottom, 1 right, 2 top, 3 left);
    the right face of cell 0 is the left face of cell 1, line 1.

<<
      2-----3-----5
      |  0  |  1  |
      0-----1-----4
>> *)
Definition two_cells_cell (c : nat) : CellAccessor :=
  match c with
  | 0 => {| level := 0; has_children := false; dof_indices := [0; 1; 2; 3]%Z;
            face := fun f => nth f [0; 1; 2; 3] 0;
            at_boundary := fun f => negb (f =? 1);
            neighbor := fun _ => 1; neighbor_of_neighbor := fun _ => 3;
            child := fun _ => 0;
            set_dof_values_by_interpolation := no_interpolation |}
  | _ => {| level := 0; has_children := false; dof_indices := [1; 4; 3; 5]%Z;
            face := fun f => nth f [4; 5; 6; 1] 0;
            at_boundary := fun f => negb (f =? 3);
            neighbor := fun _ => 0; neighbor_of_neighbor := fun _ => 1;
            child := fun _ => 0;
            set_dof_values_by_interpolation := no_interpolation |}
  end.

Definition two_cells_face (f : nat) : FaceAccessor :=
  let dofs := nth f [[0; 1]; [1; 3]; [2; 3]; [0; 2]; [1; 4]; [4; 5]; [3; 5]]%Z [] in
  {| face_at_boundary := negb (f =? 1); boundary_indicator := 0;
     face_dof_indices := dofs;
     face_has_children := false; face_child := fun _ => 0;
     vertex_dof_index := fun v _ => at_ dofs v;
     dof_index := fun _ => 0%Z |}.

Definition two_cells : DoFHandler :=
  {| get_fe := q1; n_dofs := 6; n_boundary_dofs := 6;
     n_boundary_dofs_on := fun _ => 6%Z;
     invalid_dof_index := 4294967295;
     cell := two_cells_cell; active_cells := [0; 1];
     face_obj := two_cells_face; active_faces := [0; 1; 2; 3; 4; 5; 6];
     all_lines := [0; 1; 2; 3; 4; 5; 6] |}.

(** One cell with three DoFs on each of its faces; face 0 lies on the
    boundary (indicator 0) and carries the DoFs 0, 1, 2. *)
Definition q2_face : FiniteElement :=
  {| dofs_per_vertex := 1; dofs_per_line := 1; dofs_per_face := 3;
     dofs_per_cell := 9; n_components := 1;
     system_to_component_index_first := fun _ => 0;
     component_to_system_index := fun _ i => i;
     base_element := fun _ => 0;
     base_element_dofs_per_cell := fun _ => 9;
     constraints := q1_constraints |}.

Definition one_boundary_face : DoFHandler :=
  {| get_fe := q2_face; n_dofs := 3; n_boundary_dofs := 3;
     n_boundary_dofs_on := fun _ => 3%Z;
     invalid_dof_index := 4294967295;
     cell := two_cells_cell; active_cells := [];
     face_obj := fun _ =>
       {| face_at_boundary := true; boundary_indicator := 0;
          face_dof_indices := [0; 1; 2]%Z;
          face_has_children := false; face_child := fun _ => 0;
          vertex_dof_index := fun _ _ => 0%Z; dof_index := fun _ => 0%Z |};
     active_faces := [0];
     all_lines := [0] |}.

(** The square 0 next to a refined square: the right face of cell 0, line 1
    from DoF 1 to DoF 3, has the children 7 (DoF 1 to the new DoF 6) and 8
    (DoF 6 to DoF 3), which are the left faces of the active children 2 and
    5 of the refined neighbour.

<<
      2-----3--+--+
      |     8  |5 |
      |  0  6--+--+
      |     7  |2 |
      0-----1--+--+
>> *)
Definition refined_neighbour_cell (c : nat) : CellAccessor :=
  {| level := if c =? 0 then 0 else 1; has_children := false;
     dof_indices := nth c [[0; 1; 2; 3]; []; [1; 7; 6; 8]; []; []; [6; 8; 3; 9]]%Z [];
     face := fun f =>
       nth f (nth c [[0; 1; 2; 3]; []; [4; 9; 10; 7]; []; []; [11; 12; 6; 8]] []) 0;
     at_boundary := fun f => negb (f =? (if c =? 0 then 1 else 3));
     neighbor := fun _ => if c =? 0 then 1 else 0;
     neighbor_of_neighbor := fun _ => if c =? 0 then 3 else 1;
     child := fun _ => 0;
     set_dof_values_by_interpolation := no_interpolation |}.

Definition refined_neighbour_line (l : nat) : FaceAccessor :=
  let ends := nth l [[0; 1]; [1; 3]; [2; 3]; [0; 2]; [1; 7]; []; [6; 8];
                     [1; 6]; [6; 3]; [7; 8]; [6; 8]]%Z [] in
  {| face_at_boundary := negb ((l =? 1) || (l =? 7) || (l =? 8));
     boundary_indicator := 0;
     face_dof_indices := ends;
     face_has_children := l =? 1;
     face_child := fun n => if n =? 0 then 7 else 8;
     vertex_dof_index := fun v _ => at_ ends v;
     dof_index := fun _ => 0%Z |}.

Definition refined_neighbour (fe : FiniteElement) : DoFHandler :=
  {| get_fe := fe; n_dofs := 10; n_boundary_dofs := 8;
     n_boundary_dofs_on := fun _ => 8%Z;
     invalid_dof_index := 4294967295;
     cell := refined_neighbour_cell; active_cells := [0; 2; 5];
     face_obj := refined_neighbour_line;
     active_faces := [0; 2; 3; 4; 7; 8; 9; 10];
     all_lines := [0; 1; 2; 3; 4; 7; 8; 9; 10] |}.

(** A coarse grid of two intervals with the DoFs 0, 1, 2 at its vertices,
    and the fine grid obtained by refining both intervals once, with the
    DoFs 0 .. 4 from left to right; linear elements.  The fine grid keeps
    the two intervals as the refined cells 0 and 1; their children 2 .. 5
    are active.  Interpolating from a refined cell gives the new mid-point
    the mean of the two end values.

<<
      coarse   0-----------1-----------2
      fine     0-----1-----2-----3-----4
>> *)
Definition linear_1d : FiniteElement :=
  {| dofs_per_vertex := 1; dofs_per_line := 0; dofs_per_face := 1;
     dofs_per_cell := 2; n_components := 1;
     system_to_component_index_first := fun _ => 0;
     component_to_system_index := fun _ i => i;
     base_element := fun _ => 0;
     base_element_dofs_per_cell := fun _ => 2;
     constraints := q1_constraints |}.

Definition interval (lvl : nat) (refined : bool) (dofs : list Z)
    (interpolate : list Q -> list Q -> list Q) : CellAccessor :=
  {| level := lvl; has_children := refined; dof_indices := dofs;
     face := fun _ => 0; at_boundary := fun _ => false;
     neighbor := fun _ => 0; neighbor_of_neighbor := fun _ => 0;
     child := fun _ => 0;
     set_dof_values_by_interpolation := interpolate |}.

Definition no_face : FaceAccessor :=
  {| face_at_boundary := false; boundary_indicator := 0;
     face_dof_indices := []; face_has_children := false;
     face_child := fun _ => 0;
     vertex_dof_index := fun _ _ => 0%Z; dof_index := fun _ => 0%Z |}.

Definition nested_coarse : DoFHandler :=
  {| get_fe := linear_1d; n_dofs := 3; n_boundary_dofs := 2;
     n_boundary_dofs_on := fun _ => 2%Z;
     invalid_dof_index := 4294967295;
     cell := fun c =>
       interval 0 false (nth c [[0; 1]; [1; 2]]%Z []) no_interpolation;
     active_cells := [0; 1];
     face_obj := fun _ => no_face; active_faces := []; all_lines := [0; 1] |}.

(** values at the two ends of the refined interval [p], distributed to its
    three fine DoFs *)
Definition interpolate_to_children (p : nat) (local_values values : list Q)
  : list Q :=
  let a := nth 0 local_values 0%Q in
  let b := nth 1 local_values 0%Q in
  <[2 * p := a]>
    (<[2 * p + 1 := Qred ((a + b) / 2)]> (<[2 * p + 2 := b]> values)).

Definition nested_fine : DoFHandler :=
  {| get_fe := linear_1d; n_dofs := 5; n_boundary_dofs := 2;
     n_boundary_dofs_on := fun _ => 2%Z;
     invalid_dof_index := 4294967295;
     cell := fun c =>
       interval (if c <? 2 then 0 else 1) (c <? 2)
         (nth c [[0; 2]; [2; 4]; [0; 1]; [1; 2]; [2; 3]; [3; 4]]%Z [])
         (if c <? 2 then interpolate_to_children c else no_interpolation);
     active_cells := [2; 3; 4; 5];
     face_obj := fun _ => no_face; active_faces := [];
     all_lines := [0; 1; 2; 3; 4; 5] |}.


Definition empty_pattern (n : Z) : SparsityPattern :=
  {| n_rows := n; n_cols := n; entries := ∅ |}.

(** The square 0 next to a refined square 1 with the active children 2
    (bottom left), 3 (bottom right), 4 (top right) and 5 (top left), on
    level 1; bilinear elements, the DoFs at the vertices as numbered.  The
    right face of cell 0, line 1, has hanging nodes: behind it lie the
    children 2 and 5, whose left faces are the lines 7 and 8.  The lines
    between the children are 9 (2|3), 10 (2|5), 15 (3|4) and 12 (5|4).

<<
      2--------3---10---5
      |        | 5  | 4 |
      |   0    6----8---9
      |        | 2  | 3 |
      0--------1----7---4
>> *)
Definition hanging_cell (c : nat) : CellAccessor :=
  {| level := if c <? 2 then 0 else 1;
     has_children := c =? 1;
     dof_indices :=
       nth c [[0; 1; 2; 3]; []; [1; 7; 6; 8]; [7; 4; 8; 9]; [8; 9; 10; 5];
              [6; 8; 3; 10]]%Z [];
     face := fun f =>
       nth f (nth c [[0; 1; 2; 3]; [5; 6; 18; 1]; [4; 9; 10; 7]; [13; 14; 15; 9];
                     [15; 16; 17; 12]; [10; 12; 11; 8]] []) 0;
     at_boundary := fun f =>
       nth f (nth c [[true; false; true; true]; [true; true; true; false];
                     [true; false; false; false]; [true; true; false; false];
                     [false; true; true; false]; [false; false; true; false]] [])
             true;
     neighbor := fun f =>
       nth f (nth c [[0; 1; 0; 0]; [0; 0; 0; 0]; [0; 3; 5; 0]; [0; 0; 4; 2];
                     [3; 0; 0; 5]; [2; 4; 0; 0]] []) 0;
     neighbor_of_neighbor := fun f =>
       nth f (nth c [[0; 3; 0; 0]; [0; 0; 0; 1]; [0; 3; 0; 1]; [0; 0; 0; 1];
                     [2; 0; 0; 1]; [2; 3; 0; 1]] []) 0;
     child := fun k => if c =? 1 then 2 + k else 0;
     set_dof_values_by_interpolation := no_interpolation |}.

Definition hanging_cells : DoFHandler :=
  {| get_fe := q1; n_dofs := 11; n_boundary_dofs := 9;
     n_boundary_dofs_on := fun _ => 9%Z;
     invalid_dof_index := 4294967295;
     cell := hanging_cell; active_cells := [0; 2; 3; 4; 5];
     face_obj := fun _ => no_face;
     active_faces := [0; 2; 3; 4; 7; 8; 9; 10; 11; 12; 13; 14; 15; 16; 17];
     all_lines := seq 0 19 |}.

End Examples.

(** Example data for the loops of [MatrixFree]. *)
Module LoopExamples.
Import MatrixFree.

Definition set_ghosted (b : bool) (v : nat) (vs : nat -> DistributedVector)
  : nat -> DistributedVector :=
  fun u =>
    if u =? v
    then {| size := size (vs u); get_partitioner := get_partitioner (vs u);
            has_ghost_elements := b |}
    else vs u.

(** a vector class for the examples: a vector is ghosted once an update of
    its ghost values has finished, and no longer after its ghost entries,
    or all its entries, have been set to zero *)
Definition ghost_effect (c : Call) (vs : nat -> DistributedVector)
  : nat -> DistributedVector :=
  match c with
  | on_vector v update_ghost_values_finish
  | on_vector v (export_to_ghosted_array_finish _) => set_ghosted true v vs
  | on_vector v zero_out_ghosts
  | on_vector v assign_zero => set_ghosted false v vs
  | _ => vs
  end.

(** one DoF handler, no data on faces *)
Definition cells_only : MatrixFreeData :=
  {| n_dof_handlers := 1;
     dof_info := [ {| vector_partitioner := 0;
                      vector_partitioner_face_variants := [0; 0; 0];
                      vector_zero_range_list_index := [];
                      vector_zero_range_list := [] |} ];
     face_partition_data_empty := true;
     partitioner := fun _ =>
       {| local_size := 4; n_ghost_indices := 2; n_import_indices := 2;
          ghost_indices_within_larger_ghost_set := [] |};
     is_compatible := Nat.eqb;
     is_globally_compatible := Nat.eqb;
     chunk_size_zero_vector := 4 |}.

(** two distributed vectors, at the addresses 1 and 2 *)
Definition vector_1 : VectorArg :=
  {| object := 1; components := [ {| vec := 1; distributed := true |} ] |}.

Definition vector_2 : VectorArg :=
  {| object := 2; components := [ {| vec := 2; distributed := true |} ] |}.

Definition no_exchanger : VectorDataExchange :=
  {| vector_face_access := none; ghosts_were_set := false; tmp_data := [] |}.

(** before a loop: no vector is ghosted *)
Definition idle : LoopState :=
  {| vectors := fun _ => {| size := 4; get_partitioner := 0;
                            has_ghost_elements := false |};
     calls := [];
     scratch_pad_non_threadsafe := [];
     src_data_exchanger := no_exchanger;
     dst_data_exchanger := no_exchanger |}.

(** the same, with the vector at address 1 ghosted *)
Definition idle_ghosted : LoopState :=
  {| vectors := set_ghosted true 1 (vectors idle);
     calls := [];
     scratch_pad_non_threadsafe := [];
     src_data_exchanger := no_exchanger;
     dst_data_exchanger := no_exchanger |}.

Definition no_index : Z := 4294967295.

(** a loop over one range of cells *)
Definition one_range : list WorkerCall :=
  [ call_vector_update_ghosts_start;
    call_zero_dst_vector_range no_index;
    call_vector_update_ghosts_finish;
    call_cell (0, 2);
    call_vector_compress_start;
    call_vector_compress_finish ].

End LoopExamples.

(** * Vocabulary of the further properties *)

(** [marks m P]: the computation [m] returns normally, keeps the length of
    the vector of flags, and sets to [true] exactly the positions that [P]
    describes, among those the vector has. *)
Definition marks (m : Comp (list bool) unit) (P : nat -> Prop) : Prop :=
  forall v, exists v', m v = (Done tt, v') /\ length v' = length v
    /\ forall k, v' !! k = Some true <-> v !! k = Some true \/ (k < length v /\ P k).

Section ExtractVocabulary.
Context {W : Type} `{Weight W}.

(** every DoF index of an active cell is an index of the handler *)
Definition cell_indices_in_range (dof : @DoFTools.DoFHandler W) : Prop :=
  forall c i, c ∈ DoFTools.active_cells dof ->
    i < DoFTools.dofs_per_cell (DoFTools.get_fe dof) ->
    (0 <= at_ (DoFTools.dof_indices (DoFTools.cell dof c)) i < DoFTools.n_dofs dof)%Z.

(** the DoF [k] is a local DoF, of a selected component, of an active cell *)
Definition dof_selected (dof : @DoFTools.DoFHandler W) (local_select : list bool)
    (k : nat) : Prop :=
  exists c, c ∈ DoFTools.active_cells dof /\
  exists i, i < DoFTools.dofs_per_cell (DoFTools.get_fe dof) /\
    nth (DoFTools.system_to_component_index_first (DoFTools.get_fe dof) i)
        local_select false = true /\
    at_ (DoFTools.dof_indices (DoFTools.cell dof c)) i = Z.of_nat k.

(** the same on a level of a multigrid handler *)
Definition level_indices_in_range (level : nat) (dof : @DoFTools.MGDoFHandler W)
  : Prop :=
  forall c i, c ∈ DoFTools.mg_cells dof level ->
    i < DoFTools.dofs_per_cell (DoFTools.mg_get_fe dof) ->
    (0 <= at_ (DoFTools.mg_dof_indices dof c) i < DoFTools.mg_n_dofs dof level)%Z.

Definition level_dof_selected (level : nat) (dof : @DoFTools.MGDoFHandler W)
    (local_select : list bool) (k : nat) : Prop :=
  exists c, c ∈ DoFTools.mg_cells dof level /\
  exists i, i < DoFTools.dofs_per_cell (DoFTools.mg_get_fe dof) /\
    nth (DoFTools.system_to_component_index_first (DoFTools.mg_get_fe dof) i)
        local_select false = true /\
    at_ (DoFTools.mg_dof_indices dof c) i = Z.of_nat k.

(** every DoF index of a face at the boundary is an index of the handler *)
Definition boundary_indices_in_range (geo : GeometryInfo)
    (dof : @DoFTools.DoFHandler W) : Prop :=
  forall c f i, c ∈ DoFTools.active_cells dof -> f < faces_per_cell geo ->
    DoFTools.at_boundary (DoFTools.cell dof c) f = true ->
    i < DoFTools.dofs_per_face (DoFTools.get_fe dof) ->
    (0 <= at_ (DoFTools.face_dof_indices
                 (DoFTools.face_obj dof (DoFTools.face (DoFTools.cell dof c) f))) i
     < DoFTools.n_dofs dof)%Z.

(** the DoF [k] is a DoF, of a selected component, of a face at the boundary *)
Definition boundary_dof_selected (geo : GeometryInfo) (face_component : nat -> nat)
    (dof : @DoFTools.DoFHandler W) (component_select : list bool) (k : nat) : Prop :=
  exists c, c ∈ DoFTools.active_cells dof /\
  exists f, f < faces_per_cell geo /\
    DoFTools.at_boundary (DoFTools.cell dof c) f = true /\
  exists i, i < DoFTools.dofs_per_face (DoFTools.get_fe dof) /\
    nth (face_component i) component_select false = true /\
    at_ (DoFTools.face_dof_indices
           (DoFTools.face_obj dof (DoFTools.face (DoFTools.cell dof c) f))) i
    = Z.of_nat k.

(** in one dimension: the DoF [k] is a DoF, of a selected component, of an
    end of a coarse cell that has no neighbour there *)
Definition end_dof_selected (face_component : nat -> nat)
    (dof : @DoFTools.DoFHandler W) (lines : DoFTools.CoarseLines)
    (component_select : list bool) (k : nat) : Prop :=
  exists c, c ∈ DoFTools.coarse_cells lines /\
  exists side, side < 2 /\ DoFTools.neighbor_is_end lines c side = true /\
  exists i, i < DoFTools.dofs_per_face (DoFTools.get_fe dof) /\
    nth (face_component i) component_select false = true /\
    DoFTools.cell_vertex_dof_index lines c side i = Z.of_nat k.

Definition end_indices_in_range (dof : @DoFTools.DoFHandler W)
    (lines : DoFTools.CoarseLines) : Prop :=
  forall c side i, c ∈ DoFTools.coarse_cells lines -> side < 2 ->
    i < DoFTools.dofs_per_face (DoFTools.get_fe dof) ->
    (0 <= DoFTools.cell_vertex_dof_index lines c side i < DoFTools.n_dofs dof)%Z.

End ExtractVocabulary.

(** Example data for the further properties. *)
Module MoreExamples.
Import DoFTools.

(** a bilinear element with two components: vertex [v] of a cell carries
    the local DoFs [2 v] (first component) and [2 v + 1] (second) *)
Definition q1_pair : FiniteElement :=
  {| dofs_per_vertex := 2; dofs_per_line := 0; dofs_per_face := 4;
     dofs_per_cell := 8; n_components := 2;
     system_to_component_index_first := fun i => i mod 2;
     component_to_system_index := fun c i => 2 * i + c;
     base_element := fun _ => 0;
     base_element_dofs_per_cell := fun _ => 4;
     constraints := Examples.q1_constraints |}.

(** one square, all of its faces at the boundary

<<
      4,5---6,7
       |     |
      0,1---2,3
>> *)
Definition square : DoFHandler :=
  {| get_fe := q1_pair; n_dofs := 8; n_boundary_dofs := 8;
     n_boundary_dofs_on := fun _ => 8%Z;
     invalid_dof_index := 4294967295;
     cell := fun _ =>
       {| level := 0; has_children := false;
          dof_indices := [0; 1; 2; 3; 4; 5; 6; 7]%Z;
          face := fun f => f; at_boundary := fun _ => true;
          neighbor := fun _ => 0; neighbor_of_neighbor := fun _ => 0;
          child := fun _ => 0;
          set_dof_values_by_interpolation := Examples.no_interpolation |};
     active_cells := [0];
     face_obj := fun f =>
       {| face_at_boundary := true; boundary_indicator := 0;
          face_dof_indices :=
            nth f [[0; 1; 2; 3]; [2; 3; 6; 7]; [4; 5; 6; 7]; [0; 1; 4; 5]]%Z [];
          face_has_children := false; face_child := fun _ => 0;
          vertex_dof_index := fun _ _ => 0%Z; dof_index := fun _ => 0%Z |};
     active_faces := [0; 1; 2; 3];
     all_lines := [0; 1; 2; 3] |}.

(** the square on level 0 and its two halves, cells 1 and 2, on level 1 *)
Definition two_levels : MGDoFHandler :=
  {| mg_get_fe := q1_pair;
     mg_n_dofs := fun level => if level =? 0 then 8%Z else 12%Z;
     mg_cells := fun level => if level =? 0 then [0] else [1; 2];
     mg_dof_indices := fun c =>
       nth c [[0; 1; 2; 3; 4; 5; 6; 7];
              [0; 1; 2; 3; 4; 5; 6; 7];
              [2; 3; 8; 9; 6; 7; 10; 11]]%Z [] |}.

(** two intervals side by side, with the DoFs 0, 1, 2 at their ends: the
    left end of the first and the right end of the second have no
    neighbour *)
Definition two_intervals : CoarseLines :=
  {| coarse_cells := [0; 1];
     neighbor_is_end := fun c side => c =? side;
     cell_vertex_dof_index := fun c vertex _ => Z.of_nat (c + vertex) |}.

End MoreExamples.

(** a pattern in which the entry (j, i) goes with the entry (i, j) *)
Definition symmetric (ents : gset (Z * Z)) : Prop :=
  forall i j, (i, j) ∈ ents -> (j, i) ∈ ents.

(** a mask that couples every component with every other *)
Definition full_mask (n : nat) : list (list bool) := replicate n (replicate n true).

(** [grows ent m P]: the computation [m] returns normally, keeps the
    entries there were and has those described by [P] afterwards *)
Definition grows {S : Type} (ent : S -> gset (Z * Z)) (m : Comp S unit)
    (P : Z * Z -> Prop) : Prop :=
  forall s, exists s', m s = (Done tt, s')
    /\ (forall p, p ∈ ent s -> p ∈ ent s')
    /\ (forall p, P p -> p ∈ ent s').

(** [keeps I m]: [I] holds of the state [m] leaves if it held before,
    whether [m] returns or raises *)
Definition keeps {S A : Type} (I : S -> Prop) (m : Comp S A) : Prop :=
  forall s, I s -> I (state_of (m s)).

Section NumberingVocabulary.
Context {W : Type} `{Weight W}.

(** the fine DoF [g] is a local DoF of the component on some active cell *)
Definition parameter_dof (dof : @DoFTools.DoFHandler W) (component : nat)
    (g : nat) : Prop :=
  exists c, c ∈ DoFTools.active_cells dof /\
  exists i, i < DoFTools.dofs_per_cell (DoFTools.get_fe dof) /\
    DoFTools.system_to_component_index_first (DoFTools.get_fe dof) i = component /\
    at_ (DoFTools.dof_indices (DoFTools.cell dof c)) i = Z.of_nat g.

(** the positions visited by the two loops over the DoFs of the component,
    in the order of the traversal *)
Definition parameter_targets (dof : @DoFTools.DoFHandler W) (component : nat)
  : list nat :=
  flat_map (fun c =>
    flat_map (fun i =>
      if DoFTools.system_to_component_index_first (DoFTools.get_fe dof) i
         =? component
      then [Z.to_nat (at_ (DoFTools.dof_indices (DoFTools.cell dof c)) i)]
      else [])
      (seq 0 (DoFTools.dofs_per_cell (DoFTools.get_fe dof))))
    (DoFTools.active_cells dof).

End NumberingVocabulary.

(** one step of the numbering: the position gets the next free index
    unless it has one *)
Definition number_one (st : list Z * nat) (g : nat) : list Z * nat :=
  if (at_ (fst st) g =? -1)%Z
  then (<[g := Z.of_nat (snd st)]> (fst st), S (snd st))
  else st.

(** the invariant of the numbering, with the positions [seen] so far *)
Definition numbered (n : nat) (seen : list nat) (st : list Z * nat) : Prop :=
  length (fst st) = n
  /\ (forall g, g < n -> at_ (fst st) g <> (-1)%Z <-> g ∈ seen)
  /\ (forall g, g < n -> at_ (fst st) g <> (-1)%Z ->
        (0 <= at_ (fst st) g < Z.of_nat (snd st))%Z)
  /\ (forall g g', g < n -> g' < n -> at_ (fst st) g <> (-1)%Z ->
        at_ (fst st) g = at_ (fst st) g' -> g = g')
  /\ (forall k, k < snd st -> exists g, g < n /\ at_ (fst st) g = Z.of_nat k)
  /\ snd st = length (filter (fun x => x <> (-1)%Z) (fst st)).


(** [reads_only m]: the computation [m] leaves the state as it was, whether
    it returns or raises *)
Definition reads_only {S A : Type} (m : Comp S A) : Prop :=
  forall s, state_of (m s) = s.

(** the lines added by a sequence of calls on a constraint matrix *)
Definition lines_added {W : Type} (calls : list (ConstraintCall W)) : list Z :=
  flat_map (fun c => match c with add_line l => [l] | add_entry _ _ _ => [] end)
           calls.

(** every entry is entered on the line that was added last; [current] is
    the line added last before the calls *)
Fixpoint entries_on_last_line {W : Type} (current : option Z)
    (calls : list (ConstraintCall W)) : Prop :=
  match calls with
  | [] => True
  | add_line l :: rest => entries_on_last_line (Some l) rest
  | add_entry l _ _ :: rest => current = Some l /\ entries_on_last_line current rest
  end.

(** Example data for the batches of [MatrixFree]. *)
Module BatchExamples.
Import MatrixFree.

Definition no_cell : Z := 4294967295.

(** Four lanes.  Two batches of cells of the process, the second one filled
    with two cells only, and one batch of ghost cells with a single cell;
    one batch of interior faces, one of boundary faces, one of interior
    faces of ghost cells. *)
Definition layout : BatchLayout :=
  {| cell_partition_data := [0; 2; 3]%Z;
     face_partition_data := [0; 1]%Z;
     boundary_partition_data := [1; 2]%Z;
     faces :=
       [ {| cells_interior := [0; 1; 2; no_cell]%Z;
            cells_exterior := [3; 4; 5; no_cell]%Z; exterior_face_no := 1%Z |};
         {| cells_interior := [0; 5; no_cell; no_cell]%Z;
            cells_exterior := [no_cell; no_cell; no_cell; no_cell]%Z;
            exterior_face_no := 0%Z |};
         {| cells_interior := [5; no_cell; no_cell; no_cell]%Z;
            cells_exterior := [6; no_cell; no_cell; no_cell]%Z;
            exterior_face_no := 3%Z |} ];
     cell_and_face_boundary_id := fun cell face lane => Z.of_nat (face + lane);
     cell_and_face_boundary_id_size_0 := 2;
     cell_level_index :=
       [ (0, 0); (0, 1); (0, 2); (0, 3);
         (0, 4); (0, 5); (0, 5); (0, 5);
         (0, 6); (0, 6); (0, 6); (0, 6) ]%Z;
     n_dof_info := 1;
     cell_active_fe_index := [0; 2; 1; 7; 3; 1; 0]%Z |}.

(** the same without the indices of an hp method *)
Definition layout_without_hp : BatchLayout :=
  {| cell_partition_data := cell_partition_data layout;
     face_partition_data := face_partition_data layout;
     boundary_partition_data := boundary_partition_data layout;
     faces := faces layout;
     cell_and_face_boundary_id := cell_and_face_boundary_id layout;
     cell_and_face_boundary_id_size_0 := 2;
     cell_level_index := cell_level_index layout;
     n_dof_info := 1;
     cell_active_fe_index := [] |}.

End BatchExamples.

(** [fixed m]: the computation [m] neither depends on the state nor changes
    it *)
Definition fixed {S A : Type} (m : Comp S A) : Prop :=
  exists o, forall s, m s = (o, s).

(** the calls on the vectors leave their sizes and their partitioners alone *)
Definition keeps_layout
    (effect : MatrixFree.Call -> (nat -> MatrixFree.DistributedVector)
              -> nat -> MatrixFree.DistributedVector) : Prop :=
  forall c vs u,
    MatrixFree.size (effect c vs u) = MatrixFree.size (vs u)
    /\ MatrixFree.get_partitioner (effect c vs u) = MatrixFree.get_partitioner (vs u).

Section ResetVocabulary.
Import MatrixFree.
Variable DEBUG : bool.
Variable WITH_MPI : bool.

(** the partitioner of the vector is compatible with the one of the
    component [c] of the [MatrixFree] object (globally compatible, in a
    checked build) *)
Definition compatible_with (mf : MatrixFreeData) (v : DistributedVector)
    (c : nat) : bool :=
  let info := nth c (dof_info mf) no_dof_info in
  if DEBUG
  then is_globally_compatible mf (get_partitioner v) (vector_partitioner info)
  else is_compatible mf (get_partitioner v) (vector_partitioner info).

(** the first component of the [MatrixFree] object the vector fits *)
Definition component_of (mf : MatrixFreeData) (v : DistributedVector)
  : option nat :=
  find (compatible_with mf v) (seq 0 (n_dof_handlers mf)).

(** the partitioner of a component for an access to the faces *)
Definition partitioner_for (access : DataAccessOnFaces) (info : DoFInfo) : nat :=
  match access with
  | none => nth 0 (vector_partitioner_face_variants info) 0
  | values => nth 1 (vector_partitioner_face_variants info) 0
  | _ => nth 2 (vector_partitioner_face_variants info) 0
  end.

(** the ghost entries that an exchange through the partitioner [part] has
    filled are set to zero, one by one: the entries of its ranges within
    the larger ghost set, which lie behind the locally owned ones *)
Definition partial_ghost_reset (part : Partitioner) (v : nat) : list Call :=
  flat_map (fun my_ghosts =>
              map (fun j => on_vector v (set_local_element_zero
                                           (j + local_size part)))
                  (seq (fst my_ghosts) (snd my_ghosts - fst my_ghosts)))
           (ghost_indices_within_larger_ghost_set part).

(** The reset of the ghost values of the vector [v] at the address [addr],
    by the access to the faces: all ghost entries under unspecified access,
    for an empty vector, and where the partitioner for the access is the one
    of the component; the ghost entries of the partitioner for the access
    otherwise; none without MPI. *)
Definition ghost_reset_of (mf : MatrixFreeData) (access : DataAccessOnFaces)
    (v : DistributedVector) (addr : nat) : list Call :=
  if is_unspecified access || (size v =? 0) then [on_vector addr zero_out_ghosts]
  else if WITH_MPI then
    match component_of mf v with
    | Some c =>
        let info := nth c (dof_info mf) no_dof_info in
        let part := partitioner_for access info in
        if part =? vector_partitioner info
        then [on_vector addr zero_out_ghosts]
        else if 0 <? n_ghost_indices (partitioner mf part)
             then partial_ghost_reset (partitioner mf part) addr
             else []
    | None => []
    end
  else [].

(** the resets of the distributed vectors among the components [cs] *)
Definition ghost_resets_for (mf : MatrixFreeData) (access : DataAccessOnFaces)
    (vs : nat -> DistributedVector) (cs : list Component) : list Call :=
  flat_map (fun c => if distributed c
                     then ghost_reset_of mf access (vs (vec c)) (vec c)
                     else [])
           cs.

(** Where the partitioners for the faces are looked at (an access other
    than unspecified, with MPI), the [MatrixFree] object is set up for the
    vectors: it has one [DoFInfo] per DoF handler, each with its three
    partitioners for the faces, and every distributed vector that is not
    empty fits one of its components. *)
Definition set_up_for (mf : MatrixFreeData) (access : DataAccessOnFaces)
    (vs : nat -> DistributedVector) (cs : list Component) : Prop :=
  is_unspecified access = false -> WITH_MPI = true ->
  n_dof_handlers mf = length (dof_info mf)
  /\ Forall (fun info => length (vector_partitioner_face_variants info) = 3)
            (dof_info mf)
  /\ forall c, c ∈ cs -> distributed c = true -> size (vs (vec c)) <> 0 ->
       component_of mf (vs (vec c)) <> None.

End ResetVocabulary.

(** every buffer of the pad [before] has the flag it had, and no buffer of
    the pad [after] is in use that was not in use before *)
Definition pad_restored (before after : list MatrixFree.ScratchItem) : Prop :=
  (forall q b, MatrixFree.in_use q before = Some b -> MatrixFree.in_use q after = Some b)
  /\ (forall q, MatrixFree.in_use q after = Some true
                -> MatrixFree.in_use q before = Some true).

(** Example data for the exchange of vector data. *)
Module ExchangeExamples.
Import MatrixFree.

(** one DoF handler with data on faces: the partitioner 0 for the cells and
    the partitioners 1, 2 and 3 for the three kinds of access to the faces *)
Definition with_faces : MatrixFreeData :=
  {| n_dof_handlers := 1;
     dof_info := [ {| vector_partitioner := 0;
                      vector_partitioner_face_variants := [1; 2; 3];
                      vector_zero_range_list_index := [0; 2; 3];
                      vector_zero_range_list := [0; 1; 2] |} ];
     face_partition_data_empty := false;
     partitioner := fun _ =>
       {| local_size := 4; n_ghost_indices := 2; n_import_indices := 1;
          ghost_indices_within_larger_ghost_set := [(0, 1)] |};
     is_compatible := Nat.eqb;
     is_globally_compatible := Nat.eqb;
     chunk_size_zero_vector := 4 |}.

Definition fresh_exchanger (access : DataAccessOnFaces) : VectorDataExchange :=
  {| vector_face_access := access; ghosts_were_set := false; tmp_data := [None] |}.

(** before an exchange: no vector is ghosted, the pad is empty, and the
    source is read on the faces by its values *)
Definition waiting : LoopState :=
  {| vectors := fun _ => {| size := 6; get_partitioner := 0;
                            has_ghost_elements := false |};
     calls := [];
     scratch_pad_non_threadsafe := [];
     src_data_exchanger := fresh_exchanger values;
     dst_data_exchanger := fresh_exchanger values |}.

End ExchangeExamples.

Section DistributeVocabulary.
Context {W : Type} `{Weight W}.

(** what the cells contribute, in the order of the traversal: for each
    active cell and each of its local DoFs of the component (all of them if
    the element has one component), the global index of the DoF and the
    datum of the cell *)
Definition contributions (dof : @DoFTools.DoFHandler W) (cell_data : list W)
    (component : nat) : list (Z * W) :=
  let fe := DoFTools.get_fe dof in
  flat_map (fun pc =>
    flat_map (fun i =>
      if (DoFTools.n_components fe =? 1)
         || (DoFTools.system_to_component_index_first fe i =? component)
      then [ (at_ (DoFTools.dof_indices (DoFTools.cell dof (snd pc))) i,
              nth (fst pc) cell_data w_zero) ]
      else [])
      (seq 0 (DoFTools.dofs_per_cell fe)))
    (combine (seq 0 (length (DoFTools.active_cells dof))) (DoFTools.active_cells dof)).

(** the summands of the DoF [k] *)
Definition summands (dof : @DoFTools.DoFHandler W) (cell_data : list W)
    (component : nat) (k : nat) : list W :=
  map snd (filter (fun p => Z.to_nat (fst p) = k)
                  (contributions dof cell_data component)).

(** the count that the routine keeps of them *)
Definition counted (dof : @DoFTools.DoFHandler W) (cell_data : list W)
    (component : nat) (k : nat) : Z :=
  (Z.of_nat (length (summands dof cell_data component k)) mod 256)%Z.

End DistributeVocabulary.

Module DistributeExamples.
Import DoFTools.

(** two squares side by side, with one DoF per vertex

<<
      3---4---5
      |   |   |
      0---1---2
>> *)
Definition two_squares : DoFHandler :=
  {| get_fe := Examples.q1; n_dofs := 6; n_boundary_dofs := 6;
     n_boundary_dofs_on := fun _ => 6%Z;
     invalid_dof_index := 4294967295;
     cell := fun c =>
       {| level := 0; has_children := false;
          dof_indices := nth c [[0; 1; 3; 4]; [1; 2; 4; 5]]%Z [];
          face := fun f => f; at_boundary := fun _ => false;
          neighbor := fun _ => 0; neighbor_of_neighbor := fun _ => 0;
          child := fun _ => 0;
          set_dof_values_by_interpolation := Examples.no_interpolation |};
     active_cells := [0; 1];
     face_obj := fun f =>
       {| face_at_boundary := false; boundary_indicator := 0;
          face_dof_indices := [];
          face_has_children := false; face_child := fun _ => 0;
          vertex_dof_index := fun _ _ => 0%Z; dof_index := fun _ => 0%Z |};
     active_faces := [];
     all_lines := [] |}.

(** the same with a seventh DoF that belongs to no cell *)
Definition with_stray_dof : DoFHandler :=
  {| get_fe := Examples.q1; n_dofs := 7; n_boundary_dofs := 6;
     n_boundary_dofs_on := n_boundary_dofs_on two_squares;
     invalid_dof_index := 4294967295;
     cell := cell two_squares;
     active_cells := [0; 1];
     face_obj := face_obj two_squares;
     active_faces := [];
     all_lines := [] |}.

Definition divide (x : Q) (count : Z) : Q := (x / inject_Z count)%Q.

End DistributeExamples.

Section HangingNodeVocabulary3d.
Context {W : Type} `{Weight W}.

(** the calls made for one face: for each child DoF a constraint line that
    carries, for each mother DoF, the value of the table at the row of the
    child and the column of the mother *)
Definition constraint_rows (table : FullMatrix W) (children mother : list Z)
  : list (ConstraintCall W) :=
  flat_map (fun row =>
              add_line (at_ children row)
              :: map (fun i => add_entry (at_ children row) (at_ mother i)
                                         (el table row i))
                     (seq 0 (length mother)))
           (seq 0 (length children)).

(** the table of the element has one row per child DoF of a face and one
    column per mother DoF *)
Definition table_matches_3d (d : @DoFTools.DoFHandler3 W) : Prop :=
  let fe := DoFTools.get_fe (DoFTools.handler d) in
  4 * DoFTools.dofs_per_vertex fe + 4 * DoFTools.dofs_per_line fe
    + DoFTools.dofs_per_quad d = fm_n (DoFTools.constraints fe)
  /\ 5 * DoFTools.dofs_per_vertex fe + 12 * DoFTools.dofs_per_line fe
     + 4 * DoFTools.dofs_per_quad d = fm_m (DoFTools.constraints fe).

(** the calls for the marked ones among the faces *)
Definition constraints_of_faces (geo : GeometryInfo) (d : @DoFTools.DoFHandler3 W)
    (faces : list nat) : list (ConstraintCall W) :=
  flat_map (fun f =>
              if marked_line geo (DoFTools.handler d) f
              then constraint_rows
                     (DoFTools.constraints (DoFTools.get_fe (DoFTools.handler d)))
                     (DoFTools.dofs_on_children_3d d f)
                     (DoFTools.dofs_on_mother_3d d f)
              else [])
           faces.

End HangingNodeVocabulary3d.

(** Example data in three dimensions. *)
Module Examples3d.
Import DoFTools.

Definition hex : GeometryInfo :=
  {| faces_per_cell := 6; subfaces_per_face := 4;
     child_cell_on_face := fun f s =>
       nth s (nth f [[0; 1; 2; 3]; [4; 5; 6; 7]; [0; 1; 5; 4];
                     [1; 5; 6; 2]; [3; 2; 6; 7]; [0; 4; 7; 3]] []) 0 |}.

(** the table of the trilinear element on a face: the center is the mean of
    the four vertices, the center of a line the mean of its two ends *)
Definition q1_face_constraints : FullMatrix Q :=
  {| fm_m := 5; fm_n := 4;
     el := fun row i =>
       if row =? 0 then (1 # 4)%Q
       else if (i =? row - 1) || (i =? row mod 4) then (1 # 2)%Q else (0 # 1)%Q |}.

Definition q1 : FiniteElement :=
  {| dofs_per_vertex := 1; dofs_per_line := 0; dofs_per_face := 4;
     dofs_per_cell := 8; n_components := 1;
     system_to_component_index_first := fun _ => 0;
     component_to_system_index := fun _ i => i;
     base_element := fun _ => 0;
     base_element_dofs_per_cell := fun _ => 8;
     constraints := q1_face_constraints |}.

(** One active cell whose face 0 is refined from the other side.  The face
    0 has the vertex DoFs 0 to 3 and the children 1 to 4; its lines 0 to 3
    have the first children 4 to 7, which end in the DoFs 4 to 7 at the
    centers of the lines; the DoF 8 sits at the center of the face.  With
    [center] the DoF that child 3 sees at the center. *)
Definition refined_face (center : Z) : DoFHandler3 :=
  {| handler :=
       {| get_fe := q1; n_dofs := 13; n_boundary_dofs := 0;
          n_boundary_dofs_on := fun _ => 0%Z;
          invalid_dof_index := 4294967295;
          cell := fun _ =>
            {| level := 0; has_children := false;
               dof_indices := [0; 1; 2; 3; 9; 10; 11; 12]%Z;
               face := fun f => if f =? 0 then 0 else 4 + f;
               at_boundary := fun _ => false;
               neighbor := fun _ => 0; neighbor_of_neighbor := fun _ => 0;
               child := fun _ => 0;
               set_dof_values_by_interpolation := Examples.no_interpolation |};
          active_cells := [0];
          face_obj := fun f =>
            {| face_at_boundary := false; boundary_indicator := 0;
               face_dof_indices := [];
               face_has_children := f =? 0;
               face_child := fun c => 1 + c;
               vertex_dof_index := fun v _ =>
                 if f =? 0 then Z.of_nat v
                 else if (f =? 4) && (v =? 1) then center
                 else if v =? (f + 1) mod 4 then 8%Z else 0%Z;
               dof_index := fun _ => 0%Z |};
          active_faces := [5; 6; 7; 8; 9];
          all_lines := [0; 1; 2; 3; 4; 5; 6; 7] |};
     dofs_per_quad := 0;
     all_faces := [0; 1; 2; 3; 4; 5; 6; 7; 8; 9];
     face_line := fun f l => if f =? 0 then l else 8;
     line_obj := fun l =>
       {| face_at_boundary := false; boundary_indicator := 0;
          face_dof_indices := [];
          face_has_children := l <? 4;
          face_child := fun c => 4 + l;
          vertex_dof_index := fun v _ => if v =? 1 then Z.of_nat l else 0%Z;
          dof_index := fun _ => 0%Z |} |}.

End Examples3d.
(** * Properties *)

(** ** The computation monad *)

Lemma for_each_app {S X} (l1 l2 : list X) (body : X -> Comp S unit) s :
  for_each (l1 ++ l2) body s
  = (for_each l1 body ;; for_each l2 body) s.
Proof.
  revert s. induction l1 as [|x l1 IH]; intros s; simpl.
  - reflexivity.
  - unfold bind. destruct (body x s) as [[[]|e] s1]; [|reflexivity].
    rewrite IH. reflexivity.
Qed.

(** A loop whose body never raises runs to its end, and an invariant of the
    body that may mention the items done so far holds at the end. *)
Lemma for_each_ind {S X} (P : list X -> S -> Prop) (body : X -> Comp S unit)
    (l : list X) :
  (forall pre x post s, l = pre ++ x :: post -> P pre s ->
     exists s', body x s = (Done tt, s') /\ P (pre ++ [x]) s') ->
  forall s, P [] s -> exists s', for_each l body s = (Done tt, s') /\ P l s'.
Proof.
  intros Hstep.
  assert (Hgen : forall post pre s, l = pre ++ post -> P pre s ->
            exists s', for_each post body s = (Done tt, s') /\ P l s').
  { induction post as [|x post IH]; intros pre s Hl HP.
    - rewrite app_nil_r in Hl. subst pre. exists s. split; [reflexivity|exact HP].
    - destruct (Hstep pre x post s Hl HP) as (s1 & Hb & HP1).
      destruct (IH (pre ++ [x]) s1) as (s2 & Hf & HP2).
      + rewrite <- app_assoc. exact Hl.
      + exact HP1.
      + exists s2. split; [|exact HP2].
        simpl. unfold bind. rewrite Hb. exact Hf. }
  intros s HP. exact (Hgen l [] s eq_refl HP).
Qed.

(** The same without the record of the items done. *)
Lemma for_each_inv {S X} (P : S -> Prop) (body : X -> Comp S unit) (l : list X) :
  (forall x s, x ∈ l -> P s -> exists s', body x s = (Done tt, s') /\ P s') ->
  forall s, P s -> exists s', for_each l body s = (Done tt, s') /\ P s'.
Proof.
  intros Hstep s HP.
  apply (for_each_ind (fun _ => P) body l); [|exact HP].
  intros pre x post s0 Hl HP0. apply Hstep; [|exact HP0].
  subst l. apply elem_of_app. right. left.
Qed.

(** An invariant kept by the body, whether it raises or not, is kept by
    the loop. *)
Lemma for_each_preserves {S X} (P : S -> Prop) (body : X -> Comp S unit)
    (l : list X) :
  (forall x s, x ∈ l -> P s -> P (state_of (body x s))) ->
  forall s, P s -> P (state_of (for_each l body s)).
Proof.
  induction l as [|x l IH]; intros Hstep s HP; simpl.
  - exact HP.
  - unfold bind. specialize (Hstep x s (list_elem_of_here _ _) HP) as H1.
    destruct (body x s) as [[[]|e] s1]; simpl in *.
    + apply IH; [|exact H1]. intros y s' Hy. apply Hstep. now right.
    + exact H1.
Qed.

Lemma Assert_run {S} (DEBUG c : bool) (e : Exc) (s : S) :
  Assert DEBUG c e s = if DEBUG && negb c then (Raised e, s) else (Done tt, s).
Proof. unfold Assert. destruct (DEBUG && negb c); reflexivity. Qed.

Lemma Assert_passes {S} (DEBUG c : bool) (e : Exc) (s : S) :
  DEBUG = false \/ c = true -> Assert DEBUG c e s = (Done tt, s).
Proof.
  intros [-> | ->]; rewrite Assert_run; [reflexivity|].
  rewrite andb_false_r. reflexivity.
Qed.

Lemma bind_done {S A B} (m : Comp S A) (k : A -> Comp S B) (s s' : S) (a : A) :
  m s = (Done a, s') -> bind m k s = k a s'.
Proof. intros Hm. unfold bind. now rewrite Hm. Qed.

Lemma bind_raised {S A B} (m : Comp S A) (k : A -> Comp S B) (s s' : S) (e : Exc) :
  m s = (Raised e, s') -> bind m k s = (Raised e, s').
Proof. intros Hm. unfold bind. now rewrite Hm. Qed.

Lemma bind_get {S B} (k : S -> Comp S B) (s : S) : bind get k s = k s s.
Proof. reflexivity. Qed.

Lemma bind_modify {S B} (f : S -> S) (k : unit -> Comp S B) (s : S) :
  bind (modify f) k s = k tt (f s).
Proof. reflexivity. Qed.

Lemma bind_ret {S A B} (a : A) (k : A -> Comp S B) (s : S) :
  bind (ret a) k s = k a s.
Proof. reflexivity. Qed.

Lemma bind_Assert {S B} (DEBUG c : bool) (e : Exc) (k : unit -> Comp S B) (s : S) :
  bind (Assert DEBUG c e) k s
  = if DEBUG && negb c then (Raised e, s) else k tt s.
Proof. unfold bind. rewrite Assert_run. destruct (DEBUG && negb c); reflexivity. Qed.

Lemma Assert_state {S} (DEBUG c : bool) (e : Exc) (s : S) :
  state_of (Assert DEBUG c e s) = s.
Proof. rewrite Assert_run. destruct (DEBUG && negb c); reflexivity. Qed.

Lemma AssertIndexRange_passes {S} (DEBUG : bool) (i n : nat) (s : S) :
  i < n -> MatrixFree.AssertIndexRange DEBUG (Z.of_nat i) n s = (Done tt, s).
Proof.
  intros Hi. unfold MatrixFree.AssertIndexRange. apply Assert_passes. right.
  apply andb_true_iff. split; [apply Z.leb_le|apply Z.ltb_lt]; lia.
Qed.

(** ** Plain and masked sparsity patterns *)


Section Inserts.
Context {S R : Type} (ent : S -> gset (Z * Z)) (rest : S -> R).

Lemma inserts_ret : inserts_in ent rest (ret tt) (fun _ => False).
Proof. intros s. exists s. repeat split; tauto. Qed.

Lemma inserts_ext m (P Q : Z * Z -> Prop) :
  (forall p, P p <-> Q p) -> inserts_in ent rest m P -> inserts_in ent rest m Q.
Proof.
  intros HPQ Hm s. destruct (Hm s) as (s' & Hr & Hn & He).
  exists s'. repeat split; try assumption.
  - intros Hp. apply He in Hp. rewrite <- HPQ. exact Hp.
  - intros Hp. apply He. rewrite HPQ. exact Hp.
Qed.

Lemma inserts_seq m1 m2 (P1 P2 : Z * Z -> Prop) :
  inserts_in ent rest m1 P1 -> inserts_in ent rest m2 P2 ->
  inserts_in ent rest (m1 ;; m2) (fun p => P1 p \/ P2 p).
Proof.
  intros H1 H2 s. destruct (H1 s) as (s1 & Hr1 & Hn1 & He1).
  destruct (H2 s1) as (s2 & Hr2 & Hn2 & He2).
  exists s2. unfold bind. rewrite Hr1. split; [exact Hr2|].
  split; [congruence|]. intros p. rewrite He2, He1. tauto.
Qed.

Lemma inserts_for_each {X} (l : list X) (body : X -> Comp S unit)
    (P : X -> Z * Z -> Prop) :
  (forall x, x ∈ l -> inserts_in ent rest (body x) (P x)) ->
  inserts_in ent rest (for_each l body) (fun p => exists x, x ∈ l /\ P x p).
Proof.
  intros Hbody s.
  destruct (for_each_ind
    (fun pre s' => rest s' = rest s
       /\ forall p, p ∈ ent s' <-> p ∈ ent s \/ exists x, x ∈ pre /\ P x p)
    body l) with (s := s) as (s' & Hr & HP).
  - intros pre x post s0 Hl (Hn & He).
    assert (Hx : x ∈ l) by (subst l; apply elem_of_app; right; left).
    destruct (Hbody x Hx s0) as (s1 & Hr1 & Hn1 & He1).
    exists s1. split; [exact Hr1|]. split; [congruence|].
    intros p. rewrite He1, He. setoid_rewrite elem_of_app.
    setoid_rewrite list_elem_of_singleton. split.
    + intros [[Hp|(y & Hy & Hp)]|Hp]; eauto 6.
    + intros [Hp|(y & [Hy| ->] & Hp)]; eauto 6.
  - repeat split; try tauto. intros [Hp|(x & Hx & _)]; [exact Hp|].
    now apply elem_of_nil in Hx.
  - exists s'. split; [exact Hr|]. exact HP.
Qed.

End Inserts.

Lemma inserts_add i j : inserts (modify (add i j)) (fun p => p = (i, j)).
Proof.
  intros s. eexists. split; [reflexivity|]. repeat split; simpl.
  - intros Hp. apply elem_of_union in Hp as [Hp|Hp]; [|now left].
    right. now apply elem_of_singleton in Hp.
  - intros [Hp| ->]; apply elem_of_union; [now right|]. left.
    now apply elem_of_singleton.
Qed.

Section Sparsity.
Context {W : Type} `{Weight W}.
Variable DEBUG : bool.


Lemma elem_of_seq_0 (n i : nat) : i ∈ seq 0 n <-> i < n.
Proof. rewrite elem_of_seq. lia. Qed.

Lemma cell_loops_insert (dof : @DoFTools.DoFHandler W) :
  inserts
    (for_each (DoFTools.active_cells dof) (fun c =>
       let dofs_on_this_cell := DoFTools.dof_indices (DoFTools.cell dof c) in
       for_each (seq 0 (DoFTools.dofs_per_cell (DoFTools.get_fe dof))) (fun i =>
         for_each (seq 0 (DoFTools.dofs_per_cell (DoFTools.get_fe dof))) (fun j =>
           modify (add (at_ dofs_on_this_cell i) (at_ dofs_on_this_cell j))))))
    (cell_coupling dof).
Proof.
  eapply inserts_ext; [|apply inserts_for_each; intros c _;
    apply inserts_for_each; intros i _;
    apply inserts_for_each; intros j _; apply inserts_add].
  intros p. unfold cell_coupling. setoid_rewrite elem_of_seq_0. reflexivity.
Qed.

(** What [make_sparsity_pattern] does: either an assertion on the size of
    the pattern fails and nothing is written, or the cell couplings are
    added. *)
Lemma make_sparsity_pattern_run (dof : @DoFTools.DoFHandler W) sp :
  (exists e, DoFTools.make_sparsity_pattern DEBUG dof sp = (Raised e, sp))
  \/ (exists sp', DoFTools.make_sparsity_pattern DEBUG dof sp = (Done tt, sp')
      /\ forall p, p ∈ entries sp' <-> p ∈ entries sp \/ cell_coupling dof p).
Proof.
  unfold DoFTools.make_sparsity_pattern. rewrite bind_get, bind_Assert.
  destruct (DEBUG && negb _); [left; eauto|].
  rewrite bind_Assert.
  destruct (DEBUG && negb _); [left; eauto|].
  right. destruct (cell_loops_insert dof sp) as (sp' & Hr & _ & He).
  exists sp'. split; [exact Hr|exact He].
Qed.

Lemma cell_coupling_sym (dof : @DoFTools.DoFHandler W) i j :
  cell_coupling dof (i, j) -> cell_coupling dof (j, i).
Proof.
  intros (c & Hc & a & Ha & b & Hb & Heq). inversion Heq; subst.
  exists c. split; [exact Hc|]. exists b. split; [exact Hb|].
  exists a. split; [exact Ha|]. reflexivity.
Qed.

End Sparsity.

Section SparsityProperties.
Context {W : Type} `{Weight W}.
Variable DEBUG : bool.

(** C7.  The pattern built by [make_sparsity_pattern] is symmetric: started
    on a symmetric pattern (the empty one, say), the routine leaves a pattern
    in which the entry (i, j) is present if and only if (j, i) is, for every
    mesh and finite element.  The entries it adds are the couplings
    [cell_coupling] of the DoFs of each cell, themselves symmetric. *)
Theorem make_sparsity_pattern_symmetric (dof : @DoFTools.DoFHandler W) sp :
  (forall i j, (i, j) ∈ entries sp -> (j, i) ∈ entries sp) ->
  forall i j,
    (i, j) ∈ entries (state_of (DoFTools.make_sparsity_pattern DEBUG dof sp))
    <-> (j, i) ∈ entries (state_of (DoFTools.make_sparsity_pattern DEBUG dof sp)).
Proof.
  intros Hsym.
  assert (Hone : forall i j,
    (i, j) ∈ entries (state_of (DoFTools.make_sparsity_pattern DEBUG dof sp)) ->
    (j, i) ∈ entries (state_of (DoFTools.make_sparsity_pattern DEBUG dof sp))).
  { intros i j.
    destruct (make_sparsity_pattern_run DEBUG dof sp)
      as [(e & ->)|(sp' & -> & He)]; simpl.
    - apply Hsym.
    - rewrite !He. intros [Hp|Hp]; [left; now apply Hsym|right].
      now apply cell_coupling_sym. }
  intros i j. split; apply Hone.
Qed.

Lemma for_each_Assert_state {S X} (l : list X) (c : X -> bool) (e : X -> Exc) (s : S) :
  state_of (for_each l (fun x => Assert DEBUG (c x) (e x)) s) = s.
Proof.
  apply (for_each_preserves (fun s' => s' = s)); [|reflexivity].
  intros x s' _ ->. apply Assert_state.
Qed.

Lemma bind_for_each_Assert {S X B} (l : list X) (c : X -> bool) (e : X -> Exc)
    (k : unit -> Comp S B) (s : S) :
  bind (for_each l (fun x => Assert DEBUG (c x) (e x))) k s
  = match outcome_of (for_each l (fun x => Assert DEBUG (c x) (e x)) s) with
    | Done _ => k tt s
    | Raised e0 => (Raised e0, s)
    end.
Proof.
  unfold bind. pose proof (for_each_Assert_state l c e s) as Hs.
  destruct (for_each l _ s) as [[[]|e0] s1]; simpl in *; subst; reflexivity.
Qed.

(** What the masked variant does: an assertion fails and nothing is
    written, or a part of the cell couplings is added. *)
Lemma make_sparsity_pattern_masked_run (dof : @DoFTools.DoFHandler W) mask sp :
  (exists e, DoFTools.make_sparsity_pattern_masked DEBUG dof mask sp = (Raised e, sp))
  \/ (exists sp' P,
        DoFTools.make_sparsity_pattern_masked DEBUG dof mask sp = (Done tt, sp')
        /\ (forall p, p ∈ entries sp' <-> p ∈ entries sp \/ P p)
        /\ (forall p, P p -> cell_coupling dof p)).
Proof.
  unfold DoFTools.make_sparsity_pattern_masked. rewrite bind_get, bind_Assert.
  destruct (DEBUG && negb _); [left; eauto|].
  rewrite bind_Assert. destruct (DEBUG && negb _); [left; eauto|].
  rewrite bind_Assert. destruct (DEBUG && negb _); [left; eauto|].
  rewrite bind_for_each_Assert. destruct (outcome_of _) as [[]|e0].
  - right.
    match goal with |- context [for_each ?l ?b sp] =>
      assert (Hins : inserts (for_each l b)
        (fun p => exists c, c ∈ DoFTools.active_cells dof /\
           exists i, i ∈ seq 0 (DoFTools.dofs_per_cell (DoFTools.get_fe dof)) /\
           exists j, j ∈ seq 0 (DoFTools.dofs_per_cell (DoFTools.get_fe dof)) /\
             DoFTools.mask_at mask
               (DoFTools.system_to_component_index_first (DoFTools.get_fe dof) i)
               (DoFTools.system_to_component_index_first (DoFTools.get_fe dof) j)
             = true /\
             p = (at_ (DoFTools.dof_indices (DoFTools.cell dof c)) i,
                  at_ (DoFTools.dof_indices (DoFTools.cell dof c)) j))) end.
    { apply inserts_for_each; intros c _.
      apply inserts_for_each; intros i _.
      apply inserts_for_each; intros j _.
      destruct (DoFTools.mask_at _ _ _).
      - eapply inserts_ext; [|apply inserts_add]. intros p; simpl. tauto.
      - eapply inserts_ext; [|apply inserts_ret]. intros p; simpl.
        split; [tauto|]. intros [? _]; discriminate. }
    destruct (Hins sp) as (sp' & Hr & _ & He).
    eexists sp', _. split; [exact Hr|]. split; [exact He|].
    intros p (c & Hc & i & Hi & j & Hj & _ & ->).
    apply elem_of_seq_0 in Hi, Hj. exists c. split; [exact Hc|]. eauto 6.
  - left. eauto.
Qed.

(** Where the plain variant raises, the masked one raises as well: they
    share their first two assertions. *)
Lemma masked_raises_with_plain (dof : @DoFTools.DoFHandler W) mask sp e :
  DoFTools.make_sparsity_pattern DEBUG dof sp = (Raised e, sp) ->
  state_of (DoFTools.make_sparsity_pattern_masked DEBUG dof mask sp) = sp.
Proof.
  unfold DoFTools.make_sparsity_pattern, DoFTools.make_sparsity_pattern_masked.
  rewrite !bind_get, !bind_Assert. cbv beta.
  destruct (DEBUG && negb (n_rows sp =? DoFTools.n_dofs dof)%Z); [reflexivity|].
  destruct (DEBUG && negb (n_cols sp =? DoFTools.n_dofs dof)%Z); [reflexivity|].
  intros Hplain. exfalso. revert Hplain.
  destruct (cell_loops_insert dof sp) as (sp' & Hr & _).
  cbv zeta in Hr. rewrite Hr. discriminate.
Qed.

(** C8.  Every entry of the pattern left by the masked variant of
    [make_sparsity_pattern] is an entry of the pattern left by the plain
    variant run on the same mesh, finite element and initial pattern, for
    every mask that is square with side the number of components of the
    element. *)
Theorem masked_pattern_subset_of_plain
    (dof : @DoFTools.DoFHandler W) (mask : list (list bool)) sp :
  length mask = DoFTools.n_components (DoFTools.get_fe dof) ->
  (forall row, row ∈ mask ->
     length row = DoFTools.n_components (DoFTools.get_fe dof)) ->
  forall p,
    p ∈ entries (state_of (DoFTools.make_sparsity_pattern_masked DEBUG dof mask sp))
    -> p ∈ entries (state_of (DoFTools.make_sparsity_pattern DEBUG dof sp)).
Proof.
  intros _ _ p.
  destruct (make_sparsity_pattern_run DEBUG dof sp)
    as [(e & Hplain)|(sp' & Hplain & He)].
  - rewrite (masked_raises_with_plain dof mask sp e Hplain), Hplain.
    simpl. tauto.
  - rewrite Hplain. simpl.
    destruct (make_sparsity_pattern_masked_run dof mask sp)
      as [(e & ->)|(sm & P & -> & Hm & HP)]; simpl; rewrite He.
    + tauto.
    + rewrite Hm. intros [Hp|Hp]; [now left|right; now apply HP].
Qed.

End SparsityProperties.

Lemma make_sparsity_pattern_symmetric_witness :
  (0, 1)%Z ∈ entries (state_of (DoFTools.make_sparsity_pattern true
                        Examples.two_cells (Examples.empty_pattern 6)))
  <-> (1, 0)%Z ∈ entries (state_of (DoFTools.make_sparsity_pattern true
                        Examples.two_cells (Examples.empty_pattern 6))).
Proof.
  apply (make_sparsity_pattern_symmetric true Examples.two_cells
           (Examples.empty_pattern 6)).
  intros i j Hp. simpl in Hp. now apply not_elem_of_empty in Hp.
Defined.

Lemma masked_pattern_subset_of_plain_witness :
  (0, 1)%Z ∈ entries (state_of (DoFTools.make_sparsity_pattern_masked true
                        Examples.two_cells [[true]] (Examples.empty_pattern 6)))
  /\ (0, 1)%Z ∈ entries (state_of (DoFTools.make_sparsity_pattern true
                        Examples.two_cells (Examples.empty_pattern 6))).
Proof.
  assert (Hm : (0, 1)%Z ∈ entries (state_of
            (DoFTools.make_sparsity_pattern_masked true
               Examples.two_cells [[true]] (Examples.empty_pattern 6)))).
  { apply (bool_decide_unpack _). vm_compute. exact I. }
  split; [exact Hm|].
  apply (masked_pattern_subset_of_plain true Examples.two_cells [[true]]
           (Examples.empty_pattern 6)); [reflexivity| |exact Hm].
  intros row Hrow. apply list_elem_of_singleton in Hrow. now subst.
Defined.


(** ** Boundary sparsity patterns *)

Section BoundaryProperties.
Context {W : Type} `{Weight W}.

(** C5, as the code has it.  In one dimension the two boundary-sparsity
    routines never write to the pattern; they return normally in a release
    build and raise [ExcInternalError] in a checked build.  The hanging-node
    routine returns normally and changes nothing.  (The source has no
    instance of [make_flux_sparsity_pattern] for one dimension.) *)
Theorem one_dimensional_operations (DEBUG : bool)
    (dof : @DoFTools.DoFHandler W) (boundary_indicators mapping : list Z)
    (sp : SparsityPattern) (st : DoFTools.HangingNodeState) :
  DoFTools.make_boundary_sparsity_pattern_1d DEBUG dof mapping sp
  = (if DEBUG then Raised ExcInternalError else Done tt, sp)
  /\ DoFTools.make_boundary_sparsity_pattern_1d_indicators DEBUG dof
       boundary_indicators mapping sp
     = (if DEBUG then Raised ExcInternalError else Done tt, sp)
  /\ DoFTools.make_hanging_node_constraints_1d dof st = (Done tt, st).
Proof.
  unfold DoFTools.make_boundary_sparsity_pattern_1d,
    DoFTools.make_boundary_sparsity_pattern_1d_indicators,
    DoFTools.make_hanging_node_constraints_1d.
  rewrite !Assert_run. destruct DEBUG; repeat split.
Qed.

(** C6, as the code has it.  In a checked build and with sizes that match,
    a [dof_to_boundary_mapping] whose largest entry (in the variant with
    boundary indicators: largest entry other than [invalid_dof_index]) is
    not [n_rows - 1] raises [ExcInternalError] before any entry is written.
    Only the largest entry is looked at. *)
Theorem boundary_mapping_range_check
    (dof : @DoFTools.DoFHandler W) (boundary_indicators mapping : list Z)
    (sp : SparsityPattern) :
  Z.of_nat (length mapping) = DoFTools.n_dofs dof ->
  (n_rows sp = DoFTools.n_boundary_dofs dof ->
   n_cols sp = DoFTools.n_boundary_dofs dof ->
   DoFTools.max_element mapping <> DoFTools.uint_sub (n_rows sp) 1 ->
   DoFTools.make_boundary_sparsity_pattern true dof mapping sp
   = (Raised ExcInternalError, sp))
  /\ (255%Z ∉ boundary_indicators ->
      n_rows sp = DoFTools.n_boundary_dofs_on dof boundary_indicators ->
      n_cols sp = DoFTools.n_boundary_dofs_on dof boundary_indicators ->
      max_valid_element (DoFTools.invalid_dof_index dof) mapping
        <> DoFTools.uint_sub (n_rows sp) 1 ->
      DoFTools.make_boundary_sparsity_pattern_indicators true dof
        boundary_indicators mapping sp
      = (Raised ExcInternalError, sp)).
Proof.
  intros Hlen. split.
  - intros Hr Hc Hmax. unfold DoFTools.make_boundary_sparsity_pattern.
    rewrite bind_get, bind_Assert.
    rewrite (proj2 (Z.eqb_eq _ _) Hlen). cbn [negb andb].
    rewrite bind_Assert, (proj2 (Z.eqb_eq _ _) Hr). cbn [negb andb].
    rewrite bind_Assert, (proj2 (Z.eqb_eq _ _) Hc). cbn [negb andb].
    rewrite bind_Assert, (proj2 (Z.eqb_neq _ _) Hmax). reflexivity.
  - intros H255 Hr Hc Hmax.
    unfold DoFTools.make_boundary_sparsity_pattern_indicators.
    rewrite bind_get, bind_Assert.
    rewrite (proj2 (Z.eqb_eq _ _) Hlen). cbn [negb andb].
    rewrite bind_Assert, (bool_decide_eq_false_2 _ H255). cbn [negb andb].
    rewrite bind_Assert, (proj2 (Z.eqb_eq _ _) Hr). cbn [negb andb].
    rewrite bind_Assert, (proj2 (Z.eqb_eq _ _) Hc). cbn [negb andb].
    rewrite bind_Assert. fold (max_valid_element (DoFTools.invalid_dof_index dof) mapping).
    rewrite (proj2 (Z.eqb_neq _ _) Hmax). reflexivity.
Qed.

End BoundaryProperties.

(** On two intervals side by side, with the two end points as boundary
    DoFs, the boundary pattern is refused in a checked build. *)
Lemma one_dimensional_boundary_pattern_raises :
  DoFTools.make_boundary_sparsity_pattern_1d true Examples.nested_coarse
    [0; 4294967295; 1]%Z (Examples.empty_pattern 2)
  = (Raised ExcInternalError, Examples.empty_pattern 2).
Proof. reflexivity. Qed.

(** The mapping 0 -> 0, 1 -> 0, 2 -> 2 is not injective and misses the
    boundary index 1 of the three; its largest entry is 2, and both variants
    accept it in a checked build and fill a pattern in which row 1 is never
    touched. *)
Lemma non_injective_mapping_accepted :
  let mapping := [0; 0; 2]%Z in
  let filled := {| n_rows := 3; n_cols := 3;
                   entries := {[ (0, 0); (0, 2); (2, 0); (2, 2) ]}%Z |} in
  at_ mapping 0 = at_ mapping 1
  /\ bool_decide (1%Z ∈ mapping) = false
  /\ outcome_of (DoFTools.make_boundary_sparsity_pattern true
                   Examples.one_boundary_face mapping (Examples.empty_pattern 3))
     = Done tt
  /\ entries (state_of (DoFTools.make_boundary_sparsity_pattern true
                   Examples.one_boundary_face mapping (Examples.empty_pattern 3)))
     = entries filled
  /\ outcome_of (DoFTools.make_boundary_sparsity_pattern_indicators true
                   Examples.one_boundary_face [0%Z] mapping
                   (Examples.empty_pattern 3))
     = Done tt
  /\ entries (state_of (DoFTools.make_boundary_sparsity_pattern_indicators true
                   Examples.one_boundary_face [0%Z] mapping
                   (Examples.empty_pattern 3)))
     = entries filled.
Proof.
  cbv zeta. repeat split; vm_compute; reflexivity.
Qed.

Lemma boundary_mapping_range_check_witness :
  DoFTools.make_boundary_sparsity_pattern true Examples.one_boundary_face
    [0; 0; 1]%Z (Examples.empty_pattern 3)
  = (Raised ExcInternalError, Examples.empty_pattern 3)
  /\ DoFTools.make_boundary_sparsity_pattern_indicators true
       Examples.one_boundary_face [0%Z] [0; 0; 1]%Z (Examples.empty_pattern 3)
     = (Raised ExcInternalError, Examples.empty_pattern 3).
Proof.
  pose proof (boundary_mapping_range_check Examples.one_boundary_face
                [0%Z] [0; 0; 1]%Z (Examples.empty_pattern 3) eq_refl) as [H1 H2].
  split.
  - apply H1; [reflexivity|reflexivity|]. vm_compute. discriminate.
  - apply H2; [|reflexivity|reflexivity|].
    + intros Hin. apply list_elem_of_singleton in Hin. discriminate.
    + vm_compute. discriminate.
Defined.

(** ** Flux sparsity patterns *)

Section Flux.
Context {W : Type} `{Weight W}.
Variable DEBUG : bool.
Variable geo : GeometryInfo.
Variable dof : @DoFTools.DoFHandler W.

Local Abbreviation total_dofs := (DoFTools.dofs_per_cell (DoFTools.get_fe dof)).
Local Abbreviation dofs_of c := (DoFTools.dof_indices (DoFTools.cell dof c)).

Lemma elem_of_interior_faces x :
  x ∈ interior_faces geo dof <->
  exists c f, c ∈ DoFTools.active_cells dof /\ f < faces_per_cell geo
    /\ DoFTools.at_boundary (DoFTools.cell dof c) f = false
    /\ x = DoFTools.face (DoFTools.cell dof c) f.
Proof.
  unfold interior_faces. rewrite elem_of_list_to_set, list_elem_of_In, in_flat_map.
  split.
  - intros (c & Hc & Hx). apply in_flat_map in Hx as (f & Hf & Hx).
    apply list_elem_of_In in Hc. apply in_seq in Hf.
    destruct (DoFTools.at_boundary _ f) eqn:Hb; [destruct Hx|].
    destruct Hx as [<-|[]]. exists c, f. repeat split; auto. lia.
  - intros (c & f & Hc & Hf & Hb & ->). exists c.
    split; [now apply list_elem_of_In|]. apply in_flat_map. exists f.
    split; [apply in_seq; lia|]. rewrite Hb. now left.
Qed.

Lemma sparsity_add_inserts i j :
  inserts_in flux_entries flux_rest (modify (DoFTools.sparsity_add i j))
             (fun p => p = (i, j)).
Proof.
  intros s. eexists. split; [reflexivity|]. split; [reflexivity|].
  intros p. unfold flux_entries; simpl. rewrite elem_of_union, elem_of_singleton.
  tauto.
Qed.

Lemma couple_cells_inserts (a b : list Z) :
  inserts_in flux_entries flux_rest (DoFTools.couple_cells total_dofs a b)
    (fun p => exists i, i ∈ seq 0 total_dofs /\ exists j, j ∈ seq 0 total_dofs /\
       (p = (at_ a i, at_ b j) \/ p = (at_ b i, at_ a j))).
Proof.
  unfold DoFTools.couple_cells.
  apply inserts_for_each; intros i _.
  apply inserts_for_each; intros j _.
  apply inserts_seq; apply sparsity_add_inserts.
Qed.

(** Adding entries keeps the invariant. *)
Lemma flux_inv_grow s s' :
  flux_rest s' = flux_rest s ->
  (forall p, p ∈ flux_entries s -> p ∈ flux_entries s') ->
  flux_inv geo dof s -> flux_inv geo dof s'.
Proof.
  unfold flux_rest. intros Hrest Hgrow (I1 & I2 & I3 & I4 & I5).
  injection Hrest as Hf Hc _ _. unfold flux_inv. rewrite Hf, Hc.
  split; [exact I1|]. split; [exact I2|]. split; [exact I3|].
  split; [|exact I5].
  intros this other fc Hin i j Hi Hj.
  destruct (I4 _ _ _ Hin i j Hi Hj). split; apply Hgrow; assumption.
Qed.

(** One face of one cell. *)
Lemma flux_face_step c f s :
  uniform_mesh geo dof ->
  c ∈ DoFTools.active_cells dof -> f < faces_per_cell geo ->
  flux_inv geo dof s ->
  exists s', DoFTools.flux_face geo dof total_dofs c f s = (Done tt, s')
    /\ flux_inv geo dof s'
    /\ (forall x, x ∈ DoFTools.user_flags s -> x ∈ DoFTools.user_flags s')
    /\ (DoFTools.at_boundary (DoFTools.cell dof c) f = false ->
        DoFTools.face (DoFTools.cell dof c) f ∈ DoFTools.user_flags s').
Proof.
  intros Huni Hc Hf Hinv. unfold DoFTools.flux_face. rewrite bind_get.
  unfold DoFTools.user_flag_set. cbv zeta.
  destruct (bool_decide _) eqn:Hflag.
  - apply bool_decide_eq_true_1 in Hflag.
    exists s. split; [reflexivity|]. split; [exact Hinv|]. split; [auto|].
    intros _. exact Hflag.
  - apply bool_decide_eq_false_1 in Hflag.
    destruct (DoFTools.at_boundary (DoFTools.cell dof c) f) eqn:Hb; cbn [negb].
    + exists s. split; [reflexivity|]. split; [exact Hinv|]. split; [auto|].
      discriminate.
    + destruct (Huni c f Hc Hf Hb) as (Hlev & Hch & Hface).
      rewrite (proj2 (Nat.ltb_ge _ _) Hlev), Hch.
      destruct (couple_cells_inserts (dofs_of c)
                  (dofs_of (DoFTools.neighbor (DoFTools.cell dof c) f)) s)
        as (s1 & Hr1 & Hrest & He).
      unfold bind. rewrite Hr1. eexists. split; [reflexivity|].
      rewrite Hface. unfold flux_rest in Hrest. injection Hrest as Hfl Hco _ _.
      destruct Hinv as (I1 & I2 & I3 & I4 & I5).
      split; [|split].
      * unfold flux_inv; simpl. rewrite Hfl, Hco, map_app; simpl.
        change (flagged_face (c, DoFTools.neighbor (DoFTools.cell dof c) f,
                              DoFTools.face (DoFTools.cell dof c) f))
          with (DoFTools.face (DoFTools.cell dof c) f).
        split; [|split; [|split; [|split]]].
        -- intros x. rewrite elem_of_union, elem_of_singleton, elem_of_app,
             list_elem_of_singleton, I1. tauto.
        -- apply NoDup_app. split; [exact I2|]. split.
           ++ intros x Hx Hx'. apply list_elem_of_singleton in Hx'. subst x.
              apply Hflag. now apply I1.
           ++ apply NoDup_singleton.
        -- intros x Hx. apply elem_of_app in Hx as [Hx|Hx]; [now apply I3|].
           apply list_elem_of_singleton in Hx. subst x.
           apply elem_of_interior_faces. exists c, f. auto.
        -- intros this other fc Hin. unfold flux_entries; simpl.
           fold (flux_entries s1).
           apply elem_of_app in Hin as [Hin|Hin].
           ++ intros i j Hi Hj. destruct (I4 this other fc Hin i j Hi Hj).
              split; apply He; now left.
           ++ apply list_elem_of_singleton in Hin. injection Hin as -> -> ->.
              intros i j Hi Hj. split; apply He; right;
                exists i; (split; [apply elem_of_seq; lia|]);
                exists j; (split; [apply elem_of_seq; lia|]); auto.
        -- intros this other fc Hin.
           apply elem_of_app in Hin as [Hin|Hin]; [now apply I5|].
           apply list_elem_of_singleton in Hin. injection Hin as -> -> ->.
           split; [exact Hc|]. exists f. auto.
      * simpl. intros x Hx. rewrite Hfl. apply elem_of_union. now right.
      * intros _. simpl. apply elem_of_union. left. now apply elem_of_singleton.
Qed.

(** One cell: its own couplings, then its faces. *)
Lemma flux_cell_step c s :
  uniform_mesh geo dof ->
  c ∈ DoFTools.active_cells dof ->
  flux_inv geo dof s ->
  exists s', DoFTools.flux_cell geo dof total_dofs c s = (Done tt, s')
    /\ flux_inv geo dof s'
    /\ (forall x, x ∈ DoFTools.user_flags s -> x ∈ DoFTools.user_flags s')
    /\ (forall f, f < faces_per_cell geo ->
        DoFTools.at_boundary (DoFTools.cell dof c) f = false ->
        DoFTools.face (DoFTools.cell dof c) f ∈ DoFTools.user_flags s').
Proof.
  intros Huni Hc Hinv. unfold DoFTools.flux_cell. cbv zeta.
  match goal with |- context [bind ?m _] =>
    assert (Hown : inserts_in flux_entries flux_rest m
      (fun p => exists i, i ∈ seq 0 total_dofs /\ exists j, j ∈ seq 0 total_dofs /\
                p = (at_ (dofs_of c) i, at_ (dofs_of c) j))) end.
  { apply inserts_for_each; intros i _.
    apply inserts_for_each; intros j _. apply sparsity_add_inserts. }
  destruct (Hown s) as (s1 & Hr1 & Hrest & He).
  unfold bind. rewrite Hr1.
  assert (Hinv1 : flux_inv geo dof s1).
  { apply (flux_inv_grow s s1 Hrest); [|exact Hinv].
    intros p Hp. apply He. now left. }
  assert (Hfl1 : DoFTools.user_flags s1 = DoFTools.user_flags s).
  { unfold flux_rest in Hrest. now injection Hrest. }
  destruct (for_each_ind
    (fun pre s' => flux_inv geo dof s'
       /\ (forall x, x ∈ DoFTools.user_flags s -> x ∈ DoFTools.user_flags s')
       /\ (forall f, f ∈ pre ->
             DoFTools.at_boundary (DoFTools.cell dof c) f = false ->
             DoFTools.face (DoFTools.cell dof c) f ∈ DoFTools.user_flags s'))
    (DoFTools.flux_face geo dof total_dofs c) (seq 0 (faces_per_cell geo)))
    with (s := s1) as (s2 & Hr2 & Hi2 & Hm2 & Hd2).
  - intros pre f post s0 Hl (Hi0 & Hm0 & Hd0).
    assert (Hf : f < faces_per_cell geo).
    { assert (Hin : f ∈ seq 0 (faces_per_cell geo))
        by (rewrite Hl; apply elem_of_app; right; left).
      apply elem_of_seq in Hin. lia. }
    destruct (flux_face_step c f s0 Huni Hc Hf Hi0) as (s' & Hr & Hi & Hm & Hd).
    exists s'. split; [exact Hr|]. split; [exact Hi|]. split.
    + intros x Hx. apply Hm, Hm0, Hx.
    + intros g Hg Hb. apply elem_of_app in Hg as [Hg|Hg].
      * apply Hm. now apply Hd0.
      * apply list_elem_of_singleton in Hg. subst g. now apply Hd.
  - split; [exact Hinv1|]. split; [intros x; now rewrite Hfl1|].
    intros f Hf. now apply elem_of_nil in Hf.
  - exists s2. split; [exact Hr2|]. split; [exact Hi2|]. split; [exact Hm2|].
    intros f Hf. apply Hd2. apply elem_of_seq. lia.
Qed.

(** *** Meshes with hanging nodes *)

Lemma elem_of_map_list {A B} (g : A -> B) (l : list A) y :
  y ∈ map g l <-> exists x, x ∈ l /\ y = g x.
Proof.
  rewrite list_elem_of_In, in_map_iff. split.
  - intros (x & <- & Hx). exists x. now rewrite list_elem_of_In.
  - intros (x & Hx & ->). exists x. now rewrite <- list_elem_of_In.
Qed.

Lemma NoDup_map_eq {A B} (g : A -> B) (l : list A) a b :
  NoDup (map g l) -> a ∈ l -> b ∈ l -> g a = g b -> a = b.
Proof.
  induction l as [|x l IH]; intros Hnd Ha Hb Heq; [now apply elem_of_nil in Ha|].
  cbn [map] in Hnd. apply NoDup_cons in Hnd as [Hx Hnd].
  apply elem_of_cons in Ha as [-> |Ha]; apply elem_of_cons in Hb as [-> |Hb].
  - reflexivity.
  - exfalso. apply Hx. rewrite Heq. apply elem_of_map_list. eauto.
  - exfalso. apply Hx. rewrite <- Heq. apply elem_of_map_list. eauto.
  - now apply IH.
Qed.

Lemma elem_of_fine_interior_faces x :
  x ∈ fine_interior_faces geo dof <->
  exists c f, visit geo dof c f
    /\ DoFTools.at_boundary (DoFTools.cell dof c) f = false
    /\ DoFTools.has_children
         (DoFTools.cell dof (DoFTools.neighbor (DoFTools.cell dof c) f)) = false
    /\ x = DoFTools.face (DoFTools.cell dof c) f.
Proof.
  unfold fine_interior_faces, visit.
  rewrite elem_of_list_to_set, list_elem_of_In, in_flat_map.
  split.
  - intros (c & Hc & Hx). apply in_flat_map in Hx as (f & Hf & Hx).
    apply list_elem_of_In in Hc. apply in_seq in Hf. cbv zeta in Hx.
    destruct (DoFTools.at_boundary _ f) eqn:Hb; [destruct Hx|].
    destruct (DoFTools.has_children _) eqn:Hch; [destruct Hx|].
    destruct Hx as [<-|[]]. exists c, f. repeat split; auto. lia.
  - intros (c & f & [Hc Hf] & Hb & Hch & ->). exists c.
    split; [now apply list_elem_of_In|]. apply in_flat_map. exists f.
    split; [apply in_seq; lia|]. cbv zeta. rewrite Hb, Hch. now left.
Qed.

Lemma couplings_plain c f :
  plain_across dof c f ->
  couplings_across geo dof c f
  = [(c, DoFTools.neighbor (DoFTools.cell dof c) f,
      DoFTools.face
        (DoFTools.cell dof (DoFTools.neighbor (DoFTools.cell dof c) f))
        (DoFTools.neighbor_of_neighbor (DoFTools.cell dof c) f))].
Proof.
  intros (Hb & Hlev & Hch). unfold couplings_across. cbv zeta.
  now rewrite Hb, (proj2 (Nat.ltb_ge _ _) Hlev), Hch.
Qed.

(** what a visit finds behind the face *)
Lemma visit_kind c f :
  couplings_across geo dof c f = []
  \/ refined_across dof c f
  \/ plain_across dof c f.
Proof.
  unfold couplings_across, refined_across, plain_across. cbv zeta.
  destruct (DoFTools.at_boundary _ f); [now left|].
  destruct (Nat.ltb_spec
              (DoFTools.level
                 (DoFTools.cell dof (DoFTools.neighbor (DoFTools.cell dof c) f)))
              (DoFTools.level (DoFTools.cell dof c))); [now left|].
  destruct (DoFTools.has_children _); [right; left; auto|right; right; auto].
Qed.

Lemma couplings_across_this c f this other fc :
  (this, other, fc) ∈ couplings_across geo dof c f -> this = c.
Proof.
  unfold couplings_across. cbv zeta.
  destruct (DoFTools.at_boundary _ f); [intros Hin; now apply elem_of_nil in Hin|].
  destruct (_ <? _); [intros Hin; now apply elem_of_nil in Hin|].
  destruct (DoFTools.has_children _).
  - intros Hin. apply elem_of_map_list in Hin as (k & _ & Heq). congruence.
  - intros Hin. apply list_elem_of_singleton in Hin. congruence.
Qed.

Lemma faces_coupled_plain c f :
  hanging_node_mesh geo dof -> visit geo dof c f -> plain_across dof c f ->
  faces_coupled geo dof c f = [DoFTools.face (DoFTools.cell dof c) f].
Proof.
  intros (_ & Hplain & _) Hv Hpl. unfold faces_coupled.
  rewrite (couplings_plain c f Hpl). cbn [map]. unfold flagged_face. cbn [snd].
  now rewrite (Hplain c f Hv Hpl).
Qed.

Lemma faces_coupled_fine c f :
  hanging_node_mesh geo dof -> visit geo dof c f ->
  forall x, x ∈ faces_coupled geo dof c f -> x ∈ fine_interior_faces geo dof.
Proof.
  intros Hmesh Hv x Hx.
  destruct (visit_kind c f) as [Hnil|[Href|Hpl]].
  - unfold faces_coupled in Hx. rewrite Hnil in Hx. now apply elem_of_nil in Hx.
  - destruct Hmesh as (_ & _ & _ & Hfine & _). now apply (Hfine c f).
  - rewrite (faces_coupled_plain c f Hmesh Hv Hpl) in Hx.
    apply list_elem_of_singleton in Hx. subst x.
    apply elem_of_fine_interior_faces. exists c, f.
    destruct Hpl as (Hb & _ & Hch). auto.
Qed.

Lemma faces_coupled_NoDup c f :
  hanging_node_mesh geo dof -> visit geo dof c f ->
  NoDup (faces_coupled geo dof c f).
Proof.
  intros Hmesh Hv.
  destruct (visit_kind c f) as [Hnil|[Href|Hpl]].
  - unfold faces_coupled. rewrite Hnil. apply NoDup_nil_2.
  - destruct Hmesh as (_ & _ & _ & _ & Hdistinct & _). now apply Hdistinct.
  - rewrite (faces_coupled_plain c f Hmesh Hv Hpl). apply NoDup_singleton.
Qed.

Lemma coupled_both_ways_grow (e e' : gset (Z * Z)) this other :
  (forall p, p ∈ e -> p ∈ e') ->
  coupled_both_ways dof this other e -> coupled_both_ways dof this other e'.
Proof. intros Hg Hc i j Hi Hj. destruct (Hc i j Hi Hj). split; now apply Hg. Qed.

(** the block that couples this cell with another one and flags a face *)
Lemma couple_and_flag c other fc s :
  exists s',
    (DoFTools.couple_cells total_dofs (dofs_of c) (dofs_of other) ;;
     modify (DoFTools.set_user_flag c other fc)) s = (Done tt, s')
    /\ DoFTools.coupled s' = DoFTools.coupled s ++ [(c, other, fc)]
    /\ DoFTools.user_flags s' = {[ fc ]} ∪ DoFTools.user_flags s
    /\ (forall p, p ∈ flux_entries s -> p ∈ flux_entries s')
    /\ coupled_both_ways dof c other (flux_entries s').
Proof.
  destruct (couple_cells_inserts (dofs_of c) (dofs_of other) s)
    as (s1 & Hr1 & Hrest & He).
  unfold bind. rewrite Hr1. eexists. split; [reflexivity|].
  unfold flux_rest in Hrest. injection Hrest as Hfl Hco _ _.
  cbn [DoFTools.set_user_flag DoFTools.coupled DoFTools.user_flags].
  rewrite Hfl, Hco. split; [reflexivity|]. split; [reflexivity|].
  unfold flux_entries at 2 3. cbn [DoFTools.set_user_flag DoFTools.sparsity].
  fold (flux_entries s1). split.
  - intros p Hp. apply He. now left.
  - intros i j Hi Hj. split; apply He; right;
      exists i; (split; [apply elem_of_seq; lia|]);
      exists j; (split; [apply elem_of_seq; lia|]); auto.
Qed.

(** the loop over the children of a refined neighbour behind a face *)
Lemma couple_children c (sub_neighbor child_face : nat -> nat) (l : list nat) s :
  exists s',
    for_each l (fun sub_nr =>
      DoFTools.couple_cells total_dofs (dofs_of c) (dofs_of (sub_neighbor sub_nr)) ;;
      modify (DoFTools.set_user_flag c (sub_neighbor sub_nr) (child_face sub_nr))) s
    = (Done tt, s')
    /\ DoFTools.coupled s'
       = DoFTools.coupled s
         ++ map (fun sub_nr => (c, sub_neighbor sub_nr, child_face sub_nr)) l
    /\ (forall x, x ∈ DoFTools.user_flags s'
                  <-> x ∈ map child_face l \/ x ∈ DoFTools.user_flags s)
    /\ (forall p, p ∈ flux_entries s -> p ∈ flux_entries s')
    /\ (forall k, k ∈ l ->
          coupled_both_ways dof c (sub_neighbor k) (flux_entries s')).
Proof.
  revert s. induction l as [|k l IH]; intros s.
  - exists s. split; [reflexivity|]. split; [simpl; now rewrite app_nil_r|].
    split; [intros x; simpl; rewrite elem_of_nil; tauto|].
    split; [auto|]. intros k Hk. now apply elem_of_nil in Hk.
  - destruct (couple_and_flag c (sub_neighbor k) (child_face k) s)
      as (s1 & Hr1 & Hco1 & Hfl1 & Hg1 & Hb1).
    destruct (IH s1) as (s' & Hr & Hco & Hfl & Hg & Hb).
    exists s'. cbn [for_each]. rewrite (bind_done _ _ _ _ _ Hr1).
    split; [exact Hr|]. split; [|split; [|split]].
    + rewrite Hco, Hco1. cbn [map]. now rewrite <- app_assoc.
    + intros x. rewrite Hfl, Hfl1. cbn [map].
      rewrite elem_of_cons, elem_of_union, elem_of_singleton. tauto.
    + intros p Hp. now apply Hg, Hg1.
    + intros k' Hk'. apply elem_of_cons in Hk' as [-> |Hk']; [|now apply Hb].
      now apply (coupled_both_ways_grow (flux_entries s1)).
Qed.

(** A face whose flag is not set: the pairs behind it are coupled in both
    directions and recorded, and their faces are flagged. *)
Lemma flux_face_run c f s :
  DoFTools.face (DoFTools.cell dof c) f ∉ DoFTools.user_flags s ->
  exists s', DoFTools.flux_face geo dof total_dofs c f s = (Done tt, s')
    /\ DoFTools.coupled s' = DoFTools.coupled s ++ couplings_across geo dof c f
    /\ (forall x, x ∈ DoFTools.user_flags s'
                  <-> x ∈ faces_coupled geo dof c f \/ x ∈ DoFTools.user_flags s)
    /\ (forall p, p ∈ flux_entries s -> p ∈ flux_entries s')
    /\ (forall this other fc, (this, other, fc) ∈ couplings_across geo dof c f ->
          coupled_both_ways dof this other (flux_entries s')).
Proof.
  intros Hflag.
  assert (Hnothing :
    exists s', ret tt s = (Done tt, s')
      /\ DoFTools.coupled s' = DoFTools.coupled s ++ []
      /\ (forall x, x ∈ DoFTools.user_flags s'
                    <-> x ∈ map flagged_face [] \/ x ∈ DoFTools.user_flags s)
      /\ (forall p, p ∈ flux_entries s -> p ∈ flux_entries s')
      /\ (forall this other fc : nat,
            (this, other, fc) ∈ @nil (nat * nat * nat) ->
            coupled_both_ways dof this other (flux_entries s'))).
  { exists s. split; [reflexivity|]. split; [now rewrite app_nil_r|].
    split; [intros x; simpl; rewrite elem_of_nil; tauto|]. split; [auto|].
    intros this other fc Hin. now apply elem_of_nil in Hin. }
  unfold DoFTools.flux_face, faces_coupled, couplings_across. rewrite bind_get.
  unfold DoFTools.user_flag_set. cbv zeta.
  rewrite (bool_decide_eq_false_2 _ Hflag).
  destruct (DoFTools.at_boundary _ f); cbn [negb]; [exact Hnothing|].
  destruct (_ <? _); [exact Hnothing|].
  destruct (DoFTools.has_children _).
  - match goal with
    | |- context [for_each ?l (fun sub_nr =>
                    DoFTools.couple_cells _ _ (DoFTools.dof_indices
                      (DoFTools.cell dof (@?sn sub_nr))) ;;
                    modify (DoFTools.set_user_flag _ _ (@?fc sub_nr)))] =>
        destruct (couple_children c sn fc l s) as (s' & Hr & Hco & Hfl & Hg & Hb)
    end.
    cbv beta in Hr, Hco, Hfl, Hb. exists s'. split; [exact Hr|].
    split; [exact Hco|]. split; [|split; [exact Hg|]].
    + intros x. rewrite Hfl, map_map. unfold flagged_face. cbn [snd]. reflexivity.
    + intros this other fc' Hin.
      apply elem_of_map_list in Hin as (k & Hk & Heq). injection Heq as -> -> ->.
      now apply Hb.
  - destruct (couple_and_flag c (DoFTools.neighbor (DoFTools.cell dof c) f)
                (DoFTools.face
                   (DoFTools.cell dof (DoFTools.neighbor (DoFTools.cell dof c) f))
                   (DoFTools.neighbor_of_neighbor (DoFTools.cell dof c) f)) s)
      as (s' & Hr & Hco & Hfl & Hg & Hb).
    exists s'. split; [exact Hr|]. split; [exact Hco|]. split; [|split; [exact Hg|]].
    + intros x. rewrite Hfl, elem_of_union, elem_of_singleton. cbn [map].
      unfold flagged_face. cbn [snd]. rewrite list_elem_of_singleton. reflexivity.
    + intros this other fc' Hin. apply list_elem_of_singleton in Hin.
      injection Hin as -> -> ->. exact Hb.
Qed.

Lemma flux_progress_ext (D D' : nat -> nat -> Prop) s :
  (forall c f, visit geo dof c f -> (D c f <-> D' c f)) ->
  flux_progress geo dof D s -> flux_progress geo dof D' s.
Proof.
  intros Hext (I1 & I2 & I3 & I4 & I5 & I6).
  split; [exact I1|]. split; [exact I2|]. split; [exact I3|].
  split; [exact I4|]. split.
  - intros item Hin. destruct (I5 item Hin) as (c & f & Hd & Hv & Hi).
    exists c, f. split; [now apply Hext|auto].
  - intros c f Hd Hv. apply I6; [now apply Hext|exact Hv].
Qed.

Lemma flux_progress_grow (D : nat -> nat -> Prop) s s' :
  flux_rest s' = flux_rest s ->
  (forall p, p ∈ flux_entries s -> p ∈ flux_entries s') ->
  flux_progress geo dof D s -> flux_progress geo dof D s'.
Proof.
  unfold flux_rest. intros Hrest Hgrow (I1 & I2 & I3 & I4 & I5 & I6).
  injection Hrest as Hf Hc _ _. unfold flux_progress. rewrite Hf, Hc.
  split; [exact I1|]. split; [exact I2|]. split; [exact I3|].
  split; [|split; [exact I5|exact I6]].
  intros this other fc Hin.
  apply (coupled_both_ways_grow (flux_entries s)); [exact Hgrow|].
  now apply (I4 this other fc).
Qed.

(** One face of one cell, on a mesh with hanging nodes. *)
Lemma flux_progress_face (D : nat -> nat -> Prop) c f s :
  hanging_node_mesh geo dof -> visit geo dof c f -> ~ D c f ->
  flux_progress geo dof D s ->
  exists s', DoFTools.flux_face geo dof total_dofs c f s = (Done tt, s')
    /\ flux_progress geo dof (fun c' f' => D c' f' \/ (c' = c /\ f' = f)) s'.
Proof.
  intros Hmesh Hv Hnew (I1 & I2 & I3 & I4 & I5 & I6).
  destruct (decide (DoFTools.face (DoFTools.cell dof c) f ∈ DoFTools.user_flags s))
    as [Hflag|Hflag].
  - exists s. split.
    { unfold DoFTools.flux_face, DoFTools.user_flag_set. rewrite bind_get.
      cbv zeta. now rewrite (bool_decide_eq_true_2 _ Hflag). }
    split; [exact I1|]. split; [exact I2|]. split; [exact I3|].
    split; [exact I4|]. split.
    + intros item Hin. destruct (I5 item Hin) as (c0 & f0 & Hd & Hv0 & Hi).
      exists c0, f0. auto.
    + intros c' f' [Hd|[-> ->]] Hv' x Hx; [now apply (I6 c' f')|].
      destruct (visit_kind c f) as [Hnil|[Href|Hpl]].
      * unfold faces_coupled in Hx. rewrite Hnil in Hx.
        now apply elem_of_nil in Hx.
      * exfalso. destruct Hmesh as (_ & _ & Hmother & _).
        apply (Hmother c f Hv Href). apply I3, I1, Hflag.
      * rewrite (faces_coupled_plain c f Hmesh Hv Hpl) in Hx.
        apply list_elem_of_singleton in Hx. now subst x.
  - destruct (flux_face_run c f s Hflag) as (s' & Hr & Hco & Hfl & Hgrow & Hboth).
    exists s'. split; [exact Hr|].
    unfold flux_progress. rewrite Hco, map_app.
    fold (faces_coupled geo dof c f).
    split; [|split; [|split; [|split; [|split]]]].
    + intros x. rewrite Hfl, elem_of_app, I1. tauto.
    + apply NoDup_app. split; [exact I2|].
      split; [|now apply faces_coupled_NoDup].
      intros x Hold Hx.
      apply elem_of_map_list in Hold as (item & Hitem & ->).
      destruct (I5 item Hitem) as (c0 & f0 & Hd & Hv0 & Hi).
      assert (Hx0 : flagged_face item ∈ faces_coupled geo dof c0 f0).
      { apply elem_of_map_list. exists item. auto. }
      destruct Hmesh as (_ & _ & _ & _ & _ & _ & Hclash).
      apply Hflag, (I6 c0 f0 Hd Hv0).
      apply (Hclash c0 f0 c f (flagged_face item)); auto.
      intros Heq. injection Heq as -> ->. contradiction.
    + intros x Hx. apply elem_of_app in Hx as [Hx|Hx]; [now apply I3|].
      now apply (faces_coupled_fine c f).
    + intros this other fc Hin. apply elem_of_app in Hin as [Hin|Hin].
      * apply (coupled_both_ways_grow (flux_entries s)); [exact Hgrow|].
        now apply (I4 this other fc).
      * now apply (Hboth this other fc).
    + intros item Hin. apply elem_of_app in Hin as [Hin|Hin].
      * destruct (I5 item Hin) as (c0 & f0 & Hd & Hv0 & Hi). exists c0, f0. auto.
      * exists c, f. auto.
    + intros c' f' [Hd|[-> ->]] Hv' x Hx; apply Hfl;
        [right; now apply (I6 c' f')|now left].
Qed.

(** One cell of such a mesh: its own couplings, then its faces. *)
Lemma flux_progress_cell (D : nat -> nat -> Prop) c s :
  hanging_node_mesh geo dof -> c ∈ DoFTools.active_cells dof ->
  (forall f, ~ D c f) ->
  flux_progress geo dof D s ->
  exists s', DoFTools.flux_cell geo dof total_dofs c s = (Done tt, s')
    /\ flux_progress geo dof (fun c' f' => D c' f' \/ c' = c) s'.
Proof.
  intros Hmesh Hc Hnew Hinv. unfold DoFTools.flux_cell. cbv zeta.
  match goal with |- context [bind ?m _] =>
    assert (Hown : inserts_in flux_entries flux_rest m
      (fun p => exists i, i ∈ seq 0 total_dofs /\ exists j, j ∈ seq 0 total_dofs /\
                p = (at_ (dofs_of c) i, at_ (dofs_of c) j))) end.
  { apply inserts_for_each; intros i _.
    apply inserts_for_each; intros j _. apply sparsity_add_inserts. }
  destruct (Hown s) as (s1 & Hr1 & Hrest & He).
  unfold bind. rewrite Hr1.
  assert (Hinv1 : flux_progress geo dof D s1).
  { apply (flux_progress_grow D s s1 Hrest); [|exact Hinv].
    intros p Hp. apply He. now left. }
  destruct (for_each_ind
    (fun pre s' =>
       flux_progress geo dof (fun c' f' => D c' f' \/ (c' = c /\ f' ∈ pre)) s')
    (DoFTools.flux_face geo dof total_dofs c) (seq 0 (faces_per_cell geo)))
    with (s := s1) as (s2 & Hr2 & Hi2).
  - intros pre f post s0 Hl Hi0.
    assert (Hf : f < faces_per_cell geo).
    { assert (Hin : f ∈ seq 0 (faces_per_cell geo))
        by (rewrite Hl; apply elem_of_app; right; left).
      apply elem_of_seq in Hin. lia. }
    assert (Hfresh : f ∉ pre).
    { pose proof (NoDup_seq 0 (faces_per_cell geo)) as Hnd. rewrite Hl in Hnd.
      apply NoDup_app in Hnd as (_ & Hdis & _). intros Hin.
      apply (Hdis f Hin). left. }
    destruct (flux_progress_face
                (fun c' f' => D c' f' \/ (c' = c /\ f' ∈ pre)) c f s0 Hmesh
                (conj Hc Hf)) as (s' & Hr & Hi); [|exact Hi0|].
    { intros [Hd|[_ Hin]]; [now apply (Hnew f)|contradiction]. }
    exists s'. split; [exact Hr|].
    refine (flux_progress_ext _ _ s' _ Hi). intros c' f' _.
    rewrite elem_of_app, list_elem_of_singleton. tauto.
  - refine (flux_progress_ext D _ s1 _ Hinv1). intros c' f' _.
    rewrite elem_of_nil. tauto.
  - exists s2. split; [exact Hr2|].
    refine (flux_progress_ext _ _ s2 _ Hi2). intros c' f' [_ Hf'].
    rewrite elem_of_seq. split; intros [Hd|Hd]; auto.
    + right. tauto.
    + right. split; [exact Hd|lia].
Qed.

(** C1.  In [make_flux_sparsity_pattern] a face whose user flag is set is
    skipped, and so is a face whose neighbour is on a strictly coarser
    level.  On a uniform mesh without hanging nodes, started from any user
    flags (they are cleared first), the routine returns normally after
    having processed every interior face exactly once: the faces recorded with the
    coupled pairs of cells are pairwise different and are exactly the
    interior faces of the mesh, so that the number of coupled pairs is the
    number of interior faces; each pair consists of an active cell and its
    neighbour across that face, and for each pair the entries (this, other)
    and (other, this) are present for the full cross product of the local
    DoFs.  On a mesh with hanging nodes the routine returns normally as
    well, and the faces recorded with the coupled pairs are pairwise
    different and are exactly the faces between two active cells; each pair
    is an active cell with its unrefined neighbour, or with a child of its
    refined neighbour, behind one of its faces, coupled in both directions
    over the full cross product; and where a face has hanging nodes, it is
    the cell on the coarser side that is coupled with every child behind
    the face. *)
Theorem flux_sparsity_processes_each_interior_face_once
    (sp : SparsityPattern) (flags : gset nat) :
  (* a face whose flag is set is skipped *)
  (forall c f s,
     DoFTools.face (DoFTools.cell dof c) f ∈ DoFTools.user_flags s ->
     DoFTools.flux_face geo dof total_dofs c f s = (Done tt, s))
  (* a neighbour on a strictly coarser level is skipped *)
  /\ (forall c f s,
       DoFTools.level (DoFTools.cell dof (DoFTools.neighbor (DoFTools.cell dof c) f))
         < DoFTools.level (DoFTools.cell dof c) ->
       DoFTools.flux_face geo dof total_dofs c f s = (Done tt, s))
  /\ (uniform_mesh geo dof ->
      n_rows sp = DoFTools.n_dofs dof ->
      n_cols sp = DoFTools.n_dofs dof ->
      exists st',
        DoFTools.make_flux_sparsity_pattern DEBUG geo dof
          {| DoFTools.sparsity := sp; DoFTools.user_flags := flags;
             DoFTools.coupled := [] |}
        = (Done tt, st')
        /\ NoDup (map flagged_face (DoFTools.coupled st'))
        /\ (forall x, x ∈ map flagged_face (DoFTools.coupled st')
                      <-> x ∈ interior_faces geo dof)
        /\ length (DoFTools.coupled st') = size (interior_faces geo dof)
        /\ (forall this other fc, (this, other, fc) ∈ DoFTools.coupled st' ->
              neighbours_across geo dof this other fc
              /\ coupled_both_ways dof this other
                   (entries (DoFTools.sparsity st'))))
  (* a mesh with hanging nodes *)
  /\ (hanging_node_mesh geo dof ->
      n_rows sp = DoFTools.n_dofs dof ->
      n_cols sp = DoFTools.n_dofs dof ->
      exists st',
        DoFTools.make_flux_sparsity_pattern DEBUG geo dof
          {| DoFTools.sparsity := sp; DoFTools.user_flags := flags;
             DoFTools.coupled := [] |}
        = (Done tt, st')
        /\ NoDup (map flagged_face (DoFTools.coupled st'))
        /\ (forall x, x ∈ map flagged_face (DoFTools.coupled st')
                      <-> x ∈ fine_interior_faces geo dof)
        /\ length (DoFTools.coupled st') = size (fine_interior_faces geo dof)
        /\ (forall this other fc, (this, other, fc) ∈ DoFTools.coupled st' ->
              (exists f, visit geo dof this f
                         /\ (this, other, fc) ∈ couplings_across geo dof this f)
              /\ coupled_both_ways dof this other
                   (entries (DoFTools.sparsity st')))
        /\ (forall c f, visit geo dof c f -> refined_across dof c f ->
              forall item, item ∈ couplings_across geo dof c f ->
                           item ∈ DoFTools.coupled st')).
Proof.
  split; [|split; [|split]].
  { intros c f s Hflag. unfold DoFTools.flux_face, DoFTools.user_flag_set.
    rewrite bind_get. cbv zeta. now rewrite (bool_decide_eq_true_2 _ Hflag). }
  { intros c f s Hlev. unfold DoFTools.flux_face. rewrite bind_get. cbv zeta.
    destruct (DoFTools.user_flag_set _ s); [reflexivity|].
    destruct (negb _); [|reflexivity].
    now rewrite (proj2 (Nat.ltb_lt _ _) Hlev). }
  { intros Huni Hrows Hcols.
    unfold DoFTools.make_flux_sparsity_pattern.
    rewrite bind_get. cbn [DoFTools.sparsity].
    rewrite bind_Assert, (proj2 (Z.eqb_eq _ _) Hrows), andb_false_r.
    rewrite bind_Assert, (proj2 (Z.eqb_eq _ _) Hcols), andb_false_r.
    rewrite bind_modify.
    destruct (for_each_ind
      (fun pre s' => flux_inv geo dof s'
         /\ (forall c f, c ∈ pre -> f < faces_per_cell geo ->
               DoFTools.at_boundary (DoFTools.cell dof c) f = false ->
               DoFTools.face (DoFTools.cell dof c) f ∈ DoFTools.user_flags s'))
      (DoFTools.flux_cell geo dof total_dofs) (DoFTools.active_cells dof))
      with (s := DoFTools.clear_user_flags
                   {| DoFTools.sparsity := sp; DoFTools.user_flags := flags;
                      DoFTools.coupled := [] |})
      as (st' & Hr & Hinv & Hall).
    - intros pre c post s0 Hl (Hi0 & Hd0).
      assert (Hc : c ∈ DoFTools.active_cells dof)
        by (rewrite Hl; apply elem_of_app; right; left).
      destruct (flux_cell_step c s0 Huni Hc Hi0) as (s' & Hr & Hi & Hm & Hd).
      exists s'. split; [exact Hr|]. split; [exact Hi|].
      intros c' f Hc' Hf Hb. apply elem_of_app in Hc' as [Hc'|Hc'].
      + apply Hm. now apply Hd0.
      + apply list_elem_of_singleton in Hc'. subst c'. now apply Hd.
    - split.
      + unfold flux_inv, DoFTools.clear_user_flags; simpl.
        split; [intros x; split; intros Hx; [now apply not_elem_of_empty in Hx
                                            |now apply elem_of_nil in Hx]|].
        split; [apply NoDup_nil_2|].
        split; [intros x Hx; now apply elem_of_nil in Hx|].
        split; intros this other fc Hin; now apply elem_of_nil in Hin.
      + intros c f Hc. now apply elem_of_nil in Hc.
    - destruct Hinv as (I1 & I2 & I3 & I4 & I5).
      assert (Hset : forall x, x ∈ map flagged_face (DoFTools.coupled st')
                               <-> x ∈ interior_faces geo dof).
      { intros x. split; [apply I3|]. intros Hx.
        apply elem_of_interior_faces in Hx as (c & f & Hc & Hf & Hb & ->).
        apply I1. now apply Hall. }
      exists st'. split; [exact Hr|]. split; [exact I2|]. split; [exact Hset|].
      split.
      + assert (Heq : interior_faces geo dof
                      = list_to_set (map flagged_face (DoFTools.coupled st'))).
        { apply set_eq. intros x. rewrite elem_of_list_to_set. symmetry.
          apply Hset. }
        rewrite Heq, size_list_to_set by exact I2. now rewrite length_map.
      + intros this other fc Hin.
        split; [now apply I5|now apply (I4 this other fc)]. }
  intros Hmesh Hrows Hcols.
  unfold DoFTools.make_flux_sparsity_pattern.
  rewrite bind_get. cbn [DoFTools.sparsity].
  rewrite bind_Assert, (proj2 (Z.eqb_eq _ _) Hrows), andb_false_r.
  rewrite bind_Assert, (proj2 (Z.eqb_eq _ _) Hcols), andb_false_r.
  rewrite bind_modify.
  destruct (for_each_ind
    (fun pre s' => flux_progress geo dof (fun c' _ => c' ∈ pre) s')
    (DoFTools.flux_cell geo dof total_dofs) (DoFTools.active_cells dof))
    with (s := DoFTools.clear_user_flags
                 {| DoFTools.sparsity := sp; DoFTools.user_flags := flags;
                    DoFTools.coupled := [] |})
    as (st' & Hr & Hinv).
  - intros pre c post s0 Hl Hi0.
    assert (Hc : c ∈ DoFTools.active_cells dof)
      by (rewrite Hl; apply elem_of_app; right; left).
    assert (Hfresh : c ∉ pre).
    { destruct Hmesh as (Hnd & _). rewrite Hl in Hnd.
      apply NoDup_app in Hnd as (_ & Hdis & _). intros Hin.
      apply (Hdis c Hin). left. }
    destruct (flux_progress_cell (fun c' _ => c' ∈ pre) c s0 Hmesh Hc
                (fun _ => Hfresh) Hi0) as (s' & Hr & Hi).
    exists s'. split; [exact Hr|].
    refine (flux_progress_ext _ _ s' _ Hi). intros c' f' _.
    rewrite elem_of_app, list_elem_of_singleton. tauto.
  - unfold flux_progress, DoFTools.clear_user_flags; simpl.
    split; [intros x; split; intros Hx; [now apply not_elem_of_empty in Hx
                                        |now apply elem_of_nil in Hx]|].
    split; [apply NoDup_nil_2|].
    split; [intros x Hx; now apply elem_of_nil in Hx|].
    split; [intros this other fc Hin; now apply elem_of_nil in Hin|].
    split; [intros item Hin; now apply elem_of_nil in Hin|].
    intros c f Hc. now apply elem_of_nil in Hc.
  - destruct Hinv as (I1 & I2 & I3 & I4 & I5 & I6).
    assert (Hflagged : forall c f, visit geo dof c f ->
              forall x, x ∈ faces_coupled geo dof c f ->
                        x ∈ map flagged_face (DoFTools.coupled st')).
    { intros c f Hv x Hx. apply I1, (I6 c f); [apply Hv|exact Hv|exact Hx]. }
    assert (Hset : forall x, x ∈ map flagged_face (DoFTools.coupled st')
                             <-> x ∈ fine_interior_faces geo dof).
    { intros x. split; [apply I3|]. intros Hx.
      apply elem_of_fine_interior_faces in Hx as (c & f & Hv & Hb & Hch & ->).
      destruct (le_lt_dec (DoFTools.level (DoFTools.cell dof c))
                  (DoFTools.level
                     (DoFTools.cell dof (DoFTools.neighbor (DoFTools.cell dof c) f))))
        as [Hle|Hlt].
      - apply (Hflagged c f Hv).
        rewrite (faces_coupled_plain c f Hmesh Hv (conj Hb (conj Hle Hch))).
        now apply list_elem_of_singleton.
      - destruct Hmesh as (_ & _ & _ & _ & _ & Hcovered & _).
        destruct (Hcovered c f Hv (conj Hb (conj Hlt Hch)))
          as (c' & f' & Hv' & Hin).
        now apply (Hflagged c' f'). }
    exists st'. split; [exact Hr|]. split; [exact I2|]. split; [exact Hset|].
    split; [|split].
    + assert (Heq : fine_interior_faces geo dof
                    = list_to_set (map flagged_face (DoFTools.coupled st'))).
      { apply set_eq. intros x. rewrite elem_of_list_to_set. symmetry.
        apply Hset. }
      rewrite Heq, size_list_to_set by exact I2. now rewrite length_map.
    + intros this other fc Hin. split; [|now apply (I4 this other fc)].
      destruct (I5 _ Hin) as (c & f & _ & Hv & Hi).
      pose proof (couplings_across_this c f this other fc Hi) as ->.
      exists f. auto.
    + intros c f Hv Href item Hitem.
      assert (Hx : flagged_face item ∈ faces_coupled geo dof c f).
      { apply elem_of_map_list. exists item. auto. }
      pose proof (Hflagged c f Hv _ Hx) as Hin.
      apply elem_of_map_list in Hin as (item' & Hin & Hface).
      destruct (I5 item' Hin) as (c0 & f0 & _ & Hv0 & Hi0).
      destruct (decide ((c0, f0) = (c, f))) as [Heq|Hne].
      * injection Heq as -> ->.
        assert (item' = item) as <-; [|exact Hin].
        apply (NoDup_map_eq flagged_face (couplings_across geo dof c f));
          [now apply faces_coupled_NoDup|exact Hi0|exact Hitem|now symmetry].
      * exfalso. destruct Hmesh as (_ & _ & Hmother & _ & _ & _ & Hclash).
        apply (Hmother c f Hv Href). apply I3.
        apply (Hflagged c0 f0 Hv0).
        apply (Hclash c0 f0 c f (flagged_face item)); auto.
        rewrite Hface. apply elem_of_map_list. exists item'. auto.
Qed.

End Flux.

Lemma two_cells_uniform : uniform_mesh Examples.quad Examples.two_cells.
Proof.
  intros c f Hc Hf Hb. simpl in Hc, Hf.
  apply elem_of_cons in Hc as [->|Hc];
    [|apply list_elem_of_singleton in Hc; subst c];
    do 4 (destruct f as [|f]; [try discriminate Hb; repeat split; auto|]);
    lia.
Qed.

(** the visits of a mesh of the examples, one by one *)
Ltac each_visit c f Hc Hf :=
  simpl in Hc, Hf;
  repeat (apply elem_of_cons in Hc as [-> | Hc]);
  [..|now apply elem_of_nil in Hc];
  (destruct f as [|[|[|[|f]]]]; [..|lia]).

Ltac by_computation := apply (bool_decide_unpack _); vm_compute; exact I.

Ltac not_this_kind Hb Hlev Hch :=
  vm_compute in Hb, Hch;
  first [discriminate Hb|discriminate Hch|vm_compute in Hlev; lia].

(** the square next to the refined square is a mesh with hanging nodes *)
Lemma hanging_cells_mesh : hanging_node_mesh Examples.quad Examples.hanging_cells.
Proof.
  split; [by_computation|].
  split.
  { intros c f [Hc Hf] (Hb & Hlev & Hch). cbv zeta.
    each_visit c f Hc Hf; first [not_this_kind Hb Hlev Hch|reflexivity]. }
  split.
  { intros c f [Hc Hf] (Hb & Hlev & Hch).
    each_visit c f Hc Hf; first [not_this_kind Hb Hlev Hch|by_computation]. }
  split.
  { intros c f [Hc Hf] (Hb & Hlev & Hch) x Hx.
    each_visit c f Hc Hf; first [not_this_kind Hb Hlev Hch|idtac].
    vm_compute in Hx.
    repeat (apply elem_of_cons in Hx as [-> | Hx]);
      [..|now apply elem_of_nil in Hx]; by_computation. }
  split.
  { intros c f [Hc Hf] (Hb & Hlev & Hch).
    each_visit c f Hc Hf; first [not_this_kind Hb Hlev Hch|by_computation]. }
  split.
  { intros c f [Hc Hf] (Hb & Hlev & Hch).
    each_visit c f Hc Hf; first [not_this_kind Hb Hlev Hch|idtac];
      (exists 0, 1; split; [split; [by_computation|simpl; lia]|by_computation]). }
  intros c f c' f' x [Hc Hf] [Hc' Hf'] Hne Hx Hx'.
  each_visit c f Hc Hf; vm_compute in Hx;
    (repeat (apply elem_of_cons in Hx as [-> | Hx]));
    try (now apply elem_of_nil in Hx).
  all: each_visit c' f' Hc' Hf'; vm_compute in Hx';
    (repeat (apply elem_of_cons in Hx' as [Hx' | Hx']));
    try (now apply elem_of_nil in Hx'); try discriminate Hx'.
  all: first [by_computation|now destruct Hne].
Qed.

(** Two squares side by side: the one interior face is processed once.  The
    square next to the refined square: the six faces between active cells
    are processed once each, and the square on the coarser side of the face
    with the hanging node is coupled with the two children behind it. *)
Lemma flux_sparsity_processes_each_interior_face_once_witness :
  (exists st',
     DoFTools.make_flux_sparsity_pattern true Examples.quad Examples.two_cells
       {| DoFTools.sparsity := Examples.empty_pattern 6;
          DoFTools.user_flags := {[ 1 ]}; DoFTools.coupled := [] |}
     = (Done tt, st')
     /\ length (DoFTools.coupled st')
        = size (interior_faces Examples.quad Examples.two_cells))
  /\ (exists st',
        DoFTools.make_flux_sparsity_pattern true Examples.quad
          Examples.hanging_cells
          {| DoFTools.sparsity := Examples.empty_pattern 11;
             DoFTools.user_flags := {[ 1 ]}; DoFTools.coupled := [] |}
        = (Done tt, st')
        /\ length (DoFTools.coupled st') = 6
        /\ (0, 2, 7) ∈ DoFTools.coupled st'
        /\ (0, 5, 8) ∈ DoFTools.coupled st'
        /\ coupled_both_ways Examples.hanging_cells 0 5
             (entries (DoFTools.sparsity st'))).
Proof.
  split.
  - destruct (flux_sparsity_processes_each_interior_face_once true Examples.quad
                Examples.two_cells (Examples.empty_pattern 6) {[ 1 ]})
      as (_ & _ & Huniform & _).
    destruct (Huniform two_cells_uniform eq_refl eq_refl)
      as (st' & Hr & _ & _ & Hlen & _).
    exists st'. split; [exact Hr|exact Hlen].
  - destruct (flux_sparsity_processes_each_interior_face_once true Examples.quad
                Examples.hanging_cells (Examples.empty_pattern 11) {[ 1 ]})
      as (_ & _ & _ & Hhanging).
    destruct (Hhanging hanging_cells_mesh eq_refl eq_refl)
      as (st' & Hr & _ & _ & Hlen & Hpairs & Hcoarser).
    assert (Hvisit : visit Examples.quad Examples.hanging_cells 0 1).
    { split; [by_computation|simpl; lia]. }
    assert (Hrefined : refined_across Examples.hanging_cells 0 1).
    { repeat split. simpl. lia. }
    assert (H2 : (0, 2, 7) ∈ DoFTools.coupled st').
    { apply (Hcoarser 0 1 Hvisit Hrefined). by_computation. }
    assert (H5 : (0, 5, 8) ∈ DoFTools.coupled st').
    { apply (Hcoarser 0 1 Hvisit Hrefined). by_computation. }
    exists st'. split; [exact Hr|]. split; [rewrite Hlen; reflexivity|].
    split; [exact H2|]. split; [exact H5|]. now apply (Hpairs 0 5 8).
Defined.

(** In the example the one interior face, line 1, is processed from cell 0
    and skipped from cell 1. *)
Example flux_two_cells_coupled :
  DoFTools.coupled (state_of
    (DoFTools.make_flux_sparsity_pattern true Examples.quad Examples.two_cells
       {| DoFTools.sparsity := Examples.empty_pattern 6;
          DoFTools.user_flags := {[ 1 ]}; DoFTools.coupled := [] |}))
  = [(0, 1, 1)].
Proof. vm_compute. reflexivity. Qed.

(** Next to the refined square, cell 0 is coupled with the children 2 and 5
    behind its right face, whose left faces 7 and 8 are flagged; from the
    children these two faces are skipped, as are the faces 9, 10, 15 and 12
    between the children from their second side. *)
Example flux_hanging_cells_coupled :
  DoFTools.coupled (state_of
    (DoFTools.make_flux_sparsity_pattern true Examples.quad Examples.hanging_cells
       {| DoFTools.sparsity := Examples.empty_pattern 11;
          DoFTools.user_flags := {[ 1 ]}; DoFTools.coupled := [] |}))
  = [(0, 2, 7); (0, 5, 8); (2, 3, 9); (2, 5, 10); (3, 4, 15); (4, 5, 12)].
Proof. vm_compute. reflexivity. Qed.

(** ** Hanging-node constraints in two dimensions *)

Lemma map_as_flat_map {A B} (f : A -> B) (l : list A) :
  map f l = flat_map (fun x => [f x]) l.
Proof. induction l as [|x l IH]; simpl; [reflexivity|now rewrite IH]. Qed.

Section Appends.
Context {S C : Type} (emit : list C -> S -> S).
Hypothesis emit_nil : forall s, emit [] s = s.
Hypothesis emit_app : forall l1 l2 s, emit l2 (emit l1 s) = emit (l1 ++ l2) s.

Lemma appends_ret : appends emit (ret tt) [].
Proof. intros s. unfold ret. now rewrite emit_nil. Qed.

Lemma appends_seq m1 m2 l1 l2 :
  appends emit m1 l1 -> appends emit m2 l2 -> appends emit (m1 ;; m2) (l1 ++ l2).
Proof.
  intros H1 H2 s. unfold bind. rewrite H1, H2. now rewrite emit_app.
Qed.

Lemma appends_for_each {X} (xs : list X) (body : X -> Comp S unit)
    (g : X -> list C) :
  (forall x, x ∈ xs -> appends emit (body x) (g x)) ->
  appends emit (for_each xs body) (flat_map g xs).
Proof.
  induction xs as [|x xs IH]; intros Hb; simpl.
  - apply appends_ret.
  - apply appends_seq; [apply Hb; left|].
    apply IH. intros y Hy. apply Hb. now right.
Qed.

End Appends.

Section HangingNodes.
Context {W : Type} `{Weight W}.
Variable DEBUG : bool.
Variable geo : GeometryInfo.
Variable dof_handler : @DoFTools.DoFHandler W.

Local Abbreviation fe := (DoFTools.get_fe dof_handler).

Lemma append_calls_nil (s : @DoFTools.HangingNodeState W) : append_calls [] s = s.
Proof. destruct s. unfold append_calls; simpl. now rewrite app_nil_r. Qed.

Lemma append_calls_app (l1 l2 : list (ConstraintCall W)) s :
  append_calls l2 (append_calls l1 s) = append_calls (l1 ++ l2) s.
Proof. unfold append_calls; simpl. now rewrite app_assoc. Qed.

Lemma dofs_on_mother_as_claimed l :
  DoFTools.dofs_on_mother fe (DoFTools.face_obj dof_handler l)
  = mother_dofs_claimed dof_handler l.
Proof.
  unfold DoFTools.dofs_on_mother, mother_dofs_claimed, vertex_block, line_block.
  simpl. rewrite app_nil_r, <- app_assoc. reflexivity.
Qed.

Lemma dofs_on_children_as_claimed l :
  DoFTools.dofs_on_children dof_handler (DoFTools.face_obj dof_handler l)
  = child_dofs_claimed dof_handler l.
Proof.
  unfold DoFTools.dofs_on_children, child_dofs_claimed, vertex_block, line_block.
  simpl. rewrite app_nil_r. reflexivity.
Qed.

(** the rows emitted for one line *)
Lemma rows_append l :
  appends append_calls
    (for_each (seq 0 (length (child_dofs_claimed dof_handler l))) (fun row =>
       modify (DoFTools.constraints_call
                 (add_line (at_ (child_dofs_claimed dof_handler l) row))) ;;
       for_each (seq 0 (length (mother_dofs_claimed dof_handler l))) (fun i =>
         modify (DoFTools.constraints_call
                   (add_entry (at_ (child_dofs_claimed dof_handler l) row)
                              (at_ (mother_dofs_claimed dof_handler l) i)
                              (el (DoFTools.constraints fe) row i))))))
    (constraints_of_line_claimed dof_handler l).
Proof.
  unfold constraints_of_line_claimed.
  apply (appends_for_each _ append_calls_nil append_calls_app). intros row _.
  unfold constraint_line_claimed.
  change (add_line (at_ (child_dofs_claimed dof_handler l) row) :: ?t)
    with ([add_line (W:=W) (at_ (child_dofs_claimed dof_handler l) row)] ++ t).
  apply (appends_seq _ append_calls_app); [intros s; reflexivity|].
  rewrite map_as_flat_map.
  apply (appends_for_each _ append_calls_nil append_calls_app). intros i _ s.
  reflexivity.
Qed.

(** the first loop: the flags of all lines are cleared *)
Lemma clear_loop (lines : list nat) (s : @DoFTools.HangingNodeState W) :
  exists s1,
    for_each lines (fun line => modify (DoFTools.line_clear_user_flag line)) s
    = (Done tt, s1)
    /\ DoFTools.constraint_matrix s1 = DoFTools.constraint_matrix s
    /\ forall x, x ∈ DoFTools.line_flags s1
                 <-> x ∈ DoFTools.line_flags s /\ x ∉ lines.
Proof.
  apply (for_each_ind
    (fun pre s1 => DoFTools.constraint_matrix s1 = DoFTools.constraint_matrix s
       /\ forall x, x ∈ DoFTools.line_flags s1
                    <-> x ∈ DoFTools.line_flags s /\ x ∉ pre)).
  - intros pre l post s0 _ (Hcm & Hfl). eexists. split; [reflexivity|].
    split; [exact Hcm|]. intros x. simpl.
    rewrite elem_of_difference, elem_of_singleton, Hfl, not_elem_of_app,
      list_elem_of_singleton. tauto.
  - split; [reflexivity|]. intros x. split; [|tauto].
    intros Hx. split; [exact Hx|]. apply not_elem_of_nil.
Qed.

(** the second loop: the refined faces of the active cells are flagged *)
Lemma mark_loop (s : @DoFTools.HangingNodeState W) :
  exists s2,
    for_each (DoFTools.active_cells dof_handler) (fun c =>
      for_each (seq 0 (faces_per_cell geo)) (fun f =>
        let cf := DoFTools.face (DoFTools.cell dof_handler c) f in
        if DoFTools.face_has_children (DoFTools.face_obj dof_handler cf)
        then modify (DoFTools.line_set_user_flag cf)
        else ret tt)) s
    = (Done tt, s2)
    /\ DoFTools.constraint_matrix s2 = DoFTools.constraint_matrix s
    /\ forall x, x ∈ DoFTools.line_flags s2
         <-> x ∈ DoFTools.line_flags s
             \/ (DoFTools.face_has_children (DoFTools.face_obj dof_handler x) = true
                 /\ exists c, c ∈ DoFTools.active_cells dof_handler /\
                    exists f, f ∈ seq 0 (faces_per_cell geo) /\
                      DoFTools.face (DoFTools.cell dof_handler c) f = x).
Proof.
  match goal with |- exists s2, for_each ?l ?b s = _ /\ _ =>
    destruct (for_each_ind
      (fun pre s2 => DoFTools.constraint_matrix s2 = DoFTools.constraint_matrix s
         /\ forall x, x ∈ DoFTools.line_flags s2
              <-> x ∈ DoFTools.line_flags s
                  \/ (DoFTools.face_has_children (DoFTools.face_obj dof_handler x)
                      = true
                      /\ exists c, c ∈ pre /\
                         exists f, f ∈ seq 0 (faces_per_cell geo) /\
                           DoFTools.face (DoFTools.cell dof_handler c) f = x))
      b l) with (s := s) as (s2 & Hr & Hcm & Hfl) end.
  - intros pre c post s0 _ (Hcm0 & Hfl0).
    match goal with |- exists s', for_each ?l ?b s0 = _ /\ _ =>
      destruct (for_each_ind
        (fun pref s' => DoFTools.constraint_matrix s' = DoFTools.constraint_matrix s0
           /\ forall x, x ∈ DoFTools.line_flags s'
                <-> x ∈ DoFTools.line_flags s0
                    \/ (DoFTools.face_has_children (DoFTools.face_obj dof_handler x)
                        = true
                        /\ exists f, f ∈ pref /\
                             DoFTools.face (DoFTools.cell dof_handler c) f = x))
        b l) with (s := s0) as (s' & Hr' & Hcm' & Hfl') end.
    + intros pref f postf s1 _ (Hcm1 & Hfl1). cbv zeta.
      destruct (DoFTools.face_has_children _) eqn:Hch.
      * eexists. split; [reflexivity|]. split; [exact Hcm1|].
        intros x. simpl. rewrite elem_of_union, elem_of_singleton, Hfl1.
        setoid_rewrite elem_of_app. setoid_rewrite list_elem_of_singleton.
        split.
        -- intros [-> |[Hx|(Hc & g & Hg & Hx)]].
           ++ right. split; [exact Hch|]. exists f. split; [now right|reflexivity].
           ++ now left.
           ++ right. split; [exact Hc|]. exists g. split; [now left|exact Hx].
        -- intros [Hx|(Hc & g & [Hg| ->] & Hx)].
           ++ right. now left.
           ++ right. right. split; [exact Hc|]. now exists g.
           ++ left. now symmetry.
      * exists s1. split; [reflexivity|]. split; [exact Hcm1|].
        intros x. rewrite Hfl1.
        setoid_rewrite elem_of_app. setoid_rewrite list_elem_of_singleton.
        split.
        -- intros [Hx|(Hc & g & Hg & Hx)]; [now left|].
           right. split; [exact Hc|]. exists g. split; [now left|exact Hx].
        -- intros [Hx|(Hc & g & [Hg| ->] & Hx)]; [now left| |].
           ++ right. split; [exact Hc|]. now exists g.
           ++ subst x. congruence.
    + split; [reflexivity|]. intros x. split; [tauto|].
      intros [Hx|(_ & f & Hf & _)]; [exact Hx|]. now apply elem_of_nil in Hf.
    + exists s'. split; [exact Hr'|]. split; [congruence|].
      intros x. rewrite Hfl', Hfl0.
      setoid_rewrite elem_of_app. setoid_rewrite list_elem_of_singleton.
      split.
      * intros [[Hx|(Hc & c' & Hc' & Hx)]|(Hc & f & Hf & Hx)].
        -- now left.
        -- right. split; [exact Hc|]. exists c'. split; [now left|exact Hx].
        -- right. split; [exact Hc|]. exists c. split; [now right|]. now exists f.
      * intros [Hx|(Hc & c' & [Hc'| ->] & f & Hf & Hx)].
        -- left. now left.
        -- left. right. split; [exact Hc|]. exists c'. split; [exact Hc'|]. now exists f.
        -- right. split; [exact Hc|]. now exists f.
  - split; [reflexivity|]. intros x. split; [tauto|].
    intros [Hx|(_ & c & Hc & _)]; [exact Hx|]. now apply elem_of_nil in Hc.
  - exists s2. auto.
Qed.

Lemma marked_line_spec l :
  marked_line geo dof_handler l = true <->
  DoFTools.face_has_children (DoFTools.face_obj dof_handler l) = true
  /\ exists c, c ∈ DoFTools.active_cells dof_handler /\
     exists f, f ∈ seq 0 (faces_per_cell geo) /\
       DoFTools.face (DoFTools.cell dof_handler c) f = l.
Proof.
  unfold marked_line. rewrite andb_true_iff, existsb_exists.
  setoid_rewrite existsb_exists. setoid_rewrite Nat.eqb_eq.
  setoid_rewrite <- list_elem_of_In. reflexivity.
Qed.

(** the third loop, when the assertions on the table pass *)
Lemma line_loop (lines : list nat) (s : @DoFTools.HangingNodeState W) :
  DEBUG = false \/ table_matches dof_handler ->
  (forall l, l ∈ lines ->
     l ∈ DoFTools.line_flags s <-> marked_line geo dof_handler l = true) ->
  for_each lines (DoFTools.constrain_line DEBUG dof_handler) s
  = (Done tt, append_calls (constraints_of_lines_claimed geo dof_handler lines) s).
Proof.
  intros Hok. revert s. induction lines as [|l lines IH]; intros s Hfl.
  - simpl. unfold ret. now rewrite append_calls_nil.
  - cbn [for_each constraints_of_lines_claimed flat_map].
    fold (constraints_of_lines_claimed geo dof_handler lines).
    rewrite <- append_calls_app. unfold bind at 1.
    assert (Hl : DoFTools.constrain_line DEBUG dof_handler l s
                 = (Done tt, append_calls
                      (if marked_line geo dof_handler l
                       then constraints_of_line_claimed dof_handler l else []) s)).
    { unfold DoFTools.constrain_line. rewrite bind_get.
      destruct (marked_line geo dof_handler l) eqn:Hm.
      - rewrite bool_decide_eq_true_2 by (apply Hfl; [left|exact Hm]).
        cbv zeta. rewrite bind_Assert.
        assert (H1 : DEBUG && negb (2 * DoFTools.dofs_per_vertex fe
                       + DoFTools.dofs_per_line fe
                       =? fm_n (DoFTools.constraints fe)) = false).
        { destruct Hok as [-> |[Hn _]]; [reflexivity|].
          rewrite (proj2 (Nat.eqb_eq _ _) Hn). apply andb_false_r. }
        rewrite H1, bind_Assert.
        assert (H2 : DEBUG && negb (DoFTools.dofs_per_vertex fe
                       + 2 * DoFTools.dofs_per_line fe
                       =? fm_m (DoFTools.constraints fe)) = false).
        { destruct Hok as [-> |[_ Hm']]; [reflexivity|].
          rewrite (proj2 (Nat.eqb_eq _ _) Hm'). apply andb_false_r. }
        rewrite H2. rewrite dofs_on_mother_as_claimed, dofs_on_children_as_claimed.
        apply rows_append.
      - rewrite bool_decide_eq_false_2.
        + unfold ret. now rewrite append_calls_nil.
        + intros Hin. apply Hfl in Hin; [congruence|left]. }
    rewrite Hl. apply IH. intros l' Hl'. simpl. apply Hfl. now right.
Qed.

(** the third loop, when the table does not match in a checked build *)
Lemma line_loop_raises (lines : list nat) (s : @DoFTools.HangingNodeState W) :
  DEBUG = true -> ~ table_matches dof_handler ->
  (exists l, l ∈ lines /\ l ∈ DoFTools.line_flags s) ->
  exists a b, for_each lines (DoFTools.constrain_line DEBUG dof_handler) s = (Raised (ExcDimensionMismatch a b), s).
Proof.
  intros -> Hbad. induction lines as [|l lines IH]; intros (l0 & Hin & Hfl).
  - now apply elem_of_nil in Hin.
  - cbn [for_each]. unfold bind at 1, DoFTools.constrain_line at 1. rewrite bind_get.
    destruct (bool_decide (l ∈ DoFTools.line_flags s)) eqn:Hl.
    + cbv zeta. rewrite bind_Assert. cbn [andb].
      destruct (2 * DoFTools.dofs_per_vertex fe + DoFTools.dofs_per_line fe
                =? fm_n (DoFTools.constraints fe)) eqn:H1; cbn [negb];
        [|eauto].
      rewrite bind_Assert. cbn [andb].
      destruct (DoFTools.dofs_per_vertex fe + 2 * DoFTools.dofs_per_line fe
                =? fm_m (DoFTools.constraints fe)) eqn:H2; cbn [negb];
        [|eauto].
      exfalso. apply Hbad. split; now apply Nat.eqb_eq.
    + apply bool_decide_eq_false_1 in Hl. unfold ret. apply IH.
      exists l0. split; [|exact Hfl].
      apply elem_of_cons in Hin as [-> |Hin]; [contradiction|exact Hin].
Qed.

(** C2.  In [make_hanging_node_constraints] for two dimensions: the mother
    DoFs of a line are the blocks of its two end vertices followed by the
    block of its interior; the child DoFs are the block of the centre vertex
    (vertex 1 of child 0) followed by the interior blocks of child 0 and of
    child 1; when the table of the element has one row per child DoF and one
    column per mother DoF, the routine returns normally, having emitted for
    every marked line, in the order of the lines, one constraint line per
    child DoF whose entry for the mother DoF i carries the table's value at
    (row, i); a release build checks nothing and does the same whatever the
    dimensions of the table; and in a checked build a table of other
    dimensions makes the routine fail at the first marked line, with
    nothing emitted. *)
Theorem hanging_node_constraints_2d (st : @DoFTools.HangingNodeState W) :
  (forall l,
     DoFTools.dofs_on_mother fe (DoFTools.face_obj dof_handler l)
       = mother_dofs_claimed dof_handler l
     /\ DoFTools.dofs_on_children dof_handler (DoFTools.face_obj dof_handler l)
       = child_dofs_claimed dof_handler l)
  /\ (DEBUG = false \/ table_matches dof_handler ->
      exists st',
        DoFTools.make_hanging_node_constraints_2d DEBUG geo dof_handler st
        = (Done tt, st')
        /\ DoFTools.constraint_matrix st'
           = DoFTools.constraint_matrix st
             ++ constraints_of_lines_claimed geo dof_handler
                  (DoFTools.all_lines dof_handler))
  /\ (DEBUG = true -> ~ table_matches dof_handler ->
      (exists l, l ∈ DoFTools.all_lines dof_handler
                 /\ marked_line geo dof_handler l = true) ->
      exists a b st',
        DoFTools.make_hanging_node_constraints_2d DEBUG geo dof_handler st
        = (Raised (ExcDimensionMismatch a b), st')
        /\ DoFTools.constraint_matrix st' = DoFTools.constraint_matrix st).
Proof.
  split; [intros l; split;
          [apply dofs_on_mother_as_claimed|apply dofs_on_children_as_claimed]|].
  unfold DoFTools.make_hanging_node_constraints_2d.
  destruct (clear_loop (DoFTools.all_lines dof_handler) st)
    as (s1 & Hr1 & Hcm1 & Hfl1).
  destruct (mark_loop s1) as (s2 & Hr2 & Hcm2 & Hfl2).
  assert (Hflags : forall l, l ∈ DoFTools.all_lines dof_handler ->
            l ∈ DoFTools.line_flags s2 <-> marked_line geo dof_handler l = true).
  { intros l Hl. rewrite Hfl2, Hfl1, marked_line_spec. tauto. }
  rewrite !(bind_done _ _ _ _ _ Hr1), !(bind_done _ _ _ _ _ Hr2). split.
  - intros Hok. rewrite (line_loop _ s2 Hok Hflags). eexists. split; [reflexivity|].
    simpl. congruence.
  - intros Hdbg Hbad (l & Hl & Hm).
    destruct (line_loop_raises (DoFTools.all_lines dof_handler) s2 Hdbg Hbad)
      as (a & b & Hr3).
    + exists l. split; [exact Hl|]. now apply Hflags.
    + exists a, b, s2. split; [exact Hr3|congruence].
Qed.

End HangingNodes.

Lemma hanging_node_constraints_2d_witness :
  (exists st',
     DoFTools.make_hanging_node_constraints_2d true Examples.quad
       (Examples.refined_neighbour Examples.q1)
       {| DoFTools.constraint_matrix := []; DoFTools.line_flags := {[ 0; 3 ]} |}
     = (Done tt, st')
     /\ DoFTools.constraint_matrix st'
        = [add_line 6; add_entry 6 1 (1 # 2)%Q; add_entry 6 3 (1 # 2)%Q]%Z)
  /\ (exists a b st',
        DoFTools.make_hanging_node_constraints_2d true Examples.quad
          (Examples.refined_neighbour Examples.q2_face)
          {| DoFTools.constraint_matrix := []; DoFTools.line_flags := ∅ |}
        = (Raised (ExcDimensionMismatch a b), st')
        /\ DoFTools.constraint_matrix st' = []).
Proof.
  split.
  - destruct (hanging_node_constraints_2d true Examples.quad
                (Examples.refined_neighbour Examples.q1)
                {| DoFTools.constraint_matrix := [];
                   DoFTools.line_flags := {[ 0; 3 ]} |})
      as (_ & Hok & _).
    destruct Hok as (st' & Hr & Hcm); [right; split; reflexivity|].
    exists st'. split; [exact Hr|]. rewrite Hcm. reflexivity.
  - destruct (hanging_node_constraints_2d true Examples.quad
                (Examples.refined_neighbour Examples.q2_face)
                {| DoFTools.constraint_matrix := []; DoFTools.line_flags := ∅ |})
      as (_ & _ & Hbad).
    apply Hbad; [reflexivity| |].
    + intros [Hn _]. discriminate Hn.
    + exists 1. split; [|reflexivity]. apply (bool_decide_unpack _). reflexivity.
Defined.

(** An element with one child DoF and two mother DoFs on a refined line,
    and a table of three rows and three columns: a release build returns
    normally and emits the constraint line of the hanging node from the
    entries (0, 0) and (0, 1) of that table, which are zero. *)
Lemma mismatched_table_accepted_in_release_build :
  let dof_handler := Examples.refined_neighbour Examples.q1_with_q2_table in
  ~ table_matches dof_handler
  /\ length (DoFTools.dofs_on_mother Examples.q1_with_q2_table
               (DoFTools.face_obj dof_handler 1)) = 2
  /\ length (DoFTools.dofs_on_children dof_handler
               (DoFTools.face_obj dof_handler 1)) = 1
  /\ fm_m (DoFTools.constraints Examples.q1_with_q2_table) = 3
  /\ fm_n (DoFTools.constraints Examples.q1_with_q2_table) = 3
  /\ DoFTools.make_hanging_node_constraints_2d false Examples.quad dof_handler
       {| DoFTools.constraint_matrix := []; DoFTools.line_flags := ∅ |}
     = (Done tt,
        {| DoFTools.constraint_matrix :=
             [add_line 6; add_entry 6 1 0%Q; add_entry 6 3 0%Q]%Z;
           DoFTools.line_flags := {[ 1 ]} |}).
Proof.
  cbv zeta. split; [intros [Hn _]; discriminate Hn|].
  repeat (split; [reflexivity|]).
  vm_compute. reflexivity.
Qed.

(** ** Intergrid constraints: the weights *)

Section IntergridWeights.
Context {W : Type} `{Weight W}.
Variable DEBUG : bool.

Lemma store_all_nil (A : FullMatrix W) : store_all [] A = A.
Proof. reflexivity. Qed.

Lemma store_all_app (l1 l2 : list (nat * nat * W)) A :
  store_all l2 (store_all l1 A) = store_all (l1 ++ l2) A.
Proof. unfold store_all. now rewrite fold_left_app. Qed.

Lemma values_computed_for_cons r c (e : nat * nat * W) es :
  values_computed_for r c (e :: es)
  = if decide (fst e = (r, c))
    then snd e :: values_computed_for r c es
    else values_computed_for r c es.
Proof.
  unfold values_computed_for. rewrite filter_cons.
  destruct (decide (fst e = (r, c))); reflexivity.
Qed.

Lemma last_nonzero_cons (v : W) vs :
  last_nonzero (v :: vs)
  = if nonzero v then Some (default v (last_nonzero vs)) else last_nonzero vs.
Proof.
  unfold last_nonzero. rewrite filter_cons.
  destruct (nonzero v) eqn:Hv.
  - rewrite decide_True by reflexivity.
    destruct (filter _ vs) as [|v' vs'] eqn:Hf; [reflexivity|].
    rewrite last_cons_cons.
    destruct (last (v' :: vs')) eqn:Hl; [reflexivity|].
    apply last_None in Hl. discriminate.
  - rewrite decide_False by discriminate. reflexivity.
Qed.

(** The matrix after a sequence of assignments holds, at every position,
    the last nonzero value assigned there, or what it held before. *)
Lemma store_all_last_nonzero (es : list (nat * nat * W)) (A : FullMatrix W) r c :
  el (store_all es A) r c
  = default (el A r c) (last_nonzero (values_computed_for r c es)).
Proof.
  revert A. induction es as [|[[r' c'] v] es IH]; intros A; [reflexivity|].
  change (store_all (((r', c'), v) :: es) A)
    with (store_all es (store_nonzero (r', c', v) A)).
  rewrite IH, values_computed_for_cons. unfold store_nonzero. cbn [fst snd].
  destruct (decide ((r', c') = (r, c))) as [Heq|Hne].
  - injection Heq as -> ->. rewrite last_nonzero_cons.
    destruct (nonzero v) eqn:Hv; [|reflexivity].
    unfold fm_set; simpl. rewrite decide_True by auto.
    now destruct (last_nonzero _).
  - destruct (nonzero v); [|reflexivity].
    unfold fm_set; simpl. rewrite decide_False; [reflexivity|].
    intros [-> ->]. now apply Hne.
Qed.

Section Run.
Variables coarse_grid fine_grid : @DoFTools.DoFHandler W.
Variable coarse_component : nat.
Variable coarse_to_fine_grid_map : nat -> nat.
Variable parameter_dofs : list (list W).
Variable weight_mapping : list Z.

(** the loop over the coarse cells performs the assignments of
    [computed_values], one after the other *)
Lemma compute_weights_run :
  DEBUG = false
  \/ representation_confined coarse_grid coarse_component fine_grid
       coarse_to_fine_grid_map parameter_dofs weight_mapping ->
  appends store_all
    (DoFTools.compute_weights DEBUG coarse_grid coarse_component fine_grid
       coarse_to_fine_grid_map parameter_dofs weight_mapping)
    (computed_values coarse_grid coarse_component fine_grid
       coarse_to_fine_grid_map parameter_dofs weight_mapping).
Proof.
  intros Hok. unfold DoFTools.compute_weights, computed_values.
  apply (appends_for_each _ store_all_nil store_all_app). intros c Hc.
  apply (appends_for_each _ store_all_nil store_all_app). intros l _.
  destruct (_ =? coarse_component) eqn:Hcomp;
    [|apply (appends_ret _ store_all_nil)].
  apply Nat.eqb_eq in Hcomp.
  fold (representation fine_grid coarse_to_fine_grid_map parameter_dofs c l).
  cbv zeta.
  apply (appends_for_each _ store_all_nil store_all_app). intros i _ A.
  destruct (negb (at_ weight_mapping i =? -1)%Z) eqn:Hwm.
  - unfold store_all, store_nonzero, nonzero; simpl.
    destruct (negb (w_eqb _ w_zero)); reflexivity.
  - rewrite Assert_passes; [reflexivity|].
    destruct Hok as [-> |Hconf]; [now left|right].
    apply (Hconf c l i Hc Hcomp).
    apply negb_false_iff in Hwm. now apply Z.eqb_eq in Hwm.
Qed.

(** C3.  In the loop of [compute_intergrid_constraints] that fills the
    weight matrix, an entry is written only with a nonzero value: when the
    loop returns (always in a release build; in a checked build when the
    representations vanish outside the parameter DoFs), every position
    (row, column) holds the last nonzero value computed for it over all
    coarse cells, or its former value when no nonzero value was computed
    for it; in particular a nonzero entry, written by an earlier coarse
    cell or present at the start, is nonzero at the end. *)
Theorem weights_keep_last_nonzero (weights0 : FullMatrix W) :
  DEBUG = false
  \/ representation_confined coarse_grid coarse_component fine_grid
       coarse_to_fine_grid_map parameter_dofs weight_mapping ->
  exists weights,
    DoFTools.compute_weights DEBUG coarse_grid coarse_component fine_grid
      coarse_to_fine_grid_map parameter_dofs weight_mapping weights0
    = (Done tt, weights)
    /\ (forall r c,
          el weights r c
          = default (el weights0 r c)
              (last_nonzero
                 (values_computed_for r c
                    (computed_values coarse_grid coarse_component fine_grid
                       coarse_to_fine_grid_map parameter_dofs weight_mapping))))
    /\ (forall r c, nonzero (el weights0 r c) = true ->
                    nonzero (el weights r c) = true).
Proof.
  intros Hok. eexists. split; [apply (compute_weights_run Hok)|].
  split; [intros r c; apply store_all_last_nonzero|].
  intros r c Hnz. rewrite store_all_last_nonzero.
  unfold last_nonzero.
  destruct (last _) as [v|] eqn:Hlast; [|exact Hnz]. simpl.
  apply last_Some_elem_of in Hlast. apply list_elem_of_filter in Hlast.
  apply Hlast.
Qed.

End Run.
End IntergridWeights.

(** ** Intergrid constraints: representants and constraint lines *)







Section IntergridConstraints.
Context {W : Type} `{Weight W}.
Variable DEBUG : bool.
Variable weights : FullMatrix W.
Variable weight_mapping : list Z.








End IntergridConstraints.

(** On the nested grids the coarse DoF 1 contributes 1/2 to the fine DoF 1
    when seen from the first coarse cell and 0 when seen from the second:
    the weight stays 1/2. *)
Lemma weights_keep_last_nonzero_witness :
  exists weights,
    DoFTools.compute_weights true Examples.nested_coarse 0 Examples.nested_fine
      (fun c => c) [[1; 0]; [0; 1]]%Q [0; 1; 2; 3; 4]%Z
      {| fm_m := 3; fm_n := 5; el := fun _ _ => 0%Q |}
    = (Done tt, weights)
    /\ el weights 1 1 = (1 # 2)%Q
    /\ el weights 1 2 = 1%Q.
Proof.
  destruct (weights_keep_last_nonzero true Examples.nested_coarse
              Examples.nested_fine 0 (fun c => c) [[1; 0]; [0; 1]]%Q
              [0; 1; 2; 3; 4]%Z
              {| fm_m := 3; fm_n := 5; el := fun _ _ => 0%Q |})
    as (weights & Hr & Hel & _).
  - right. intros c l i _ _ Hi. exfalso. revert Hi. unfold at_.
    do 6 (destruct i as [|i]; [simpl; intros Hi; discriminate Hi|]).
    simpl. intros Hi; discriminate Hi.
  - exists weights. split; [exact Hr|]. rewrite !Hel. split; reflexivity.
Defined.

Tactic Notation "first_at" integer(k) :=
  split; [reflexivity|];
  let j := fresh "j" in let Hj := fresh "Hj" in
  intros j Hj; do k (destruct j as [|j]; [reflexivity|]); lia.




(** ** The scratch pad pool *)

Section ScratchPad.
Variable DEBUG : bool.
Variable new_address : list nat -> nat.
Hypothesis new_address_fresh : forall alive, new_address alive ∉ alive.

Import MatrixFree.

Lemma in_use_cons p it data :
  in_use p (it :: data)
  = if second it =? p then Some (first it) else in_use p data.
Proof. unfold in_use; simpl. destruct (second it =? p); reflexivity. Qed.

Lemma in_use_None p data : in_use p data = None <-> p ∉ map second data.
Proof.
  induction data as [|it data IH]; [split; [intros _; apply not_elem_of_nil|auto]|].
  rewrite in_use_cons. cbn [map]. rewrite not_elem_of_cons.
  destruct (Nat.eqb_spec (second it) p) as [Heq|Hne].
  - split; [discriminate|]. intros [Hp _]. now symmetry in Heq.
  - rewrite IH. split; [intros Hp; split; [congruence|exact Hp]|tauto].
Qed.

Lemma in_use_Some_elem p data b : in_use p data = Some b -> p ∈ map second data.
Proof.
  intros Hb. destruct (decide (p ∈ map second data)) as [Hin|Hout]; [exact Hin|].
  apply in_use_None in Hout. congruence.
Qed.

Lemma acquire_scan_Some data p data' :
  pad_wf data -> acquire_scan data = Some (p, data') ->
  in_use p data = Some false
  /\ in_use p data' = Some true
  /\ map second data' = map second data
  /\ forall q, q <> p -> in_use q data' = in_use q data.
Proof.
  revert p data'. induction data as [|it data IH]; intros p data' Hwf; [discriminate|].
  cbn [acquire_scan]. unfold pad_wf in Hwf. cbn [map] in Hwf.
  apply NoDup_cons in Hwf as [Hfresh Hwf].
  destruct (first it) eqn:Hfirst; cbn [negb].
  - destruct (acquire_scan data) as [[p0 rest]|] eqn:Hscan; [|discriminate].
    intros Heq. injection Heq as -> <-.
    destruct (IH p rest Hwf eq_refl) as (Hbefore & Hafter & Hsame & Hothers).
    assert (Hne : second it <> p).
    { intros Heq. apply Hfresh. rewrite Heq.
      apply (in_use_Some_elem _ _ _ Hbefore). }
    rewrite !in_use_cons, (proj2 (Nat.eqb_neq _ _) Hne).
    split; [exact Hbefore|]. split; [exact Hafter|].
    split; [cbn [map]; now rewrite Hsame|].
    intros q Hq. rewrite !in_use_cons, (Hothers q Hq). reflexivity.
  - intros Heq. injection Heq as <- <-.
    rewrite !in_use_cons; cbn [first second]. rewrite Nat.eqb_refl, Hfirst.
    repeat split. intros q Hq. rewrite !in_use_cons; cbn [first second].
    now rewrite (proj2 (Nat.eqb_neq _ _) (not_eq_sym Hq)).
Qed.

Lemma acquire_spec data :
  pad_wf data ->
  exists p data',
    acquire_scratch_data new_address data = (Done p, data')
    /\ pad_wf data'
    /\ in_use p data <> Some true
    /\ in_use p data' = Some true
    /\ forall q, q <> p -> in_use q data' = in_use q data.
Proof.
  intros Hwf. unfold acquire_scratch_data.
  destruct (acquire_scan data) as [[p data']|] eqn:Hscan.
  - destruct (acquire_scan_Some data p data' Hwf Hscan)
      as (Hbefore & Hafter & Hsame & Hothers).
    exists p, data'. split; [reflexivity|]. split; [unfold pad_wf; now rewrite Hsame|].
    split; [congruence|]. split; [exact Hafter|exact Hothers].
  - eexists _, _. split; [reflexivity|].
    pose proof (new_address_fresh (map second data)) as Hfresh.
    split; [unfold pad_wf; cbn [map second]; apply NoDup_cons; split; assumption|].
    split; [apply in_use_None in Hfresh; congruence|].
    split; [rewrite in_use_cons; cbn [first second]; now rewrite Nat.eqb_refl|].
    intros q Hq. rewrite in_use_cons; cbn [first second].
    now rewrite (proj2 (Nat.eqb_neq _ _) (not_eq_sym Hq)).
Qed.

Lemma release_scan_None p data :
  release_scan DEBUG p data = None <-> in_use p data = None.
Proof.
  induction data as [|it data IH]; [split; reflexivity|].
  cbn [release_scan]. rewrite in_use_cons.
  destruct (second it =? p).
  - destruct (DEBUG && negb (first it)); split; discriminate.
  - rewrite <- IH. destruct (release_scan DEBUG p data) as [[o rest]|];
      split; (discriminate || reflexivity).
Qed.

Lemma release_scan_Some p data o data' :
  release_scan DEBUG p data = Some (o, data') ->
  map second data' = map second data
  /\ (forall q, q <> p -> in_use q data' = in_use q data)
  /\ (in_use p data' = Some false \/ data' = data)
  /\ (in_use p data = Some true -> o = Done tt /\ in_use p data' = Some false).
Proof.
  revert o data'. induction data as [|it data IH]; intros o data'; [discriminate|].
  cbn [release_scan].
  destruct (Nat.eqb_spec (second it) p) as [Heq|Hne].
  - destruct (DEBUG && negb (first it)) eqn:Hchk; intros Hs;
      injection Hs as <- <-.
    + split; [reflexivity|]. split; [reflexivity|]. split; [now right|].
      rewrite in_use_cons, (proj2 (Nat.eqb_eq _ _) Heq). intros Hin.
      injection Hin as Hin. rewrite Hin, andb_false_r in Hchk. discriminate.
    + split; [reflexivity|]. split.
      * intros q Hq. rewrite !in_use_cons; cbn [first second].
        subst p. now rewrite (proj2 (Nat.eqb_neq _ _) (not_eq_sym Hq)).
      * rewrite in_use_cons; cbn [first second].
        rewrite (proj2 (Nat.eqb_eq _ _) Heq). auto.
  - destruct (release_scan DEBUG p data) as [[o0 rest]|] eqn:Hscan; [|discriminate].
    intros Hs. injection Hs as <- <-.
    destruct (IH o0 rest eq_refl) as (Hsame & Hothers & Hp & Htrue).
    rewrite !in_use_cons, (proj2 (Nat.eqb_neq _ _) Hne).
    split; [cbn [map]; now rewrite Hsame|]. split.
    + intros q Hq. rewrite !in_use_cons, (Hothers q Hq). reflexivity.
    + split; [destruct Hp as [Hp| ->]; auto|exact Htrue].
Qed.

Lemma release_spec p data :
  pad_wf data ->
  pad_wf (state_of (release_scratch_data DEBUG p data))
  /\ (forall q, q <> p ->
        in_use q (state_of (release_scratch_data DEBUG p data)) = in_use q data)
  /\ (in_use p data = Some true ->
      exists data', release_scratch_data DEBUG p data = (Done tt, data')
                    /\ in_use p data' = Some false)
  /\ (in_use p data = None ->
      release_scratch_data DEBUG p data
      = (Raised (ExcMessage "Tried to release invalid scratch pad"), data)).
Proof.
  intros Hwf. unfold release_scratch_data.
  destruct (release_scan DEBUG p data) as [[o data']|] eqn:Hscan.
  - destruct (release_scan_Some p data o data' Hscan)
      as (Hsame & Hothers & _ & Htrue).
    cbn [state_of snd].
    split; [unfold pad_wf; now rewrite Hsame|]. split; [exact Hothers|]. split.
    + intros Hin. destruct (Htrue Hin) as [-> Hafter]. eauto.
    + intros Hnone. apply release_scan_None in Hnone. congruence.
  - cbn. split; [exact Hwf|]. split; [reflexivity|]. split; [|reflexivity].
    apply release_scan_None in Hscan. congruence.
Qed.

(** a buffer in use stays in use, and the pad well formed, under calls
    that do not release it *)
Lemma in_use_kept p calls data :
  Forall (fun c => c <> Release p) calls ->
  pad_wf data -> in_use p data = Some true ->
  pad_wf (pad_after_all DEBUG new_address calls data)
  /\ in_use p (pad_after_all DEBUG new_address calls data) = Some true.
Proof.
  intros Hcalls. revert data. induction Hcalls as [|c calls Hc _ IH];
    intros data Hwf Hin; [split; assumption|].
  cbn [pad_after_all fold_left].
  change (fold_left (pad_after DEBUG new_address) calls ?d)
    with (pad_after_all DEBUG new_address calls d).
  destruct c as [|q]; cbn [pad_after].
  - destruct (acquire_spec data Hwf) as (q & data' & Hr & Hwf' & Hq & _ & Hothers).
    rewrite Hr. cbn [state_of snd]. apply IH; [exact Hwf'|].
    rewrite Hothers; [exact Hin|]. intros ->. contradiction.
  - destruct (release_spec q data Hwf) as (Hwf' & Hothers & _).
    apply IH; [exact Hwf'|]. rewrite Hothers; [exact Hin|].
    intros ->. now apply Hc.
Qed.

(** the scan of [acquire_scratch_data] stops at the first free buffer *)
Lemma acquire_scan_first_free data :
  match find (fun it => negb (first it)) data with
  | Some it => exists data', acquire_scan data = Some (second it, data')
  | None => acquire_scan data = None
  end.
Proof.
  induction data as [|it data IH]; [reflexivity|].
  cbn [find acquire_scan]. destruct (negb (first it)); [eauto|].
  destruct (find _ data) as [free|].
  - destruct IH as (data' & ->). eauto.
  - now rewrite IH.
Qed.

(** C10.  The scratch pad keeps the acquire/release discipline.  On a pad
    whose buffers have pairwise different addresses, with an allocator that
    gives a new node an address not in use: [acquire_scratch_data] returns
    the first buffer of the pad whose in-use flag is false, if there is
    one, and creates no node then; only if every buffer is in use does it
    put a new node, in use, at the front of the pad.  It marks the buffer
    it returns as in use and leaves the other flags alone; as long as the
    buffer is not released, no later acquisition returns it again;
    [release_scratch_data] on a buffer in use marks it available; and on a
    pointer that is not in the pad it fails with "Tried to release invalid
    scratch pad" and leaves the pad as it was. *)
Theorem scratch_pad_discipline (data : list ScratchItem) :
  pad_wf data ->
  (exists p data',
     acquire_scratch_data new_address data = (Done p, data')
     /\ pad_wf data'
     /\ match find (fun it => negb (first it)) data with
        | Some free =>
            p = second free
            /\ in_use p data = Some false
            /\ map second data' = map second data
        | None =>
            p = new_address (map second data)
            /\ in_use p data = None
            /\ data' = {| first := true; second := p |} :: data
        end
     /\ in_use p data' = Some true
     /\ (forall q, q <> p -> in_use q data' = in_use q data)
     /\ (forall calls q data'',
          Forall (fun c => c <> Release p) calls ->
          acquire_scratch_data new_address
            (pad_after_all DEBUG new_address calls data') = (Done q, data'') ->
          q <> p)
     /\ (exists data'', release_scratch_data DEBUG p data' = (Done tt, data'')
                        /\ in_use p data'' = Some false))
  /\ (forall p, in_use p data = Some true ->
        exists data', release_scratch_data DEBUG p data = (Done tt, data')
                      /\ in_use p data' = Some false
                      /\ pad_wf data'
                      /\ forall q, q <> p -> in_use q data' = in_use q data)
  /\ (forall p, in_use p data = None ->
        release_scratch_data DEBUG p data
        = (Raised (ExcMessage "Tried to release invalid scratch pad"), data)).
Proof.
  intros Hwf. split; [|split].
  - destruct (acquire_spec data Hwf) as (p & data' & Hr & Hwf' & Hb & Ha & Ho).
    exists p, data'. split; [exact Hr|]. split; [exact Hwf'|]. split.
    { pose proof (acquire_scan_first_free data) as Hscan.
      unfold acquire_scratch_data in Hr.
      destruct (find (fun it => negb (first it)) data) as [free|].
      - destruct Hscan as (d & Hscan). rewrite Hscan in Hr.
        injection Hr as <- <-.
        destruct (acquire_scan_Some data _ _ Hwf Hscan) as (Hfree & _ & Hsame & _).
        auto.
      - rewrite Hscan in Hr. injection Hr as <- <-.
        split; [reflexivity|]. split; [|reflexivity].
        apply in_use_None, new_address_fresh. }
    split; [exact Ha|]. split; [exact Ho|]. split.
    + intros calls q data'' Hcalls Hq.
      destruct (in_use_kept p calls data' Hcalls Hwf' Ha) as (Hwf2 & Hin2).
      destruct (acquire_spec _ Hwf2) as (q' & d' & Hr' & _ & Hb' & _).
      rewrite Hr' in Hq. injection Hq as <- <-. intros ->. contradiction.
    + destruct (release_spec p data' Hwf') as (_ & _ & Hrel & _). auto.
  - intros p Hin. destruct (release_spec p data Hwf) as (Hwf' & Ho & Hrel & _).
    destruct (Hrel Hin) as (data' & Hr & Ha). rewrite Hr in Hwf', Ho.
    exists data'. auto.
  - intros p Hnone. now apply (release_spec p data Hwf).
Qed.

End ScratchPad.

Lemma bump_allocator_fresh alive : bump_allocator alive ∉ alive.
Proof.
  unfold bump_allocator. intros Hin.
  pose proof (proj1 (list_max_le alive (list_max alive)) (Nat.le_refl _)) as Hall.
  rewrite Forall_forall in Hall. specialize (Hall _ Hin). lia.
Qed.

(** A pad with one buffer in use and one free: the free one, at the address
    4, is handed out and no node is created, and a pointer from elsewhere is
    refused. *)
Lemma scratch_pad_discipline_witness :
  let data := [ {| MatrixFree.first := true; MatrixFree.second := 7 |};
                {| MatrixFree.first := false; MatrixFree.second := 4 |} ] in
  (exists data',
     MatrixFree.acquire_scratch_data bump_allocator data = (Done 4, data')
     /\ MatrixFree.in_use 4 data = Some false
     /\ map MatrixFree.second data' = [7; 4]
     /\ MatrixFree.in_use 4 data' = Some true)
  /\ MatrixFree.release_scratch_data true 5 data
     = (Raised (ExcMessage "Tried to release invalid scratch pad"), data).
Proof.
  cbv zeta.
  assert (Hwf : pad_wf [ {| MatrixFree.first := true; MatrixFree.second := 7 |};
                         {| MatrixFree.first := false; MatrixFree.second := 4 |} ]).
  { unfold pad_wf. cbn [map MatrixFree.second]. apply NoDup_cons. split.
    - intros Hin. apply list_elem_of_singleton in Hin. discriminate.
    - apply NoDup_singleton. }
  destruct (scratch_pad_discipline true bump_allocator bump_allocator_fresh _ Hwf)
    as ((p & data' & Hr & _ & Hfirst & Ha & _) & _ & Hbad).
  cbn [find MatrixFree.first MatrixFree.second negb] in Hfirst.
  destruct Hfirst as (-> & Hfree & Hsame).
  split.
  - exists data'. auto.
  - apply Hbad. reflexivity.
Defined.

Example scratch_pad_two_acquisitions :
  let data := [ {| MatrixFree.first := true; MatrixFree.second := 7 |};
                {| MatrixFree.first := false; MatrixFree.second := 4 |} ] in
  outcome_of (MatrixFree.acquire_scratch_data bump_allocator data) = Done 4
  /\ outcome_of (MatrixFree.acquire_scratch_data bump_allocator
                   (pad_after true bump_allocator data Acquire)) = Done 8.
Proof. split; reflexivity. Qed.



(** ** The loop worker *)

Section Maintains.
Import MatrixFree.
Variable R : LoopState -> LoopState -> Prop.
Hypothesis R_refl : forall s, R s s.
Hypothesis R_trans : forall s1 s2 s3, R s1 s2 -> R s2 s3 -> R s1 s3.

Lemma maintains_ret {A} (a : A) : maintains R (ret a).
Proof. intros s. apply R_refl. Qed.

Lemma maintains_throw {A} (e : Exc) : maintains R (throw (A:=A) e).
Proof. intros s. apply R_refl. Qed.

Lemma maintains_get : maintains R get.
Proof. intros s. apply R_refl. Qed.

Lemma maintains_Assert (D c : bool) (e : Exc) : maintains R (Assert D c e).
Proof. intros s. rewrite Assert_state. apply R_refl. Qed.

Lemma maintains_AssertThrow (c : bool) (e : Exc) : maintains R (AssertThrow c e).
Proof. intros s. unfold AssertThrow. destruct c; apply R_refl. Qed.

Lemma maintains_bind {A B} (m : Comp LoopState A) (k : A -> Comp LoopState B) :
  maintains R m -> (forall a, maintains R (k a)) -> maintains R (bind m k).
Proof.
  intros Hm Hk s. unfold bind. specialize (Hm s).
  destruct (m s) as [[a|e] s1]; simpl in *; [|exact Hm].
  eapply R_trans; [exact Hm|apply Hk].
Qed.

Lemma maintains_for_each {X} (l : list X) (body : X -> Comp LoopState unit) :
  (forall x, maintains R (body x)) -> maintains R (for_each l body).
Proof.
  intros Hb. induction l as [|x l IH]; simpl.
  - apply maintains_ret.
  - apply maintains_bind; [apply Hb|intros _; exact IH].
Qed.

Lemma maintains_modify (f : LoopState -> LoopState) :
  (forall s, R s (f s)) -> maintains R (modify f).
Proof. intros Hf s. apply Hf. Qed.

End Maintains.

Section Worker.
Import MatrixFree.
Variable DEBUG : bool.
Variable WITH_MPI : bool.
Variable invalid_unsigned_int : Z.
Variable new_address : list nat -> nat.
Variable effect : Call -> (nat -> DistributedVector) -> nat -> DistributedVector.

Local Abbreviation T P := (trace_step effect P).

Lemma trace_step_refl P s : T P s s.
Proof. exists []. now rewrite app_nil_r. Qed.

Lemma trace_step_trans P s1 s2 s3 : T P s1 s2 -> T P s2 s3 -> T P s1 s3.
Proof.
  intros (n1 & Hc1 & Hp1 & Hv1) (n2 & Hc2 & Hp2 & Hv2).
  exists (n1 ++ n2).
  split; [rewrite Hc2, Hc1; now rewrite app_assoc|].
  split; [rewrite forallb_app, Hp1, Hp2; reflexivity|].
  rewrite Hv2, Hv1. unfold after_calls. now rewrite fold_left_app.
Qed.

Lemma src_flag_kept_refl s : src_flag_kept s s.
Proof. split; reflexivity. Qed.

Lemma src_flag_kept_trans s1 s2 s3 :
  src_flag_kept s1 s2 -> src_flag_kept s2 s3 -> src_flag_kept s1 s3.
Proof. unfold src_flag_kept. intros [? ?] [? ?]. split; congruence. Qed.

Lemma kept_refl k s : kept effect k s s.
Proof. destruct k; [apply trace_step_refl|apply src_flag_kept_refl]. Qed.

Lemma kept_trans k s1 s2 s3 : kept effect k s1 s2 -> kept effect k s2 s3 -> kept effect k s1 s3.
Proof. destruct k; [apply trace_step_trans|apply src_flag_kept_trans]. Qed.

Lemma kept_emit k c : allows k c -> maintains (kept effect k) (emit effect c).
Proof.
  intros Hc s. destruct k as [P|]; [|split; reflexivity].
  exists [c]. simpl in *.
  split; [reflexivity|]. split; [now rewrite Hc|reflexivity].
Qed.

Lemma kept_on_scratch_pad {A} k (m : Comp (list ScratchItem) A) :
  maintains (kept effect k) (on_scratch_pad m).
Proof.
  intros s. unfold on_scratch_pad.
  destruct (m (scratch_pad_non_threadsafe s)) as [o pad]. simpl.
  destruct k as [P|]; [|split; reflexivity].
  exists []. simpl. now rewrite app_nil_r.
Qed.

Lemma kept_set_tmp_data k x i p : maintains (kept effect k) (modify (set_tmp_data x i p)).
Proof.
  apply maintains_modify. intros s.
  destruct k as [P|]; [|destruct x; split; reflexivity].
  exists []. simpl. now rewrite app_nil_r.
Qed.

Lemma trace_set_ghosts_were_set P x :
  maintains (T P) (modify (set_ghosts_were_set x)).
Proof.
  apply maintains_modify. intros s. exists []. simpl. now rewrite app_nil_r.
Qed.

Lemma dst_set_ghosts_were_set :
  maintains src_flag_kept (modify (set_ghosts_were_set of_dst)).
Proof. apply maintains_modify. intros s. split; reflexivity. Qed.

Lemma trace_set_exchanger P x e : maintains (T P) (modify (set_exchanger x e)).
Proof.
  apply maintains_modify. intros s. exists []. simpl. now rewrite app_nil_r.
Qed.

Lemma kret {A} k (a : A) : maintains (kept effect k) (ret a).
Proof. apply maintains_ret, kept_refl. Qed.

Lemma kbind {A B} k (m : Comp LoopState A) (f : A -> Comp LoopState B) :
  maintains (kept effect k) m -> (forall a, maintains (kept effect k) (f a)) ->
  maintains (kept effect k) (bind m f).
Proof. apply maintains_bind, kept_trans. Qed.

Lemma kfor_each {X} k (l : list X) (body : X -> Comp LoopState unit) :
  (forall x, maintains (kept effect k) (body x)) -> maintains (kept effect k) (for_each l body).
Proof. apply maintains_for_each; [apply kept_refl|apply kept_trans]. Qed.

Lemma kAssert k (D c : bool) (e : Exc) : maintains (kept effect k) (Assert D c e).
Proof. apply maintains_Assert, kept_refl. Qed.

Lemma kAssertThrow k (c : bool) (e : Exc) : maintains (kept effect k) (AssertThrow c e).
Proof. apply maintains_AssertThrow, kept_refl. Qed.

Lemma kget k : maintains (kept effect k) get.
Proof. apply maintains_get, kept_refl. Qed.

(** one structural step of a proof that a computation maintains a relation *)
Ltac kept_step :=
  lazymatch goal with
  | |- maintains _ (bind _ _) => apply kbind; [|intros ?]
  | |- maintains _ (ret _) => apply kret
  | |- maintains _ get => apply kget
  | |- maintains _ (Assert _ _ _) => apply kAssert
  | |- maintains _ (AssertThrow _ _) => apply kAssertThrow
  | |- maintains _ (AssertDimension _ _ _) => apply kAssert
  | |- maintains _ (AssertIndexRange _ _ _) => apply kAssert
  | |- maintains _ (for_each _ _) => apply kfor_each; intros ?
  | |- maintains _ (if ?b then _ else _) => destruct b
  | |- maintains _ (match ?o with Some _ => _ | None => _ end) => destruct o
  | |- maintains _ (on_scratch_pad _) => apply kept_on_scratch_pad
  | |- maintains _ (modify (set_tmp_data _ _ _)) => apply kept_set_tmp_data
  end.

Lemma kept_n_components k mf : maintains (kept effect k) (n_components DEBUG mf).
Proof. unfold n_components. repeat kept_step. Qed.

Lemma kept_get_dof_info k mf i : maintains (kept effect k) (get_dof_info DEBUG mf i).
Proof.
  unfold get_dof_info. kept_step; [apply kept_n_components|]. repeat kept_step.
Qed.

Lemma kept_find_vector_in_mf k mf v chk :
  maintains (kept effect k) (find_vector_in_mf DEBUG invalid_unsigned_int mf v chk).
Proof.
  unfold find_vector_in_mf. kept_step; [apply kept_n_components|].
  induction (seq 0 a) as [|c cs IH]; cbn [find_vector_in_mf_from].
  - kept_step.
  - kept_step; [apply kept_get_dof_info|]. kept_step; [kept_step|exact IH].
Qed.

Lemma kept_exchanger_get_partitioner k mf a i :
  maintains (kept effect k) (exchanger_get_partitioner DEBUG mf a i).
Proof.
  unfold exchanger_get_partitioner. kept_step; [apply kept_get_dof_info|].
  repeat kept_step.
Qed.

Lemma kept_release_tmp_data k x i : maintains (kept effect k) (release_tmp_data DEBUG x i).
Proof. unfold release_tmp_data. repeat kept_step. Qed.

(** the structural steps, with the helpers of the exchanger *)
Ltac kept_auto :=
  repeat first
    [ apply kept_n_components
    | apply kept_get_dof_info
    | apply kept_find_vector_in_mf
    | apply kept_exchanger_get_partitioner
    | apply kept_release_tmp_data
    | kept_step ].

Lemma kept_VectorDataExchange_delete k x :
  maintains (kept effect k) (VectorDataExchange_delete DEBUG WITH_MPI x).
Proof. unfold VectorDataExchange_delete. kept_auto. Qed.

Lemma kept_update_ghost_values_start k x mf i v :
  (forall c, is_ghost_start c = true -> allows k c) ->
  (k = src_flag -> x = of_dst) ->
  maintains (kept effect k)
    (exchanger_update_ghost_values_start DEBUG WITH_MPI invalid_unsigned_int
       new_address effect x mf i v).
Proof.
  intros Hallow Hx. unfold exchanger_update_ghost_values_start.
  assert (Hset : maintains (kept effect k) (modify (set_ghosts_were_set x))).
  { destruct k as [P|]; [apply trace_set_ghosts_were_set|].
    rewrite (Hx eq_refl). apply dst_set_ghosts_were_set. }
  kept_step; [kept_step|]. kept_step.
  { kept_step; [exact Hset|kept_step]. }
  kept_auto; apply kept_emit, Hallow; reflexivity.
Qed.

Lemma kept_update_ghost_values_finish k x mf i v :
  (forall c, is_ghost_update c = true -> allows k c) ->
  maintains (kept effect k)
    (exchanger_update_ghost_values_finish DEBUG WITH_MPI invalid_unsigned_int
       effect x mf i v).
Proof.
  intros Hallow. unfold exchanger_update_ghost_values_finish.
  kept_auto; apply kept_emit, Hallow; reflexivity.
Qed.

Lemma kept_compress_start k x mf i v :
  (forall c, is_compress c = true -> allows k c) ->
  maintains (kept effect k)
    (exchanger_compress_start DEBUG WITH_MPI invalid_unsigned_int
       new_address effect x mf i v).
Proof.
  intros Hallow. unfold exchanger_compress_start.
  kept_auto; apply kept_emit, Hallow; reflexivity.
Qed.

Lemma kept_compress_finish k x mf i v :
  (forall c, is_compress c = true -> allows k c) ->
  maintains (kept effect k)
    (exchanger_compress_finish DEBUG WITH_MPI invalid_unsigned_int effect x mf i v).
Proof.
  intros Hallow. unfold exchanger_compress_finish.
  kept_auto; apply kept_emit, Hallow; reflexivity.
Qed.

Lemma kept_reset_ghost_values k x mf v :
  (forall c, is_ghost_reset c = true -> allows k c) ->
  maintains (kept effect k)
    (exchanger_reset_ghost_values DEBUG WITH_MPI invalid_unsigned_int effect x mf v).
Proof.
  intros Hallow. unfold exchanger_reset_ghost_values.
  kept_auto; apply kept_emit, Hallow; reflexivity.
Qed.

Lemma kept_zero_vector_region k mf r v :
  (forall c, is_zeroing c = true -> allows k c) ->
  maintains (kept effect k)
    (exchanger_zero_vector_region DEBUG invalid_unsigned_int effect mf r v).
Proof.
  intros Hallow. unfold exchanger_zero_vector_region.
  kept_auto; apply kept_emit, Hallow; reflexivity.
Qed.

(** *** The calls of a worker *)

Lemma is_ghost_start_update c : is_ghost_start c = true -> is_ghost_update c = true.
Proof. destruct c as [v []| | |]; simpl; congruence. Qed.

Lemma kept_call_through k f c :
  allows k c -> maintains (kept effect k) (call_through effect f c).
Proof.
  intros Hc. unfold call_through.
  destruct f as [|[]|]; try apply kret; apply kept_emit, Hc.
Qed.

Lemma kept_VectorDataExchange_new k x mf a n :
  (k = src_flag -> x = of_dst) ->
  maintains (kept effect k) (VectorDataExchange_new DEBUG WITH_MPI x mf a n).
Proof.
  intros Hx. unfold VectorDataExchange_new. kept_step.
  - destruct k as [P|]; [apply trace_set_exchanger|].
    rewrite (Hx eq_refl). apply maintains_modify. intros s. split; reflexivity.
  - kept_auto.
Qed.

Lemma kept_zero_vector_region_all k mf r a :
  (forall c, is_zeroing c = true -> allows k c) ->
  maintains (kept effect k)
    (zero_vector_region_all DEBUG invalid_unsigned_int effect mf r a).
Proof.
  intros Hallow. unfold zero_vector_region_all. apply kfor_each. intros c.
  destruct (distributed c); [now apply kept_zero_vector_region|].
  destruct (_ || _); [|apply kret]. apply kept_emit, Hallow. reflexivity.
Qed.

Lemma kept_reset_ghost_values_all k x mf a :
  (forall c, is_ghost_reset c = true -> allows k c) ->
  maintains (kept effect k)
    (reset_ghost_values_all DEBUG WITH_MPI invalid_unsigned_int effect x mf a).
Proof.
  intros Hallow. unfold reset_ghost_values_all. apply kfor_each. intros c.
  destruct (distributed c); [now apply kept_reset_ghost_values|apply kret].
Qed.

Lemma kept_compress_finish_all k x mf a :
  (forall c, is_compress c = true -> allows k c) ->
  maintains (kept effect k)
    (compress_finish_all DEBUG WITH_MPI invalid_unsigned_int effect x mf a).
Proof.
  intros Hallow. unfold compress_finish_all. apply kfor_each. intros c.
  destruct (distributed (snd c)); [now apply kept_compress_finish|apply kret].
Qed.

(** What a call of a virtual function of the worker maintains, by the two
    flags that its constructor has set. *)
Lemma kept_worker_call k w c :
  (forall u, is_user u = true -> allows k u) ->
  (forall u, is_compress u = true -> allows k u) ->
  (src_and_dst_are_same w = false ->
   forall u, is_ghost_update u = true -> allows k u) ->
  (src_and_dst_are_same w = false -> c = call_vector_compress_finish ->
   forall u, is_ghost_reset u = true -> allows k u) ->
  (zero_dst_vector_setting w = true ->
   forall u, is_zeroing u = true -> allows k u) ->
  (k = src_flag -> c = call_vector_update_ghosts_start ->
   src_and_dst_are_same w = true) ->
  maintains (kept effect k)
    (worker_call DEBUG WITH_MPI invalid_unsigned_int new_address effect w c).
Proof.
  intros Huser Hcompress Hghost Hreset Hzero Hflag.
  destruct c; cbn [worker_call].
  - unfold worker_cell. destruct (_ && _); [|apply kret].
    apply kept_call_through, Huser. reflexivity.
  - unfold worker_face. destruct (_ && _); [|apply kret].
    apply kept_call_through, Huser. reflexivity.
  - unfold worker_boundary. destruct (_ && _); [|apply kret].
    apply kept_call_through, Huser. reflexivity.
  - unfold vector_update_ghosts_start.
    destruct (src_and_dst_are_same w) eqn:Hsame; [apply kret|]. simpl.
    unfold update_ghost_values_start_all. apply kfor_each. intros ic.
    destruct (distributed (snd ic)); [|apply kret].
    apply kept_update_ghost_values_start.
    + intros u Hu. apply Hghost; [reflexivity|]. now apply is_ghost_start_update.
    + intros Hk. specialize (Hflag Hk eq_refl). discriminate Hflag.
  - unfold vector_update_ghosts_finish.
    destruct (src_and_dst_are_same w) eqn:Hsame; [apply kret|]. simpl.
    unfold update_ghost_values_finish_all. apply kfor_each. intros ic.
    destruct (distributed (snd ic)); [|apply kret].
    apply kept_update_ghost_values_finish. intros u Hu. now apply Hghost.
  - unfold vector_compress_start, compress_start_all. apply kfor_each. intros ic.
    destruct (distributed (snd ic)); [|apply kret].
    now apply kept_compress_start.
  - unfold vector_compress_finish. apply kbind.
    + now apply kept_compress_finish_all.
    + intros _. destruct (src_and_dst_are_same w) eqn:Hsame; [apply kret|]. simpl.
      apply kept_reset_ghost_values_all. now apply Hreset.
  - unfold zero_dst_vector_range.
    destruct (zero_dst_vector_setting w) eqn:Hz; [|apply kret].
    apply kept_zero_vector_region_all. now apply Hzero.
Qed.

Lemma run_worker_steps schedule mf src dst zero cell face boundary sa da s :
  run_worker DEBUG WITH_MPI invalid_unsigned_int new_address effect
    schedule mf src dst zero cell face boundary sa da s
  = (VectorDataExchange_new DEBUG WITH_MPI of_src mf sa (length (components src)) ;;
     VectorDataExchange_new DEBUG WITH_MPI of_dst mf da (length (components dst)) ;;
     task_info_loop DEBUG WITH_MPI invalid_unsigned_int new_address effect
       schedule (built_worker mf src dst zero cell face boundary) ;;
     VectorDataExchange_delete DEBUG WITH_MPI of_dst ;;
     VectorDataExchange_delete DEBUG WITH_MPI of_src) s.
Proof.
  unfold run_worker, MFWorker_new, bind.
  destruct (VectorDataExchange_new _ _ of_src _ _ _ s) as [[[]|e] s1];
    [|reflexivity].
  destruct (VectorDataExchange_new _ _ of_dst _ _ _ s1) as [[[]|e] s2];
    reflexivity.
Qed.

(** A loop makes the calls that [P] allows, if [P] allows what the worker
    built for it may call. *)
Lemma run_worker_trace P schedule mf src dst zero cell face boundary sa da :
  (forall u, is_user u = true -> P u = true) ->
  (forall u, is_compress u = true -> P u = true) ->
  ((object src =? object dst) = false ->
   forall u, is_ghost_update u = true -> P u = true) ->
  ((object src =? object dst) = false ->
   forall u, is_ghost_reset u = true -> P u = true) ->
  (zero && negb (object src =? object dst) = true ->
   forall u, is_zeroing u = true -> P u = true) ->
  maintains (T P)
    (run_worker DEBUG WITH_MPI invalid_unsigned_int new_address effect
       schedule mf src dst zero cell face boundary sa da).
Proof.
  intros Huser Hcompress Hghost Hreset Hzero s. rewrite run_worker_steps.
  revert s. change (T P) with (kept effect (trace P)).
  apply kbind; [apply kept_VectorDataExchange_new; discriminate|intros _].
  apply kbind; [apply kept_VectorDataExchange_new; discriminate|intros _].
  apply kbind; [|intros _; apply kbind;
                 [|intros _]; apply kept_VectorDataExchange_delete].
  unfold task_info_loop. apply kfor_each. intros c.
  apply kept_worker_call; simpl; auto; discriminate.
Qed.

(** *** The ghost state of the source *)

Lemma bind_Done_inv {S A B} (m : Comp S A) (k : A -> Comp S B) s b s' :
  bind m k s = (Done b, s') ->
  exists a s1, m s = (Done a, s1) /\ k a s1 = (Done b, s').
Proof. unfold bind. destruct (m s) as [[a|e] s1]; [eauto|discriminate]. Qed.

Lemma forallb_false_nil {X} (l : list X) :
  forallb (fun _ => false) l = true -> l = [].
Proof. destruct l; [reflexivity|discriminate]. Qed.

Lemma existsb_pointwise {X} (f g : X -> bool) (l : list X) :
  (forall x, f x = g x) -> existsb f l = existsb g l.
Proof. intros Hfg. induction l as [|x l IH]; simpl; [|rewrite Hfg, IH]; reflexivity. Qed.

Lemma existsb_with_channels {X} (f : X -> bool) (l : list X) start :
  existsb (fun ic => f (snd ic)) (combine (seq start (length l)) l) = existsb f l.
Proof.
  revert start. induction l as [|x l IH]; intros start; simpl; [reflexivity|].
  now rewrite IH.
Qed.

Lemma trace_ghost_start_keeps s s' :
  start_keeps_ghost_state effect -> T is_ghost_start s s' ->
  forall u, has_ghost_elements (vectors s' u) = has_ghost_elements (vectors s u).
Proof.
  intros Hk (new & _ & Hp & Hv) u. rewrite Hv. clear Hv.
  generalize (vectors s). induction new as [|c new IH]; intros vs; simpl.
  - reflexivity.
  - simpl in Hp. apply andb_prop in Hp as [Hc Hp]. rewrite (IH Hp). now apply Hk.
Qed.

(** the start of the exchange of one component of the source: the flag is
    raised if the vector came with ghost elements *)
Lemma update_ghost_values_start_src mf i v s :
  start_keeps_ghost_state effect ->
  let s' := state_of (exchanger_update_ghost_values_start DEBUG WITH_MPI
                        invalid_unsigned_int new_address effect of_src mf i v s) in
  ghosts_were_set (src_data_exchanger s')
  = ghosts_were_set (src_data_exchanger s) || has_ghost_elements (vectors s v)
  /\ vector_face_access (src_data_exchanger s')
     = vector_face_access (src_data_exchanger s)
  /\ forall u, has_ghost_elements (vectors s' u) = has_ghost_elements (vectors s u).
Proof.
  intros Hk s'.
  assert (Htr : T is_ghost_start s s').
  { apply (kept_update_ghost_values_start (trace is_ghost_start));
      [auto|discriminate]. }
  enough (ghosts_were_set (src_data_exchanger s')
          = ghosts_were_set (src_data_exchanger s) || has_ghost_elements (vectors s v)
          /\ vector_face_access (src_data_exchanger s')
             = vector_face_access (src_data_exchanger s)) as [Hg Ha].
  { split; [exact Hg|]. split; [exact Ha|]. now apply trace_ghost_start_keeps. }
  clear Htr. subst s'. unfold exchanger_update_ghost_values_start.
  rewrite bind_get. cbv zeta.
  destruct (has_ghost_elements (vectors s v)).
  - rewrite bind_modify. cbv beta.
    match goal with
    | |- context [state_of (?rest ?s0)] =>
        assert (Hrest : maintains (kept effect src_flag) rest)
          by (kept_auto; apply kept_emit; exact I);
        destruct (Hrest s0) as [Hg Ha]
    end.
    rewrite Hg, Ha. simpl. now rewrite orb_true_r.
  - rewrite bind_ret.
    match goal with
    | |- context [state_of (?rest ?s0)] =>
        assert (Hrest : maintains (kept effect src_flag) rest)
          by (kept_auto; apply kept_emit; exact I);
        destruct (Hrest s0) as [Hg Ha]
    end.
    rewrite Hg, Ha. now rewrite orb_false_r.
Qed.

Lemma update_ghost_values_start_all_src mf a s s' :
  start_keeps_ghost_state effect ->
  update_ghost_values_start_all DEBUG WITH_MPI invalid_unsigned_int new_address
    effect of_src mf a s = (Done tt, s') ->
  ghosts_were_set (src_data_exchanger s')
  = ghosts_were_set (src_data_exchanger s) || had_ghosts s a
  /\ vector_face_access (src_data_exchanger s')
     = vector_face_access (src_data_exchanger s).
Proof.
  intros Hk. unfold update_ghost_values_start_all, had_ghosts, with_channels.
  rewrite <- (existsb_with_channels
                (fun c => distributed c && has_ghost_elements (vectors s (vec c)))
                (components a) 0).
  generalize (combine (seq 0 (length (components a))) (components a)).
  intros l. revert s. induction l as [|ic l IH]; intros s Hrun; simpl in Hrun.
  - injection Hrun as <-. simpl. now rewrite orb_false_r.
  - apply bind_Done_inv in Hrun as ([] & s1 & Hstep & Hrest).
    destruct (IH s1 Hrest) as [Hg Ha]. rewrite Hg, Ha. simpl existsb.
    destruct (distributed (snd ic)).
    + destruct (update_ghost_values_start_src mf (fst ic) (vec (snd ic)) s Hk)
        as (Hg1 & Ha1 & Hv1).
      rewrite Hstep in Hg1, Ha1, Hv1. simpl state_of in Hg1, Ha1, Hv1.
      rewrite Hg1, Ha1. split; [|reflexivity]. rewrite <- orb_assoc. do 2 f_equal.
      apply existsb_pointwise. intros x. now rewrite Hv1.
    + injection Hstep as <-. now split.
Qed.

(** the reset at the end of the loop, when the flag is raised *)
Lemma reset_ghost_values_all_flag_set mf a s :
  ghosts_were_set (src_data_exchanger s) = true ->
  reset_ghost_values_all DEBUG WITH_MPI invalid_unsigned_int effect of_src mf a s
  = (Done tt, s).
Proof.
  intros Hset. unfold reset_ghost_values_all.
  induction (components a) as [|c l IH]; simpl; [reflexivity|].
  rewrite (bind_done _ _ s s tt); [exact IH|].
  destruct (distributed c); [|reflexivity].
  unfold exchanger_reset_ghost_values. rewrite bind_get. unfold exchanger.
  now rewrite Hset.
Qed.

(** and when it is not: the ghost entries of every distributed vector of
    the source are set to zero *)
Lemma reset_ghost_values_all_unspecified mf a s :
  ghosts_were_set (src_data_exchanger s) = false ->
  is_unspecified (vector_face_access (src_data_exchanger s)) = true ->
  exists s',
    reset_ghost_values_all DEBUG WITH_MPI invalid_unsigned_int effect of_src mf a s
    = (Done tt, s')
    /\ calls s' = calls s ++ ghost_resets a.
Proof.
  unfold reset_ghost_values_all, ghost_resets.
  revert s. induction (components a) as [|c l IH]; intros s Hset Haccess; simpl.
  - exists s. split; [reflexivity|]. now rewrite app_nil_r.
  - rewrite filter_cons. destruct (distributed c) eqn:Hd.
    + destruct (decide (true = true)) as [_|Hne]; [|now destruct Hne].
      set (s0 := state_of (emit effect (on_vector (vec c) zero_out_ghosts) s)).
      assert (Hstep : exchanger_reset_ghost_values DEBUG WITH_MPI
                        invalid_unsigned_int effect of_src mf (vec c) s
                      = (Done tt, s0)).
      { unfold exchanger_reset_ghost_values. rewrite bind_get. unfold exchanger.
        now rewrite Hset, Haccess. }
      rewrite (bind_done _ _ _ _ _ Hstep).
      destruct (IH s0 Hset Haccess) as (s' & Hrun & Hcalls).
      exists s'. split; [exact Hrun|]. rewrite Hcalls. simpl.
      now rewrite <- app_assoc.
    + destruct (decide (false = true)) as [Heq|_]; [discriminate Heq|].
      rewrite bind_ret. now apply IH.
Qed.

Lemma trace_none s s' :
  T (fun _ => false) s s' -> calls s' = calls s /\ vectors s' = vectors s.
Proof.
  intros (new & Hc & Hp & Hv). apply forallb_false_nil in Hp. subst new.
  rewrite app_nil_r in Hc. now split.
Qed.

Lemma step_of {A} (R : LoopState -> LoopState -> Prop) (m : Comp LoopState A) s a s' :
  maintains R m -> m s = (Done a, s') -> R s s'.
Proof. intros Hm Hrun. specialize (Hm s). now rewrite Hrun in Hm. Qed.

Lemma kfor_each_in {X} k (l : list X) (body : X -> Comp LoopState unit) :
  (forall x, x ∈ l -> maintains (kept effect k) (body x)) ->
  maintains (kept effect k) (for_each l body).
Proof.
  induction l as [|x l IH]; intros Hb; simpl.
  - apply kret.
  - apply kbind; [apply Hb; left|intros _].
    apply IH. intros y Hy. apply Hb. now right.
Qed.

(** the constructor of the exchanger of the source *)
Lemma VectorDataExchange_new_src mf sa n s :
  let s' := state_of (VectorDataExchange_new DEBUG WITH_MPI of_src mf sa n s) in
  calls s' = calls s /\ vectors s' = vectors s
  /\ ghosts_were_set (src_data_exchanger s') = false
  /\ vector_face_access (src_data_exchanger s')
     = if face_partition_data_empty mf then unspecified else sa.
Proof.
  intros s'. subst s'. unfold VectorDataExchange_new. cbv zeta.
  rewrite bind_modify. cbv beta.
  match goal with
  | |- context [state_of (?rest ?s0)] =>
      assert (H1 : maintains (kept effect (trace (fun _ => false))) rest)
        by kept_auto;
      assert (H2 : maintains (kept effect src_flag) rest) by kept_auto;
      destruct (trace_none _ _ (H1 s0)) as [Hc Hv]; destruct (H2 s0) as [Hg Ha]
  end.
  rewrite Hc, Hv, Hg, Ha. simpl. auto.
Qed.

Lemma worker_call_no_reset w c :
  c <> call_vector_compress_finish ->
  maintains (T (fun u => negb (is_ghost_reset u)))
    (worker_call DEBUG WITH_MPI invalid_unsigned_int new_address effect w c).
Proof.
  intros Hc.
  apply (kept_worker_call (trace (fun u => negb (is_ghost_reset u)))); simpl.
  - intros [v []| | |]; simpl; congruence.
  - intros [v []| | |]; simpl; congruence.
  - intros _ [v []| | |]; simpl; congruence.
  - intros _ Heq. now destruct Hc.
  - intros _ [v []| | |]; simpl; congruence.
  - discriminate.
Qed.

Lemma worker_call_src_flag w c :
  c <> call_vector_update_ghosts_start ->
  maintains src_flag_kept
    (worker_call DEBUG WITH_MPI invalid_unsigned_int new_address effect w c).
Proof.
  intros Hc. apply (kept_worker_call src_flag); simpl; auto.
Qed.

(** The loop over distinct vectors, when the schedule starts the update of
    the ghost values first and finishes the compression last, up to the
    reset of the ghost values of the source, which is its last step that
    makes calls: no ghost entry has been zeroed so far, and the exchanger of
    the source knows whether the source came with ghost elements. *)
Lemma run_worker_to_reset mid mf src dst zero cell face boundary sa da st st' :
  (object src =? object dst) = false ->
  start_keeps_ghost_state effect ->
  call_vector_update_ghosts_start ∉ mid ->
  call_vector_compress_finish ∉ mid ->
  run_worker DEBUG WITH_MPI invalid_unsigned_int new_address effect
    (call_vector_update_ghosts_start :: mid ++ [call_vector_compress_finish])
    mf src dst zero cell face boundary sa da st = (Done tt, st') ->
  exists before s8 s7,
    calls s8 = calls st ++ before
    /\ forallb (fun c => negb (is_ghost_reset c)) before = true
    /\ vectors s8 = after_calls effect before (vectors st)
    /\ ghosts_were_set (src_data_exchanger s8) = had_ghosts st src
    /\ vector_face_access (src_data_exchanger s8)
       = (if face_partition_data_empty mf then unspecified else sa)
    /\ reset_ghost_values_all DEBUG WITH_MPI invalid_unsigned_int effect
         of_src mf src s8 = (Done tt, s7)
    /\ calls st' = calls s7.
Proof.
  intros Hne Hk Hs Hf Hrun. rewrite run_worker_steps in Hrun.
  apply bind_Done_inv in Hrun as ([] & s1 & Hc1 & Hrun).
  apply bind_Done_inv in Hrun as ([] & s2 & Hc2 & Hrun).
  apply bind_Done_inv in Hrun as ([] & s3 & Hloop & Hrun).
  apply bind_Done_inv in Hrun as ([] & s4 & Hd1 & Hd2).
  unfold task_info_loop in Hloop. cbn [for_each] in Hloop.
  apply bind_Done_inv in Hloop as ([] & s5 & Hstart & Hloop).
  rewrite for_each_app in Hloop.
  apply bind_Done_inv in Hloop as ([] & s6 & Hmid & Hfin).
  cbn [for_each] in Hfin.
  apply bind_Done_inv in Hfin as ([] & s7 & Hfin & Hret).
  injection Hret as ->.
  (* the constructors *)
  destruct (VectorDataExchange_new_src mf sa (length (components src)) st)
    as (E1 & U1 & G1 & A1).
  rewrite Hc1 in E1, U1, G1, A1. simpl state_of in E1, U1, G1, A1.
  destruct (trace_none _ _ (step_of _ _ _ _ _
              (kept_VectorDataExchange_new (trace (fun _ => false)) of_dst mf da
                 (length (components dst)) ltac:(discriminate)) Hc2)) as [E2 U2].
  destruct (step_of _ _ _ _ _
              (kept_VectorDataExchange_new src_flag of_dst mf da
                 (length (components dst)) ltac:(reflexivity)) Hc2) as [G2 A2].
  (* the start *)
  destruct (step_of _ _ _ _ _
              (worker_call_no_reset _ call_vector_update_ghosts_start
                 ltac:(discriminate)) Hstart) as (n5 & E5 & P5 & V5).
  cbn [worker_call] in Hstart. unfold vector_update_ghosts_start in Hstart.
  cbn [built_worker src_and_dst_are_same matrix_free MatrixFree.src] in Hstart.
  rewrite Hne in Hstart. cbn [negb] in Hstart.
  destruct (update_ghost_values_start_all_src _ _ _ _ Hk Hstart) as [G5 A5].
  assert (Hhad : had_ghosts s2 src = had_ghosts st src).
  { unfold had_ghosts. now rewrite U2, U1. }
  rewrite G2, G1, Hhad in G5. cbn [orb] in G5. rewrite A2, A1 in A5.
  (* the calls in between *)
  assert (Hmid_trace : T (fun u => negb (is_ghost_reset u)) s5 s6).
  { refine (step_of _ _ _ _ _ _ Hmid).
    apply (kfor_each_in (trace (fun u => negb (is_ghost_reset u)))).
    intros c Hc. apply worker_call_no_reset. intros ->. now apply Hf. }
  destruct Hmid_trace as (n6 & E6 & P6 & V6).
  assert (Hmid_flag : src_flag_kept s5 s6).
  { refine (step_of _ _ _ _ _ _ Hmid).
    apply (kfor_each_in src_flag).
    intros c Hc. apply worker_call_src_flag. intros ->. now apply Hs. }
  destruct Hmid_flag as [G6 A6].
  (* the finish *)
  cbn [worker_call] in Hfin. unfold vector_compress_finish in Hfin.
  cbn [built_worker src_and_dst_are_same matrix_free MatrixFree.src MatrixFree.dst]
    in Hfin.
  rewrite Hne in Hfin. cbn [negb] in Hfin.
  apply bind_Done_inv in Hfin as ([] & s8 & Hcompress & Hreset).
  destruct (step_of _ _ _ _ _
              (kept_compress_finish_all (trace (fun u => negb (is_ghost_reset u)))
                 of_dst mf dst
                 ltac:(intros [v []| | |]; simpl; congruence)) Hcompress)
    as (n8 & E8 & P8 & V8).
  destruct (step_of _ _ _ _ _
              (kept_compress_finish_all src_flag of_dst mf dst ltac:(simpl; auto))
              Hcompress) as [G8 A8].
  (* the destructors *)
  destruct (trace_none _ _ (step_of _ _ _ _ _
              (kept_VectorDataExchange_delete (trace (fun _ => false)) of_dst) Hd1))
    as [E4 _].
  destruct (trace_none _ _ (step_of _ _ _ _ _
              (kept_VectorDataExchange_delete (trace (fun _ => false)) of_src) Hd2))
    as [E9 _].
  exists (n5 ++ n6 ++ n8), s8, s3.
  split.
  { rewrite E8, E6, E5, E2, E1. now rewrite <- !app_assoc. }
  split; [now rewrite !forallb_app, P5, P6, P8|].
  split.
  { rewrite V8, V6, V5, U2, U1. unfold after_calls.
    now rewrite !fold_left_app. }
  split; [congruence|]. split; [congruence|].
  split; [exact Hreset|congruence].
Qed.

(** The calls that zero ghost entries are the last ones of such a loop, and
    there are none if the source came with ghost elements. *)
Lemma run_worker_ghost_reset mid mf src dst zero cell face boundary sa da st st' :
  (object src =? object dst) = false ->
  start_keeps_ghost_state effect ->
  call_vector_update_ghosts_start ∉ mid ->
  call_vector_compress_finish ∉ mid ->
  run_worker DEBUG WITH_MPI invalid_unsigned_int new_address effect
    (call_vector_update_ghosts_start :: mid ++ [call_vector_compress_finish])
    mf src dst zero cell face boundary sa da st = (Done tt, st') ->
  exists before resets,
    calls st' = calls st ++ before ++ resets
    /\ forallb (fun c => negb (is_ghost_reset c)) before = true
    /\ forallb is_ghost_reset resets = true
    /\ (had_ghosts st src = true -> resets = [])
    /\ (had_ghosts st src = false ->
        is_unspecified (if face_partition_data_empty mf then unspecified else sa)
        = true ->
        resets = ghost_resets src).
Proof.
  intros Hne Hk Hs Hf Hrun.
  destruct (run_worker_to_reset _ _ _ _ _ _ _ _ _ _ _ _ Hne Hk Hs Hf Hrun)
    as (before & s8 & s7 & E8 & P8 & _ & G & A & Hreset & E9).
  destruct (step_of _ _ _ _ _
              (kept_reset_ghost_values_all (trace is_ghost_reset) of_src mf src
                 ltac:(simpl; auto)) Hreset) as (resets & E7 & P7 & _).
  exists before, resets.
  split; [rewrite E9, E7, E8; now rewrite <- app_assoc|].
  split; [exact P8|]. split; [exact P7|]. split.
  - intros Hhad_true. rewrite Hhad_true in G.
    rewrite (reset_ghost_values_all_flag_set mf src s8 G) in Hreset.
    injection Hreset as <-. apply (app_inv_head (calls s8)).
    now rewrite app_nil_r.
  - intros Hhad_false Hunspecified. rewrite Hhad_false in G.
    rewrite <- A in Hunspecified.
    destruct (reset_ghost_values_all_unspecified mf src s8 G Hunspecified)
      as (s' & Hrun' & Hcalls).
    rewrite Hrun' in Hreset. injection Hreset as ->.
    apply (app_inv_head (calls s8)). congruence.
Qed.

(** *** The reset by the access to the faces *)

Lemma after_calls_layout cs vs u :
  keeps_layout effect ->
  size (after_calls effect cs vs u) = size (vs u)
  /\ get_partitioner (after_calls effect cs vs u) = get_partitioner (vs u).
Proof.
  intros Hl. revert vs. unfold after_calls.
  induction cs as [|c cs IH]; intros vs; [split; reflexivity|].
  cbn [fold_left]. destruct (IH (effect c vs)) as [-> ->]. apply Hl.
Qed.

Lemma ghost_reset_of_layout mf access v v' addr :
  size v = size v' -> get_partitioner v = get_partitioner v' ->
  ghost_reset_of DEBUG WITH_MPI mf access v addr
  = ghost_reset_of DEBUG WITH_MPI mf access v' addr.
Proof.
  intros Hs Hp. unfold ghost_reset_of, component_of, compatible_with.
  now rewrite Hs, Hp.
Qed.

Lemma ghost_resets_for_layout mf access vs vs' cs :
  (forall u, size (vs u) = size (vs' u)
             /\ get_partitioner (vs u) = get_partitioner (vs' u)) ->
  ghost_resets_for DEBUG WITH_MPI mf access vs cs
  = ghost_resets_for DEBUG WITH_MPI mf access vs' cs.
Proof.
  intros Hl. unfold ghost_resets_for.
  induction cs as [|c cs IH]; [reflexivity|]. cbn [flat_map]. rewrite IH.
  destruct (distributed c); [|reflexivity].
  destruct (Hl (vec c)) as [Hs Hp].
  now rewrite (ghost_reset_of_layout mf access _ _ (vec c) Hs Hp).
Qed.

Lemma set_up_for_layout mf access vs vs' cs :
  (forall u, size (vs u) = size (vs' u)
             /\ get_partitioner (vs u) = get_partitioner (vs' u)) ->
  set_up_for DEBUG WITH_MPI mf access vs cs ->
  set_up_for DEBUG WITH_MPI mf access vs' cs.
Proof.
  intros Hl Hset Ha Hm. destruct (Hset Ha Hm) as (Hn & Hv & Hc).
  split; [exact Hn|]. split; [exact Hv|].
  intros c Hin Hd Hsize. destruct (Hl (vec c)) as [Hs Hp].
  unfold component_of, compatible_with. rewrite <- Hp.
  apply (Hc c Hin Hd). now rewrite Hs.
Qed.

Lemma n_components_run {S} mf (s : S) :
  n_dof_handlers mf = length (dof_info mf) ->
  n_components DEBUG mf s = (Done (n_dof_handlers mf), s).
Proof.
  intros Hn. unfold n_components, AssertDimension.
  rewrite bind_Assert, (proj2 (Nat.eqb_eq _ _) Hn), andb_false_r. reflexivity.
Qed.

Lemma get_dof_info_run {S} mf c (s : S) :
  n_dof_handlers mf = length (dof_info mf) -> c < length (dof_info mf) ->
  get_dof_info DEBUG mf (Z.of_nat c) s
  = (Done (nth c (dof_info mf) no_dof_info), s).
Proof.
  intros Hn Hc. unfold get_dof_info.
  rewrite (bind_done _ _ _ _ _ (n_components_run mf s Hn)).
  rewrite (bind_done _ _ _ _ _
             (AssertIndexRange_passes DEBUG c (n_dof_handlers mf) s
                ltac:(rewrite Hn; exact Hc))).
  unfold ret. now rewrite Nat2Z.id.
Qed.

Lemma find_vector_in_mf_from_run {S} mf v cs k (s : S) :
  n_dof_handlers mf = length (dof_info mf) ->
  Forall (fun c => c < length (dof_info mf)) cs ->
  find (compatible_with DEBUG mf v) cs = Some k ->
  find_vector_in_mf_from DEBUG invalid_unsigned_int mf v true cs s
  = (Done (Z.of_nat k), s).
Proof.
  intros Hn. induction cs as [|c cs IH]; intros Hall Hfind; [discriminate Hfind|].
  apply Forall_cons in Hall as [Hc Hall].
  cbn [find_vector_in_mf_from find] in *.
  rewrite (bind_done _ _ _ _ _ (get_dof_info_run mf c s Hn Hc)).
  rewrite andb_true_r.
  change (if DEBUG
          then is_globally_compatible mf (get_partitioner v)
                 (vector_partitioner (nth c (dof_info mf) no_dof_info))
          else is_compatible mf (get_partitioner v)
                 (vector_partitioner (nth c (dof_info mf) no_dof_info)))
    with (compatible_with DEBUG mf v c).
  destruct (compatible_with DEBUG mf v c).
  - injection Hfind as ->. reflexivity.
  - now apply IH.
Qed.

Lemma find_vector_in_mf_run mf v k (s : LoopState) :
  n_dof_handlers mf = length (dof_info mf) ->
  component_of DEBUG mf v = Some k ->
  k < length (dof_info mf)
  /\ find_vector_in_mf DEBUG invalid_unsigned_int mf v true s
     = (Done (Z.of_nat k), s).
Proof.
  intros Hn Hk. unfold component_of in Hk. split.
  - apply find_some in Hk as [Hin _]. apply in_seq in Hin. lia.
  - unfold find_vector_in_mf.
    rewrite (bind_done _ _ _ _ _ (n_components_run mf s Hn)).
    apply find_vector_in_mf_from_run; [exact Hn| |exact Hk].
    apply Forall_forall. intros c Hc. apply elem_of_seq in Hc. lia.
Qed.

Lemma exchanger_get_partitioner_run mf access k (s : LoopState) :
  n_dof_handlers mf = length (dof_info mf) -> k < length (dof_info mf) ->
  length (vector_partitioner_face_variants (nth k (dof_info mf) no_dof_info)) = 3 ->
  exchanger_get_partitioner DEBUG mf access (Z.of_nat k) s
  = (Done (partitioner_for access (nth k (dof_info mf) no_dof_info)), s).
Proof.
  intros Hn Hk Hlen. unfold exchanger_get_partitioner.
  rewrite (bind_done _ _ _ _ _ (get_dof_info_run mf k s Hn Hk)).
  unfold AssertDimension. rewrite bind_Assert, Hlen. cbn [Nat.eqb negb].
  rewrite andb_false_r. reflexivity.
Qed.

(** a state after calls from a state in which the exchanger of the source
    has not changed *)
Lemma emitted_refl s :
  calls s = calls s ++ []
  /\ vectors s = after_calls effect [] (vectors s)
  /\ src_data_exchanger s = src_data_exchanger s.
Proof. rewrite app_nil_r. auto. Qed.

Lemma for_each_emit {X} (l : list X) (f : X -> Call) s :
  exists s',
    for_each l (fun x => emit effect (f x)) s = (Done tt, s')
    /\ calls s' = calls s ++ map f l
    /\ vectors s' = after_calls effect (map f l) (vectors s)
    /\ src_data_exchanger s' = src_data_exchanger s.
Proof.
  revert s. induction l as [|x l IH]; intros s.
  - exists s. split; [reflexivity|]. apply emitted_refl.
  - cbn [for_each map].
    destruct (IH (state_of (emit effect (f x) s))) as (s' & Hr & Hc & Hv & He).
    exists s'. split; [exact Hr|]. rewrite Hc, Hv, He.
    split; [simpl; now rewrite <- app_assoc|]. split; reflexivity.
Qed.

Lemma for_each_emit_nested {X Y} (l : list X) (g : X -> list Y)
    (f : X -> Y -> Call) s :
  exists s',
    for_each l (fun x => for_each (g x) (fun y => emit effect (f x y))) s
    = (Done tt, s')
    /\ calls s' = calls s ++ flat_map (fun x => map (f x) (g x)) l
    /\ vectors s' = after_calls effect (flat_map (fun x => map (f x) (g x)) l)
                                (vectors s)
    /\ src_data_exchanger s' = src_data_exchanger s.
Proof.
  revert s. induction l as [|x l IH]; intros s.
  - exists s. split; [reflexivity|]. apply emitted_refl.
  - cbn [for_each flat_map].
    destruct (for_each_emit (g x) (f x) s) as (s1 & Hr1 & Hc1 & Hv1 & He1).
    rewrite (bind_done _ _ _ _ _ Hr1).
    destruct (IH s1) as (s' & Hr & Hc & Hv & He).
    exists s'. split; [exact Hr|]. rewrite Hc, Hv, He, Hc1, Hv1, He1.
    split; [now rewrite <- app_assoc|]. split; [|reflexivity].
    unfold after_calls. now rewrite fold_left_app.
Qed.

(** the reset of one vector of the source, when the flag is not raised *)
Lemma exchanger_reset_ghost_values_run mf v s :
  ghosts_were_set (src_data_exchanger s) = false ->
  set_up_for DEBUG WITH_MPI mf (vector_face_access (src_data_exchanger s))
    (vectors s) [ {| vec := v; distributed := true |} ] ->
  let resets := ghost_reset_of DEBUG WITH_MPI mf
                  (vector_face_access (src_data_exchanger s)) (vectors s v) v in
  exists s',
    exchanger_reset_ghost_values DEBUG WITH_MPI invalid_unsigned_int effect
      of_src mf v s = (Done tt, s')
    /\ calls s' = calls s ++ resets
    /\ vectors s' = after_calls effect resets (vectors s)
    /\ src_data_exchanger s' = src_data_exchanger s.
Proof.
  intros Hflag Hset resets. subst resets.
  unfold exchanger_reset_ghost_values, ghost_reset_of.
  rewrite bind_get. cbn [exchanger]. rewrite Hflag.
  set (access := vector_face_access (src_data_exchanger s)) in *.
  destruct (is_unspecified access) eqn:Ha; cbn [orb].
  { eexists. split; [reflexivity|]. auto. }
  destruct (size (vectors s v) =? 0) eqn:Hsize.
  { eexists. split; [reflexivity|]. auto. }
  destruct WITH_MPI eqn:Hm; [|exists s; split; [reflexivity|apply emitted_refl]].
  destruct (Hset Ha eq_refl) as (Hn & Hvar & Hfound).
  destruct (component_of DEBUG mf (vectors s v)) as [k|] eqn:Hk.
  2:{ exfalso. apply (Hfound {| vec := v; distributed := true |});
        [left|reflexivity|now apply Nat.eqb_neq|exact Hk]. }
  destruct (find_vector_in_mf_run mf (vectors s v) k s Hn Hk) as [Hlt Hfind].
  rewrite (bind_done _ _ _ _ _ Hfind).
  assert (Hlen : length (vector_partitioner_face_variants
                           (nth k (dof_info mf) no_dof_info)) = 3).
  { rewrite Forall_forall in Hvar. apply Hvar, list_elem_of_In, nth_In, Hlt. }
  rewrite (bind_done _ _ _ _ _
             (exchanger_get_partitioner_run mf access k s Hn Hlt Hlen)).
  rewrite (bind_done _ _ _ _ _ (get_dof_info_run mf k s Hn Hlt)).
  cbv zeta.
  destruct (partitioner_for access (nth k (dof_info mf) no_dof_info)
            =? vector_partitioner (nth k (dof_info mf) no_dof_info)).
  { eexists. split; [reflexivity|]. auto. }
  destruct (0 <? n_ghost_indices _);
    [|exists s; split; [reflexivity|apply emitted_refl]].
  apply for_each_emit_nested.
Qed.

(** the reset of the source at the end of the loop, when the flag is not
    raised: every distributed vector in turn *)
Lemma reset_ghost_values_all_run mf cs s :
  keeps_layout effect ->
  ghosts_were_set (src_data_exchanger s) = false ->
  set_up_for DEBUG WITH_MPI mf (vector_face_access (src_data_exchanger s))
    (vectors s) cs ->
  exists s',
    for_each cs (fun c =>
      if distributed c
      then exchanger_reset_ghost_values DEBUG WITH_MPI invalid_unsigned_int
             effect of_src mf (vec c)
      else ret tt) s = (Done tt, s')
    /\ calls s' = calls s
                  ++ ghost_resets_for DEBUG WITH_MPI mf
                       (vector_face_access (src_data_exchanger s)) (vectors s) cs.
Proof.
  intros Hl. revert s. induction cs as [|c cs IH]; intros s Hflag Hset.
  - exists s. split; [reflexivity|]. simpl. now rewrite app_nil_r.
  - assert (Htail : set_up_for DEBUG WITH_MPI mf
                      (vector_face_access (src_data_exchanger s)) (vectors s) cs).
    { intros Ha Hm. destruct (Hset Ha Hm) as (Hn & Hv & Hc).
      split; [exact Hn|]. split; [exact Hv|].
      intros c' Hin. apply Hc. now right. }
    cbn [for_each]. unfold ghost_resets_for. cbn [flat_map].
    fold (ghost_resets_for DEBUG WITH_MPI mf
            (vector_face_access (src_data_exchanger s)) (vectors s) cs).
    destruct (distributed c) eqn:Hd.
    + destruct (exchanger_reset_ghost_values_run mf (vec c) s Hflag)
        as (s1 & Hr1 & Hc1 & Hv1 & He1).
      { intros Ha Hm. destruct (Hset Ha Hm) as (Hn & Hv & Hc).
        split; [exact Hn|]. split; [exact Hv|].
        intros c' Hin _. apply list_elem_of_singleton in Hin. subst c'.
        apply (Hc c); [left|exact Hd]. }
      rewrite (bind_done _ _ _ _ _ Hr1).
      assert (Hlayout : forall u,
                size (vectors s u) = size (vectors s1 u)
                /\ get_partitioner (vectors s u) = get_partitioner (vectors s1 u)).
      { intros u. rewrite Hv1.
        destruct (after_calls_layout
                    (ghost_reset_of DEBUG WITH_MPI mf
                       (vector_face_access (src_data_exchanger s))
                       (vectors s (vec c)) (vec c)) (vectors s) u Hl) as [-> ->].
        split; reflexivity. }
      destruct (IH s1) as (s' & Hr & Hc).
      { now rewrite He1. }
      { rewrite He1. now apply (set_up_for_layout mf _ (vectors s)). }
      exists s'. split; [exact Hr|]. rewrite Hc, Hc1, He1, <- app_assoc.
      do 2 f_equal. symmetry. now apply ghost_resets_for_layout.
    + rewrite bind_ret. cbn [app]. now apply IH.
Qed.

(** The loop over distinct vectors whose source came without ghost
    elements: its last calls zero the ghost entries that the access to the
    faces has filled, for every distributed vector of the source. *)
Lemma run_worker_ghost_reset_by_access mid mf src dst zero cell face boundary
    sa da st st' :
  (object src =? object dst) = false ->
  start_keeps_ghost_state effect ->
  keeps_layout effect ->
  call_vector_update_ghosts_start ∉ mid ->
  call_vector_compress_finish ∉ mid ->
  set_up_for DEBUG WITH_MPI mf
    (if face_partition_data_empty mf then unspecified else sa)
    (vectors st) (components src) ->
  had_ghosts st src = false ->
  run_worker DEBUG WITH_MPI invalid_unsigned_int new_address effect
    (call_vector_update_ghosts_start :: mid ++ [call_vector_compress_finish])
    mf src dst zero cell face boundary sa da st = (Done tt, st') ->
  exists before,
    calls st' = calls st ++ before
                ++ ghost_resets_for DEBUG WITH_MPI mf
                     (if face_partition_data_empty mf then unspecified else sa)
                     (vectors st) (components src)
    /\ forallb (fun c => negb (is_ghost_reset c)) before = true.
Proof.
  intros Hne Hk Hl Hs Hf Hset Hhad Hrun.
  destruct (run_worker_to_reset _ _ _ _ _ _ _ _ _ _ _ _ Hne Hk Hs Hf Hrun)
    as (before & s8 & s7 & E8 & P8 & V8 & G & A & Hreset & E9).
  assert (Hlayout : forall u,
            size (vectors st u) = size (vectors s8 u)
            /\ get_partitioner (vectors st u) = get_partitioner (vectors s8 u)).
  { intros u. rewrite V8.
    destruct (after_calls_layout before (vectors st) u Hl) as [-> ->].
    split; reflexivity. }
  destruct (reset_ghost_values_all_run mf (components src) s8 Hl)
    as (s' & Hr & Hc).
  { congruence. }
  { rewrite A. now apply (set_up_for_layout mf _ (vectors st)). }
  unfold reset_ghost_values_all in Hreset. rewrite Hr in Hreset.
  injection Hreset as <-.
  exists before. split; [|exact P8].
  rewrite E9, Hc, E8, A, <- app_assoc. do 2 f_equal.
  symmetry. now apply ghost_resets_for_layout.
Qed.

(** C9.  The overloads of [cell_loop] and [loop] build their worker and run
    it through [run_worker].  If source and destination are the same object,
    the loop makes no call that zeroes a vector, even if [zero_dst_vector] is
    set, and none that starts, finishes or resets an update of ghost values.
    Whatever the objects, it zeroes nothing when zeroing is not requested.
    For distinct objects, when the update of the ghost values is started
    first and the compression finished last, the calls that zero ghost
    entries are the last ones of the loop: there are none if the source came
    with ghost elements and, under unspecified access to the faces, one
    [zero_out_ghosts] for every distributed vector of the source if it came
    without.  Under every access to the faces, where the calls on the
    vectors keep their sizes and partitioners and the [MatrixFree] object is
    set up for the source, a loop whose source came without ghost elements
    ends with the reset of every distributed vector of the source, in their
    order: [zero_out_ghosts] under unspecified access, on an empty vector
    and where the partitioner for the access is the one of the component,
    and else, with MPI, the assignment of zero to each ghost entry of the
    ranges of the partitioner for the access. *)
Theorem loop_same_vector_and_ghost_state
    schedule mf src dst zero_dst_vector cell face boundary
    src_vector_face_access dst_vector_face_access st :
  let run := run_worker DEBUG WITH_MPI invalid_unsigned_int new_address effect
               schedule mf src dst zero_dst_vector cell face boundary
               src_vector_face_access dst_vector_face_access in
  (object src = object dst ->
   exists new,
     calls (state_of (run st)) = calls st ++ new
     /\ forallb (fun c => negb (is_zeroing c) && negb (is_ghost_update c)
                          && negb (is_ghost_reset c)) new = true)
  /\ (zero_dst_vector = false ->
      exists new,
        calls (state_of (run st)) = calls st ++ new
        /\ forallb (fun c => negb (is_zeroing c)) new = true)
  /\ (object src <> object dst ->
      start_keeps_ghost_state effect ->
      well_bracketed schedule ->
      forall st', run st = (Done tt, st') ->
      exists before resets,
        calls st' = calls st ++ before ++ resets
        /\ forallb (fun c => negb (is_ghost_reset c)) before = true
        /\ forallb is_ghost_reset resets = true
        /\ (had_ghosts st src = true -> resets = [])
        /\ (had_ghosts st src = false ->
            is_unspecified (if face_partition_data_empty mf then unspecified
                            else src_vector_face_access) = true ->
            resets = ghost_resets src))
  /\ (object src <> object dst ->
      start_keeps_ghost_state effect ->
      keeps_layout effect ->
      well_bracketed schedule ->
      set_up_for DEBUG WITH_MPI mf
        (if face_partition_data_empty mf then unspecified
         else src_vector_face_access)
        (vectors st) (components src) ->
      had_ghosts st src = false ->
      forall st', run st = (Done tt, st') ->
      exists before,
        calls st' = calls st ++ before
                    ++ ghost_resets_for DEBUG WITH_MPI mf
                         (if face_partition_data_empty mf then unspecified
                          else src_vector_face_access)
                         (vectors st) (components src)
        /\ forallb (fun c => negb (is_ghost_reset c)) before = true).
Proof.
  intros run. split; [|split; [|split]].
  - intros Hsame.
    destruct (run_worker_trace
                (fun c => negb (is_zeroing c) && negb (is_ghost_update c)
                          && negb (is_ghost_reset c))
                schedule mf src dst zero_dst_vector cell face boundary
                src_vector_face_access dst_vector_face_access) with (s := st)
      as (new & Hcalls & Hnew & _).
    + intros [v []| | |]; simpl; congruence.
    + intros [v []| | |]; simpl; congruence.
    + rewrite Hsame, Nat.eqb_refl. discriminate.
    + rewrite Hsame, Nat.eqb_refl. discriminate.
    + rewrite Hsame, Nat.eqb_refl, andb_false_r. discriminate.
    + exists new. now split.
  - intros Hzero.
    destruct (run_worker_trace (fun c => negb (is_zeroing c))
                schedule mf src dst zero_dst_vector cell face boundary
                src_vector_face_access dst_vector_face_access) with (s := st)
      as (new & Hcalls & Hnew & _).
    + intros [v []| | |]; simpl; congruence.
    + intros [v []| | |]; simpl; congruence.
    + intros _ [v []| | |]; simpl; congruence.
    + intros _ [v []| | |]; simpl; congruence.
    + rewrite Hzero. discriminate.
    + exists new. now split.
  - intros Hne Hk (mid & -> & Hs & Hf) st' Hrun.
    apply (run_worker_ghost_reset mid mf src dst zero_dst_vector cell face boundary
             src_vector_face_access dst_vector_face_access st st');
      [now apply Nat.eqb_neq|assumption..].
  - intros Hne Hk Hl (mid & -> & Hs & Hf) Hset Hhad st' Hrun.
    apply (run_worker_ghost_reset_by_access mid mf src dst zero_dst_vector
             cell face boundary src_vector_face_access dst_vector_face_access
             st st');
      [now apply Nat.eqb_neq|assumption..].
Qed.

End Worker.

Lemma ghost_effect_start_keeps : start_keeps_ghost_state LoopExamples.ghost_effect.
Proof. intros [v []| | |] vs u; simpl; congruence. Qed.

Lemma one_range_well_bracketed : well_bracketed LoopExamples.one_range.
Proof.
  exists [ MatrixFree.call_zero_dst_vector_range LoopExamples.no_index;
           MatrixFree.call_vector_update_ghosts_finish;
           MatrixFree.call_cell (0, 2);
           MatrixFree.call_vector_compress_start ].
  split; [reflexivity|].
  split; intros Hin; repeat (apply elem_of_cons in Hin as [Hin|Hin];
                              [discriminate Hin|]);
    now apply elem_of_nil in Hin.
Qed.

Lemma ghost_effect_keeps_layout : keeps_layout LoopExamples.ghost_effect.
Proof.
  assert (Hset : forall b v vs u,
    MatrixFree.size (LoopExamples.set_ghosted b v vs u) = MatrixFree.size (vs u)
    /\ MatrixFree.get_partitioner (LoopExamples.set_ghosted b v vs u)
       = MatrixFree.get_partitioner (vs u)).
  { intros b v vs u. unfold LoopExamples.set_ghosted.
    destruct (u =? v); split; reflexivity. }
  intros c vs u. destruct c as [v []| | |]; simpl; auto.
Qed.

(** A [cell_loop] over distinct vectors that come without ghost elements:
    on a [MatrixFree] object without data on faces the source ends with
    [zero_out_ghosts]; on one with data on faces, where the access of a
    [cell_loop] is [none] and the partitioner for it has the one ghost entry
    at the position 4, the loop returns and ends with the assignment of zero
    to this entry. *)
Lemma loop_same_vector_and_ghost_state_witness :
  (exists before,
     MatrixFree.calls
       (state_of (MatrixFree.cell_loop true true LoopExamples.no_index bump_allocator
                    LoopExamples.ghost_effect LoopExamples.one_range
                    LoopExamples.cells_only true
                    LoopExamples.vector_2 LoopExamples.vector_1 true
                    LoopExamples.idle))
     = before ++ [MatrixFree.on_vector 1 MatrixFree.zero_out_ghosts]
     /\ forallb (fun c => negb (is_ghost_reset c)) before = true)
  /\ (exists before st',
        MatrixFree.cell_loop true true LoopExamples.no_index bump_allocator
          LoopExamples.ghost_effect LoopExamples.one_range
          ExchangeExamples.with_faces true
          LoopExamples.vector_2 LoopExamples.vector_1 true
          LoopExamples.idle
        = (Done tt, st')
        /\ MatrixFree.calls st'
           = before ++ [MatrixFree.on_vector 1
                          (MatrixFree.set_local_element_zero 4)]
        /\ forallb (fun c => negb (is_ghost_reset c)) before = true).
Proof.
  split.
  - destruct (loop_same_vector_and_ghost_state true true LoopExamples.no_index
                bump_allocator LoopExamples.ghost_effect LoopExamples.one_range
                LoopExamples.cells_only LoopExamples.vector_1 LoopExamples.vector_2
                true (MatrixFree.integrator true) (MatrixFree.integrator false)
                (MatrixFree.integrator false) MatrixFree.none MatrixFree.none
                LoopExamples.idle) as (_ & _ & Hdistinct & _).
    destruct (Hdistinct ltac:(discriminate) ghost_effect_start_keeps
                one_range_well_bracketed _ (surjective_pairing _))
      as (before & resets & Hcalls & Hbefore & _ & _ & Hresets).
    exists before. split; [|exact Hbefore].
    etransitivity; [exact Hcalls|].
    rewrite (Hresets eq_refl eq_refl). reflexivity.
  - destruct (loop_same_vector_and_ghost_state true true LoopExamples.no_index
                bump_allocator LoopExamples.ghost_effect LoopExamples.one_range
                ExchangeExamples.with_faces LoopExamples.vector_1
                LoopExamples.vector_2
                true (MatrixFree.integrator true) (MatrixFree.integrator false)
                (MatrixFree.integrator false) MatrixFree.none MatrixFree.none
                LoopExamples.idle) as (_ & _ & _ & Hreset).
    destruct (Hreset ltac:(discriminate) ghost_effect_start_keeps
                ghost_effect_keeps_layout one_range_well_bracketed)
      with (st' := state_of (MatrixFree.cell_loop true true LoopExamples.no_index
                     bump_allocator LoopExamples.ghost_effect LoopExamples.one_range
                     ExchangeExamples.with_faces true
                     LoopExamples.vector_2 LoopExamples.vector_1 true
                     LoopExamples.idle))
      as (before & Hcalls & Hbefore).
    + intros _ _. split; [reflexivity|]. split.
      * repeat constructor.
      * intros c _ _ _. discriminate.
    + reflexivity.
    + reflexivity.
    + exists before, (state_of (MatrixFree.cell_loop true true
                        LoopExamples.no_index
                        bump_allocator LoopExamples.ghost_effect
                        LoopExamples.one_range
                        ExchangeExamples.with_faces true
                        LoopExamples.vector_2 LoopExamples.vector_1 true
                        LoopExamples.idle)).
      split; [reflexivity|]. split; [|exact Hbefore].
      etransitivity; [exact Hcalls|]. reflexivity.
Defined.

(** the calls of the loop of the witness *)
Example cell_loop_distinct_vectors :
  MatrixFree.calls
    (state_of (MatrixFree.cell_loop true true LoopExamples.no_index bump_allocator
                 LoopExamples.ghost_effect LoopExamples.one_range
                 LoopExamples.cells_only true
                 LoopExamples.vector_2 LoopExamples.vector_1 true
                 LoopExamples.idle))
  = [ MatrixFree.on_vector 1 (MatrixFree.update_ghost_values_start 103);
      MatrixFree.on_vector 2 MatrixFree.assign_zero;
      MatrixFree.on_vector 1 MatrixFree.update_ghost_values_finish;
      MatrixFree.cell_operation 2 1 (0, 2);
      MatrixFree.on_vector 2 (MatrixFree.compress_start 103);
      MatrixFree.on_vector 2 MatrixFree.compress_finish;
      MatrixFree.on_vector 1 MatrixFree.zero_out_ghosts ].
Proof. vm_compute. reflexivity. Qed.

(** the same loop on a [MatrixFree] object with data on faces: the exchange
    goes through the partitioner for the access [none], and at the end the
    one ghost entry it has filled is set to zero *)
Example cell_loop_with_data_on_faces :
  MatrixFree.calls
    (state_of (MatrixFree.cell_loop true true LoopExamples.no_index bump_allocator
                 LoopExamples.ghost_effect LoopExamples.one_range
                 ExchangeExamples.with_faces true
                 LoopExamples.vector_2 LoopExamples.vector_1 true
                 LoopExamples.idle))
  = [ MatrixFree.on_vector 1 (MatrixFree.export_to_ghosted_array_start 1 103 1);
      MatrixFree.on_vector 2 MatrixFree.assign_zero;
      MatrixFree.on_vector 1 (MatrixFree.export_to_ghosted_array_finish 1);
      MatrixFree.cell_operation 2 1 (0, 2);
      MatrixFree.on_vector 2 (MatrixFree.import_from_ghosted_array_start 1 103 1);
      MatrixFree.on_vector 2 (MatrixFree.import_from_ghosted_array_finish 1 1);
      MatrixFree.on_vector 1 (MatrixFree.set_local_element_zero 4) ].
Proof. vm_compute. reflexivity. Qed.

(** the same loop on a source that comes with ghost elements: they are left *)
Example cell_loop_ghosted_source :
  MatrixFree.calls
    (state_of (MatrixFree.cell_loop true true LoopExamples.no_index bump_allocator
                 LoopExamples.ghost_effect LoopExamples.one_range
                 LoopExamples.cells_only true
                 LoopExamples.vector_2 LoopExamples.vector_1 true
                 LoopExamples.idle_ghosted))
  = [ MatrixFree.on_vector 1 (MatrixFree.update_ghost_values_start 103);
      MatrixFree.on_vector 2 MatrixFree.assign_zero;
      MatrixFree.on_vector 1 MatrixFree.update_ghost_values_finish;
      MatrixFree.cell_operation 2 1 (0, 2);
      MatrixFree.on_vector 2 (MatrixFree.compress_start 103);
      MatrixFree.on_vector 2 MatrixFree.compress_finish ].
Proof. vm_compute. reflexivity. Qed.

(** and with the same vector as source and destination *)
Example cell_loop_same_vector :
  MatrixFree.calls
    (state_of (MatrixFree.cell_loop true true LoopExamples.no_index bump_allocator
                 LoopExamples.ghost_effect LoopExamples.one_range
                 LoopExamples.cells_only true
                 LoopExamples.vector_1 LoopExamples.vector_1 true
                 LoopExamples.idle))
  = [ MatrixFree.cell_operation 1 1 (0, 2);
      MatrixFree.on_vector 1 (MatrixFree.compress_start 103);
      MatrixFree.on_vector 1 MatrixFree.compress_finish ].
Proof. vm_compute. reflexivity. Qed.

(** * Further properties of the code *)

(** ** Vectors of flags *)

Lemma marks_ret : marks (ret tt) (fun _ => False).
Proof. intros v. exists v. repeat split; tauto. Qed.

Lemma marks_ext m (P Q : nat -> Prop) :
  (forall k, P k <-> Q k) -> marks m P -> marks m Q.
Proof.
  intros HPQ Hm v. destruct (Hm v) as (v' & Hr & Hl & Hk).
  exists v'. split; [exact Hr|]. split; [exact Hl|].
  intros k. rewrite Hk, HPQ. reflexivity.
Qed.

Lemma marks_seq m1 m2 (P1 P2 : nat -> Prop) :
  marks m1 P1 -> marks m2 P2 -> marks (m1 ;; m2) (fun k => P1 k \/ P2 k).
Proof.
  intros H1 H2 v. destruct (H1 v) as (v1 & Hr1 & Hl1 & Hk1).
  destruct (H2 v1) as (v2 & Hr2 & Hl2 & Hk2).
  exists v2. unfold bind. rewrite Hr1. split; [exact Hr2|].
  split; [congruence|]. intros k. rewrite Hk2, Hk1, Hl1. tauto.
Qed.

Lemma marks_for_each {X} (l : list X) (body : X -> Comp (list bool) unit)
    (P : X -> nat -> Prop) :
  (forall x, x ∈ l -> marks (body x) (P x)) ->
  marks (for_each l body) (fun k => exists x, x ∈ l /\ P x k).
Proof.
  induction l as [|x l IH]; intros Hbody.
  - eapply marks_ext; [|apply marks_ret]. intros k. split; [tauto|].
    intros (x & Hx & _). now apply elem_of_nil in Hx.
  - simpl. eapply marks_ext; [|apply marks_seq;
      [apply Hbody; left|apply IH; intros y Hy; apply Hbody; now right]].
    intros k. simpl. split.
    + intros [Hx|(y & Hy & Hp)]; [exists x; split; [left|exact Hx]|].
      exists y. split; [now right|exact Hp].
    + intros (y & Hy & Hp). apply elem_of_cons in Hy as [->|Hy]; eauto.
Qed.

Lemma marks_set_true (z : Z) :
  marks (modify (DoFTools.set_true z)) (fun k => k = Z.to_nat z).
Proof.
  intros v. eexists. split; [reflexivity|].
  unfold DoFTools.set_true. split; [apply length_insert|].
  intros k. destruct (decide (k = Z.to_nat z)) as [->|Hne].
  - destruct (decide (Z.to_nat z < length v)) as [Hin|Hout].
    + rewrite list_lookup_insert_eq by exact Hin. tauto.
    + rewrite list_insert_ge by lia. split; [tauto|]. intros [Hv|[Hk _]]; [exact Hv|lia].
  - rewrite list_lookup_insert_ne by congruence. split; [tauto|].
    intros [Hv|[_ Hk]]; [exact Hv|contradiction].
Qed.

(** the loops of the extraction routines over the local DoFs of a list of
    objects *)
Lemma marks_selected {X} (objects : list X) (indices : X -> nat -> Z)
    (keep : X -> bool) (n : nat) (component : nat -> nat) (select : list bool) :
  marks
    (for_each objects (fun c =>
       if keep c then
         for_each (seq 0 n) (fun i =>
           if nth (component i) select false
           then modify (DoFTools.set_true (indices c i))
           else ret tt)
       else ret tt))
    (fun k => exists c, c ∈ objects /\ keep c = true /\
              exists i, i < n /\ nth (component i) select false = true
                        /\ Z.to_nat (indices c i) = k).
Proof.
  eapply marks_ext; [|apply marks_for_each with
    (P := fun c k => keep c = true /\
            exists i, i ∈ seq 0 n /\ nth (component i) select false = true
                      /\ Z.to_nat (indices c i) = k)].
  - intros k. setoid_rewrite elem_of_seq_0. reflexivity.
  - intros c _. destruct (keep c).
    + eapply marks_ext; [|apply marks_for_each with
        (P := fun i k => nth (component i) select false = true
                         /\ Z.to_nat (indices c i) = k)].
      * intros k. split; [intros (i & Hi & Hs & Hk); eauto|].
        intros (_ & i & Hi & Hs & Hk). eauto.
      * intros i _. destruct (nth (component i) select false).
        -- eapply marks_ext; [|apply marks_set_true]. intros k. simpl.
           split; [intros ->; auto|intros [_ Hk]; auto].
        -- eapply marks_ext; [|apply marks_ret]. intros k.
           split; [tauto|]. intros [Hf _]. discriminate Hf.
    + eapply marks_ext; [|apply marks_ret]. intros k.
      split; [tauto|]. intros [Hf _]. discriminate Hf.
Qed.

Lemma lookup_replicate_true (n k : nat) : replicate n false !! k <> Some true.
Proof. intros Hk. apply lookup_replicate in Hk as [Hk _]. discriminate Hk. Qed.

Lemma fill_n_all {A} (n : nat) (x : A) (v : list A) :
  length v = n -> DoFTools.fill_n n x v = replicate n x.
Proof.
  intros <-. unfold DoFTools.fill_n.
  rewrite Nat.min_id, drop_all. apply app_nil_r.
Qed.

(** ** The extraction of DoFs by component *)

Section Extract.
Context {W : Type} `{Weight W}.
Variable DEBUG : bool.

(** X1.  [extract_dofs], given a selection with one flag per component and
    an output vector with one flag per DoF, returns normally, keeps the
    length of the output and sets the flag of a DoF to [true] if and only
    if the DoF is a local DoF of a selected component on some active cell;
    what the output held before is discarded. *)
Theorem extract_dofs_selects (dof : @DoFTools.DoFHandler W)
    (local_select selected_dofs : list bool) :
  length local_select = DoFTools.n_components (DoFTools.get_fe dof) ->
  Z.of_nat (length selected_dofs) = DoFTools.n_dofs dof ->
  cell_indices_in_range dof ->
  exists selected,
    DoFTools.extract_dofs DEBUG dof local_select selected_dofs = (Done tt, selected)
    /\ length selected = length selected_dofs
    /\ forall k, selected !! k = Some true <-> dof_selected dof local_select k.
Proof.
  intros Hsel Hlen Hrange. unfold DoFTools.extract_dofs. cbv zeta.
  rewrite bind_get, bind_Assert, Hsel, Nat.eqb_refl. cbn [negb andb].
  rewrite andb_false_r, bind_Assert, (proj2 (Z.eqb_eq _ _) Hlen).
  cbn [negb]. rewrite andb_false_r, bind_modify.
  rewrite fill_n_all by lia.
  destruct (marks_selected (DoFTools.active_cells dof)
              (fun c i => at_ (DoFTools.dof_indices (DoFTools.cell dof c)) i)
              (fun _ => true)
              (DoFTools.dofs_per_cell (DoFTools.get_fe dof))
              (DoFTools.system_to_component_index_first (DoFTools.get_fe dof))
              local_select
              (replicate (Z.to_nat (DoFTools.n_dofs dof)) false))
    as (selected & Hrun & Hl & Hk).
  exists selected. split; [exact Hrun|].
  rewrite length_replicate in Hl, Hk. split; [lia|].
  intros k. rewrite Hk. split.
  - intros [Hold|(_ & c & Hc & _ & i & Hi & Hs & Hidx)].
    + now apply lookup_replicate_true in Hold.
    + exists c. split; [exact Hc|]. exists i. split; [exact Hi|].
      split; [exact Hs|]. specialize (Hrange c i Hc Hi). lia.
  - intros (c & Hc & i & Hi & Hs & Hidx). right.
    specialize (Hrange c i Hc Hi). split; [lia|].
    exists c. split; [exact Hc|]. split; [reflexivity|].
    exists i. split; [exact Hi|]. split; [exact Hs|]. lia.
Qed.

(** X2.  The checks of [extract_dofs].  In a checked build a selection
    whose length is not the number of components is refused with
    [ExcDimensionMismatch], then an output whose length is not the number
    of DoFs, and the output is left as it was.  In a release build nothing
    is checked; where the routine stays inside its vectors, that is with an
    output of at least as many flags as there are DoFs, cell indices of the
    handler and a flag in the selection for the component of every local
    DoF, it returns normally, keeps the length of the output, sets the
    flags of the DoFs as the checked build does and leaves the flags
    beyond them as they were. *)
Theorem extract_dofs_checks (dof : @DoFTools.DoFHandler W)
    (local_select selected_dofs : list bool) :
  (length local_select <> DoFTools.n_components (DoFTools.get_fe dof) ->
   DoFTools.extract_dofs true dof local_select selected_dofs
   = (Raised (ExcDimensionMismatch
                (Z.of_nat (length local_select))
                (Z.of_nat (DoFTools.n_components (DoFTools.get_fe dof)))),
      selected_dofs))
  /\ (length local_select = DoFTools.n_components (DoFTools.get_fe dof) ->
      Z.of_nat (length selected_dofs) <> DoFTools.n_dofs dof ->
      DoFTools.extract_dofs true dof local_select selected_dofs
      = (Raised (ExcDimensionMismatch (Z.of_nat (length selected_dofs))
                                      (DoFTools.n_dofs dof)),
         selected_dofs))
  /\ ((DoFTools.n_dofs dof <= Z.of_nat (length selected_dofs))%Z ->
      cell_indices_in_range dof ->
      (forall i, i < DoFTools.dofs_per_cell (DoFTools.get_fe dof) ->
         DoFTools.system_to_component_index_first (DoFTools.get_fe dof) i
         < length local_select) ->
      exists selected,
        DoFTools.extract_dofs false dof local_select selected_dofs
        = (Done tt, selected)
        /\ length selected = length selected_dofs
        /\ (forall k, k < Z.to_nat (DoFTools.n_dofs dof) ->
              selected !! k = Some true <-> dof_selected dof local_select k)
        /\ (forall k, Z.to_nat (DoFTools.n_dofs dof) <= k ->
              selected !! k = selected_dofs !! k)).
Proof.
  unfold DoFTools.extract_dofs. cbv zeta. split; [|split].
  - intros Hsel. rewrite bind_get, bind_Assert.
    now rewrite (proj2 (Nat.eqb_neq _ _) Hsel).
  - intros Hsel Hlen. rewrite bind_get, bind_Assert, Hsel, Nat.eqb_refl.
    cbn [negb andb]. rewrite bind_Assert.
    now rewrite (proj2 (Z.eqb_neq _ _) Hlen).
  - intros Hlong Hrange _. rewrite bind_get, !bind_Assert. cbn [andb].
    rewrite bind_modify.
    set (n := Z.to_nat (DoFTools.n_dofs dof)).
    assert (Hn : n <= length selected_dofs) by lia.
    destruct (marks_selected (DoFTools.active_cells dof)
                (fun c i => at_ (DoFTools.dof_indices (DoFTools.cell dof c)) i)
                (fun _ => true)
                (DoFTools.dofs_per_cell (DoFTools.get_fe dof))
                (DoFTools.system_to_component_index_first (DoFTools.get_fe dof))
                local_select
                (DoFTools.fill_n n false selected_dofs))
      as (selected & Hrun & Hl & Hk).
    assert (Hfill : length (DoFTools.fill_n n false selected_dofs)
                    = length selected_dofs).
    { unfold DoFTools.fill_n. rewrite length_app, length_replicate, length_drop. lia. }
    assert (Hlow : forall k, k < n ->
              DoFTools.fill_n n false selected_dofs !! k = Some false).
    { intros k Hlt. unfold DoFTools.fill_n.
      rewrite lookup_app_l by (rewrite length_replicate; lia).
      apply lookup_replicate_2. lia. }
    assert (Hhigh : forall k, n <= k ->
              DoFTools.fill_n n false selected_dofs !! k = selected_dofs !! k).
    { intros k Hge. unfold DoFTools.fill_n.
      rewrite lookup_app_r by (rewrite length_replicate; lia).
      rewrite length_replicate, Nat.min_l, lookup_drop by lia. f_equal. lia. }
    rewrite Hfill in Hl, Hk.
    exists selected. split; [exact Hrun|]. split; [exact Hl|]. split.
    + intros k Hlt. rewrite Hk, (Hlow k Hlt). split.
      * intros [Hold|(_ & c & Hc & _ & i & Hi & Hs & Hidx)]; [discriminate|].
        exists c. split; [exact Hc|]. exists i. split; [exact Hi|].
        split; [exact Hs|]. specialize (Hrange c i Hc Hi). lia.
      * intros (c & Hc & i & Hi & Hs & Hidx). right. split; [lia|].
        exists c. split; [exact Hc|]. split; [reflexivity|].
        exists i. split; [exact Hi|]. split; [exact Hs|]. lia.
    + intros k Hge.
      assert (Htrue : selected !! k = Some true <-> selected_dofs !! k = Some true).
      { rewrite Hk, (Hhigh k Hge). split; [|now left].
        intros [Hold|(_ & c & Hc & _ & i & Hi & _ & Hidx)]; [exact Hold|].
        specialize (Hrange c i Hc Hi). subst n. lia. }
      destruct (selected !! k) as [b|] eqn:Hb, (selected_dofs !! k) as [b'|] eqn:Hb'.
      * destruct b, b'; try reflexivity.
        -- symmetry. now apply Htrue.
        -- now apply Htrue.
      * apply lookup_lt_Some in Hb. apply lookup_ge_None in Hb'. lia.
      * apply lookup_ge_None in Hb. apply lookup_lt_Some in Hb'. lia.
      * reflexivity.
Qed.

(** X3.  [extract_level_dofs] does on a level of a multigrid handler what
    [extract_dofs] does on the active cells: the flag of a DoF of the level
    is [true] afterwards if and only if the DoF is a local DoF of a selected
    component on some cell of that level. *)
Theorem extract_level_dofs_selects (level : nat) (dof : @DoFTools.MGDoFHandler W)
    (local_select selected_dofs : list bool) :
  length local_select = DoFTools.n_components (DoFTools.mg_get_fe dof) ->
  Z.of_nat (length selected_dofs) = DoFTools.mg_n_dofs dof level ->
  level_indices_in_range level dof ->
  exists selected,
    DoFTools.extract_level_dofs DEBUG level dof local_select selected_dofs
    = (Done tt, selected)
    /\ length selected = length selected_dofs
    /\ forall k, selected !! k = Some true
                 <-> level_dof_selected level dof local_select k.
Proof.
  intros Hsel Hlen Hrange. unfold DoFTools.extract_level_dofs. cbv zeta.
  rewrite bind_get, bind_Assert, Hsel, Nat.eqb_refl. cbn [negb andb].
  rewrite andb_false_r, bind_Assert, (proj2 (Z.eqb_eq _ _) Hlen).
  cbn [negb]. rewrite andb_false_r, bind_modify.
  rewrite fill_n_all by lia.
  destruct (marks_selected (DoFTools.mg_cells dof level)
              (fun c i => at_ (DoFTools.mg_dof_indices dof c) i)
              (fun _ => true)
              (DoFTools.dofs_per_cell (DoFTools.mg_get_fe dof))
              (DoFTools.system_to_component_index_first (DoFTools.mg_get_fe dof))
              local_select
              (replicate (Z.to_nat (DoFTools.mg_n_dofs dof level)) false))
    as (selected & Hrun & Hl & Hk).
  exists selected. split; [exact Hrun|].
  rewrite length_replicate in Hl, Hk. split; [lia|].
  intros k. rewrite Hk. split.
  - intros [Hold|(_ & c & Hc & _ & i & Hi & Hs & Hidx)].
    + now apply lookup_replicate_true in Hold.
    + exists c. split; [exact Hc|]. exists i. split; [exact Hi|].
      split; [exact Hs|]. specialize (Hrange c i Hc Hi). lia.
  - intros (c & Hc & i & Hi & Hs & Hidx). right.
    specialize (Hrange c i Hc Hi). split; [lia|].
    exists c. split; [exact Hc|]. split; [reflexivity|].
    exists i. split; [exact Hi|]. split; [exact Hs|]. lia.
Qed.

(** X4.  [extract_boundary_dofs] in two and three dimensions, given a
    selection with one flag per component, returns normally whatever the
    output vector was: the output is replaced by a vector with one flag per
    DoF, in which the flag of a DoF is [true] if and only if the DoF lies on
    a face at the boundary of an active cell and belongs to a selected
    component. *)
Theorem extract_boundary_dofs_selects (geo : GeometryInfo)
    (face_component : nat -> nat) (dof : @DoFTools.DoFHandler W)
    (component_select selected_dofs : list bool) :
  length component_select = DoFTools.n_components (DoFTools.get_fe dof) ->
  boundary_indices_in_range geo dof ->
  exists selected,
    DoFTools.extract_boundary_dofs DEBUG geo face_component dof component_select
      selected_dofs = (Done tt, selected)
    /\ length selected = Z.to_nat (DoFTools.n_dofs dof)
    /\ forall k, selected !! k = Some true
                 <-> boundary_dof_selected geo face_component dof component_select k.
Proof.
  intros Hsel Hrange. unfold DoFTools.extract_boundary_dofs. cbv zeta.
  rewrite bind_Assert, Hsel, Nat.eqb_refl. cbn [negb].
  rewrite andb_false_r, bind_modify.
  assert (Hmarks : marks
    (for_each (DoFTools.active_cells dof) (fun c =>
       for_each (seq 0 (faces_per_cell geo)) (fun f =>
         if DoFTools.at_boundary (DoFTools.cell dof c) f then
           for_each (seq 0 (DoFTools.dofs_per_face (DoFTools.get_fe dof))) (fun i =>
             if nth (face_component i) component_select false
             then modify (DoFTools.set_true
                            (at_ (DoFTools.face_dof_indices
                                    (DoFTools.face_obj dof
                                       (DoFTools.face (DoFTools.cell dof c) f))) i))
             else ret tt)
         else ret tt)))
    (fun k => exists c, c ∈ DoFTools.active_cells dof /\
       exists f, f ∈ seq 0 (faces_per_cell geo) /\
         DoFTools.at_boundary (DoFTools.cell dof c) f = true /\
       exists i, i < DoFTools.dofs_per_face (DoFTools.get_fe dof) /\
         nth (face_component i) component_select false = true /\
         Z.to_nat (at_ (DoFTools.face_dof_indices
                          (DoFTools.face_obj dof
                             (DoFTools.face (DoFTools.cell dof c) f))) i) = k)).
  { apply marks_for_each. intros c _.
    apply (marks_selected (seq 0 (faces_per_cell geo))
             (fun f i => at_ (DoFTools.face_dof_indices
                                (DoFTools.face_obj dof
                                   (DoFTools.face (DoFTools.cell dof c) f))) i)
             (fun f => DoFTools.at_boundary (DoFTools.cell dof c) f)). }
  destruct (Hmarks (replicate (Z.to_nat (DoFTools.n_dofs dof)) false))
    as (selected & Hrun & Hl & Hk).
  exists selected. split; [exact Hrun|].
  rewrite length_replicate in Hl, Hk. split; [exact Hl|].
  intros k. rewrite Hk. split.
  - intros [Hold|(_ & c & Hc & f & Hf & Hb & i & Hi & Hs & Hidx)].
    + now apply lookup_replicate_true in Hold.
    + apply elem_of_seq_0 in Hf.
      exists c. split; [exact Hc|]. exists f. split; [exact Hf|].
      split; [exact Hb|]. exists i. split; [exact Hi|].
      split; [exact Hs|]. specialize (Hrange c f i Hc Hf Hb Hi). lia.
  - intros (c & Hc & f & Hf & Hb & i & Hi & Hs & Hidx). right.
    specialize (Hrange c f i Hc Hf Hb Hi). split; [lia|].
    exists c. split; [exact Hc|]. exists f.
    split; [now apply elem_of_seq_0|]. split; [exact Hb|].
    exists i. split; [exact Hi|]. split; [exact Hs|]. lia.
Qed.

Lemma marks_select_vertex (face_component : nat -> nat)
    (fe : @DoFTools.FiniteElement W) (lines : DoFTools.CoarseLines)
    (component_select : list bool) (c side : nat) :
  marks
    (if DoFTools.neighbor_is_end lines c side
     then DoFTools.select_vertex face_component fe lines component_select c side
     else ret tt)
    (fun k => DoFTools.neighbor_is_end lines c side = true /\
       exists i, i < DoFTools.dofs_per_face fe /\
         nth (face_component i) component_select false = true /\
         Z.to_nat (DoFTools.cell_vertex_dof_index lines c side i) = k).
Proof.
  destruct (DoFTools.neighbor_is_end lines c side).
  - unfold DoFTools.select_vertex.
    eapply marks_ext; [|apply marks_for_each with
      (P := fun i k => nth (face_component i) component_select false = true
                       /\ Z.to_nat (DoFTools.cell_vertex_dof_index lines c side i) = k)].
    + intros k. setoid_rewrite elem_of_seq_0. split.
      * intros (i & Hi & Hs & Hk). eauto.
      * intros (_ & i & Hi & Hs & Hk). eauto.
    + intros i _. destruct (nth (face_component i) component_select false).
      * eapply marks_ext; [|apply marks_set_true]. intros k. simpl.
        split; [intros ->; auto|intros [_ Hk]; auto].
      * eapply marks_ext; [|apply marks_ret]. intros k.
        split; [tauto|]. intros [Hf _]. discriminate Hf.
  - eapply marks_ext; [|apply marks_ret]. intros k.
    split; [tauto|]. intros [Hf _]. discriminate Hf.
Qed.

(** X5.  [extract_boundary_dofs] in one dimension walks the cells of the
    coarse grid only.  Given a selection with one flag per component, and
    an element with as many DoFs per face as per vertex, it replaces the
    output by a vector with one flag per DoF, in which the flag of a DoF is
    [true] if and only if the DoF sits, with a selected component, at an
    end of a coarse cell that has no neighbour on that side. *)
Theorem extract_boundary_dofs_1d_selects (face_component : nat -> nat)
    (dof : @DoFTools.DoFHandler W) (lines : DoFTools.CoarseLines)
    (component_select selected_dofs : list bool) :
  length component_select = DoFTools.n_components (DoFTools.get_fe dof) ->
  DoFTools.dofs_per_face (DoFTools.get_fe dof)
  = DoFTools.dofs_per_vertex (DoFTools.get_fe dof) ->
  end_indices_in_range dof lines ->
  exists selected,
    DoFTools.extract_boundary_dofs_1d DEBUG face_component dof lines
      component_select selected_dofs = (Done tt, selected)
    /\ length selected = Z.to_nat (DoFTools.n_dofs dof)
    /\ forall k, selected !! k = Some true
                 <-> end_dof_selected face_component dof lines component_select k.
Proof.
  intros Hsel Hface Hrange. unfold DoFTools.extract_boundary_dofs_1d. cbv zeta.
  rewrite bind_Assert, Hsel, Nat.eqb_refl. cbn [negb].
  rewrite andb_false_r, bind_modify, bind_Assert, Hface, Nat.eqb_refl.
  cbn [negb]. rewrite andb_false_r.
  assert (Hmarks : marks
    (for_each (DoFTools.coarse_cells lines) (fun c =>
       ((if DoFTools.neighbor_is_end lines c 0
         then DoFTools.select_vertex face_component (DoFTools.get_fe dof) lines
                component_select c 0
         else ret tt) ;;
        (if DoFTools.neighbor_is_end lines c 1
         then DoFTools.select_vertex face_component (DoFTools.get_fe dof) lines
                component_select c 1
         else ret tt))))
    (fun k => exists c, c ∈ DoFTools.coarse_cells lines /\
       exists side, side < 2 /\ DoFTools.neighbor_is_end lines c side = true /\
       exists i, i < DoFTools.dofs_per_vertex (DoFTools.get_fe dof) /\
         nth (face_component i) component_select false = true /\
         Z.to_nat (DoFTools.cell_vertex_dof_index lines c side i) = k)).
  { eapply marks_ext; [|apply marks_for_each; intros c _;
      apply marks_seq; apply marks_select_vertex].
    intros k. simpl. rewrite Hface. split.
    - intros (c & Hc & [(Hend & Hi)|(Hend & Hi)]).
      + exists c. split; [exact Hc|]. exists 0. auto.
      + exists c. split; [exact Hc|]. exists 1. auto.
    - intros (c & Hc & side & Hside & Hend & Hi). exists c. split; [exact Hc|].
      destruct side as [|[|side]]; [left|right|lia]; auto. }
  destruct (Hmarks (replicate (Z.to_nat (DoFTools.n_dofs dof)) false))
    as (selected & Hrun & Hl & Hk).
  exists selected. split; [exact Hrun|].
  rewrite length_replicate in Hl, Hk. split; [exact Hl|].
  unfold end_indices_in_range in Hrange. rewrite Hface in Hrange.
  intros k. rewrite Hk. unfold end_dof_selected. rewrite Hface. split.
  - intros [Hold|(_ & c & Hc & side & Hside & Hend & i & Hi & Hs & Hidx)].
    + now apply lookup_replicate_true in Hold.
    + exists c. split; [exact Hc|]. exists side. split; [exact Hside|].
      split; [exact Hend|]. exists i. split; [exact Hi|].
      split; [exact Hs|]. specialize (Hrange c side i Hc Hside Hi). lia.
  - intros (c & Hc & side & Hside & Hend & i & Hi & Hs & Hidx). right.
    specialize (Hrange c side i Hc Hside Hi). split; [lia|].
    exists c. split; [exact Hc|]. exists side. split; [exact Hside|].
    split; [exact Hend|]. exists i. split; [exact Hi|]. split; [exact Hs|]. lia.
Qed.

(** X6.  The checks of the two variants of [extract_boundary_dofs] differ in
    what they leave behind.  In a checked build a selection whose length is
    not the number of components is refused with [ExcWrongSize] before the
    output is touched, in both variants; the one-dimensional variant tests
    the element only after it has reset the output, so an element with a
    number of DoFs per face other than per vertex is refused with
    [ExcInternalError] and the output is left with one [false] per DoF. *)
Theorem extract_boundary_dofs_checks (geo : GeometryInfo)
    (face_component : nat -> nat) (dof : @DoFTools.DoFHandler W)
    (lines : DoFTools.CoarseLines) (component_select selected_dofs : list bool) :
  (length component_select <> DoFTools.n_components (DoFTools.get_fe dof) ->
   DoFTools.extract_boundary_dofs true geo face_component dof component_select
     selected_dofs
   = (Raised (ExcWrongSize (Z.of_nat (length component_select))
                (Z.of_nat (DoFTools.n_components (DoFTools.get_fe dof)))),
      selected_dofs)
   /\ DoFTools.extract_boundary_dofs_1d true face_component dof lines
        component_select selected_dofs
      = (Raised (ExcWrongSize (Z.of_nat (length component_select))
                   (Z.of_nat (DoFTools.n_components (DoFTools.get_fe dof)))),
         selected_dofs))
  /\ (length component_select = DoFTools.n_components (DoFTools.get_fe dof) ->
      DoFTools.dofs_per_face (DoFTools.get_fe dof)
      <> DoFTools.dofs_per_vertex (DoFTools.get_fe dof) ->
      DoFTools.extract_boundary_dofs_1d true face_component dof lines
        component_select selected_dofs
      = (Raised ExcInternalError,
         replicate (Z.to_nat (DoFTools.n_dofs dof)) false)).
Proof.
  unfold DoFTools.extract_boundary_dofs, DoFTools.extract_boundary_dofs_1d.
  cbv zeta. split.
  - intros Hsel. rewrite !bind_Assert.
    now rewrite (proj2 (Nat.eqb_neq _ _) Hsel).
  - intros Hsel Hface. rewrite bind_Assert, Hsel, Nat.eqb_refl. cbn [negb andb].
    rewrite bind_modify, bind_Assert.
    now rewrite (proj2 (Nat.eqb_neq _ _) Hface).
Qed.

End Extract.

(** On the square with two components per vertex the second component has
    the odd DoFs. *)
Lemma extract_dofs_selects_witness :
  exists selected,
    DoFTools.extract_dofs true MoreExamples.square [false; true]
      (replicate 8 true) = (Done tt, selected)
    /\ length selected = 8
    /\ forall k, selected !! k = Some true
                 <-> dof_selected MoreExamples.square [false; true] k.
Proof.
  apply (extract_dofs_selects true MoreExamples.square [false; true]
           (replicate 8 true)); [reflexivity|reflexivity|].
  intros c i Hc Hi. apply list_elem_of_singleton in Hc. subst c.
  do 8 (destruct i as [|i]; [unfold at_; simpl; lia|]). simpl in Hi. lia.
Defined.

(** a selection with one flag for an element with two components; and, in
    a release build, an output with two flags more than there are DoFs *)
Lemma extract_dofs_checks_witness :
  DoFTools.extract_dofs true MoreExamples.square [true] (replicate 8 true)
  = (Raised (ExcDimensionMismatch 1 2), replicate 8 true)
  /\ exists selected,
       DoFTools.extract_dofs false MoreExamples.square [false; true]
         (replicate 10 true) = (Done tt, selected)
       /\ length selected = 10
       /\ selected !! 9 = Some true.
Proof.
  destruct (extract_dofs_checks MoreExamples.square [true] (replicate 8 true))
    as (Hshort & _ & _).
  destruct (extract_dofs_checks MoreExamples.square [false; true]
              (replicate 10 true)) as (_ & _ & Hrelease).
  split; [apply Hshort; simpl; lia|].
  destruct Hrelease as (selected & Hrun & Hlen & _ & Htail).
  - simpl. lia.
  - intros c i Hc Hi. apply list_elem_of_singleton in Hc. subst c.
    do 8 (destruct i as [|i]; [unfold at_; simpl; lia|]). simpl in Hi. lia.
  - intros i _. simpl. apply (Nat.mod_upper_bound i 2). discriminate.
  - exists selected. split; [exact Hrun|]. split; [exact Hlen|].
    rewrite (Htail 9) by (simpl; lia). reflexivity.
Defined.

Example extract_dofs_in_release_build :
  DoFTools.extract_dofs false MoreExamples.square [false; true] (replicate 10 true)
  = (Done tt, [false; true; false; true; false; true; false; true; true; true]).
Proof. reflexivity. Qed.

(** the element of the square has four DoFs on a face and two on a vertex *)
Lemma extract_boundary_dofs_checks_witness :
  DoFTools.extract_boundary_dofs_1d true (fun i => i mod 2) MoreExamples.square
    MoreExamples.two_intervals [true; false] [true; true]
  = (Raised ExcInternalError, replicate 8 false).
Proof.
  apply (proj2 (extract_boundary_dofs_checks Examples.quad (fun i => i mod 2)
                  MoreExamples.square MoreExamples.two_intervals
                  [true; false] [true; true])).
  - reflexivity.
  - simpl. lia.
Defined.

Example extract_dofs_second_component :
  DoFTools.extract_dofs true MoreExamples.square [false; true] (replicate 8 true)
  = (Done tt, [false; true; false; true; false; true; false; true]).
Proof. reflexivity. Qed.

Lemma extract_level_dofs_selects_witness :
  exists selected,
    DoFTools.extract_level_dofs true 1 MoreExamples.two_levels [true; false]
      (replicate 12 false) = (Done tt, selected)
    /\ length selected = 12
    /\ forall k, selected !! k = Some true
                 <-> level_dof_selected 1 MoreExamples.two_levels [true; false] k.
Proof.
  apply (extract_level_dofs_selects true 1 MoreExamples.two_levels [true; false]
           (replicate 12 false)); [reflexivity|reflexivity|].
  intros c i Hc Hi. simpl in Hc.
  apply elem_of_cons in Hc as [->|Hc];
    [|apply list_elem_of_singleton in Hc; subst c];
    do 8 (destruct i as [|i]; [unfold at_; simpl; lia|]); simpl in Hi; lia.
Defined.

Lemma extract_boundary_dofs_selects_witness :
  exists selected,
    DoFTools.extract_boundary_dofs true Examples.quad (fun i => i mod 2)
      MoreExamples.square [true; false] [] = (Done tt, selected)
    /\ length selected = 8
    /\ forall k, selected !! k = Some true
                 <-> boundary_dof_selected Examples.quad (fun i => i mod 2)
                       MoreExamples.square [true; false] k.
Proof.
  apply (extract_boundary_dofs_selects true Examples.quad (fun i => i mod 2)
           MoreExamples.square [true; false] []); [reflexivity|].
  intros c f i Hc Hf _ Hi. simpl in Hf, Hi.
  do 4 (destruct f as [|f];
        [do 4 (destruct i as [|i]; [unfold at_; simpl; lia|]); lia|]).
  lia.
Defined.

Lemma extract_boundary_dofs_1d_selects_witness :
  exists selected,
    DoFTools.extract_boundary_dofs_1d true (fun _ => 0) Examples.nested_coarse
      MoreExamples.two_intervals [true] [] = (Done tt, selected)
    /\ length selected = 3
    /\ forall k, selected !! k = Some true
                 <-> end_dof_selected (fun _ => 0) Examples.nested_coarse
                       MoreExamples.two_intervals [true] k.
Proof.
  apply (extract_boundary_dofs_1d_selects true (fun _ => 0) Examples.nested_coarse
           MoreExamples.two_intervals [true] []); [reflexivity|reflexivity|].
  intros c side i Hc Hside _. simpl in Hc.
  apply elem_of_cons in Hc as [->|Hc];
    [|apply list_elem_of_singleton in Hc; subst c];
    destruct side as [|[|side]]; unfold at_; simpl; lia.
Defined.

Example extract_boundary_dofs_1d_ends :
  DoFTools.extract_boundary_dofs_1d true (fun _ => 0) Examples.nested_coarse
    MoreExamples.two_intervals [true] []
  = (Done tt, [true; false; true]).
Proof. reflexivity. Qed.

(** ** More on the sparsity patterns *)

Section MoreSparsity.
Context {W : Type} `{Weight W}.
Variable DEBUG : bool.

(** X7.  [make_sparsity_pattern] only adds entries, and a second run adds
    nothing to what the first has left: the pattern after two runs is the
    pattern after one. *)
Theorem make_sparsity_pattern_idempotent (dof : @DoFTools.DoFHandler W) sp :
  let once := state_of (DoFTools.make_sparsity_pattern DEBUG dof sp) in
  (forall p, p ∈ entries sp -> p ∈ entries once)
  /\ state_of (DoFTools.make_sparsity_pattern DEBUG dof once) = once.
Proof.
  intros once. subst once.
  destruct (make_sparsity_pattern_run DEBUG dof sp)
    as [(e & Hr)|(sp' & Hr & He)]; rewrite Hr; simpl.
  - split; [auto|]. now rewrite Hr.
  - split; [intros p Hp; apply He; now left|].
    destruct (make_sparsity_pattern_run DEBUG dof sp')
      as [(e & Hr')|(sp'' & Hr' & He')]; rewrite Hr'; simpl; [reflexivity|].
    assert (Hshape : n_rows sp'' = n_rows sp' /\ n_cols sp'' = n_cols sp').
    { revert Hr'. unfold DoFTools.make_sparsity_pattern.
      rewrite bind_get, bind_Assert. destruct (DEBUG && negb _); [discriminate|].
      rewrite bind_Assert. destruct (DEBUG && negb _); [discriminate|].
      destruct (cell_loops_insert dof sp') as (s1 & Hs1 & Hrest & _).
      cbv zeta in Hs1. rewrite Hs1. intros [= <-].
      now injection Hrest as -> ->. }
    destruct Hshape as [Hrows Hcols].
    destruct sp'' as [r c ents], sp' as [r' c' ents']. simpl in *. subst r c.
    f_equal. apply set_eq. intros p. rewrite He', He. tauto.
Qed.

Lemma for_each_ext {S X} (l : list X) (f g : X -> Comp S unit) (s : S) :
  (forall x s0, x ∈ l -> f x s0 = g x s0) -> for_each l f s = for_each l g s.
Proof.
  revert s. induction l as [|x l IH]; intros s Hfg; [reflexivity|]. simpl.
  unfold bind. rewrite (Hfg x s) by left.
  destruct (g x s) as [[[]|e] s1]; [|reflexivity].
  apply IH. intros y s0 Hy. apply Hfg. now right.
Qed.

Lemma for_each_Assert_passes {S X} (l : list X) (c : X -> bool) (e : X -> Exc) (s : S) :
  (forall x, x ∈ l -> c x = true) ->
  for_each l (fun x => Assert DEBUG (c x) (e x)) s = (Done tt, s).
Proof.
  induction l as [|x l IH]; intros Hc; [reflexivity|]. simpl.
  rewrite bind_Assert, (Hc x) by left. cbn [negb]. rewrite andb_false_r.
  apply IH. intros y Hy. apply Hc. now right.
Qed.

Lemma mask_at_full (n a b : nat) :
  a < n -> b < n -> DoFTools.mask_at (full_mask n) a b = true.
Proof.
  intros Ha Hb. unfold DoFTools.mask_at, full_mask.
  rewrite (nth_lookup _ a), lookup_replicate_2 by exact Ha. simpl.
  now rewrite (nth_lookup _ b), lookup_replicate_2 by exact Hb.
Qed.

(** X8.  With the mask that couples every component with every other, the
    masked variant of [make_sparsity_pattern] does what the plain one does:
    the same outcome and the same pattern, on every mesh, for an element
    whose local DoFs all belong to one of its components. *)
Theorem full_mask_is_plain (dof : @DoFTools.DoFHandler W) sp :
  (forall i, i < DoFTools.dofs_per_cell (DoFTools.get_fe dof) ->
     DoFTools.system_to_component_index_first (DoFTools.get_fe dof) i
     < DoFTools.n_components (DoFTools.get_fe dof)) ->
  DoFTools.make_sparsity_pattern_masked DEBUG dof
    (full_mask (DoFTools.n_components (DoFTools.get_fe dof))) sp
  = DoFTools.make_sparsity_pattern DEBUG dof sp.
Proof.
  intros Hcomp.
  unfold DoFTools.make_sparsity_pattern_masked, DoFTools.make_sparsity_pattern.
  cbv zeta. rewrite !bind_get, !bind_Assert. cbv beta.
  destruct (DEBUG && negb (n_rows sp =? DoFTools.n_dofs dof)%Z); [reflexivity|].
  destruct (DEBUG && negb (n_cols sp =? DoFTools.n_dofs dof)%Z); [reflexivity|].
  unfold full_mask at 1. rewrite length_replicate, Nat.eqb_refl. cbn [negb].
  rewrite andb_false_r.
  rewrite (bind_done _ _ sp sp tt).
  - apply for_each_ext. intros c s0 _.
    apply for_each_ext. intros i s1 Hi.
    apply for_each_ext. intros j s2 Hj.
    apply elem_of_seq_0 in Hi, Hj.
    now rewrite mask_at_full by (apply Hcomp; assumption).
  - apply for_each_Assert_passes. intros i Hi. apply elem_of_seq_0 in Hi.
    unfold full_mask in Hi |- *. rewrite length_replicate in Hi.
    rewrite (nth_lookup _ i), lookup_replicate_2 by exact Hi. simpl.
    rewrite length_replicate. apply Nat.eqb_refl.
Qed.

End MoreSparsity.

Lemma full_mask_is_plain_witness :
  DoFTools.make_sparsity_pattern_masked true MoreExamples.square (full_mask 2)
    (Examples.empty_pattern 8)
  = DoFTools.make_sparsity_pattern true MoreExamples.square
      (Examples.empty_pattern 8).
Proof.
  apply (full_mask_is_plain true MoreExamples.square (Examples.empty_pattern 8)).
  intros i Hi. apply (Nat.mod_upper_bound i 2). discriminate.
Defined.

(** ** What is kept, and what is added *)

Section Keeps.
Context {S : Type} (I : S -> Prop).

Lemma keeps_ret {A} (a : A) : keeps I (ret a).
Proof. intros s Hs. exact Hs. Qed.

Lemma keeps_get : keeps I get.
Proof. intros s Hs. exact Hs. Qed.

Lemma keeps_Assert (D c : bool) (e : Exc) : keeps I (Assert D c e).
Proof. intros s Hs. now rewrite Assert_state. Qed.

Lemma keeps_modify (f : S -> S) : (forall s, I s -> I (f s)) -> keeps I (modify f).
Proof. intros Hf s Hs. now apply Hf. Qed.

Lemma keeps_bind {A B} (m : Comp S A) (k : A -> Comp S B) :
  keeps I m -> (forall a, keeps I (k a)) -> keeps I (bind m k).
Proof.
  intros Hm Hk s Hs. unfold bind. specialize (Hm s Hs).
  destruct (m s) as [[a|e] s1]; simpl in *; [now apply Hk|exact Hm].
Qed.

Lemma keeps_for_each {X} (l : list X) (body : X -> Comp S unit) :
  (forall x, x ∈ l -> keeps I (body x)) -> keeps I (for_each l body).
Proof.
  induction l as [|x l IH]; intros Hb; simpl; [apply keeps_ret|].
  apply keeps_bind; [apply Hb; left|intros _].
  apply IH. intros y Hy. apply Hb. now right.
Qed.

End Keeps.

Lemma keeps_symmetric_inserts {S : Type} {R : Type} (ent : S -> gset (Z * Z)) (rest : S -> R)
    (m : Comp S unit) (P : Z * Z -> Prop) :
  inserts_in ent rest m P -> (forall i j, P (i, j) -> P (j, i)) ->
  keeps (fun s => symmetric (ent s)) m.
Proof.
  intros Hm HP s Hs. destruct (Hm s) as (s' & Hr & _ & He). rewrite Hr. simpl.
  intros i j Hij. apply He. apply He in Hij as [Hij|Hij]; [left; now apply Hs|].
  right. now apply HP.
Qed.

Section Grows.
Context {S : Type} (ent : S -> gset (Z * Z)).

Lemma grows_ret : grows ent (ret tt) (fun _ => False).
Proof. intros s. exists s. split; [reflexivity|]. split; [auto|tauto]. Qed.

Lemma grows_weaken m (P Q : Z * Z -> Prop) :
  grows ent m P -> (forall p, Q p -> P p) -> grows ent m Q.
Proof.
  intros Hm HQ s. destruct (Hm s) as (s' & Hr & Hold & Hnew).
  exists s'. split; [exact Hr|]. split; [exact Hold|]. intros p Hp. auto.
Qed.

Lemma grows_seq m1 m2 (P1 P2 : Z * Z -> Prop) :
  grows ent m1 P1 -> grows ent m2 P2 ->
  grows ent (m1 ;; m2) (fun p => P1 p \/ P2 p).
Proof.
  intros H1 H2 s. destruct (H1 s) as (s1 & Hr1 & Ho1 & Hn1).
  destruct (H2 s1) as (s2 & Hr2 & Ho2 & Hn2).
  exists s2. unfold bind. rewrite Hr1. split; [exact Hr2|].
  split; [auto|]. intros p [Hp|Hp]; auto.
Qed.

Lemma grows_for_each {X} (l : list X) (body : X -> Comp S unit)
    (P : X -> Z * Z -> Prop) :
  (forall x, x ∈ l -> grows ent (body x) (P x)) ->
  grows ent (for_each l body) (fun p => exists x, x ∈ l /\ P x p).
Proof.
  induction l as [|x l IH]; intros Hb.
  - eapply grows_weaken; [apply grows_ret|].
    intros p (x & Hx & _). now apply elem_of_nil in Hx.
  - simpl. eapply grows_weaken;
      [apply grows_seq; [apply Hb; left|apply IH; intros y Hy; apply Hb; now right]|].
    intros p (y & Hy & Hp). apply elem_of_cons in Hy as [->|Hy]; simpl; eauto.
Qed.

Lemma grows_inserts {R : Type} (rest : S -> R) m (P : Z * Z -> Prop) :
  inserts_in ent rest m P -> grows ent m P.
Proof.
  intros Hm s. destruct (Hm s) as (s' & Hr & _ & He). exists s'.
  split; [exact Hr|]. split; intros p Hp; apply He; auto.
Qed.

Lemma grows_get (k : S -> Comp S unit) (P : Z * Z -> Prop) :
  (forall s0, grows ent (k s0) P) -> grows ent (bind get k) P.
Proof. intros Hk s. rewrite bind_get. apply Hk. Qed.

Lemma grows_modify (f : S -> S) :
  (forall s, ent (f s) = ent s) -> grows ent (modify f) (fun _ => False).
Proof.
  intros Hf s. exists (f s). split; [reflexivity|].
  rewrite Hf. split; [auto|tauto].
Qed.

End Grows.

Section MoreFlux.
Context {W : Type} `{Weight W}.
Variable DEBUG : bool.
Variable geo : GeometryInfo.
Variable dof : @DoFTools.DoFHandler W.

Local Abbreviation total_dofs := (DoFTools.dofs_per_cell (DoFTools.get_fe dof)).

Lemma flux_face_grows c f :
  grows flux_entries (DoFTools.flux_face geo dof total_dofs c f) (fun _ => False).
Proof.
  unfold DoFTools.flux_face. cbv zeta. apply grows_get. intros s0.
  destruct (DoFTools.user_flag_set _ s0); [apply grows_ret|].
  destruct (negb _); [|apply grows_ret].
  destruct (_ <? _); [apply grows_ret|].
  destruct (DoFTools.has_children _).
  - eapply grows_weaken; [apply grows_for_each; intros sub _;
      apply grows_seq; [eapply grows_inserts, (couple_cells_inserts dof)
                       |apply grows_modify; reflexivity]|].
    intros p [].
  - eapply grows_weaken;
      [apply grows_seq; [eapply grows_inserts, (couple_cells_inserts dof)
                        |apply grows_modify; reflexivity]|].
    intros p [].
Qed.

Lemma cell_block_inserts c :
  inserts_in flux_entries flux_rest
    (for_each (seq 0 total_dofs) (fun i =>
       for_each (seq 0 total_dofs) (fun j =>
         modify (DoFTools.sparsity_add
                   (at_ (DoFTools.dof_indices (DoFTools.cell dof c)) i)
                   (at_ (DoFTools.dof_indices (DoFTools.cell dof c)) j)))))
    (fun p => exists i, i ∈ seq 0 total_dofs /\ exists j, j ∈ seq 0 total_dofs /\
       p = (at_ (DoFTools.dof_indices (DoFTools.cell dof c)) i,
            at_ (DoFTools.dof_indices (DoFTools.cell dof c)) j)).
Proof.
  apply inserts_for_each; intros i _.
  apply inserts_for_each; intros j _. apply sparsity_add_inserts.
Qed.

Lemma flux_cell_grows c :
  grows flux_entries (DoFTools.flux_cell geo dof total_dofs c)
    (fun p => exists i, i < total_dofs /\ exists j, j < total_dofs /\
       p = (at_ (DoFTools.dof_indices (DoFTools.cell dof c)) i,
            at_ (DoFTools.dof_indices (DoFTools.cell dof c)) j)).
Proof.
  unfold DoFTools.flux_cell. cbv zeta.
  eapply grows_weaken;
    [apply grows_seq; [eapply grows_inserts, cell_block_inserts
                      |apply grows_for_each; intros f _; apply flux_face_grows]|].
  intros p (i & Hi & j & Hj & ->). left.
  exists i. split; [now apply elem_of_seq_0|].
  exists j. split; [now apply elem_of_seq_0|reflexivity].
Qed.

(** X9.  The flux pattern contains the plain one: every entry of the
    pattern that [make_sparsity_pattern] leaves is an entry of the pattern
    that [make_flux_sparsity_pattern] leaves when started on the same
    pattern, on every mesh and whatever the user flags were. *)
Theorem flux_pattern_contains_plain (st : DoFTools.FluxState) :
  forall p,
    p ∈ entries (state_of (DoFTools.make_sparsity_pattern DEBUG dof
                             (DoFTools.sparsity st))) ->
    p ∈ entries (DoFTools.sparsity
                   (state_of (DoFTools.make_flux_sparsity_pattern DEBUG geo dof st))).
Proof.
  intros p.
  unfold DoFTools.make_sparsity_pattern, DoFTools.make_flux_sparsity_pattern.
  cbv zeta. rewrite !bind_get, !bind_Assert. cbv beta.
  destruct (DEBUG && negb (n_rows (DoFTools.sparsity st) =? DoFTools.n_dofs dof)%Z);
    [auto|].
  destruct (DEBUG && negb (n_cols (DoFTools.sparsity st) =? DoFTools.n_dofs dof)%Z);
    [auto|].
  rewrite bind_modify.
  destruct (cell_loops_insert dof (DoFTools.sparsity st)) as (sp' & Hr & _ & He).
  cbv zeta in Hr. rewrite Hr. simpl.
  destruct (grows_for_each flux_entries (DoFTools.active_cells dof)
              (DoFTools.flux_cell geo dof total_dofs) _
              (fun c _ => flux_cell_grows c)
              (DoFTools.clear_user_flags st)) as (st' & Hr' & Hold & Hnew).
  rewrite Hr'. simpl. intros Hp. apply He in Hp as [Hp|Hp].
  - now apply Hold.
  - apply Hnew. destruct Hp as (c & Hc & i & Hi & j & Hj & ->). eauto 8.
Qed.

Lemma flux_face_keeps_symmetric c f :
  keeps (fun st => symmetric (flux_entries st))
        (DoFTools.flux_face geo dof total_dofs c f).
Proof.
  assert (Hcouple : forall a b,
    keeps (fun st => symmetric (flux_entries st))
          (DoFTools.couple_cells total_dofs a b)).
  { intros a b. eapply keeps_symmetric_inserts; [apply (couple_cells_inserts dof)|].
    intros i j (x & Hx & y & Hy & [Hp|Hp]); injection Hp as -> ->; eauto 8. }
  assert (Hflag : forall a b fc,
    keeps (fun st => symmetric (flux_entries st))
          (modify (DoFTools.set_user_flag a b fc))).
  { intros a b fc. apply keeps_modify. auto. }
  unfold DoFTools.flux_face. cbv zeta.
  apply keeps_bind; [apply keeps_get|intros s0].
  destruct (DoFTools.user_flag_set _ s0); [apply keeps_ret|].
  destruct (negb _); [|apply keeps_ret].
  destruct (_ <? _); [apply keeps_ret|].
  destruct (DoFTools.has_children _).
  - apply keeps_for_each. intros sub _.
    apply keeps_bind; [apply Hcouple|intros _; apply Hflag].
  - apply keeps_bind; [apply Hcouple|intros _; apply Hflag].
Qed.

(** X10.  [make_flux_sparsity_pattern] leaves a symmetric pattern when it
    is started on one, on every mesh, with or without hanging nodes: the
    couplings of a cell with itself and with a neighbour are entered in
    both directions. *)
Theorem flux_pattern_symmetric (st : DoFTools.FluxState) :
  symmetric (entries (DoFTools.sparsity st)) ->
  symmetric (entries (DoFTools.sparsity
     (state_of (DoFTools.make_flux_sparsity_pattern DEBUG geo dof st)))).
Proof.
  revert st.
  change (keeps (fun st => symmetric (flux_entries st))
                (DoFTools.make_flux_sparsity_pattern DEBUG geo dof)).
  unfold DoFTools.make_flux_sparsity_pattern. cbv zeta.
  apply keeps_bind; [apply keeps_get|intros s0].
  apply keeps_bind; [apply keeps_Assert|intros _].
  apply keeps_bind; [apply keeps_Assert|intros _].
  apply keeps_bind; [apply keeps_modify; auto|intros _].
  apply keeps_for_each. intros c _. unfold DoFTools.flux_cell. cbv zeta.
  apply keeps_bind.
  - eapply keeps_symmetric_inserts; [apply cell_block_inserts|].
    intros i j (x & Hx & y & Hy & Hp). injection Hp as -> ->. eauto 8.
  - intros _. apply keeps_for_each. intros f _. apply flux_face_keeps_symmetric.
Qed.

End MoreFlux.

Lemma flux_pattern_symmetric_witness :
  symmetric (entries (DoFTools.sparsity
     (state_of (DoFTools.make_flux_sparsity_pattern true Examples.quad
                  (Examples.refined_neighbour Examples.q1)
                  {| DoFTools.sparsity := Examples.empty_pattern 10;
                     DoFTools.user_flags := ∅; DoFTools.coupled := [] |})))).
Proof.
  apply (flux_pattern_symmetric true Examples.quad
           (Examples.refined_neighbour Examples.q1)).
  intros i j Hij. now apply not_elem_of_empty in Hij.
Defined.

Lemma flux_pattern_contains_plain_witness :
  (0, 1)%Z ∈ entries (DoFTools.sparsity
     (state_of (DoFTools.make_flux_sparsity_pattern true Examples.quad
                  Examples.two_cells
                  {| DoFTools.sparsity := Examples.empty_pattern 6;
                     DoFTools.user_flags := ∅; DoFTools.coupled := [] |}))).
Proof.
  apply (flux_pattern_contains_plain true Examples.quad Examples.two_cells
           {| DoFTools.sparsity := Examples.empty_pattern 6;
              DoFTools.user_flags := ∅; DoFTools.coupled := [] |}).
  apply (bool_decide_unpack _). vm_compute. exact I.
Defined.

(** ** Boundary patterns *)

Section MoreBoundary.
Context {W : Type} `{Weight W}.
Variable DEBUG : bool.
Variable dof : @DoFTools.DoFHandler W.

Lemma face_block_keeps_symmetric (mapping dofs : list Z) (n : nat) :
  keeps (fun sp => symmetric (entries sp))
    (for_each (seq 0 n) (fun i =>
       for_each (seq 0 n) (fun j =>
         modify (add (at_ mapping (Z.to_nat (at_ dofs i)))
                     (at_ mapping (Z.to_nat (at_ dofs j))))))).
Proof.
  eapply keeps_symmetric_inserts with
    (rest := fun sp => (n_rows sp, n_cols sp))
    (P := fun p => exists i, i ∈ seq 0 n /\ exists j, j ∈ seq 0 n /\
            p = (at_ mapping (Z.to_nat (at_ dofs i)),
                 at_ mapping (Z.to_nat (at_ dofs j)))).
  - apply inserts_for_each; intros i _.
    apply inserts_for_each; intros j _. apply inserts_add.
  - intros i j (x & Hx & y & Hy & Hp). injection Hp as -> ->. eauto 8.
Qed.

(** X11.  Both variants of [make_boundary_sparsity_pattern] leave a
    symmetric pattern when started on one, whether they return or stop at
    an assertion: the DoFs of a face are coupled in both directions, and an
    assertion is only ever tested between two faces. *)
Theorem boundary_pattern_symmetric (boundary_indicators mapping : list Z) sp :
  symmetric (entries sp) ->
  symmetric (entries (state_of
     (DoFTools.make_boundary_sparsity_pattern DEBUG dof mapping sp)))
  /\ symmetric (entries (state_of
       (DoFTools.make_boundary_sparsity_pattern_indicators DEBUG dof
          boundary_indicators mapping sp))).
Proof.
  intros Hsym. split; revert sp Hsym.
  - change (keeps (fun sp => symmetric (entries sp))
                  (DoFTools.make_boundary_sparsity_pattern DEBUG dof mapping)).
    unfold DoFTools.make_boundary_sparsity_pattern. cbv zeta.
    apply keeps_bind; [apply keeps_get|intros s0].
    do 4 (apply keeps_bind; [apply keeps_Assert|intros _]).
    apply keeps_for_each. intros f _.
    destruct (DoFTools.face_at_boundary _); [|apply keeps_ret].
    apply keeps_bind; [apply keeps_Assert|intros _].
    apply face_block_keeps_symmetric.
  - change (keeps (fun sp => symmetric (entries sp))
                  (DoFTools.make_boundary_sparsity_pattern_indicators DEBUG dof
                     boundary_indicators mapping)).
    unfold DoFTools.make_boundary_sparsity_pattern_indicators. cbv zeta.
    apply keeps_bind; [apply keeps_get|intros s0].
    do 4 (apply keeps_bind; [apply keeps_Assert|intros _]).
    apply keeps_bind; [destruct DEBUG; [apply keeps_Assert|apply keeps_ret]|intros _].
    apply keeps_for_each. intros f _.
    destruct (bool_decide _); [|apply keeps_ret].
    apply keeps_bind; [apply keeps_Assert|intros _].
    apply face_block_keeps_symmetric.
Qed.

End MoreBoundary.

Lemma boundary_pattern_symmetric_witness :
  symmetric (entries (state_of
     (DoFTools.make_boundary_sparsity_pattern true Examples.one_boundary_face
        [0; 1; 2]%Z (Examples.empty_pattern 3))))
  /\ symmetric (entries (state_of
       (DoFTools.make_boundary_sparsity_pattern_indicators true
          Examples.one_boundary_face [0%Z] [0; 1; 2]%Z (Examples.empty_pattern 3)))).
Proof.
  apply (boundary_pattern_symmetric true Examples.one_boundary_face).
  intros i j Hij. now apply not_elem_of_empty in Hij.
Defined.

(** ** The numbering of the parameter DoFs *)

Lemma at_lookup (v : list Z) (g : nat) (z : Z) :
  v !! g = Some z -> at_ v g = z.
Proof. intros Hg. unfold at_. now rewrite (nth_lookup_Some _ _ _ _ Hg). Qed.

Lemma filter_length_pointwise {A B} (P : A -> Prop) (Q : B -> Prop)
    `{forall a, Decision (P a)} `{forall b, Decision (Q b)}
    (l1 : list A) (l2 : list B) :
  length l1 = length l2 ->
  (forall g a b, l1 !! g = Some a -> l2 !! g = Some b -> (P a <-> Q b)) ->
  length (filter P l1) = length (filter Q l2).
Proof.
  revert l2. induction l1 as [|a l1 IH]; intros [|b l2] Hlen Hpq;
    try discriminate Hlen; [reflexivity|].
  rewrite !filter_cons. specialize (Hpq 0 a b eq_refl eq_refl) as Hhead.
  assert (Hrest : length (filter P l1) = length (filter Q l2)).
  { apply IH; [now injection Hlen|]. intros g a' b' Ha Hb. now apply (Hpq (S g)). }
  destruct (decide (P a)), (decide (Q b)); simpl; tauto || lia.
Qed.

Lemma filter_length_insert (l : list Z) (g : nat) (z : Z) :
  g < length l -> at_ l g = (-1)%Z -> z <> (-1)%Z ->
  length (filter (fun x => x <> (-1)%Z) (<[g := z]> l))
  = S (length (filter (fun x => x <> (-1)%Z) l)).
Proof.
  revert g. induction l as [|x l IH]; intros g Hg Hat Hz; [simpl in Hg; lia|].
  destruct g as [|g]; simpl.
  - unfold at_ in Hat. simpl in Hat. subst x. rewrite !filter_cons.
    destruct (decide (z <> (-1)%Z)); [|contradiction].
    destruct (decide ((-1)%Z <> (-1)%Z)) as [Hne|_]; [now destruct Hne|].
    reflexivity.
  - rewrite !filter_cons. simpl in Hg.
    assert (Hrest := IH g ltac:(lia) Hat Hz).
    destruct (decide (x <> (-1)%Z)); simpl; now rewrite Hrest.
Qed.

Lemma numbered_start (n : nat) : numbered n [] (replicate n (-1)%Z, 0).
Proof.
  assert (Hat : forall g, g < n -> at_ (replicate n (-1)%Z) g = (-1)%Z).
  { intros g Hg. apply at_lookup. now apply lookup_replicate_2. }
  unfold numbered. simpl. split; [apply length_replicate|].
  split; [intros g Hg; rewrite (Hat g Hg); split;
           [congruence|intros Hin; now apply elem_of_nil in Hin]|].
  split; [intros g Hg; rewrite (Hat g Hg); congruence|].
  split; [intros g g' Hg _; rewrite (Hat g Hg); congruence|].
  split; [intros k Hk; lia|].
  induction n as [|n IH]; [reflexivity|]. simpl. rewrite filter_cons.
  destruct (decide ((-1)%Z <> (-1)%Z)) as [Hne|_]; [now destruct Hne|].
  apply IH. intros g Hg. apply at_lookup. now apply lookup_replicate_2.
Qed.

Lemma numbered_step (n : nat) (seen : list nat) (st : list Z * nat) (g : nat) :
  g < n -> numbered n seen st -> numbered n (seen ++ [g]) (number_one st g).
Proof.
  intros Hg (Hlen & Hseen & Hrange & Hinj & Hsur & Hcount).
  destruct st as [wm next]. simpl in *. unfold number_one. simpl.
  destruct (at_ wm g =? -1)%Z eqn:Hfree.
  - apply Z.eqb_eq in Hfree.
    assert (Hnew : forall g', g' < n ->
              at_ (<[g := Z.of_nat next]> wm) g'
              = if decide (g' = g) then Z.of_nat next else at_ wm g').
    { intros g' Hg'. destruct (decide (g' = g)) as [->|Hne].
      - apply at_lookup. apply list_lookup_insert_eq. lia.
      - unfold at_. rewrite !nth_lookup, list_lookup_insert_ne by congruence.
        reflexivity. }
    unfold numbered. simpl. split; [now rewrite length_insert|].
    split.
    { intros g' Hg'. rewrite (Hnew g' Hg'), elem_of_app, list_elem_of_singleton.
      destruct (decide (g' = g)) as [->|Hne].
      - split; [auto|lia].
      - rewrite (Hseen g' Hg'). split; [auto|]. intros [Hin|Heq]; [auto|contradiction]. }
    split.
    { intros g' Hg'. rewrite (Hnew g' Hg').
      destruct (decide (g' = g)); [lia|]. intros Hne.
      specialize (Hrange g' Hg' Hne). lia. }
    split.
    { intros g1 g2 Hg1 Hg2. rewrite (Hnew g1 Hg1), (Hnew g2 Hg2).
      destruct (decide (g1 = g)) as [->|Hn1], (decide (g2 = g)) as [->|Hn2].
      - reflexivity.
      - intros _ Heq. assert (Hne2 : at_ wm g2 <> (-1)%Z) by lia.
        specialize (Hrange g2 Hg2 Hne2). lia.
      - intros Hne1 Heq. specialize (Hrange g1 Hg1 Hne1). lia.
      - apply Hinj; assumption. }
    split.
    { intros k Hk. destruct (decide (k = next)) as [->|Hne].
      - exists g. split; [exact Hg|]. rewrite (Hnew g Hg).
        destruct (decide (g = g)); [reflexivity|contradiction].
      - destruct (Hsur k) as (g' & Hg' & Hat); [lia|].
        exists g'. split; [exact Hg'|]. rewrite (Hnew g' Hg').
        destruct (decide (g' = g)) as [->|_]; [|exact Hat].
        rewrite Hfree in Hat. lia. }
    rewrite filter_length_insert; [now rewrite Hcount|lia|exact Hfree|lia].
  - apply Z.eqb_neq in Hfree. unfold numbered. simpl.
    split; [exact Hlen|]. split.
    { intros g' Hg'. rewrite elem_of_app, list_elem_of_singleton, (Hseen g' Hg').
      split; [auto|]. intros [Hin| ->]; [exact Hin|]. now apply Hseen. }
    auto.
Qed.

Lemma numbered_fold (n : nat) (targets : list nat) :
  Forall (fun g => g < n) targets ->
  numbered n targets (fold_left number_one targets (replicate n (-1)%Z, 0)).
Proof.
  induction targets as [|g targets IH] using rev_ind; intros Hall.
  - apply numbered_start.
  - apply Forall_app in Hall as [Hall Hg]. rewrite fold_left_app. simpl.
    apply numbered_step; [exact (Forall_inv Hg)|now apply IH].
Qed.

(** the flags of the DoFs of the component, as the count of the parameter
    DoFs sets them *)
Lemma flags_fold (n : nat) (targets : list nat) :
  let flags := fold_left (fun flags g => <[g := true]> flags) targets
                         (replicate n false) in
  length flags = n
  /\ forall g, flags !! g = Some true <-> g < n /\ g ∈ targets.
Proof.
  induction targets as [|t targets IH] using rev_ind; simpl.
  - split; [apply length_replicate|]. intros g. split.
    + intros Hg. now apply lookup_replicate_true in Hg.
    + intros [_ Hin]. now apply elem_of_nil in Hin.
  - rewrite fold_left_app. simpl. destruct IH as [Hlen Hflags].
    split; [now rewrite length_insert|].
    intros g. rewrite elem_of_app, list_elem_of_singleton.
    destruct (decide (g = t)) as [->|Hne].
    + destruct (decide (t < n)) as [Hin|Hout].
      * rewrite list_lookup_insert_eq by lia. tauto.
      * rewrite list_insert_ge by lia. rewrite Hflags. tauto.
    + rewrite list_lookup_insert_ne by congruence. rewrite Hflags. tauto.
Qed.

Lemma for_each_fold_flat_map {S X Y} (l : list X) (body : X -> Comp S unit)
    (step : S -> Y -> S) (f : X -> list Y) (s : S) :
  (forall x s0, body x s0 = (Done tt, fold_left step (f x) s0)) ->
  for_each l body s = (Done tt, fold_left step (flat_map f l) s).
Proof.
  intros Hb. revert s. induction l as [|x l IH]; intros s; [reflexivity|].
  simpl. rewrite (bind_done _ _ _ _ _ (Hb x s)), fold_left_app. apply IH.
Qed.

Lemma fold_left_flat_map {S X Y} (l : list X) (step : S -> Y -> S)
    (f : X -> list Y) (g : S -> X -> S) (s : S) :
  (forall x s0, g s0 x = fold_left step (f x) s0) ->
  fold_left g l s = fold_left step (flat_map f l) s.
Proof.
  intros Hg. revert s. induction l as [|x l IH]; intros s; [reflexivity|].
  simpl. now rewrite fold_left_app, Hg, IH.
Qed.

Section Numbering.
Context {W : Type} `{Weight W}.
Variable fine_grid : @DoFTools.DoFHandler W.
Variable fine_component : nat.

Lemma number_parameter_dofs_fold (st : list Z * nat) :
  DoFTools.number_parameter_dofs fine_grid fine_component st
  = (Done tt, fold_left number_one (parameter_targets fine_grid fine_component) st).
Proof.
  unfold DoFTools.number_parameter_dofs, parameter_targets. cbv zeta.
  apply for_each_fold_flat_map. intros c s0.
  apply for_each_fold_flat_map. intros i [wm next].
  rewrite bind_get. cbn [fst snd].
  destruct (_ =? fine_component); simpl; [|reflexivity].
  unfold number_one. cbn [fst snd].
  destruct (at_ wm _ =? -1)%Z; reflexivity.
Qed.

Lemma count_parameters_fold :
  DoFTools.count_parameters_on_fine_grid fine_grid fine_component
  = length (filter (fun b => b = true)
      (fold_left (fun flags g => <[g := true]> flags)
                 (parameter_targets fine_grid fine_component)
                 (replicate (Z.to_nat (DoFTools.n_dofs fine_grid)) false))).
Proof.
  unfold DoFTools.count_parameters_on_fine_grid, parameter_targets. cbv zeta.
  f_equal. f_equal. apply fold_left_flat_map. intros c flags.
  apply fold_left_flat_map. intros i flags0.
  destruct (_ =? fine_component); reflexivity.
Qed.

Lemma elem_of_parameter_targets (g : nat) :
  g ∈ parameter_targets fine_grid fine_component
  <-> exists c, c ∈ DoFTools.active_cells fine_grid /\
      exists i, i < DoFTools.dofs_per_cell (DoFTools.get_fe fine_grid) /\
        DoFTools.system_to_component_index_first (DoFTools.get_fe fine_grid) i
        = fine_component /\
        Z.to_nat (at_ (DoFTools.dof_indices (DoFTools.cell fine_grid c)) i) = g.
Proof.
  unfold parameter_targets. rewrite list_elem_of_In, in_flat_map. split.
  - intros (c & Hc & Hg). apply in_flat_map in Hg as (i & Hi & Hg).
    apply list_elem_of_In in Hc. apply in_seq in Hi.
    exists c. split; [exact Hc|]. exists i. split; [lia|].
    destruct (Nat.eqb_spec
                (DoFTools.system_to_component_index_first
                   (DoFTools.get_fe fine_grid) i) fine_component) as [Heq|Hne].
    + destruct Hg as [<-|[]]. auto.
    + destruct Hg.
  - intros (c & Hc & i & Hi & Hs & Hg). exists c.
    split; [now apply list_elem_of_In|]. apply in_flat_map. exists i.
    split; [apply in_seq; lia|]. rewrite Hs, Nat.eqb_refl. now left.
Qed.

(** X12.  The block of [compute_intergrid_constraints] that numbers the
    parameter DoFs of the fine grid returns, on a handler whose cells hold
    indices of the handler, a [weight_mapping] with one entry per fine DoF
    and the next free index, such that: a fine DoF has a number (an entry
    other than -1) if and only if it is a DoF of the selected component on
    some active cell; the numbers are the indices below the next free
    index, each given to exactly one DoF; and the next free index is the
    number of parameter DoFs counted beforehand, so that the assertion of
    the checked build that compares the two holds. *)
Theorem parameter_dofs_numbered :
  cell_indices_in_range fine_grid ->
  let n := Z.to_nat (DoFTools.n_dofs fine_grid) in
  exists weight_mapping next_free_index,
    DoFTools.number_parameter_dofs fine_grid fine_component
      (replicate n (-1)%Z, 0)
    = (Done tt, (weight_mapping, next_free_index))
    /\ length weight_mapping = n
    /\ next_free_index
       = DoFTools.count_parameters_on_fine_grid fine_grid fine_component
    /\ (forall g, g < n ->
          at_ weight_mapping g <> (-1)%Z
          <-> parameter_dof fine_grid fine_component g)
    /\ (forall g, g < n -> at_ weight_mapping g <> (-1)%Z ->
          (0 <= at_ weight_mapping g < Z.of_nat next_free_index)%Z)
    /\ (forall g g', g < n -> g' < n -> at_ weight_mapping g <> (-1)%Z ->
          at_ weight_mapping g = at_ weight_mapping g' -> g = g')
    /\ (forall k, k < next_free_index ->
          exists g, g < n /\ at_ weight_mapping g = Z.of_nat k).
Proof.
  intros Hrange n.
  assert (Hall : Forall (fun g => g < n)
                        (parameter_targets fine_grid fine_component)).
  { apply Forall_forall. intros g Hg.
    apply elem_of_parameter_targets in Hg as (c & Hc & i & Hi & _ & <-).
    specialize (Hrange c i Hc Hi). subst n. lia. }
  pose proof (numbered_fold n _ Hall) as Hnum.
  rewrite number_parameter_dofs_fold.
  destruct (fold_left number_one _ _) as [wm next].
  destruct Hnum as (Hlen & Hseen & Hbound & Hinj & Hsur & Hcount).
  simpl in *. exists wm, next. split; [reflexivity|]. split; [exact Hlen|].
  split.
  { rewrite count_parameters_fold, Hcount.
    destruct (flags_fold n (parameter_targets fine_grid fine_component))
      as [Hfl Hflags].
    apply filter_length_pointwise; [fold n; congruence|].
    intros g z b Hz Hb. fold n in Hb.
    assert (Hg : g < n) by (apply lookup_lt_Some in Hz; lia).
    rewrite <- (at_lookup _ _ _ Hz), (Hseen g Hg). split.
    - intros Hin. assert (Ht : fold_left (fun flags g => <[g := true]> flags)
                                 (parameter_targets fine_grid fine_component)
                                 (replicate n false) !! g = Some true)
        by (apply Hflags; auto).
      congruence.
    - intros ->. now apply Hflags in Hb. }
  split.
  { intros g Hg. rewrite (Hseen g Hg), elem_of_parameter_targets. split.
    - intros (c & Hc & i & Hi & Hs & Hidx). exists c. split; [exact Hc|].
      exists i. split; [exact Hi|]. split; [exact Hs|].
      specialize (Hrange c i Hc Hi). lia.
    - intros (c & Hc & i & Hi & Hs & Hidx). exists c. split; [exact Hc|].
      exists i. split; [exact Hi|]. split; [exact Hs|]. lia. }
  auto.
Qed.

End Numbering.

Lemma parameter_dofs_numbered_witness :
  exists weight_mapping next_free_index,
    DoFTools.number_parameter_dofs MoreExamples.square 1
      (replicate 8 (-1)%Z, 0)
    = (Done tt, (weight_mapping, next_free_index))
    /\ length weight_mapping = 8
    /\ next_free_index
       = DoFTools.count_parameters_on_fine_grid MoreExamples.square 1.
Proof.
  destruct (parameter_dofs_numbered MoreExamples.square 1)
    as (wm & next & Hrun & Hlen & Hnext & _).
  - intros c i Hc Hi. apply list_elem_of_singleton in Hc. subst c.
    do 8 (destruct i as [|i]; [unfold at_; simpl; lia|]). simpl in Hi. lia.
  - exists wm, next. auto.
Defined.

Example number_parameter_dofs_second_component :
  DoFTools.number_parameter_dofs MoreExamples.square 1 (replicate 8 (-1)%Z, 0)
  = (Done tt, ([-1; 0; -1; 1; -1; 2; -1; 3]%Z, 4)).
Proof. reflexivity. Qed.

(** ** The constraints entered between two grids *)

Lemma reads_only_bind {S A B} (m : Comp S A) (k : A -> Comp S B)
    (Q : Outcome B * S -> Prop) (s : S) :
  reads_only m -> (forall e, Q (Raised e, s)) -> (forall a, Q (k a s)) ->
  Q (bind m k s).
Proof.
  intros Hm Hraise Hk. unfold bind. specialize (Hm s).
  destruct (m s) as [[a|e] s1]; simpl in Hm; subst s1; auto.
Qed.

Lemma reads_only_Assert {S} (D c : bool) (e : Exc) : reads_only (S:=S) (Assert D c e).
Proof. intros s. apply Assert_state. Qed.

Lemma reads_only_run_local {S L A} (m : Comp L A) (l0 : L) :
  reads_only (S:=S) (run_local m l0).
Proof. intros s. unfold run_local. destruct (m l0) as [[a|e] l]; reflexivity. Qed.

Lemma reads_only_for_each_Assert {S X} (D : bool) (l : list X) (c : X -> bool)
    (e : X -> Exc) :
  reads_only (S:=S) (for_each l (fun x => Assert D (c x) (e x))).
Proof. intros s. apply for_each_Assert_state. Qed.

Lemma NoDup_map_of_nat (l : list nat) : NoDup l -> NoDup (map Z.of_nat l).
Proof.
  induction 1 as [|x l Hx Hl IH]; simpl; [apply NoDup_nil_2|].
  apply NoDup_cons. split; [|exact IH]. intros Hin.
  apply list_elem_of_In, in_map_iff in Hin as (y & Heq & Hy).
  apply Nat2Z.inj in Heq. subst y. apply Hx. now apply list_elem_of_In.
Qed.

Section IntergridEntered.
Context {W : Type} `{Weight W}.
Variable DEBUG : bool.

Lemma lines_added_app (l1 l2 : list (ConstraintCall W)) :
  lines_added (l1 ++ l2) = lines_added l1 ++ lines_added l2.
Proof. unfold lines_added. apply flat_map_app. Qed.

Lemma entries_of_line (g : Z) (ents rest : list (ConstraintCall W)) :
  Forall (fun c => exists col v, c = add_entry g col v) ents ->
  lines_added ents = []
  /\ (entries_on_last_line (Some g) rest ->
      entries_on_last_line (Some g) (ents ++ rest)).
Proof.
  induction 1 as [|c ents (col & v & ->) _ [IHl IHe]]; [auto|].
  simpl. split; [exact IHl|]. auto.
Qed.

(** what the body of the last loop appends for one fine DoF: nothing, or
    a line followed by entries on that line *)
Lemma enter_constraints_for_block (weights : FullMatrix W)
    (weight_mapping representants : list Z) (g : nat) (cm : ConstraintMatrix W) :
  exists blk,
    DoFTools.enter_constraints_for weights weight_mapping representants g cm
    = (Done tt, cm ++ blk)
    /\ (blk = []
        \/ exists ents, blk = add_line (Z.of_nat g) :: ents
             /\ Forall (fun c => exists col v, c = add_entry (Z.of_nat g) col v) ents).
Proof.
  unfold DoFTools.enter_constraints_for. cbv zeta.
  destruct (negb _); [|exists []; split; [unfold ret; now rewrite app_nil_r|now left]].
  destruct (_ && _); [exists []; split; [unfold ret; now rewrite app_nil_r|now left]|].
  rewrite bind_modify.
  match goal with
  | |- context [for_each ?rows ?body] =>
      assert (Hrows : forall rows0 cm0, exists ents,
                for_each rows0 body cm0 = (Done tt, cm0 ++ ents)
                /\ Forall (fun c => exists col v, c = add_entry (Z.of_nat g) col v)
                          ents)
  end.
  { induction rows0 as [|row rows0 IH]; intros cm0.
    - exists []. split; [unfold for_each, ret; now rewrite app_nil_r|constructor].
    - simpl. destruct (negb _).
      + rewrite bind_modify. destruct (IH (cm0 ++ [add_entry (Z.of_nat g)
                                   (at_ representants row)
                                   (el weights row
                                      (Z.to_nat (at_ weight_mapping g)))]))
          as (ents & Hr & Hall).
        eexists (_ :: ents). split; [rewrite Hr, <- app_assoc; reflexivity|].
        constructor; eauto.
      + rewrite bind_ret. apply IH. }
  match goal with
  | |- context [for_each ?rows ?body ?cm0] =>
      destruct (Hrows rows cm0) as (ents & Hr & Hall)
  end.
  exists (add_line (Z.of_nat g) :: ents). split.
  - rewrite Hr, <- app_assoc. reflexivity.
  - right. eauto.
Qed.

Lemma enter_constraints_blocks (weights : FullMatrix W)
    (weight_mapping representants : list Z) (gs : list nat)
    (cm : ConstraintMatrix W) :
  exists new,
    for_each gs (DoFTools.enter_constraints_for weights weight_mapping representants)
             cm = (Done tt, cm ++ new)
    /\ lines_added new `sublist_of` map Z.of_nat gs
    /\ forall current, entries_on_last_line current new.
Proof.
  revert cm. induction gs as [|g gs IH]; intros cm.
  - exists []. split; [unfold for_each, ret; now rewrite app_nil_r|].
    split; [constructor|intros current; exact I].
  - destruct (enter_constraints_for_block weights weight_mapping representants g cm)
      as (blk & Hblk & Hshape).
    destruct (IH (cm ++ blk)) as (new & Hnew & Hsub & Hent).
    exists (blk ++ new). simpl. rewrite (bind_done _ _ _ _ _ Hblk), Hnew.
    split; [now rewrite app_assoc|]. rewrite lines_added_app.
    destruct Hshape as [->|(ents & -> & Hall)].
    + split; [now apply sublist_cons|]. intros current. apply Hent.
    + destruct (entries_of_line (Z.of_nat g) ents new Hall) as [Hnone Hon].
      simpl. rewrite Hnone. simpl. split; [now apply sublist_skip|].
      intros current. apply Hon, Hent.
Qed.

(** X13.  [compute_intergrid_constraints] only appends to the constraint
    matrix, and only in its last loop: if it raises, the matrix is as it
    was.  The lines it adds are pairwise different indices of fine DoFs,
    and every entry is entered on the line that was added last. *)
Theorem intergrid_constraints_entered
    (coarse_grid : @DoFTools.DoFHandler W) (coarse_component : nat)
    (fine_grid : @DoFTools.DoFHandler W) (fine_component : nat)
    (coarse_to_fine_grid_map : nat -> nat) (cm : ConstraintMatrix W) :
  let r := DoFTools.compute_intergrid_constraints DEBUG coarse_grid
             coarse_component fine_grid fine_component coarse_to_fine_grid_map cm in
  exists new,
    state_of r = cm ++ new
    /\ (forall e, outcome_of r = Raised e -> new = [])
    /\ NoDup (lines_added new)
    /\ entries_on_last_line None new
    /\ forall l, l ∈ lines_added new -> (0 <= l < DoFTools.n_dofs fine_grid)%Z.
Proof.
  intros r. subst r.
  assert (Hraise : forall (e : Exc), exists new : ConstraintMatrix W,
            state_of (Raised (A:=unit) e, cm) = cm ++ new
            /\ (forall e0, outcome_of (Raised (A:=unit) e, cm) = Raised e0 -> new = [])
            /\ NoDup (lines_added new)
            /\ entries_on_last_line None new
            /\ forall l, l ∈ lines_added new ->
                 (0 <= l < DoFTools.n_dofs fine_grid)%Z).
  { intros e. exists []. simpl. split; [now rewrite app_nil_r|].
    split; [auto|]. split; [apply NoDup_nil_2|]. split; [exact I|].
    intros l Hl. now apply elem_of_nil in Hl. }
  unfold DoFTools.compute_intergrid_constraints. cbv zeta.
  do 3 (apply reads_only_bind; [apply reads_only_Assert|exact Hraise|intros _]).
  apply reads_only_bind;
    [destruct DEBUG; [apply reads_only_for_each_Assert|intros s; reflexivity]
    |exact Hraise|intros _].
  apply reads_only_bind; [apply reads_only_run_local|exact Hraise|intros numbering].
  apply reads_only_bind; [apply reads_only_Assert|exact Hraise|intros _].
  apply reads_only_bind; [apply reads_only_run_local|exact Hraise|intros weights].
  apply reads_only_bind;
    [unfold DoFTools.check_column_sums;
     destruct DEBUG; [apply reads_only_for_each_Assert|intros s; reflexivity]
    |exact Hraise|intros _].
  apply reads_only_bind; [apply reads_only_run_local|exact Hraise|intros representants].
  unfold DoFTools.enter_constraints.
  destruct (enter_constraints_blocks weights (fst numbering) representants
              (seq 0 (Z.to_nat (DoFTools.n_dofs fine_grid))) cm)
    as (new & Hrun & Hsub & Hent).
  rewrite Hrun. exists new. simpl. split; [reflexivity|].
  split; [discriminate|].
  split; [apply (sublist_NoDup _ _ (NoDup_map_of_nat _ (NoDup_seq _ _)) Hsub)|].
  split; [apply Hent|].
  intros l Hl. apply (elem_of_sublist _ _ _ Hl) in Hsub.
  apply list_elem_of_In, in_map_iff in Hsub as (g & <- & Hg).
  apply in_seq in Hg. lia.
Qed.

End IntergridEntered.

(** ** The batches of cells and faces *)

Lemma count_down_step (same : nat -> bool) (k : nat) :
  MatrixFree.count_down same (S (S k))
  = if same (S (S k)) then MatrixFree.count_down same (S k) else S (S k).
Proof. reflexivity. Qed.

Lemma count_down_spec (same : nat -> bool) (n : nat) :
  let r := MatrixFree.count_down same n in
  r <= n /\ (1 <= n -> 1 <= r)
  /\ (forall j, r < j <= n -> same j = true)
  /\ (1 < r -> same r = false).
Proof.
  cbv zeta. induction n as [|n IH].
  - simpl. repeat split; try lia; intros j Hj; lia.
  - destruct n as [|k].
    + simpl. repeat split; try lia; intros j Hj; lia.
    + rewrite count_down_step. destruct (same (S (S k))) eqn:Hsame.
      * destruct IH as (Hle & Hpos & Hrun & Hstop).
        split; [lia|]. split; [intros _; apply Hpos; lia|].
        split; [|exact Hstop]. intros j Hj.
        destruct (decide (j = S (S k))) as [->|Hne]; [exact Hsame|].
        apply Hrun. lia.
      * split; [lia|]. split; [lia|]. split; [intros j Hj; lia|].
        intros _. exact Hsame.
Qed.

Lemma count_down_irregular (same : nat -> bool) (n : nat) :
  (MatrixFree.count_down same n <? n) = (1 <? n) && same n.
Proof.
  destruct n as [|[|k]]; [reflexivity..|].
  pose proof (count_down_spec same (S k)) as (Hle & _).
  rewrite count_down_step. destruct (same (S (S k))).
  - cbn [andb]. apply Nat.ltb_lt. lia.
  - cbn [andb]. rewrite andb_false_r. apply Nat.ltb_irrefl.
Qed.

Lemma same_cell_eq (a b : Z * Z) : MatrixFree.same_cell a b = true <-> a = b.
Proof.
  destruct a as [a1 a2], b as [b1 b2]. unfold MatrixFree.same_cell. simpl.
  rewrite andb_true_iff, !Z.eqb_eq. split; [intros [-> ->]; reflexivity|].
  intros [= -> ->]. auto.
Qed.

Lemma uint_sub_pred (n : nat) :
  1 <= n -> (Z.of_nat n < 2 ^ 32)%Z ->
  DoFTools.uint_sub (Z.of_nat n) 1 = Z.of_nat (n - 1).
Proof.
  intros Hn Hsmall. unfold DoFTools.uint_sub. rewrite Z.mod_small; lia.
Qed.

Section Batches.
Context {St : Type}.
Variable DEBUG : bool.
Variable n_array_elements : nat.
Variable invalid_unsigned_int : Z.
Hypothesis lanes : 1 <= n_array_elements.
Hypothesis lanes_small : (Z.of_nat n_array_elements < 2 ^ 32)%Z.

(** X14.  On a batch of cells of the layout,
    [n_active_entries_per_cell_batch] returns normally a number [n] between
    one and the width of the vectorization, such that the lanes from [n-1]
    on all hold the same cell and, if [n > 1], lane [n-2] holds another;
    [at_irregular_cell] is [true] exactly when [n] is less than the
    width. *)
Theorem active_entries_of_cell_batch (l : MatrixFree.BatchLayout)
    (batch : nat) (s : St) :
  batch < Z.to_nat (MatrixFree.back (MatrixFree.cell_partition_data l)) ->
  exists n,
    MatrixFree.n_active_entries_per_cell_batch DEBUG n_array_elements l batch s
    = (Done n, s)
    /\ 1 <= n <= n_array_elements
    /\ (forall j, n - 1 <= j < n_array_elements ->
          MatrixFree.cell_at l (batch * n_array_elements + j)
          = MatrixFree.cell_at l (batch * n_array_elements + (n - 1)))
    /\ (1 < n ->
        MatrixFree.cell_at l (batch * n_array_elements + (n - 1))
        <> MatrixFree.cell_at l (batch * n_array_elements + (n - 2)))
    /\ MatrixFree.at_irregular_cell DEBUG n_array_elements l batch s
       = (Done (n <? n_array_elements), s).
Proof.
  intros Hbatch.
  unfold MatrixFree.n_active_entries_per_cell_batch, MatrixFree.at_irregular_cell.
  cbv zeta.
  set (same := fun n_components =>
         MatrixFree.same_cell
           (MatrixFree.cell_at l (batch * n_array_elements + n_components - 1))
           (MatrixFree.cell_at l (batch * n_array_elements + n_components - 2))).
  destruct (count_down_spec same n_array_elements) as (Hle & Hpos & Hrun & Hstop).
  specialize (Hpos lanes).
  set (n := MatrixFree.count_down same n_array_elements) in *.
  exists n.
  rewrite !(bind_done _ _ s s tt) by (now apply AssertIndexRange_passes).
  rewrite uint_sub_pred by lia.
  rewrite (bind_done _ _ s s tt) by (apply AssertIndexRange_passes; lia).
  split; [reflexivity|]. split; [lia|]. split; [|split].
  - intros j [Hlo Hhi]. induction j as [|j IH]; [f_equal; lia|].
    destruct (decide (S j = n - 1)) as [->|Hne]; [reflexivity|].
    rewrite <- IH by lia.
    assert (Hsame : same (S (S j)) = true) by (apply Hrun; lia).
    unfold same in Hsame. apply same_cell_eq in Hsame.
    replace (batch * n_array_elements + S (S j) - 1)
      with (batch * n_array_elements + S j) in Hsame by lia.
    replace (batch * n_array_elements + S (S j) - 2)
      with (batch * n_array_elements + j) in Hsame by lia.
    exact Hsame.
  - intros Hn Heq. specialize (Hstop Hn). unfold same in Hstop.
    replace (batch * n_array_elements + n - 1)
      with (batch * n_array_elements + (n - 1)) in Hstop by lia.
    replace (batch * n_array_elements + n - 2)
      with (batch * n_array_elements + (n - 2)) in Hstop by lia.
    apply same_cell_eq in Heq. congruence.
  - rewrite (bind_done _ _ s s tt) by (now apply AssertIndexRange_passes).
    unfold ret. subst n. rewrite count_down_irregular. unfold same.
    replace ((batch + 1) * n_array_elements)
      with (batch * n_array_elements + n_array_elements) by lia.
    reflexivity.
Qed.

(** X15.  On a batch of faces of the layout,
    [n_active_entries_per_face_batch] returns normally a number [n] between
    one and the width of the vectorization, such that the lanes from [n] on
    hold no interior cell and, if [n > 1], lane [n-1] holds one. *)
Theorem active_entries_of_face_batch (l : MatrixFree.BatchLayout)
    (batch : nat) (s : St) :
  batch < length (MatrixFree.faces l) ->
  exists n,
    MatrixFree.n_active_entries_per_face_batch DEBUG n_array_elements
      invalid_unsigned_int l batch s = (Done n, s)
    /\ 1 <= n <= n_array_elements
    /\ (forall j, n <= j < n_array_elements ->
          at_ (MatrixFree.cells_interior (MatrixFree.face_at l batch)) j
          = invalid_unsigned_int)
    /\ (1 < n ->
        at_ (MatrixFree.cells_interior (MatrixFree.face_at l batch)) (n - 1)
        <> invalid_unsigned_int).
Proof.
  intros Hbatch. unfold MatrixFree.n_active_entries_per_face_batch. cbv zeta.
  set (same := fun n_components =>
         (at_ (MatrixFree.cells_interior (MatrixFree.face_at l batch))
              (n_components - 1) =? invalid_unsigned_int)%Z).
  destruct (count_down_spec same n_array_elements) as (Hle & Hpos & Hrun & Hstop).
  specialize (Hpos lanes).
  set (n := MatrixFree.count_down same n_array_elements) in *.
  exists n.
  rewrite (bind_done _ _ s s tt) by (now apply AssertIndexRange_passes).
  rewrite uint_sub_pred by lia.
  rewrite (bind_done _ _ s s tt) by (apply AssertIndexRange_passes; lia).
  split; [reflexivity|]. split; [lia|]. split.
  - intros j Hj. assert (Hsame : same (S j) = true) by (apply Hrun; lia).
    unfold same in Hsame. apply Z.eqb_eq in Hsame.
    now replace (S j - 1) with j in Hsame by lia.
  - intros Hn. specialize (Hstop Hn). unfold same in Hstop.
    now apply Z.eqb_neq in Hstop.
Qed.

Lemma fold_left_insert_seq (f : nat -> Z) (n : nat) (init : list Z) :
  n <= length init ->
  let result := fold_left (fun result v => <[v := f v]> result) (seq 0 n) init in
  length result = length init
  /\ forall v, v < length init ->
       at_ result v = if v <? n then f v else at_ init v.
Proof.
  intros Hn. cbv zeta. induction n as [|n IH].
  - simpl. split; [reflexivity|]. intros v _. reflexivity.
  - rewrite seq_S, fold_left_app. simpl.
    destruct (IH ltac:(lia)) as [Hlen Hat].
    split; [now rewrite length_insert|]. intros v Hv.
    destruct (decide (v = n)) as [->|Hne].
    + rewrite (proj2 (Nat.ltb_lt n (Datatypes.S n))) by lia.
      apply at_lookup, list_lookup_insert_eq. lia.
    + unfold at_ at 1. rewrite nth_lookup, list_lookup_insert_ne by congruence.
      rewrite <- nth_lookup. fold (at_ (fold_left (fun result v0 => <[v0 := f v0]> result)
                                         (seq 0 n) init) v).
      rewrite (Hat v Hv).
      destruct (Nat.ltb_spec v n), (Nat.ltb_spec v (Datatypes.S n));
        reflexivity || lia.
Qed.

(** X16.  [get_faces_by_cells_boundary_id] returns one boundary id per lane
    of the vectorization: the id stored for the cell, the face and the lane
    on the lanes that [n_active_entries_per_cell_batch] counts as filled,
    and [numbers::invalid_boundary_id] on the lanes that pad the batch. *)
Theorem boundary_ids_of_cell_batch (invalid_boundary_id : Z) (faces_per_cell : nat)
    (l : MatrixFree.BatchLayout) (macro_cell face_number : nat) (s : St) :
  macro_cell < Z.to_nat (MatrixFree.n_macro_cells l) ->
  (MatrixFree.n_macro_cells l
   <= MatrixFree.back (MatrixFree.cell_partition_data l))%Z ->
  face_number < faces_per_cell ->
  Z.to_nat (MatrixFree.n_macro_cells l)
  <= MatrixFree.cell_and_face_boundary_id_size_0 l ->
  exists n result,
    MatrixFree.n_active_entries_per_cell_batch DEBUG n_array_elements l
      macro_cell s = (Done n, s)
    /\ MatrixFree.get_faces_by_cells_boundary_id DEBUG n_array_elements
         invalid_boundary_id faces_per_cell l macro_cell face_number s
       = (Done result, s)
    /\ length result = n_array_elements
    /\ forall v, v < n_array_elements ->
         at_ result v
         = if v <? n
           then MatrixFree.cell_and_face_boundary_id l macro_cell face_number v
           else invalid_boundary_id.
Proof.
  intros Hcell Hghost Hface Hsize.
  destruct (active_entries_of_cell_batch l macro_cell s ltac:(lia))
    as (n & Hn & Hrange & _).
  exists n. eexists. split; [exact Hn|].
  unfold MatrixFree.get_faces_by_cells_boundary_id. cbv zeta.
  rewrite (bind_done _ _ s s tt) by (now apply AssertIndexRange_passes).
  rewrite (bind_done _ _ s s tt) by (now apply AssertIndexRange_passes).
  rewrite bind_Assert, (proj2 (Nat.leb_le _ _) Hsize). cbn [negb].
  rewrite andb_false_r, (bind_done _ _ _ _ _ Hn). unfold ret.
  split; [reflexivity|].
  destruct (fold_left_insert_seq
              (MatrixFree.cell_and_face_boundary_id l macro_cell face_number) n
              (replicate n_array_elements invalid_boundary_id))
    as [Hlen Hat]; [rewrite length_replicate; lia|].
  rewrite length_replicate in Hlen, Hat. split; [exact Hlen|].
  intros v Hv. rewrite (Hat v Hv). destruct (v <? n); [reflexivity|].
  apply at_lookup. now apply lookup_replicate_2.
Qed.

End Batches.

Lemma fold_left_last {A} (g : A -> Z) (cells : list A) (start : Z) :
  fold_left (fun _ c => g c) cells start
  = match last cells with Some c => g c | None => start end.
Proof.
  revert start. induction cells as [|c cells IH]; intros start; [reflexivity|].
  simpl. rewrite IH. destruct cells as [|c' cells]; [reflexivity|].
  change (last (c :: c' :: cells)) with (last (c' :: cells)).
  destruct (last (c' :: cells)) eqn:Hlast; [reflexivity|].
  now apply last_None in Hlast.
Qed.

Lemma fold_left_max (g : Z -> Z) (cells : list Z) (start : Z) :
  let m := fold_left (fun m c => Z.max m (g c)) cells start in
  (start <= m)%Z /\ (forall c, c ∈ cells -> (g c <= m)%Z)
  /\ (m = start \/ exists c, c ∈ cells /\ m = g c).
Proof.
  cbv zeta. revert start. induction cells as [|c cells IH]; intros start; simpl.
  - split; [lia|]. split; [|now left]. intros c Hc. now apply elem_of_nil in Hc.
  - destruct (IH (Z.max start (g c))) as (Hle & Hall & Hwhich).
    split; [lia|]. split.
    + intros c' Hc'. apply elem_of_cons in Hc' as [->|Hc']; [lia|now apply Hall].
    + destruct Hwhich as [Hm|(c' & Hc' & Hm)].
      * destruct (Z.max_spec start (g c)) as [[_ Hmax]|[_ Hmax]].
        -- right. exists c. split; [left|congruence].
        -- left. congruence.
      * right. exists c'. split; [now right|exact Hm].
Qed.

(** X17.  [get_face_category] with the indices of an hp method: the first
    category is the largest index among the interior cells of the batch
    (zero for none); the second is [numbers::invalid_unsigned_int] if the
    first exterior lane holds no cell, and otherwise the larger of the
    first category and the index of the last exterior cell of the batch:
    the exterior cells before the last one do not enter it. *)
Theorem face_category {St : Type} (DEBUG : bool) (n_array_elements : nat)
    (invalid_unsigned_int : Z)
    (l : MatrixFree.BatchLayout) (macro_face : nat) (s : St) :
  macro_face < length (MatrixFree.faces l) ->
  MatrixFree.cell_active_fe_index l <> [] ->
  let face := MatrixFree.face_at l macro_face in
  let fe_index c := at_ (MatrixFree.cell_active_fe_index l) (Z.to_nat c) in
  let interior := MatrixFree.leading_cells invalid_unsigned_int n_array_elements
                    (MatrixFree.cells_interior face) in
  let exterior := MatrixFree.leading_cells invalid_unsigned_int n_array_elements
                    (MatrixFree.cells_exterior face) in
  exists first second,
    MatrixFree.get_face_category DEBUG n_array_elements invalid_unsigned_int
      l macro_face s = (Done (first, second), s)
    /\ (forall c, c ∈ interior -> (fe_index c <= first)%Z)
    /\ (first = 0%Z \/ exists c, c ∈ interior /\ first = fe_index c)
    /\ (at_ (MatrixFree.cells_exterior face) 0 = invalid_unsigned_int ->
        second = invalid_unsigned_int)
    /\ (at_ (MatrixFree.cells_exterior face) 0 <> invalid_unsigned_int ->
        forall c, last exterior = Some c -> second = Z.max first (fe_index c)).
Proof.
  intros Hface Hhp face fe_index interior exterior.
  unfold MatrixFree.get_face_category. cbv zeta.
  rewrite (bind_done _ _ s s tt) by (now apply AssertIndexRange_passes).
  destruct (Nat.eqb_spec (length (MatrixFree.cell_active_fe_index l)) 0)
    as [Hempty|_]; [now apply nil_length_inv in Hempty|].
  fold face. fold fe_index. fold interior. fold exterior.
  eexists _, _. split; [reflexivity|].
  destruct (fold_left_max fe_index interior 0) as (_ & Hall & Hwhich).
  split; [exact Hall|]. split; [exact Hwhich|]. split.
  - intros Hnone. now rewrite (proj2 (Z.eqb_eq _ _) Hnone).
  - intros Hsome c Hlast. rewrite (proj2 (Z.eqb_neq _ _) Hsome). cbn [negb].
    rewrite (fold_left_last (fun c => Z.max _ (fe_index c))), Hlast. reflexivity.
Qed.

(** X18.  [get_cell_category] and the builds, on an object that has DoF
    information.  With the indices of an hp method and a batch among them,
    it returns the index of the batch in both builds.  Without them the release build returns zero, and the
    checked build never gets there: its second range check compares the
    batch with the length of the empty vector and raises [ExcIndexRange]. *)
Theorem cell_category {St : Type} (DEBUG : bool)
    (l : MatrixFree.BatchLayout) (macro_cell : nat) (s : St) :
  0 < MatrixFree.n_dof_info l ->
  (macro_cell < length (MatrixFree.cell_active_fe_index l) ->
   MatrixFree.get_cell_category DEBUG l macro_cell s
   = (Done (at_ (MatrixFree.cell_active_fe_index l) macro_cell), s))
  /\ (MatrixFree.cell_active_fe_index l = [] ->
      MatrixFree.get_cell_category false l macro_cell s = (Done 0%Z, s)
      /\ MatrixFree.get_cell_category true l macro_cell s
         = (Raised (ExcIndexRange macro_cell 0 0), s)).
Proof.
  intros Hdof. unfold MatrixFree.get_cell_category. split.
  - intros Hcell.
    rewrite (bind_done _ _ s s tt)
      by (apply (AssertIndexRange_passes DEBUG 0); exact Hdof).
    rewrite (bind_done _ _ s s tt) by (now apply AssertIndexRange_passes).
    destruct (length _) eqn:Hlen; [lia|]. reflexivity.
  - intros ->. split; [reflexivity|].
    rewrite (bind_done _ _ s s tt)
      by (apply (AssertIndexRange_passes true 0); exact Hdof).
    unfold MatrixFree.AssertIndexRange. rewrite bind_Assert. simpl length.
    replace ((0 <=? Z.of_nat macro_cell)%Z && (Z.of_nat macro_cell <? Z.of_nat 0)%Z)
      with false by (symmetry; apply andb_false_iff; right; apply Z.ltb_ge; lia).
    now rewrite Nat2Z.id.
Qed.

(** X19.  The three counts of face batches account for every face batch:
    when the partition data of the faces is there, with the bounds of the
    interior and of the boundary faces in order below the number of face
    batches, the counts of the interior, the boundary and the ghosted
    interior face batches add up to the number of face batches; when it
    is not there, all three are zero. *)
Theorem face_batches_add_up (l : MatrixFree.BatchLayout) :
  (MatrixFree.face_partition_data l = [] ->
   MatrixFree.n_inner_face_batches l = 0%Z
   /\ MatrixFree.n_boundary_face_batches l = 0%Z
   /\ MatrixFree.n_ghost_inner_face_batches l = 0%Z)
  /\ (MatrixFree.face_partition_data l <> [] ->
      (0 <= MatrixFree.back (MatrixFree.face_partition_data l)
       <= MatrixFree.back (MatrixFree.boundary_partition_data l))%Z ->
      (MatrixFree.back (MatrixFree.boundary_partition_data l)
       <= Z.of_nat (length (MatrixFree.faces l)) < 2 ^ 32)%Z ->
      (MatrixFree.n_inner_face_batches l + MatrixFree.n_boundary_face_batches l
       + MatrixFree.n_ghost_inner_face_batches l
       = Z.of_nat (length (MatrixFree.faces l)))%Z).
Proof.
  unfold MatrixFree.n_inner_face_batches, MatrixFree.n_boundary_face_batches,
    MatrixFree.n_ghost_inner_face_batches. split.
  - intros ->. auto.
  - intros Hdata Hinner Hboundary.
    destruct (Nat.eqb_spec (length (MatrixFree.face_partition_data l)) 0)
      as [Hempty|_]; [now apply nil_length_inv in Hempty|].
    unfold DoFTools.uint_sub.
    change (2 ^ 32)%Z with 4294967296%Z in *.
    rewrite !Z.mod_small by lia. lia.
Qed.

Lemma active_entries_of_cell_batch_witness :
  exists n,
    MatrixFree.n_active_entries_per_cell_batch true 4 BatchExamples.layout 1 tt
    = (Done n, tt)
    /\ 1 <= n <= 4
    /\ MatrixFree.at_irregular_cell true 4 BatchExamples.layout 1 tt
       = (Done (n <? 4), tt).
Proof.
  destruct (active_entries_of_cell_batch (St:=unit) true 4 ltac:(lia) ltac:(lia)
              BatchExamples.layout 1 tt) as (n & Hn & Hrange & _ & _ & Hirr).
  - vm_compute. lia.
  - exists n. auto.
Defined.

Example second_cell_batch_has_two_cells :
  MatrixFree.n_active_entries_per_cell_batch true 4 BatchExamples.layout 1 tt
  = (Done 2, tt).
Proof. reflexivity. Qed.

Lemma active_entries_of_face_batch_witness :
  exists n,
    MatrixFree.n_active_entries_per_face_batch true 4 BatchExamples.no_cell
      BatchExamples.layout 1 tt = (Done n, tt)
    /\ 1 <= n <= 4.
Proof.
  destruct (active_entries_of_face_batch (St:=unit) true 4 BatchExamples.no_cell
              ltac:(lia) ltac:(lia) BatchExamples.layout 1 tt)
    as (n & Hn & Hrange & _).
  - simpl. lia.
  - exists n. auto.
Defined.

Lemma boundary_ids_of_cell_batch_witness :
  exists result,
    MatrixFree.get_faces_by_cells_boundary_id true 4 255 4 BatchExamples.layout
      1 2 tt = (Done result, tt)
    /\ length result = 4.
Proof.
  destruct (boundary_ids_of_cell_batch (St:=unit) true 4 ltac:(lia) ltac:(lia)
              255 4 BatchExamples.layout 1 2 tt)
    as (n & result & _ & Hrun & Hlen & _).
  - vm_compute. lia.
  - vm_compute. discriminate.
  - lia.
  - vm_compute. lia.
  - exists result. auto.
Defined.

Example boundary_ids_of_second_batch :
  MatrixFree.get_faces_by_cells_boundary_id true 4 255 4 BatchExamples.layout
    1 2 tt = (Done [2; 3; 255; 255]%Z, tt).
Proof. reflexivity. Qed.

Lemma face_category_witness :
  exists first second,
    MatrixFree.get_face_category true 4 BatchExamples.no_cell
      BatchExamples.layout 0 tt = (Done (first, second), tt).
Proof.
  destruct (face_category (St:=unit) true 4 BatchExamples.no_cell
              BatchExamples.layout 0 tt) as (first & second & Hrun & _).
  - simpl. lia.
  - discriminate.
  - exists first, second. exact Hrun.
Defined.

(** the interior cells 0, 1, 2 have the indices 0, 2, 1 and the exterior
    cells 3, 4, 5 the indices 7, 3, 1: the second category is 2 *)
Example face_category_of_first_batch :
  MatrixFree.get_face_category true 4 BatchExamples.no_cell
    BatchExamples.layout 0 tt = (Done (2, 2)%Z, tt).
Proof. reflexivity. Qed.

Lemma cell_category_witness :
  MatrixFree.get_cell_category false BatchExamples.layout_without_hp 1 tt
  = (Done 0%Z, tt)
  /\ MatrixFree.get_cell_category true BatchExamples.layout_without_hp 1 tt
     = (Raised (ExcIndexRange 1 0 0), tt).
Proof.
  apply (cell_category (St:=unit) true BatchExamples.layout_without_hp 1 tt).
  - simpl. lia.
  - reflexivity.
Defined.

Lemma face_batches_add_up_witness :
  (MatrixFree.n_inner_face_batches BatchExamples.layout
   + MatrixFree.n_boundary_face_batches BatchExamples.layout
   + MatrixFree.n_ghost_inner_face_batches BatchExamples.layout = 3)%Z.
Proof.
  apply (face_batches_add_up BatchExamples.layout).
  - discriminate.
  - vm_compute. split; discriminate.
  - vm_compute. split; [discriminate|reflexivity].
Defined.

Lemma fixed_ret {S A : Type} (a : A) : fixed (S:=S) (ret a).
Proof. exists (Done a). reflexivity. Qed.

Lemma fixed_Assert {S : Type} (D c : bool) (e : Exc) : fixed (S:=S) (Assert D c e).
Proof.
  exists (if D && negb c then Raised e else Done tt). intros s.
  rewrite Assert_run. destruct (D && negb c); reflexivity.
Qed.

Lemma fixed_bind {S A B : Type} (m : Comp S A) (k : A -> Comp S B) :
  fixed m -> (forall a, fixed (k a)) -> fixed (bind m k).
Proof.
  intros [[a|e] Hm] Hk.
  - destruct (Hk a) as [o Ho]. exists o. intros s.
    rewrite (bind_done _ _ _ _ _ (Hm s)). apply Ho.
  - exists (Raised e). intros s. apply (bind_raised _ _ _ _ _ (Hm s)).
Qed.

Section Exchange.
Import MatrixFree.
Variable DEBUG : bool.
Variable WITH_MPI : bool.
Variable invalid_unsigned_int : Z.
Variable new_address : list nat -> nat.
Variable effect : Call -> (nat -> DistributedVector) -> nat -> DistributedVector.
Hypothesis new_address_fresh : forall alive, new_address alive ∉ alive.
Hypothesis layout_kept : keeps_layout effect.

Lemma fixed_n_components {S : Type} mf : fixed (S:=S) (n_components DEBUG mf).
Proof.
  unfold n_components, AssertDimension.
  apply fixed_bind; [apply fixed_Assert|intros _; apply fixed_ret].
Qed.

Lemma fixed_get_dof_info {S : Type} mf i : fixed (S:=S) (get_dof_info DEBUG mf i).
Proof.
  unfold get_dof_info, AssertIndexRange.
  apply fixed_bind; [apply fixed_n_components|intros n].
  apply fixed_bind; [apply fixed_Assert|intros _; apply fixed_ret].
Qed.

Lemma fixed_find_vector_in_mf {S : Type} mf v b :
  fixed (S:=S) (find_vector_in_mf DEBUG invalid_unsigned_int mf v b).
Proof.
  unfold find_vector_in_mf.
  apply fixed_bind; [apply fixed_n_components|intros n].
  induction (seq 0 n) as [|c rest IH]; simpl; [apply fixed_ret|].
  apply fixed_bind; [apply fixed_get_dof_info|intros info].
  destruct (if DEBUG && b then _ else _); [apply fixed_ret|exact IH].
Qed.

Lemma fixed_exchanger_get_partitioner {S : Type} mf access i :
  fixed (S:=S) (exchanger_get_partitioner DEBUG mf access i).
Proof.
  unfold exchanger_get_partitioner, AssertDimension.
  apply fixed_bind; [apply fixed_get_dof_info|intros info].
  apply fixed_bind; [apply fixed_Assert|intros _; apply fixed_ret].
Qed.

Lemma find_vector_same_partitioner {S : Type} mf v1 v2 b (s : S) :
  get_partitioner v1 = get_partitioner v2 ->
  find_vector_in_mf DEBUG invalid_unsigned_int mf v1 b s
  = find_vector_in_mf DEBUG invalid_unsigned_int mf v2 b s.
Proof.
  intros Hpart. unfold find_vector_in_mf.
  assert (Hfrom : forall cs,
    find_vector_in_mf_from (S:=S) DEBUG invalid_unsigned_int mf v1 b cs
    = find_vector_in_mf_from DEBUG invalid_unsigned_int mf v2 b cs).
  { induction cs as [|c rest IH]; simpl; [reflexivity|]. now rewrite Hpart, IH. }
  unfold bind. destruct (n_components DEBUG mf s) as [[n|e] s'];
    [now rewrite Hfrom|reflexivity].
Qed.

Lemma emit_run c s : emit effect c s = (Done tt, state_of (emit effect c s)).
Proof. reflexivity. Qed.

Lemma exchanger_emit x c s :
  exchanger x (state_of (emit effect c s)) = exchanger x s.
Proof. destruct x; reflexivity. Qed.

Lemma exchanger_set_ghosts_were_set x s :
  vector_face_access (exchanger x (set_ghosts_were_set x s))
  = vector_face_access (exchanger x s)
  /\ tmp_data (exchanger x (set_ghosts_were_set x s)) = tmp_data (exchanger x s).
Proof. destruct x; split; reflexivity. Qed.

Lemma exchanger_set_tmp_data x i p s :
  vector_face_access (exchanger x (set_tmp_data x i p s))
  = vector_face_access (exchanger x s)
  /\ tmp_data (exchanger x (set_tmp_data x i p s))
     = <[i := p]> (tmp_data (exchanger x s)).
Proof. destruct x; split; reflexivity. Qed.

Lemma on_scratch_pad_run {A : Type} (m : Comp (list ScratchItem) A) s o pad :
  m (scratch_pad_non_threadsafe s) = (o, pad) ->
  exists s', on_scratch_pad m s = (o, s')
             /\ scratch_pad_non_threadsafe s' = pad
             /\ vectors s' = vectors s
             /\ forall x, exchanger x s' = exchanger x s.
Proof.
  intros Hm. unfold on_scratch_pad. rewrite Hm. eexists. split; [reflexivity|].
  split; [reflexivity|]. split; [reflexivity|]. intros []; reflexivity.
Qed.

Lemma pad_emit c s :
  scratch_pad_non_threadsafe (state_of (emit effect c s))
  = scratch_pad_non_threadsafe s.
Proof. reflexivity. Qed.

Lemma vectors_emit c s :
  vectors (state_of (emit effect c s)) = effect c (vectors s).
Proof. reflexivity. Qed.

Lemma bind_emit {B : Type} c (k : unit -> Comp LoopState B) s :
  bind (emit effect c) k s = k tt (state_of (emit effect c s)).
Proof. reflexivity. Qed.

Lemma set_tmp_data_rest x i p s :
  scratch_pad_non_threadsafe (set_tmp_data x i p s) = scratch_pad_non_threadsafe s
  /\ vectors (set_tmp_data x i p s) = vectors s.
Proof. destruct x; split; reflexivity. Qed.

Lemma pad_restored_refl pad : pad_restored pad pad.
Proof. split; auto. Qed.

Lemma nth_insert_slot {X : Type} (l : list X) (i : nat) (y d : X) :
  i < length l -> nth i (<[i := y]> l) d = y.
Proof.
  intros Hi. rewrite nth_lookup, list_lookup_insert_eq by exact Hi. reflexivity.
Qed.

Lemma insert_back {X : Type} (l : list X) (i : nat) (y d : X) :
  i < length l -> nth i l d = y -> <[i := y]> l = l.
Proof.
  intros Hi Hy. apply list_insert_id.
  destruct (lookup_lt_is_Some_2 l i Hi) as [z Hz].
  rewrite nth_lookup, Hz in Hy. simpl in Hy. now subst.
Qed.

(** a buffer taken from the pad and put back *)
Lemma acquire_then_release pad p data' data'' :
  in_use p pad <> Some true ->
  in_use p data' = Some true ->
  (forall q, q <> p -> in_use q data' = in_use q pad) ->
  (forall q, q <> p -> in_use q data'' = in_use q data') ->
  in_use p data'' = Some false ->
  pad_restored pad data''.
Proof.
  intros Hbefore Hafter Hothers Hothers' Hfalse. split.
  - intros q b Hq. destruct (decide (q = p)) as [->|Hne].
    + destruct b; [contradiction|exact Hfalse].
    + now rewrite (Hothers' q Hne), (Hothers q Hne).
  - intros q Hq. destruct (decide (q = p)) as [->|Hne]; [congruence|].
    now rewrite <- (Hothers q Hne), <- (Hothers' q Hne).
Qed.

(** The two halves of an exchange, with the calls they make on the vector:
    the half that starts it, from the state [s'] in which it looks at the
    vector, and the half that finishes it. *)
Lemma exchange_round_trip x mf c v st s' st1
    (start_call finish_call : Call) (partial_start : nat -> nat -> Call)
    (partial_finish : nat -> LoopState -> Call) :
  pad_wf (scratch_pad_non_threadsafe st) ->
  c < length (tmp_data (exchanger x st)) ->
  tmp_data_at x c st = None ->
  vector_face_access (exchanger x s') = vector_face_access (exchanger x st) ->
  tmp_data (exchanger x s') = tmp_data (exchanger x st) ->
  vectors s' = vectors st ->
  scratch_pad_non_threadsafe s' = scratch_pad_non_threadsafe st ->
  (if is_unspecified (vector_face_access (exchanger x st))
      || (size (vectors st v) =? 0)
   then emit effect start_call
   else if WITH_MPI then
     do mf_component <- find_vector_in_mf DEBUG invalid_unsigned_int mf
                          (vectors st v) true;
     do part <- exchanger_get_partitioner DEBUG mf
                  (vector_face_access (exchanger x st)) mf_component;
     do info <- get_dof_info DEBUG mf mf_component;
     if part =? vector_partitioner info then emit effect start_call
     else if (n_ghost_indices (partitioner mf part) =? 0)
             && (n_import_indices (partitioner mf part) =? 0) then ret tt
     else
       do tmp <- on_scratch_pad (acquire_scratch_data_non_threadsafe new_address);
       modify (set_tmp_data x c (Some tmp)) ;;
       emit effect (partial_start part tmp)
   else ret tt) s' = (Done tt, st1) ->
  exists st2,
    (if is_unspecified (vector_face_access (exchanger x st1))
        || (size (vectors st1 v) =? 0)
     then emit effect finish_call
     else if WITH_MPI then
       AssertIndexRange DEBUG (Z.of_nat c) (length (tmp_data (exchanger x st1))) ;;
       do mf_component <- find_vector_in_mf DEBUG invalid_unsigned_int mf
                            (vectors st1 v) true;
       do part <- exchanger_get_partitioner DEBUG mf
                    (vector_face_access (exchanger x st1)) mf_component;
       do info <- get_dof_info DEBUG mf mf_component;
       if part =? vector_partitioner info then emit effect finish_call
       else if (n_ghost_indices (partitioner mf part) =? 0)
               && (n_import_indices (partitioner mf part) =? 0) then ret tt
       else
         emit effect (partial_finish part st1) ;;
         release_tmp_data DEBUG x c
     else ret tt) st1 = (Done tt, st2)
    /\ pad_restored (scratch_pad_non_threadsafe st) (scratch_pad_non_threadsafe st2)
    /\ tmp_data (exchanger x st2) = tmp_data (exchanger x st).
Proof.
  intros Hwf Hc Hnone Hacc' Htmp' Hvec' Hpad' Hstart.
  set (access := vector_face_access (exchanger x st)) in *.
  assert (Hkept : forall call s,
    vector_face_access (exchanger x s) = access ->
    vectors s = vectors st ->
    let s1 := state_of (emit effect call s) in
    vector_face_access (exchanger x s1) = access
    /\ size (vectors s1 v) = size (vectors st v)
    /\ get_partitioner (vectors s1 v) = get_partitioner (vectors st v)).
  { intros call s Ha Hv. cbv zeta. rewrite exchanger_emit, vectors_emit, Hv.
    destruct (layout_kept call (vectors st) v) as [Hsz Hp]. auto. }
  destruct (is_unspecified access || (size (vectors st v) =? 0)) eqn:Hcond.
  { (* the exchange of the vector itself *)
    assert (Hst1 : st1 = state_of (emit effect
              start_call s'))
      by (rewrite emit_run in Hstart; congruence).
    subst st1. clear Hstart.
    destruct (Hkept start_call
                s' Hacc' Hvec') as (Ha & Hsz & _).
    rewrite Ha, Hsz, Hcond. eexists. split; [apply emit_run|].
    rewrite !pad_emit, !exchanger_emit, Hpad', Htmp'.
    split; [apply pad_restored_refl|reflexivity]. }
  destruct WITH_MPI.
  2: { assert (Hst1 : st1 = s') by (unfold ret in Hstart; congruence).
       subst st1. clear Hstart. rewrite Hacc', Hvec', Hcond. eexists. split; [reflexivity|].
       rewrite Hpad', Htmp'. split; [apply pad_restored_refl|reflexivity]. }
  destruct (fixed_find_vector_in_mf (S:=LoopState) mf (vectors st v) true)
    as [[m|e] Hfind];
    [rewrite (bind_done _ _ _ _ _ (Hfind s')) in Hstart
    |rewrite (bind_raised _ _ _ _ _ (Hfind s')) in Hstart; discriminate].
  destruct (fixed_exchanger_get_partitioner (S:=LoopState) mf access m)
    as [[part|e] Hpart];
    [rewrite (bind_done _ _ _ _ _ (Hpart s')) in Hstart
    |rewrite (bind_raised _ _ _ _ _ (Hpart s')) in Hstart; discriminate].
  destruct (fixed_get_dof_info (S:=LoopState) mf m) as [[info|e] Hinfo];
    [rewrite (bind_done _ _ _ _ _ (Hinfo s')) in Hstart
    |rewrite (bind_raised _ _ _ _ _ (Hinfo s')) in Hstart; discriminate].
  (* the same route is taken at the finish *)
  assert (Hroute : forall {B : Type} (k : nat -> DoFInfo -> Comp LoopState B) s1,
    vector_face_access (exchanger x s1) = access ->
    get_partitioner (vectors s1 v) = get_partitioner (vectors st v) ->
    length (tmp_data (exchanger x s1)) = length (tmp_data (exchanger x st)) ->
    (AssertIndexRange DEBUG (Z.of_nat c) (length (tmp_data (exchanger x s1))) ;;
     do mf_component <- find_vector_in_mf DEBUG invalid_unsigned_int mf
                          (vectors s1 v) true;
     do part <- exchanger_get_partitioner DEBUG mf
                  (vector_face_access (exchanger x s1)) mf_component;
     do info <- get_dof_info DEBUG mf mf_component;
     k part info) s1 = k part info s1).
  { intros B k s1 Ha Hp Hlen.
    rewrite (bind_done _ _ s1 s1 tt)
      by (apply AssertIndexRange_passes; rewrite Hlen; exact Hc).
    rewrite (bind_done _ _ s1 s1 m)
      by (rewrite (find_vector_same_partitioner mf _ _ true s1 Hp); apply Hfind).
    rewrite Ha, (bind_done _ _ _ _ _ (Hpart s1)), (bind_done _ _ _ _ _ (Hinfo s1)).
    reflexivity. }
  assert (Hfinish : forall s1,
    vector_face_access (exchanger x s1) = access ->
    size (vectors s1 v) = size (vectors st v) ->
    get_partitioner (vectors s1 v) = get_partitioner (vectors st v) ->
    length (tmp_data (exchanger x s1)) = length (tmp_data (exchanger x st)) ->
    is_unspecified (vector_face_access (exchanger x s1)) || (size (vectors s1 v) =? 0)
    = false).
  { intros s1 Ha Hsz _ _. now rewrite Ha, Hsz. }
  destruct (part =? vector_partitioner info) eqn:Hsame.
  { assert (Hst1 : st1 = state_of (emit effect
              start_call s'))
      by (rewrite emit_run in Hstart; congruence).
    subst st1. clear Hstart.
    destruct (Hkept start_call
                s' Hacc' Hvec') as (Ha & Hsz & Hp).
    rewrite (Hfinish _ Ha Hsz Hp) by (now rewrite exchanger_emit, Htmp').
    rewrite Hroute by (assumption || now rewrite exchanger_emit, Htmp').
    rewrite Hsame. eexists. split; [apply emit_run|].
    rewrite !pad_emit, !exchanger_emit, Hpad', Htmp'.
    split; [apply pad_restored_refl|reflexivity]. }
  destruct ((n_ghost_indices (partitioner mf part) =? 0)
            && (n_import_indices (partitioner mf part) =? 0)) eqn:Hzero.
  { assert (Hst1 : st1 = s') by (unfold ret in Hstart; congruence).
    subst st1. clear Hstart.
    rewrite (Hfinish _ Hacc') by (now rewrite ?Hvec', ?Htmp').
    rewrite Hroute by (assumption || now rewrite ?Hvec', ?Htmp').
    rewrite Hsame, Hzero. eexists. split; [reflexivity|].
    rewrite Hpad', Htmp'. split; [apply pad_restored_refl|reflexivity]. }
  (* the partial exchange through a buffer of the pad *)
  assert (Hwf' : pad_wf (scratch_pad_non_threadsafe s')) by (now rewrite Hpad').
  destruct (acquire_spec new_address new_address_fresh _ Hwf')
    as (p & data' & Hacq & Hwf1 & Hbefore & Hafter & Hothers).
  destruct (on_scratch_pad_run _ s' _ _ Hacq) as (s1 & Hrun & Hpad1 & Hvec1 & Hex1).
  unfold acquire_scratch_data_non_threadsafe in Hstart.
  rewrite (bind_done _ _ _ _ _ Hrun), bind_modify, emit_run in Hstart.
  set (s2 := set_tmp_data x c (Some p) s1) in *.
  assert (Hst1 : st1 = state_of (emit effect
            (partial_start part p)
            s2)) by congruence.
  subst st1. clear Hstart.
  assert (Hacc2 : vector_face_access (exchanger x s2) = access).
  { subst s2. rewrite (proj1 (exchanger_set_tmp_data _ _ _ _)), Hex1. exact Hacc'. }
  assert (Htmp2 : tmp_data (exchanger x s2)
                  = <[c := Some p]> (tmp_data (exchanger x st))).
  { subst s2. now rewrite (proj2 (exchanger_set_tmp_data _ _ _ _)), Hex1, Htmp'. }
  assert (Hvec2 : vectors s2 = vectors st).
  { subst s2. now rewrite (proj2 (set_tmp_data_rest _ _ _ _)), Hvec1. }
  assert (Hpad2 : scratch_pad_non_threadsafe s2 = data').
  { subst s2. now rewrite (proj1 (set_tmp_data_rest _ _ _ _)). }
  clearbody s2.
  destruct (Hkept (partial_start part p) s2 Hacc2 Hvec2)
    as (Ha & Hsz & Hp).
  set (s3 := state_of (emit effect _ s2)) in *.
  assert (Htmp3 : tmp_data (exchanger x s3)
                  = <[c := Some p]> (tmp_data (exchanger x st)))
    by (subst s3; now rewrite exchanger_emit).
  assert (Hpad3 : scratch_pad_non_threadsafe s3 = data')
    by (subst s3; now rewrite pad_emit).
  clearbody s3.
  rewrite (Hfinish _ Ha Hsz Hp) by (now rewrite Htmp3, length_insert).
  rewrite Hroute by (assumption || now rewrite Htmp3, length_insert).
  rewrite Hsame, Hzero, bind_emit.
  unfold release_tmp_data. rewrite bind_get.
  set (finish := partial_finish part s3).
  assert (Hslot : tmp_data_at x c (state_of (emit effect finish s3)) = Some p).
  { unfold tmp_data_at. rewrite exchanger_emit, Htmp3. now apply nth_insert_slot. }
  rewrite Hslot.
  destruct (release_spec DEBUG p data' Hwf1) as (_ & Hothers' & Hrelease & _).
  destruct (Hrelease Hafter) as (data'' & Hrel & Hfalse).
  rewrite Hrel in Hothers'. cbn [state_of snd] in Hothers'.
  unfold release_scratch_data_non_threadsafe.
  destruct (on_scratch_pad_run (release_scratch_data DEBUG p)
              (state_of (emit effect finish s3)) (Done tt) data'')
    as (s4 & Hrun4 & Hpad4 & Hvec4 & Hex4); [now rewrite pad_emit, Hpad3|].
  rewrite (bind_done _ _ _ _ _ Hrun4).
  eexists. split; [reflexivity|].
  rewrite (proj1 (set_tmp_data_rest _ _ _ _)),
          (proj2 (exchanger_set_tmp_data _ _ _ _)), Hpad4, Hex4, exchanger_emit, Htmp3.
  split.
  - rewrite Hpad' in Hbefore, Hothers.
    exact (acquire_then_release _ p data' data'' Hbefore Hafter Hothers Hothers' Hfalse).
  - rewrite list_insert_insert_eq. now apply (insert_back _ _ _ None).
Qed.

(** X20.  An exchange of ghost values gives back what it takes.  Where
    [update_ghost_values_start] returns for a component whose slot of
    [tmp_data] is empty, on a pad of buffers with different addresses,
    [update_ghost_values_finish] for the same component and vector returns
    as well, and after it every buffer of the pad has the in-use flag it had
    before the start, no further buffer is in use, and [tmp_data] is what it
    was: the buffer acquired for a partial exchange is released. *)
Theorem exchange_returns_scratch_data x mf c v st st1 :
  pad_wf (scratch_pad_non_threadsafe st) ->
  c < length (tmp_data (exchanger x st)) ->
  tmp_data_at x c st = None ->
  exchanger_update_ghost_values_start DEBUG WITH_MPI invalid_unsigned_int
    new_address effect x mf c v st = (Done tt, st1) ->
  exists st2,
    exchanger_update_ghost_values_finish DEBUG WITH_MPI invalid_unsigned_int
      effect x mf c v st1 = (Done tt, st2)
    /\ pad_restored (scratch_pad_non_threadsafe st) (scratch_pad_non_threadsafe st2)
    /\ tmp_data (exchanger x st2) = tmp_data (exchanger x st).
Proof.
  intros Hwf Hc Hnone Hstart.
  unfold exchanger_update_ghost_values_start in Hstart.
  rewrite bind_get in Hstart. cbv zeta in Hstart.
  set (s' := if has_ghost_elements (vectors st v)
             then set_ghosts_were_set x st else st) in *.
  assert (Hs' : (if has_ghost_elements (vectors st v)
                 then modify (set_ghosts_were_set x) else ret tt) st = (Done tt, s')).
  { subst s'. destruct (has_ghost_elements (vectors st v)); reflexivity. }
  rewrite (bind_done _ _ _ _ _ Hs') in Hstart.
  assert (Hacc' : vector_face_access (exchanger x s')
                  = vector_face_access (exchanger x st)).
  { subst s'. destruct (has_ghost_elements _);
      [apply exchanger_set_ghosts_were_set|reflexivity]. }
  assert (Htmp' : tmp_data (exchanger x s') = tmp_data (exchanger x st)).
  { subst s'. destruct (has_ghost_elements _);
      [apply exchanger_set_ghosts_were_set|reflexivity]. }
  assert (Hvec' : vectors s' = vectors st).
  { subst s'. destruct (has_ghost_elements _); [destruct x|]; reflexivity. }
  assert (Hpad' : scratch_pad_non_threadsafe s' = scratch_pad_non_threadsafe st).
  { subst s'. destruct (has_ghost_elements _); [destruct x|]; reflexivity. }
  clearbody s'. clear Hs'.
  exact (exchange_round_trip x mf c v st s' st1 _ _ _
           (fun part _ => on_vector v (export_to_ghosted_array_finish part))
           Hwf Hc Hnone Hacc' Htmp' Hvec' Hpad' Hstart).
Qed.

(** X21.  The same for a compression: where [compress_start] returns for a
    component whose slot of [tmp_data] is empty, [compress_finish] for the
    same component and vector returns as well, and after it the buffers of
    the pad have the in-use flags they had before the start, no further
    buffer is in use, and [tmp_data] is what it was. *)
Theorem compression_returns_scratch_data x mf c v st st1 :
  pad_wf (scratch_pad_non_threadsafe st) ->
  c < length (tmp_data (exchanger x st)) ->
  tmp_data_at x c st = None ->
  exchanger_compress_start DEBUG WITH_MPI invalid_unsigned_int
    new_address effect x mf c v st = (Done tt, st1) ->
  exists st2,
    exchanger_compress_finish DEBUG WITH_MPI invalid_unsigned_int
      effect x mf c v st1 = (Done tt, st2)
    /\ pad_restored (scratch_pad_non_threadsafe st) (scratch_pad_non_threadsafe st2)
    /\ tmp_data (exchanger x st2) = tmp_data (exchanger x st).
Proof.
  intros Hwf Hc Hnone Hstart.
  unfold exchanger_compress_start in Hstart.
  rewrite bind_get, bind_Assert in Hstart. cbv zeta in Hstart.
  destruct (DEBUG && negb (negb (has_ghost_elements (vectors st v))));
    [discriminate|].
  exact (exchange_round_trip x mf c v st st st1 _ _ _
           (fun part s => on_vector v (import_from_ghosted_array_finish part
                            (default 0 (tmp_data_at x c s))))
           Hwf Hc Hnone eq_refl eq_refl eq_refl eq_refl Hstart).
Qed.

End Exchange.

Lemma exchange_returns_scratch_data_witness :
  exists st2,
    MatrixFree.exchanger_update_ghost_values_finish true true LoopExamples.no_index
      LoopExamples.ghost_effect MatrixFree.of_src ExchangeExamples.with_faces 0 1
      (state_of (MatrixFree.exchanger_update_ghost_values_start true true
                   LoopExamples.no_index bump_allocator LoopExamples.ghost_effect
                   MatrixFree.of_src ExchangeExamples.with_faces 0 1
                   ExchangeExamples.waiting))
    = (Done tt, st2)
    /\ pad_restored [] (MatrixFree.scratch_pad_non_threadsafe st2).
Proof.
  destruct (exchange_returns_scratch_data true true LoopExamples.no_index
              bump_allocator LoopExamples.ghost_effect bump_allocator_fresh
              ghost_effect_keeps_layout MatrixFree.of_src
              ExchangeExamples.with_faces 0 1 ExchangeExamples.waiting
              (state_of (MatrixFree.exchanger_update_ghost_values_start true true
                   LoopExamples.no_index bump_allocator LoopExamples.ghost_effect
                   MatrixFree.of_src ExchangeExamples.with_faces 0 1
                   ExchangeExamples.waiting)))
    as (st2 & Hrun & Hpad & _).
  - apply NoDup_nil_2.
  - simpl. lia.
  - reflexivity.
  - reflexivity.
  - exists st2. split; [exact Hrun|exact Hpad].
Defined.

(** the values of the source on the faces go through a buffer of the pad,
    which is free again afterwards *)
Example partial_exchange_of_values :
  let start := MatrixFree.exchanger_update_ghost_values_start true true
                 LoopExamples.no_index bump_allocator LoopExamples.ghost_effect
                 MatrixFree.of_src ExchangeExamples.with_faces 0 1 in
  let finish := MatrixFree.exchanger_update_ghost_values_finish true true
                  LoopExamples.no_index LoopExamples.ghost_effect
                  MatrixFree.of_src ExchangeExamples.with_faces 0 1 in
  let after := state_of ((start ;; finish) ExchangeExamples.waiting) in
  MatrixFree.calls after
  = [ MatrixFree.on_vector 1 (MatrixFree.export_to_ghosted_array_start 2 103 1);
      MatrixFree.on_vector 1 (MatrixFree.export_to_ghosted_array_finish 2) ]
  /\ MatrixFree.scratch_pad_non_threadsafe after
     = [ {| MatrixFree.first := false; MatrixFree.second := 1 |} ].
Proof. split; reflexivity. Qed.

Lemma compression_returns_scratch_data_witness :
  exists st2,
    MatrixFree.exchanger_compress_finish true true LoopExamples.no_index
      LoopExamples.ghost_effect MatrixFree.of_dst ExchangeExamples.with_faces 0 2
      (state_of (MatrixFree.exchanger_compress_start true true
                   LoopExamples.no_index bump_allocator LoopExamples.ghost_effect
                   MatrixFree.of_dst ExchangeExamples.with_faces 0 2
                   ExchangeExamples.waiting))
    = (Done tt, st2)
    /\ pad_restored [] (MatrixFree.scratch_pad_non_threadsafe st2).
Proof.
  destruct (compression_returns_scratch_data true true LoopExamples.no_index
              bump_allocator LoopExamples.ghost_effect bump_allocator_fresh
              ghost_effect_keeps_layout MatrixFree.of_dst
              ExchangeExamples.with_faces 0 2 ExchangeExamples.waiting
              (state_of (MatrixFree.exchanger_compress_start true true
                   LoopExamples.no_index bump_allocator LoopExamples.ghost_effect
                   MatrixFree.of_dst ExchangeExamples.with_faces 0 2
                   ExchangeExamples.waiting)))
    as (st2 & Hrun & Hpad & _).
  - apply NoDup_nil_2.
  - simpl. lia.
  - reflexivity.
  - reflexivity.
  - exists st2. split; [exact Hrun|exact Hpad].
Defined.

(** ** The distribution of cell data to the DoFs *)

Lemma nth_insert_ne {X : Type} (l : list X) (i k : nat) (y d : X) :
  k <> i -> nth k (<[i := y]> l) d = nth k l d.
Proof. intros Hne. now rewrite !nth_lookup, list_lookup_insert_ne. Qed.

Lemma for_each_snoc {S X : Type} (l : list X) (x : X) (body : X -> Comp S unit)
    (s s' : S) :
  for_each l body s = (Done tt, s') ->
  for_each (l ++ [x]) body s = body x s'.
Proof.
  intros Hrun. rewrite for_each_app, (bind_done _ _ _ _ _ Hrun). simpl.
  unfold bind, ret. now destruct (body x s') as [[[]|e] s2].
Qed.

Section Distribute.
Context {W : Type} `{Weight W}.
Variable DEBUG : bool.
Variable divide : W -> Z -> W.

(** the first pair of loops, on counts that start at zero *)
Lemma fold_add_contribution (l : list (Z * W)) (st : DoFTools.DistributeState) :
  (forall k, at_ (DoFTools.touch_count st) k = 0%Z) ->
  let st' := fold_left (fun st p => DoFTools.add_contribution (fst p) (snd p) st) l st in
  length (DoFTools.dof_data st') = length (DoFTools.dof_data st)
  /\ length (DoFTools.touch_count st') = length (DoFTools.touch_count st)
  /\ (forall k, k < length (DoFTools.dof_data st) ->
        nth k (DoFTools.dof_data st') w_zero
        = fold_left w_add (map snd (filter (fun p => Z.to_nat (fst p) = k) l))
                    (nth k (DoFTools.dof_data st) w_zero))
  /\ (forall k, k < length (DoFTools.touch_count st) ->
        at_ (DoFTools.touch_count st') k
        = (Z.of_nat (length (filter (fun p => Z.to_nat (fst p) = k) l)) mod 256)%Z).
Proof.
  intros Hzero. cbv zeta. induction l as [|p l IH] using rev_ind.
  - simpl. split; [reflexivity|]. split; [reflexivity|]. split; [reflexivity|].
    intros k _. apply Hzero.
  - rewrite fold_left_app. cbn [fold_left].
    set (st' := fold_left _ l st) in *.
    destruct IH as (Hlen & Hlen' & Hdata & Hcount).
    unfold DoFTools.add_contribution. cbv zeta. cbn [DoFTools.dof_data DoFTools.touch_count].
    rewrite !length_insert.
    split; [exact Hlen|]. split; [exact Hlen'|]. split.
    + intros k Hk. rewrite filter_app, map_app, fold_left_app, filter_cons, filter_nil.
      destruct (decide (Z.to_nat (fst p) = k)) as [Heq|Hne].
      * rewrite Heq. rewrite nth_insert_slot by lia. simpl. now rewrite Hdata.
      * rewrite nth_insert_ne by congruence. simpl. now apply Hdata.
    + intros k Hk. rewrite filter_app, length_app, filter_cons, filter_nil.
      destruct (decide (Z.to_nat (fst p) = k)) as [Heq|Hne].
      * rewrite Heq. unfold at_ at 1. rewrite nth_insert_slot by lia.
        rewrite (Hcount k Hk). simpl length.
        rewrite Zplus_mod_idemp_l. f_equal. lia.
      * unfold at_ at 1. rewrite nth_insert_ne by congruence.
        fold (at_ (DoFTools.touch_count st') k). rewrite (Hcount k Hk).
        simpl length. f_equal. lia.
Qed.

Lemma first_loops (dof : @DoFTools.DoFHandler W) (cell_data : list W)
    (component : nat) (st : DoFTools.DistributeState) :
  let fe := DoFTools.get_fe dof in
  for_each (combine (seq 0 (length (DoFTools.active_cells dof)))
                    (DoFTools.active_cells dof))
    (fun pc =>
       for_each (seq 0 (DoFTools.dofs_per_cell fe)) (fun i =>
         if negb (negb (DoFTools.n_components fe =? 1))
            || (DoFTools.system_to_component_index_first fe i =? component)
         then modify (DoFTools.add_contribution
                        (at_ (DoFTools.dof_indices (DoFTools.cell dof (snd pc))) i)
                        (nth (fst pc) cell_data w_zero))
         else ret tt)) st
  = (Done tt, fold_left (fun st p => DoFTools.add_contribution (fst p) (snd p) st)
                (contributions dof cell_data component) st).
Proof.
  cbv zeta. unfold contributions.
  apply for_each_fold_flat_map. intros pc s0.
  apply for_each_fold_flat_map. intros i s1.
  rewrite negb_involutive. destruct (_ || _); reflexivity.
Qed.

(** the last loop *)
Lemma last_loop (consider_components : bool) (n : nat)
    (s1 : DoFTools.DistributeState) :
  n <= length (DoFTools.dof_data s1) ->
  DEBUG = false \/ consider_components = true
  \/ (forall k, k < n -> at_ (DoFTools.touch_count s1) k <> 0%Z) ->
  exists s2,
    for_each (seq 0 n) (fun i =>
      do st <- get;
      Assert DEBUG (consider_components
                    || negb (at_ (DoFTools.touch_count st) i =? 0)%Z)
             ExcInternalError ;;
      if negb (at_ (DoFTools.touch_count st) i =? 0)%Z
      then modify (DoFTools.divide_by_count divide i)
      else ret tt) s1 = (Done tt, s2)
    /\ DoFTools.touch_count s2 = DoFTools.touch_count s1
    /\ length (DoFTools.dof_data s2) = length (DoFTools.dof_data s1)
    /\ forall k, k < length (DoFTools.dof_data s1) ->
         nth k (DoFTools.dof_data s2) w_zero
         = if (k <? n) && negb (at_ (DoFTools.touch_count s1) k =? 0)%Z
           then divide (nth k (DoFTools.dof_data s1) w_zero)
                       (at_ (DoFTools.touch_count s1) k)
           else nth k (DoFTools.dof_data s1) w_zero.
Proof.
  induction n as [|n IH]; intros Hn Hpass.
  - exists s1. split; [reflexivity|]. split; [reflexivity|]. split; [reflexivity|].
    intros k _. reflexivity.
  - destruct IH as (s2 & Hrun & Htouch & Hlen & Hdata); [lia| |].
    { destruct Hpass as [Hd|[Hc|Hall]]; [now left|now right; left|].
      right; right. intros k Hk. apply Hall. lia. }
    rewrite seq_S, (for_each_snoc _ _ _ _ _ Hrun).
    cbn [Nat.add]. rewrite bind_get, Htouch, bind_Assert.
    assert (Hcheck : DEBUG && negb (consider_components
                       || negb (at_ (DoFTools.touch_count s1) n =? 0)%Z) = false).
    { destruct Hpass as [->|[->|Hall]]; [reflexivity|apply andb_false_r|].
      rewrite (proj2 (Z.eqb_neq _ _) (Hall n ltac:(lia))).
      cbn [negb]. rewrite orb_true_r. apply andb_false_r. }
    rewrite Hcheck.
    destruct (at_ (DoFTools.touch_count s1) n =? 0)%Z eqn:Hzero; cbn [negb].
    + exists s2. split; [reflexivity|]. split; [exact Htouch|]. split; [exact Hlen|].
      intros k Hk. rewrite (Hdata k Hk).
      destruct (decide (k = n)) as [->|Hne].
      * rewrite Hzero. cbn [negb]. now rewrite !andb_false_r.
      * destruct (Nat.ltb_spec k n), (Nat.ltb_spec k (Datatypes.S n));
          reflexivity || lia.
    + eexists. split; [reflexivity|].
      unfold DoFTools.divide_by_count.
      cbn [DoFTools.dof_data DoFTools.touch_count state_of snd].
      rewrite length_insert.
      split; [exact Htouch|]. split; [exact Hlen|].
      intros k Hk. destruct (decide (k = n)) as [->|Hne].
      * rewrite nth_insert_slot by lia. rewrite (Hdata n Hk), Htouch, Hzero.
        rewrite Nat.ltb_irrefl, (proj2 (Nat.ltb_lt n (Datatypes.S n))) by lia.
        reflexivity.
      * rewrite nth_insert_ne by exact Hne. rewrite (Hdata k Hk).
        destruct (Nat.ltb_spec k n), (Nat.ltb_spec k (Datatypes.S n));
          reflexivity || lia.
Qed.

(** the last loop in a checked build, for an element with one component *)
Lemma last_loop_raises (n : nat) (s1 : DoFTools.DistributeState) :
  DEBUG = true ->
  (exists k, k < n /\ at_ (DoFTools.touch_count s1) k = 0%Z) ->
  outcome_of
    (for_each (seq 0 n) (fun i =>
       do st <- get;
       Assert DEBUG (false || negb (at_ (DoFTools.touch_count st) i =? 0)%Z)
              ExcInternalError ;;
       if negb (at_ (DoFTools.touch_count st) i =? 0)%Z
       then modify (DoFTools.divide_by_count divide i)
       else ret tt) s1) = Raised ExcInternalError.
Proof.
  intros Hdebug Hsome.
  set (body := fun i : nat => _).
  assert (Heither : forall m,
    (exists s2, for_each (seq 0 m) body s1 = (Done tt, s2)
                /\ DoFTools.touch_count s2 = DoFTools.touch_count s1
                /\ forall j, j < m -> at_ (DoFTools.touch_count s1) j <> 0%Z)
    \/ outcome_of (for_each (seq 0 m) body s1) = Raised ExcInternalError).
  { induction m as [|m [(s2 & Hrun & Htouch & Hall)|Hraised]].
    - left. exists s1. split; [reflexivity|]. split; [reflexivity|]. lia.
    - rewrite seq_S, (for_each_snoc _ _ _ _ _ Hrun). cbn [Nat.add].
      subst body. cbv beta. rewrite bind_get, Htouch, bind_Assert, Hdebug.
      destruct (at_ (DoFTools.touch_count s1) m =? 0)%Z eqn:Hzero; cbn [negb orb andb].
      + now right.
      + left. eexists. split; [reflexivity|]. split; [exact Htouch|].
        intros j Hj. destruct (decide (j = m)) as [->|Hne].
        * now apply Z.eqb_neq.
        * apply Hall. lia.
    - right. rewrite seq_S, for_each_app. unfold bind.
      destruct (for_each (seq 0 m) body s1) as [[[]|e] s']; simpl in Hraised;
        [discriminate|]. simpl. congruence. }
  destruct (Heither n) as [(s2 & _ & _ & Hall)|Hraised]; [|exact Hraised].
  destruct Hsome as (k & Hk & Hzero). now destruct (Hall k Hk).
Qed.

(** X22.  What [distribute_cell_to_dof_vector] computes.  With vectors of
    the right sizes, a component of the element and DoF indices of the
    handler, and unless a checked build meets a DoF of an element with one
    component whose count of summands is zero, the routine returns normally
    and keeps the length of [dof_data]; the entry of a DoF holds what it
    held before plus the data of the cells that touch it, in the order of
    the traversal, divided by their count if that is not zero.  The old
    contents of [dof_data] enter the result, and the count is the number of
    summands modulo 256. *)
Theorem distribute_cell_data (dof : @DoFTools.DoFHandler W) (cell_data : list W)
    (component : nat) (st : DoFTools.DistributeState) :
  length cell_data = length (DoFTools.active_cells dof) ->
  Z.of_nat (length (DoFTools.dof_data st)) = DoFTools.n_dofs dof ->
  component < DoFTools.n_components (DoFTools.get_fe dof) ->
  cell_indices_in_range dof ->
  DEBUG = false \/ DoFTools.n_components (DoFTools.get_fe dof) <> 1
  \/ (forall k, k < length (DoFTools.dof_data st) ->
        counted dof cell_data component k <> 0%Z) ->
  exists st',
    DoFTools.distribute_cell_to_dof_vector DEBUG divide dof cell_data component st
    = (Done tt, st')
    /\ length (DoFTools.dof_data st') = length (DoFTools.dof_data st)
    /\ forall k, k < length (DoFTools.dof_data st) ->
         nth k (DoFTools.dof_data st') w_zero
         = let total := fold_left w_add (summands dof cell_data component k)
                                  (nth k (DoFTools.dof_data st) w_zero) in
           if (counted dof cell_data component k =? 0)%Z then total
           else divide total (counted dof cell_data component k).
Proof.
  intros Hcells Hdofs Hcomponent _ Hpass.
  unfold DoFTools.distribute_cell_to_dof_vector. cbv zeta.
  rewrite bind_get, bind_Assert, Hcells, Nat.eqb_refl. cbn [negb].
  rewrite andb_false_r, bind_Assert, (proj2 (Z.eqb_eq _ _) Hdofs). cbn [negb].
  rewrite andb_false_r, bind_Assert, (proj2 (Nat.ltb_lt _ _) Hcomponent).
  cbn [negb]. rewrite andb_false_r, bind_modify.
  set (s0 := {| DoFTools.dof_data := DoFTools.dof_data st;
                DoFTools.touch_count := replicate _ 0%Z |}).
  rewrite (bind_done _ _ _ _ _ (first_loops dof cell_data component s0)).
  destruct (fold_add_contribution (contributions dof cell_data component) s0)
    as (Hlen & Hlen' & Hdata & Hcount).
  { intros k. subst s0. cbn [DoFTools.touch_count]. unfold at_.
    destruct (decide (k < Z.to_nat (DoFTools.n_dofs dof))) as [Hk|Hk].
    - apply (nth_lookup_Some _ _ _ _ (lookup_replicate_2 _ _ _ Hk)).
    - apply nth_overflow. rewrite length_replicate. lia. }
  set (s1 := fold_left _ _ s0) in *.
  subst s0. cbn [DoFTools.dof_data DoFTools.touch_count] in Hlen, Hlen', Hdata, Hcount.
  rewrite length_replicate in Hlen', Hcount.
  assert (Hn : Z.to_nat (DoFTools.n_dofs dof) = length (DoFTools.dof_data st)) by lia.
  rewrite Hn in *.
  destruct (last_loop (negb (DoFTools.n_components (DoFTools.get_fe dof) =? 1))
              (length (DoFTools.dof_data st)) s1)
    as (s2 & Hrun & _ & Hlen2 & Hdata2); [lia| |].
  { destruct Hpass as [Hd|[Hc|Hall]]; [now left|right; left|right; right].
    - now rewrite (proj2 (Nat.eqb_neq _ _) Hc).
    - intros k Hk. rewrite (Hcount k Hk). specialize (Hall k Hk).
      unfold counted, summands in Hall. now rewrite length_map in Hall. }
  exists s2. split; [exact Hrun|]. split; [lia|].
  intros k Hk. rewrite (Hdata2 k) by lia. rewrite (Hcount k Hk), (Hdata k Hk).
  rewrite (proj2 (Nat.ltb_lt _ _) Hk). cbn [andb]. cbv zeta.
  unfold counted, summands. rewrite length_map.
  destruct (_ =? 0)%Z; reflexivity.
Qed.

(** X23.  In a checked build [distribute_cell_to_dof_vector] refuses, for
    an element with one component, a DoF whose count of summands (their
    number modulo 256) is zero, as that of a DoF that belongs to no active
    cell is: with vectors of the right sizes the routine raises
    [ExcInternalError]. *)
Theorem distribute_refuses_untouched_dof (dof : @DoFTools.DoFHandler W)
    (cell_data : list W) (st : DoFTools.DistributeState) (k : nat) :
  DEBUG = true ->
  length cell_data = length (DoFTools.active_cells dof) ->
  Z.of_nat (length (DoFTools.dof_data st)) = DoFTools.n_dofs dof ->
  DoFTools.n_components (DoFTools.get_fe dof) = 1 ->
  k < length (DoFTools.dof_data st) ->
  counted dof cell_data 0 k = 0%Z ->
  outcome_of (DoFTools.distribute_cell_to_dof_vector DEBUG divide dof cell_data 0 st)
  = Raised ExcInternalError.
Proof.
  intros Hdebug Hcells Hdofs Hone Hk Hzero.
  unfold DoFTools.distribute_cell_to_dof_vector. cbv zeta.
  rewrite bind_get, bind_Assert, Hcells, Nat.eqb_refl. cbn [negb].
  rewrite andb_false_r, bind_Assert, (proj2 (Z.eqb_eq _ _) Hdofs). cbn [negb].
  rewrite andb_false_r, bind_Assert, Hone. cbn [Nat.ltb Nat.leb negb].
  rewrite andb_false_r, bind_modify.
  set (s0 := {| DoFTools.dof_data := DoFTools.dof_data st;
                DoFTools.touch_count := replicate _ 0%Z |}).
  pose proof (first_loops dof cell_data 0 s0) as Hfirst. cbv zeta in Hfirst.
  rewrite Hone in Hfirst. rewrite (bind_done _ _ _ _ _ Hfirst).
  destruct (fold_add_contribution (contributions dof cell_data 0) s0)
    as (Hlen & Hlen' & _ & Hcount).
  { intros j. subst s0. cbn [DoFTools.touch_count]. unfold at_.
    destruct (decide (j < Z.to_nat (DoFTools.n_dofs dof))) as [Hj|Hj].
    - apply (nth_lookup_Some _ _ _ _ (lookup_replicate_2 _ _ _ Hj)).
    - apply nth_overflow. rewrite length_replicate. lia. }
  set (s1 := fold_left _ _ s0) in *.
  subst s0. cbn [DoFTools.dof_data DoFTools.touch_count] in Hlen, Hlen', Hcount.
  rewrite length_replicate in Hlen', Hcount.
  cbn [Nat.eqb negb].
  apply last_loop_raises; [exact Hdebug|].
  exists k. split; [lia|]. rewrite Hcount by lia.
  unfold counted, summands in Hzero. now rewrite length_map in Hzero.
Qed.

End Distribute.

Lemma distribute_cell_data_witness :
  exists st',
    DoFTools.distribute_cell_to_dof_vector true DistributeExamples.divide
      DistributeExamples.two_squares [2#1; 4#1]%Q 0
      {| DoFTools.dof_data := replicate 6 (0#1)%Q; DoFTools.touch_count := [] |}
    = (Done tt, st')
    /\ length (DoFTools.dof_data st') = 6.
Proof.
  destruct (distribute_cell_data true DistributeExamples.divide
              DistributeExamples.two_squares [2#1; 4#1]%Q 0
              {| DoFTools.dof_data := replicate 6 (0#1)%Q;
                 DoFTools.touch_count := [] |})
    as (st' & Hrun & Hlen & _).
  - reflexivity.
  - reflexivity.
  - simpl. lia.
  - intros c i Hc Hi.
    apply elem_of_cons in Hc as [->|Hc];
      [|apply list_elem_of_singleton in Hc; subst c];
      (do 4 (destruct i as [|i]; [unfold at_; simpl; lia|])); simpl in Hi; lia.
  - right; right. intros k Hk.
    do 6 (destruct k as [|k]; [vm_compute; discriminate|]). simpl in Hk. lia.
  - exists st'. split; [exact Hrun|exact Hlen].
Defined.

Lemma distribute_refuses_untouched_dof_witness :
  outcome_of
    (DoFTools.distribute_cell_to_dof_vector true DistributeExamples.divide
       DistributeExamples.with_stray_dof [2#1; 4#1]%Q 0
       {| DoFTools.dof_data := replicate 7 (0#1)%Q; DoFTools.touch_count := [] |})
  = Raised ExcInternalError.
Proof.
  apply (distribute_refuses_untouched_dof true DistributeExamples.divide
           DistributeExamples.with_stray_dof [2#1; 4#1]%Q
           {| DoFTools.dof_data := replicate 7 (0#1)%Q;
              DoFTools.touch_count := [] |} 6).
  - reflexivity.
  - reflexivity.
  - reflexivity.
  - reflexivity.
  - simpl. lia.
  - reflexivity.
Defined.

(** the DoFs 1 and 4 belong to both squares and get the mean of the two data *)
Example distribute_on_two_squares :
  DoFTools.dof_data
    (state_of (DoFTools.distribute_cell_to_dof_vector true DistributeExamples.divide
                 DistributeExamples.two_squares [2#1; 4#1]%Q 0
                 {| DoFTools.dof_data := replicate 6 (0#1)%Q;
                    DoFTools.touch_count := [] |}))
  = [2#1; 6#2; 4#1; 2#1; 6#2; 4#1]%Q.
Proof. reflexivity. Qed.

(** ** Meshes without hanging nodes *)

(** X24.  On a mesh in which no face of an active cell has children,
    [make_hanging_node_constraints] for two dimensions returns normally and
    adds nothing to the constraint matrix, in every build and whatever the
    table of the element: the table is looked at for a marked line only. *)
Theorem conforming_mesh_has_no_constraints {W : Type} `{Weight W} (DEBUG : bool)
    (geo : GeometryInfo) (dof_handler : @DoFTools.DoFHandler W)
    (st : DoFTools.HangingNodeState) :
  (forall l, l ∈ DoFTools.all_lines dof_handler ->
             marked_line geo dof_handler l = false) ->
  exists st',
    DoFTools.make_hanging_node_constraints_2d DEBUG geo dof_handler st
    = (Done tt, st')
    /\ DoFTools.constraint_matrix st' = DoFTools.constraint_matrix st.
Proof.
  intros Hnone. unfold DoFTools.make_hanging_node_constraints_2d.
  destruct (clear_loop (DoFTools.all_lines dof_handler) st)
    as (s1 & Hr1 & Hcm1 & Hfl1).
  destruct (mark_loop geo dof_handler s1) as (s2 & Hr2 & Hcm2 & Hfl2).
  rewrite !(bind_done _ _ _ _ _ Hr1), !(bind_done _ _ _ _ _ Hr2).
  exists s2. split; [|congruence].
  assert (Hflags : forall l, l ∈ DoFTools.all_lines dof_handler ->
                             l ∉ DoFTools.line_flags s2).
  { intros l Hl. rewrite Hfl2, Hfl1. intros [[_ Hout]|Hmarked]; [now apply Hout|].
    apply (marked_line_spec geo dof_handler) in Hmarked.
    rewrite (Hnone l Hl) in Hmarked. discriminate. }
  revert Hflags. generalize (DoFTools.all_lines dof_handler) as lines.
  induction lines as [|l lines IH]; intros Hflags; [reflexivity|].
  cbn [for_each]. unfold bind at 1, DoFTools.constrain_line at 1.
  rewrite bind_get. rewrite bool_decide_eq_false_2 by (apply Hflags; left).
  apply IH. intros l' Hl'. apply Hflags. now right.
Qed.

(** the square has no refined face, and the table of its element has not
    the dimensions that the routine asks for *)
Lemma conforming_mesh_has_no_constraints_witness :
  exists st',
    DoFTools.make_hanging_node_constraints_2d true Examples.quad MoreExamples.square
      {| DoFTools.constraint_matrix := []; DoFTools.line_flags := {[ 1; 7 ]} |}
    = (Done tt, st')
    /\ DoFTools.constraint_matrix st' = [].
Proof.
  apply (conforming_mesh_has_no_constraints true Examples.quad MoreExamples.square
           {| DoFTools.constraint_matrix := []; DoFTools.line_flags := {[ 1; 7 ]} |}).
  intros l _. reflexivity.
Defined.

(** ** Hanging nodes in three dimensions *)

Section HangingNodes3d.
Context {W : Type} `{Weight W}.
Variable DEBUG : bool.
Variable geo : GeometryInfo.
Variable d : @DoFTools.DoFHandler3 W.

Local Abbreviation fe := (DoFTools.get_fe (DoFTools.handler d)).

Lemma length_dofs_on_mother_3d f :
  length (DoFTools.dofs_on_mother_3d d f)
  = 4 * DoFTools.dofs_per_vertex fe + 4 * DoFTools.dofs_per_line fe
    + DoFTools.dofs_per_quad d.
Proof.
  unfold DoFTools.dofs_on_mother_3d. cbn [seq flat_map].
  rewrite !length_app, !length_map, !length_seq. simpl. lia.
Qed.

Lemma length_dofs_on_children_3d f :
  length (DoFTools.dofs_on_children_3d d f)
  = 5 * DoFTools.dofs_per_vertex fe + 12 * DoFTools.dofs_per_line fe
    + 4 * DoFTools.dofs_per_quad d.
Proof.
  unfold DoFTools.dofs_on_children_3d. cbn [seq flat_map].
  rewrite !length_app, !length_map, !length_seq. simpl. lia.
Qed.

(** the rows emitted for one face *)
Lemma face_rows_append (children mother : list Z) :
  appends append_calls
    (for_each (seq 0 (length children)) (fun row =>
       modify (DoFTools.constraints_call (add_line (at_ children row))) ;;
       for_each (seq 0 (length mother)) (fun i =>
         modify (DoFTools.constraints_call
                   (add_entry (at_ children row) (at_ mother i)
                              (el (DoFTools.constraints fe) row i))))))
    (constraint_rows (DoFTools.constraints fe) children mother).
Proof.
  unfold constraint_rows.
  apply (appends_for_each _ append_calls_nil append_calls_app). intros row _.
  change (add_line (at_ children row) :: ?t)
    with ([add_line (W:=W) (at_ children row)] ++ t).
  apply (appends_seq _ append_calls_app); [intros s; reflexivity|].
  rewrite map_as_flat_map.
  apply (appends_for_each _ append_calls_nil append_calls_app). intros i _ s.
  reflexivity.
Qed.

(** the body of the loop over the faces, when the table has the dimensions
    asked for *)
Lemma constrain_face_run f (s : @DoFTools.HangingNodeState W) :
  DEBUG = false \/ table_matches_3d d ->
  (f ∈ DoFTools.line_flags s <-> marked_line geo (DoFTools.handler d) f = true) ->
  DoFTools.constrain_face DEBUG d f s
  = if marked_line geo (DoFTools.handler d) f
    then if DEBUG && negb (DoFTools.center_vertex_agrees d f)
         then (Raised ExcInternalError, s)
         else (Done tt,
               append_calls
                 (constraint_rows (DoFTools.constraints fe)
                    (DoFTools.dofs_on_children_3d d f)
                    (DoFTools.dofs_on_mother_3d d f)) s)
    else (Done tt, s).
Proof.
  intros Hok Hfl. unfold DoFTools.constrain_face. rewrite bind_get.
  destruct (marked_line geo (DoFTools.handler d) f) eqn:Hm.
  - rewrite bool_decide_eq_true_2 by (now apply Hfl).
    cbv zeta.
    assert (Hcheck : forall a b, a = b \/ DEBUG = false ->
                                 DEBUG && negb (a =? b) = false).
    { intros a b [-> | ->]; [|reflexivity]. rewrite Nat.eqb_refl. apply andb_false_r. }
    assert (Hn : 4 * DoFTools.dofs_per_vertex fe + 4 * DoFTools.dofs_per_line fe
                 + DoFTools.dofs_per_quad d = fm_n (DoFTools.constraints fe)
                 \/ DEBUG = false) by (destruct Hok as [?|[? ?]]; auto).
    assert (Hm' : 5 * DoFTools.dofs_per_vertex fe + 12 * DoFTools.dofs_per_line fe
                  + 4 * DoFTools.dofs_per_quad d = fm_m (DoFTools.constraints fe)
                  \/ DEBUG = false) by (destruct Hok as [?|[? ?]]; auto).
    rewrite bind_Assert, (Hcheck _ _ Hn), bind_Assert, (Hcheck _ _ Hm'), bind_Assert.
    destruct (DEBUG && negb (DoFTools.center_vertex_agrees d f)); [reflexivity|].
    rewrite bind_Assert, Hcheck
      by (rewrite length_dofs_on_children_3d; exact Hm').
    rewrite bind_Assert, Hcheck
      by (rewrite length_dofs_on_mother_3d; exact Hn).
    apply face_rows_append.
  - rewrite bool_decide_eq_false_2; [reflexivity|].
    intros Hin. apply Hfl in Hin. congruence.
Qed.

(** the loop over the faces *)
Lemma face_loop (faces : list nat) (s : @DoFTools.HangingNodeState W) :
  DEBUG = false \/ table_matches_3d d ->
  (forall f, f ∈ faces ->
     f ∈ DoFTools.line_flags s <-> marked_line geo (DoFTools.handler d) f = true) ->
  (exists s', for_each faces (DoFTools.constrain_face DEBUG d) s = (Done tt, s')
              /\ s' = append_calls (constraints_of_faces geo d faces) s
              /\ (DEBUG = true ->
                  forall f, f ∈ faces -> marked_line geo (DoFTools.handler d) f = true ->
                            DoFTools.center_vertex_agrees d f = true))
  \/ (outcome_of (for_each faces (DoFTools.constrain_face DEBUG d) s)
      = Raised ExcInternalError
      /\ DEBUG = true
      /\ exists f, f ∈ faces /\ marked_line geo (DoFTools.handler d) f = true
                   /\ DoFTools.center_vertex_agrees d f = false).
Proof.
  intros Hok. revert s. induction faces as [|f faces IH]; intros s Hfl.
  - left. exists s. split; [reflexivity|].
    split; [unfold constraints_of_faces; simpl; now rewrite append_calls_nil|].
    intros _ f Hf. now apply elem_of_nil in Hf.
  - cbn [for_each].
    pose proof (constrain_face_run f s Hok (Hfl f ltac:(left))) as Hstep.
    unfold constraints_of_faces. cbn [flat_map].
    fold (constraints_of_faces geo d faces).
    destruct (marked_line geo (DoFTools.handler d) f) eqn:Hm.
    + destruct DEBUG eqn:Hdebug; cbn [andb] in Hstep.
      * destruct (DoFTools.center_vertex_agrees d f) eqn:Hagree; cbn [negb] in Hstep.
        -- rewrite !(bind_done _ _ _ _ _ Hstep).
           destruct (IH (append_calls (constraint_rows (DoFTools.constraints fe)
                           (DoFTools.dofs_on_children_3d d f)
                           (DoFTools.dofs_on_mother_3d d f)) s))
             as [(s' & Hrun & Hs' & Hall)|(Hraised & _ & f' & Hf' & Hm' & Hbad)].
           ++ intros f' Hf'. simpl. apply Hfl. now right.
           ++ left. exists s'. split; [exact Hrun|].
              split; [now rewrite Hs', append_calls_app|].
              intros _ f' Hf' Hm'. apply elem_of_cons in Hf' as [-> |Hf'];
                [exact Hagree|now apply Hall].
           ++ right. split; [exact Hraised|]. split; [reflexivity|].
              exists f'. split; [now right|]. split; [exact Hm'|exact Hbad].
        -- rewrite !(bind_raised _ _ _ _ _ Hstep).
           right. split; [reflexivity|]. split; [reflexivity|].
           exists f. split; [left|]. split; [exact Hm|exact Hagree].
      * rewrite !(bind_done _ _ _ _ _ Hstep).
        destruct (IH (append_calls (constraint_rows (DoFTools.constraints fe)
                        (DoFTools.dofs_on_children_3d d f)
                        (DoFTools.dofs_on_mother_3d d f)) s))
          as [(s' & Hrun & Hs' & _)|(_ & Hd & _)]; [| |discriminate Hd].
        -- intros f' Hf'. simpl. apply Hfl. now right.
        -- left. exists s'. split; [exact Hrun|].
           split; [now rewrite Hs', append_calls_app|]. discriminate.
    + rewrite !(bind_done _ _ _ _ _ Hstep).
      destruct (IH s) as [(s' & Hrun & Hs' & Hall)|(Hraised & Hd & f' & Hf' & Hm' & Hbad)].
      * intros f' Hf'. apply Hfl. now right.
      * left. exists s'. split; [exact Hrun|]. split; [exact Hs'|].
        intros Hd f' Hf' Hm'. apply elem_of_cons in Hf' as [-> |Hf'];
          [congruence|now apply Hall].
      * right. split; [exact Hraised|]. split; [exact Hd|].
        exists f'. split; [now right|]. split; [exact Hm'|exact Hbad].
Qed.

(** the flags after the first two loops *)
Lemma faces_marked (st : @DoFTools.HangingNodeState W) :
  exists s2,
    (for_each (DoFTools.all_faces d) (fun face =>
       modify (DoFTools.line_clear_user_flag face)) ;;
     for_each (DoFTools.active_cells (DoFTools.handler d)) (fun c =>
       for_each (seq 0 (faces_per_cell geo)) (fun f =>
         let cf := DoFTools.face (DoFTools.cell (DoFTools.handler d) c) f in
         if DoFTools.face_has_children (DoFTools.face_obj (DoFTools.handler d) cf)
         then modify (DoFTools.line_set_user_flag cf)
         else ret tt))) st = (Done tt, s2)
    /\ DoFTools.constraint_matrix s2 = DoFTools.constraint_matrix st
    /\ forall f, f ∈ DoFTools.all_faces d ->
         f ∈ DoFTools.line_flags s2
         <-> marked_line geo (DoFTools.handler d) f = true.
Proof.
  destruct (clear_loop (DoFTools.all_faces d) st) as (s1 & Hr1 & Hcm1 & Hfl1).
  destruct (mark_loop geo (DoFTools.handler d) s1) as (s2 & Hr2 & Hcm2 & Hfl2).
  exists s2. rewrite (bind_done _ _ _ _ _ Hr1). split; [exact Hr2|].
  split; [congruence|].
  intros f Hf. rewrite Hfl2, Hfl1, marked_line_spec. tauto.
Qed.

(** X25.  [make_hanging_node_constraints] for three dimensions.  The
    routine gathers [4 dofs_per_vertex + 4 dofs_per_line + dofs_per_quad]
    mother DoFs and [5 dofs_per_vertex + 12 dofs_per_line + 4 dofs_per_quad]
    child DoFs for a face.  In a release build, and in a checked build when
    the table of the element has these dimensions and the children of every
    marked face agree on the DoF at the center, it returns normally, having
    emitted for every refined face of an active cell, in the order of the
    faces, one constraint line per child DoF with one entry per mother DoF,
    weighted by the table's value at (row, column). *)
Theorem hanging_node_constraints_3d (st : @DoFTools.HangingNodeState W) :
  (forall f,
     length (DoFTools.dofs_on_mother_3d d f)
     = 4 * DoFTools.dofs_per_vertex fe + 4 * DoFTools.dofs_per_line fe
       + DoFTools.dofs_per_quad d
     /\ length (DoFTools.dofs_on_children_3d d f)
        = 5 * DoFTools.dofs_per_vertex fe + 12 * DoFTools.dofs_per_line fe
          + 4 * DoFTools.dofs_per_quad d)
  /\ (DEBUG = false
      \/ (table_matches_3d d
          /\ forall f, f ∈ DoFTools.all_faces d ->
               marked_line geo (DoFTools.handler d) f = true ->
               DoFTools.center_vertex_agrees d f = true) ->
      exists st',
        DoFTools.make_hanging_node_constraints_3d DEBUG geo d st = (Done tt, st')
        /\ DoFTools.constraint_matrix st'
           = DoFTools.constraint_matrix st
             ++ constraints_of_faces geo d (DoFTools.all_faces d)).
Proof.
  split; [intros f; split;
          [apply length_dofs_on_mother_3d|apply length_dofs_on_children_3d]|].
  intros Hok. unfold DoFTools.make_hanging_node_constraints_3d.
  destruct (faces_marked st) as (s2 & Hrun & Hcm & Hflags).
  unfold bind at 1. unfold bind at 1 in Hrun.
  destruct (for_each (DoFTools.all_faces d) _ st) as [[[]|e] s1]; [|discriminate].
  unfold bind at 1. rewrite Hrun.
  destruct (face_loop (DoFTools.all_faces d) s2) as
    [(s' & Hfaces & Hs' & _)|(_ & Hdebug & f & Hf & Hm & Hbad)].
  - destruct Hok as [Hd|[Ht _]]; [now left|now right].
  - exact Hflags.
  - exists s'. split; [exact Hfaces|]. rewrite Hs'. simpl. now rewrite Hcm.
  - destruct Hok as [Hd|[_ Hall]]; [congruence|].
    rewrite (Hall f Hf Hm) in Hbad. discriminate.
Qed.

(** X26.  In a checked build, with a table of the dimensions asked for,
    [make_hanging_node_constraints] for three dimensions raises
    [ExcInternalError] if the children of some refined face of an active
    cell do not agree on the DoF at the center of the face. *)
Theorem center_vertex_mismatch_refused (st : @DoFTools.HangingNodeState W) :
  DEBUG = true ->
  table_matches_3d d ->
  (exists f, f ∈ DoFTools.all_faces d
             /\ marked_line geo (DoFTools.handler d) f = true
             /\ DoFTools.center_vertex_agrees d f = false) ->
  outcome_of (DoFTools.make_hanging_node_constraints_3d DEBUG geo d st)
  = Raised ExcInternalError.
Proof.
  intros Hdebug Htable (f & Hf & Hm & Hbad).
  unfold DoFTools.make_hanging_node_constraints_3d.
  destruct (faces_marked st) as (s2 & Hrun & Hcm & Hflags).
  unfold bind at 1. unfold bind at 1 in Hrun.
  destruct (for_each (DoFTools.all_faces d) _ st) as [[[]|e] s1]; [|discriminate].
  unfold bind at 1. rewrite Hrun.
  destruct (face_loop (DoFTools.all_faces d) s2 (or_intror Htable) Hflags) as
    [(s' & _ & _ & Hall)|(Hraised & _)]; [|exact Hraised].
  rewrite (Hall Hdebug f Hf Hm) in Hbad. discriminate.
Qed.

End HangingNodes3d.

Lemma hanging_node_constraints_3d_witness :
  exists st',
    DoFTools.make_hanging_node_constraints_3d true Examples3d.hex
      (Examples3d.refined_face 8)
      {| DoFTools.constraint_matrix := []; DoFTools.line_flags := ∅ |}
    = (Done tt, st')
    /\ DoFTools.constraint_matrix st'
       = constraints_of_faces Examples3d.hex (Examples3d.refined_face 8)
           (DoFTools.all_faces (Examples3d.refined_face 8)).
Proof.
  apply (hanging_node_constraints_3d true Examples3d.hex (Examples3d.refined_face 8)
           {| DoFTools.constraint_matrix := []; DoFTools.line_flags := ∅ |}).
  right. split; [split; reflexivity|].
  intros f _ Hm. destruct f as [|f]; [reflexivity|discriminate Hm].
Defined.

(** the five constraint lines of the refined face: the DoF 8 at its center
    and the DoFs 4 to 7 at the centers of its lines *)
Example hanging_node_constraints_of_refined_face :
  lines_added
    (DoFTools.constraint_matrix
       (state_of (DoFTools.make_hanging_node_constraints_3d true Examples3d.hex
                    (Examples3d.refined_face 8)
                    {| DoFTools.constraint_matrix := [];
                       DoFTools.line_flags := ∅ |})))
  = [8; 4; 5; 6; 7]%Z.
Proof. reflexivity. Qed.

Lemma center_vertex_mismatch_refused_witness :
  outcome_of
    (DoFTools.make_hanging_node_constraints_3d true Examples3d.hex
       (Examples3d.refined_face 9)
       {| DoFTools.constraint_matrix := []; DoFTools.line_flags := ∅ |})
  = Raised ExcInternalError.
Proof.
  apply (center_vertex_mismatch_refused true Examples3d.hex
           (Examples3d.refined_face 9)
           {| DoFTools.constraint_matrix := []; DoFTools.line_flags := ∅ |}).
  - reflexivity.
  - split; reflexivity.
  - exists 0. split; [left|]. split; reflexivity.
Defined.
